(* ===== verification/_CoqProject ===== *)
-Q . S2P
Prelude.v
GoStd.v
Pkg.v
Metrics.v
Json.v
JsonPrint.v
Notifications.v
Cache.v
CacheProps.v
RoleArn.v
CacheSystem.v
Locks.v
ConfigMaps.v
Lookup.v
Informers.v
FetchSA.v
ContainerCredentials.v
PodTypes.v
Modifier.v
ContainerProps.v
PatchProps.v
BuildProps.v
AdmissionProps.v
Expirations.v
ConcurrentAdmission.v
Http.v
HttpProps.v
FileWatcher.v
FakeCache.v
DumpProps.v
Cert.v
Shutdown.v
Main.v
MainProps.v
SelfHosted.v
