(* ===== verification/Prelude.v ===== *)
(** * Verification of amazon-eks-pod-identity-webhook

    The program is a mutating admission webhook. For every pod created in a cluster the API
    server posts a review to "/mutate"; the webhook finds out whether the pod's service
    account has AWS credentials and by which method, and answers with a JSON Patch that adds
    a volume with a projected token, mounts it in the containers and sets environment
    variables. Two sources tell about service accounts: a cache fed by informers
    (annotations, a ConfigMap and fetches on demand), and a watched file of identities.

    ** Parts of the program and where they are modelled

    - GoStd.v: what the code uses of Go's standard library: strconv, strings, path/filepath,
      encoding/csv and math/rand, with the facts the proofs need. Json.v: encoding/json's
      reader and the decoding of a value into a struct field. JsonPrint.v: its printer, and
      that the reader takes back what it prints.
    - Pkg.v: src/pkg/constants.go, annotations.go, validation.go. Metrics.v: what the packages
      register with prometheus when the program starts.
    - Notifications.v: src/pkg/cache/notifications.go; channels are numbers in a heap that
      knows which are closed. Cache.v: src/pkg/cache/cache.go, one definition per method and
      informer handler, under the name of the method where Rocq allows it. The class
      [ServiceAccountCache] is the interface of the same name, [ServiceAccountCacheLaws] what
      its clients rely on. RoleArn.v: the regular expression [addSA] checks role ARNs with.
      FetchSA.v: [fetchFromAPI] and the goroutine around it, over interfaces of the API server
      and of client-go's retries. FakeCache.v: src/pkg/cache/fake.go, a second instance.
      CacheSystem.v: the goroutines around the cache as a step relation, one step per
      critical section; Locks.v: the same goroutines statement by statement, with the read-write
      lock of the cache, the mutex of the notifications and the send that blocks;
      Lookup.v: one [Get] among the steps of CacheSystem.v. ConfigMaps.v: the informer's
      calls over the life of the ConfigMap. Informers.v: the cache between an API server and
      an informer, known by the class [SAInformer] and its laws, where reading an account and
      delivering it are two steps.
    - ContainerCredentials.v: src/pkg/containercredentials, the reloads of the file and the
      lookup; the class [Config] is the interface of the same name. FileWatcher.v:
      src/pkg/filesystem/file_watcher.go as a step relation over the interface [WorkQueue]
      of client-go's queue and [FSNotify], the names fsnotify gives its events, and
      [StartWatcher] of the configuration.
    - PodTypes.v and Modifier.v: src/pkg/handler/handler.go up to [MutatePod]. A program in
      [prog] reads and changes the [World] of a request (cache, configuration, random source,
      two counters); [None] is a program that is blocked.
    - Http.v: the [Handle] of handler.go, src/pkg/handler/middleware.go, the debug handlers of
      src/pkg/cache/debug/debug.go and the routes src/main.go builds from them.
    - Cert.v: src/pkg/cert, the secret with the serving certificate over an interface of the
      API server's secrets, and the configuration of the certificate manager.
    - Shutdown.v: src/pkg/handler/shutdown.go and the end of main as a step relation.
      Main.v: src/main.go, from the command line to the parts and the two servers' routes.
    - SelfHosted.v: src/hack/self-hosted/main.go, with encoding/base64.

    ** How the parts interact

    [Main.main] initialises the packages, parses the command line and runs [Main.startup], which
    builds the cache, the configuration with its watcher, and the modifier; [Main.mux] and
    [Main.metricsMux] are the servers. [Http.mutate_route] wraps [Http.Handle], which calls
    [Modifier.MutatePod]; that calls [Modifier.buildPodPatchConfig], the client of the
    interfaces [Config] and [ServiceAccountCache], and [Modifier.getPodSpecPatch].
    [FileWatcher.step] calls [ContainerCredentials.Load]; [CacheSystem.step] calls the
    operations of Cache.v, every [Locks.lock_step] is one of its steps or none, [FetchSA.serve] is one of its steps and [ConfigMaps.follow] a
    sequence of them; every [Informers.cluster_step] is one of them or leaves the cache alone.
    [ConcurrentAdmission.env_of] puts a run of [CacheSystem.step] behind the [select] of
    [Modifier.buildPodPatchConfig].

    ** What the theorems show

    - The cache (CacheProps.v, CacheSystem.v): lookups refine the specification
      [Cache.effective]; annotated accounts are found, deleted ones are not; the ConfigMap is
      mirrored whatever order Go ranges over maps in; what breaks the mirror. Under
      concurrency: no wake-up is lost or early, no channel is closed twice, annotated
      expirations stay above the minimum. Locks.v: the locks and the full buffer cannot
      deadlock, and the critical sections are atomic, so CacheSystem.v leaves nothing out.
      Lookup.v: which
      moments an interleaved lookup answers for, when it is atomic, and how it can miss a
      role. ConfigMaps.v: every history of the ConfigMap, key by key, and that its deletion
      revokes nothing. Informers.v: when the cache mirrors the API server, that a resync heals
      it, and the fetch that comes too late. FetchSA.v: fetches
      are bounded and refine those steps. RoleArn.v: the check of ARNs is its reference, and
      the matcher, by derivatives, decides its language.
    - The life time of tokens (Expirations.v): which of its four sources decides, and where the
      minimum holds and where not. The dump (DumpProps.v, MainProps.v) reads back as the cache.
    - The container (ContainerProps.v) and the patch (PatchProps.v): the patch, evaluated by
      the rules of RFC 6902 on the typed pod, gives the pod [PatchProps.mutate]; that is
      idempotent, keeps what the user wrote, mounts what it names and points the token file
      at the mounted token.
    - The configuration of a patch (BuildProps.v) and the admission (AdmissionProps.v): the
      precedence of the two sources, the wait for an unknown account, the counters, the
      jitter, failing open, and the path from an annotation to the patch. They are proved
      against the laws of the cache's interface.
      ConcurrentAdmission.v: a pod that comes before its account is mutated, also when others
      come between the critical sections of the lookup.
    - HTTP (HttpProps.v): what the client gets and what metrics and log say. The start-up
      (MainProps.v): when it panics, what has become of the flags, which routes change state, and
      the paths from a bare role name and from the flag of the watched file to the patch.
    - The watcher (FileWatcher.v): for a path in normal form whose own entry changes, once
      nothing is under way the configuration is that of the file as it is; a pending reload
      can always happen; and the changes that are lost, those before the watch stands and
      those that raise no event of the path's own name. The configuration (ContainerCredentials.v): reloads refine the last
      content that was not refused.
    - The certificate (Cert.v): what is stored is what is answered, on every branch. The
      shutdown (Shutdown.v): every run ends, and main hears of every error. The JWKS tool
      (SelfHosted.v): which key it publishes under which name.

    ** Conventions and bounds

    Strings are byte strings, as in Go. Integers are [Z]; the only arithmetic on them is
    a maximum and a random draw, which stay in range, and [Strconv.ParseInt] answers only
    64-bit values. Counters are unbounded. Panics are a value of
    [outcome]. Maps ranged over in Go take the order as an argument ([Cache.map_range]). The
    JSON reader takes the length of its input as fuel, which [Json.parse_never_out_of_fuel],
    [CacheProps.unmarshal_entries_no_fuel] and [ContainerCredentials.unmarshal_config_no_fuel]
    show to be enough; the trimming of spaces takes the length of the string, which every
    round shortens. The printer recurs on the value.

    Code that is not under src/ is a parameter: the codecs of k8s.io/api types, the API
    server (service accounts and secrets), the informers of it and the retries around it, X.509 and TLS with the
    table of cipher suites, the certificate manager and watcher, the instance metadata, the
    work queue, fsnotify, and, as [Modifier.select_env], which of a notifier and a timer comes first.
    Where proofs rely on such code, a class states its documented laws, with an instance that
    has them.

    ** Not modelled

    Logging other than the access log and the warning for role ARNs, durations and deadlines,
    rate limits, the clearing of the cache among the statements of Locks.v, since it takes no lock, what is inside the clients, informers, certificate manager and watcher, and the
    generated mocks. What pflag makes of the arguments is a parameter. Next in the plan:
    the two informers, of Informers.v and ConfigMaps.v, in one cluster. *)

(** This file: errors and panics, strings, automation and the generic lemmas. *)

From Stdlib Require Export ZArith Lia Ascii.
From stdpp Require Export base strings gmap list fin_maps option pretty.

(** ** Errors and panics *)

(** A Go function returning [(value, error)]: exactly one of the two is used by
    every caller in this program. *)
Inductive result (E A : Type) : Type :=
| Ok (a : A)
| Err (e : E).
Arguments Ok {E A} a.
Arguments Err {E A} e.

(** The run-time panics the modelled code can raise. *)
Inductive panic : Type :=
| IndexOutOfRange
| NilDereference
| CloseOfClosedChannel
| DuplicateRegistration
| FlagRedefined.

(** A computation that either returns or panics. *)
Inductive outcome (A : Type) : Type :=
| Returned (a : A)
| Panicked (why : panic).
Arguments Returned {A} a.
Arguments Panicked {A} why.

Definition outcome_bind {A B} (m : outcome A) (k : A → outcome B) : outcome B :=
  match m with
  | Returned a => k a
  | Panicked why => Panicked why
  end.

Definition result_bind {E A B} (m : result E A) (k : A → result E B) : result E B :=
  match m with
  | Ok a => k a
  | Err e => Err e
  end.

Declare Scope go_scope.
Delimit Scope go_scope with go.
Notation "'let!' x ':=' m 'in' k" := (outcome_bind m (λ x, k))
  (at level 10, x pattern, m at level 200, k at level 200)
  : go_scope.
Notation "'let?' x ':=' m 'in' k" := (result_bind m (λ x, k))
  (at level 10, x pattern, m at level 200, k at level 200)
  : go_scope.
Open Scope go_scope.

Definition is_ok {E A} (r : result E A) : bool :=
  match r with Ok _ => true | Err _ => false end.

(** Fold a step that can panic over a list, in order. *)
Fixpoint outcome_foldl {A B} (f : A → B → outcome A) (a : A) (l : list B) : outcome A :=
  match l with
  | [] => Returned a
  | x :: l' => let! a' := f a x in outcome_foldl f a' l'
  end.

(** ** Strings *)

(** Go's [string] is a sequence of bytes, and so is [string]: an [ascii] is eight
    bits. *)
Fixpoint has_char (c : ascii) (s : string) : bool :=
  match s with
  | EmptyString => false
  | String c' s' => if decide (c = c') then true else has_char c s'
  end.

(** ** Automation *)

Create HintDb go discriminated.
Create Rewrite HintDb go_str.

(** Case analysis on the scrutinee of a match or an if in the goal or a hypothesis. *)
Ltac split_match :=
  match goal with
  | |- context [match ?x with _ => _ end] => destruct x eqn:?
  | H : context [match ?x with _ => _ end] |- _ => destruct x eqn:?
  end.
Ltac split_matches := repeat (split_match; simplify_eq/=).

(** A decidable proposition on concrete values. *)
Ltac by_decision :=
  match goal with |- ?P => apply (bool_decide_eq_true_1 P); vm_compute; reflexivity end.

(** Turn boolean tests on equalities and orders into propositions. *)
Ltac unbool :=
  repeat match goal with
  | H : bool_decide _ = true |- _ => apply bool_decide_eq_true in H
  | H : bool_decide _ = false |- _ => apply bool_decide_eq_false in H
  | H : (_ && _) = true |- _ => apply andb_true_iff in H as [? ?]
  | H : (_ || _) = false |- _ => apply orb_false_iff in H as [? ?]
  | H : negb _ = true |- _ => apply negb_true_iff in H
  | H : negb _ = false |- _ => apply negb_false_iff in H
  end.

(** ** Lemmas on strings *)

Lemma str_app_nil_l (s : string) : "" +:+ s = s.
Proof. done. Qed.

Lemma str_app_cons (c : ascii) (s t : string) : String c s +:+ t = String c (s +:+ t).
Proof. done. Qed.

Lemma str_app_nil_r (s : string) : s +:+ "" = s.
Proof. induction s as [|c s IH]; [done|]. by rewrite str_app_cons, IH. Qed.

Lemma str_app_assoc (s t u : string) : (s +:+ t) +:+ u = s +:+ (t +:+ u).
Proof. induction s as [|c s IH]; [done|]. by rewrite !str_app_cons, IH. Qed.

#[export] Hint Rewrite str_app_nil_l str_app_cons str_app_nil_r str_app_assoc : go_str.

Lemma has_char_app (c : ascii) (s t : string) :
  has_char c (s +:+ t) = has_char c s || has_char c t.
Proof.
  induction s as [|c' s IH]; [done|]. rewrite str_app_cons. simpl.
  by case_decide.
Qed.

Lemma has_char_cons_false (c c' : ascii) (s : string) :
  has_char c (String c' s) = false ↔ c ≠ c' ∧ has_char c s = false.
Proof. simpl. case_decide; naive_solver. Qed.

(** The part of a string before a separator it does not contain is determined. *)
Lemma str_sep_inj (c : ascii) (a b x y : string) :
  has_char c a = false → has_char c b = false →
  a +:+ String c x = b +:+ String c y → a = b ∧ x = y.
Proof.
  revert b. induction a as [|ca a IH]; intros [|cb b]; simpl; intros Ha Hb;
    rewrite ?str_app_nil_l, ?str_app_cons; intros Heq; simplify_eq.
  - done.
  - case_decide; congruence.
  - case_decide; congruence.
  - case_decide; [congruence|]. destruct (IH b) as [-> ->]; done.
Qed.

(** ** Lemmas on outcomes *)

Lemma outcome_bind_returned {A B} (m : outcome A) (k : A → outcome B) b :
  outcome_bind m k = Returned b ↔ ∃ a, m = Returned a ∧ k a = Returned b.
Proof.
  split.
  - destruct m as [a|why]; simpl; intros H; [by exists a|discriminate].
  - by intros (a & -> & H).
Qed.

(** An error neither part can produce is not produced. *)
Lemma result_bind_not_Err {E A B} (m : result E A) (k : A → result E B) e :
  m ≠ Err e → (∀ a, k a ≠ Err e) → result_bind m k ≠ Err e.
Proof. destruct m as [a|e']; simpl; [auto|congruence]. Qed.

Lemma result_bind_Ok {E A B} (m : result E A) (k : A → result E B) b :
  result_bind m k = Ok b ↔ ∃ a, m = Ok a ∧ k a = Ok b.
Proof.
  split.
  - destruct m as [a|e]; simpl; intros H; [by exists a|discriminate].
  - by intros (a & -> & H).
Qed.

(** An invariant kept by every step holds of the result of the whole loop. *)
Lemma outcome_foldl_inv {A B} (P : A → Prop) (f : A → B → outcome A) a l a' :
  (∀ a x a', P a → x ∈ l → f a x = Returned a' → P a') →
  P a → outcome_foldl f a l = Returned a' → P a'.
Proof.
  revert a. induction l as [|x l IH]; intros a Hstep Ha; simpl.
  - by intros [= <-].
  - rewrite outcome_bind_returned. intros (a1 & H1 & H2). apply (IH a1); [| |done].
    + intros b y b' Hb Hy. apply Hstep; set_solver.
    + eapply Hstep; [done| |done]. set_solver.
Qed.

(** When every step returns what a pure step computes, the loop is the pure fold. *)
Lemma outcome_foldl_pure {A B} (f : A → B → outcome A) (g : A → B → A) a l :
  (∀ a x, x ∈ l → f a x = Returned (g a x)) →
  outcome_foldl f a l = Returned (foldl g a l).
Proof.
  revert a. induction l as [|x l IH]; intros a Hstep; [done|]. simpl.
  rewrite Hstep by set_solver. simpl. apply IH. intros. apply Hstep. set_solver.
Qed.

(** When whether a step panics depends on the element only, the loop panics exactly when
    some element makes it. *)
Lemma outcome_foldl_panics {A B} (P : B → Prop) (f : A → B → outcome A) a l :
  (∀ a x, x ∈ l → P x → ∃ why, f a x = Panicked why) →
  (∀ a x, x ∈ l → ¬ P x → ∃ a', f a x = Returned a') →
  (∀ x, Decision (P x)) →
  (∃ why, outcome_foldl f a l = Panicked why) ↔ Exists P l.
Proof.
  intros Hbad Hgood Hdec. revert a. induction l as [|x l IH]; intros a; cbn [outcome_foldl].
  { split; [intros [why [=]]|]. by intros ?%Exists_nil. }
  rewrite Exists_cons. destruct (Hdec x) as [Hx|Hx].
  - destruct (Hbad a x) as [why ->]; [set_solver|done|]. simpl. split; eauto.
  - destruct (Hgood a x) as [a' ->]; [set_solver|done|]. simpl. rewrite IH; [naive_solver|..].
    + intros. apply Hbad; set_solver.
    + intros. apply Hgood; set_solver.
Qed.

(** ** Lemmas on maps built by loops *)

(** Inserting the pairs of a list whose keys are distinct puts the map of the list on top. *)
Lemma foldl_insert_map {A} (m : gmap string A) (l : list (string * A)) :
  NoDup l.*1 → foldl (λ m kv, <[kv.1 := kv.2]> m) m l = list_to_map l ∪ m.
Proof.
  revert m. induction l as [|[k v] l IH]; simpl; intros m; [by rewrite map_empty_union|].
  intros [Hk Hl]%NoDup_cons. rewrite IH by done.
  rewrite <- insert_union_l. symmetry. apply insert_union_r. by apply not_elem_of_list_to_map_1.
Qed.

(** Deleting the keys of a list. *)
Lemma foldl_delete_lookup {A} (m : gmap string A) (ks : list string) k :
  foldl (λ m k, delete k m) m ks !! k = if decide (k ∈ ks) then None else m !! k.
Proof.
  revert m. induction ks as [|k' ks IH]; intros m; cbn [foldl]; [by case_decide; [set_solver|]|].
  rewrite IH, lookup_delete. repeat case_decide; set_solver.
Qed.
