(* ===== verification/GoStd.v ===== *)
(** * The parts of the Go standard library the webhook calls

    Executable models of the functions of [strconv], [strings], [path/filepath],
    [encoding/csv] and [math/rand] that the sources call, with the arguments they are
    called with, and the lemmas the components need about them. *)

From S2P Require Import Prelude.

(** ** strconv *)

Module Strconv.

Definition min_int64 : Z := -9223372036854775808.
Definition max_int64 : Z := 9223372036854775807.

Definition int64 (z : Z) : Prop := (min_int64 ≤ z ≤ max_int64)%Z.

#[export] Instance int64_dec z : Decision (int64 z).
Proof. unfold int64. apply _. Defined.

Definition digit_val (c : ascii) : option Z :=
  let n := Z.of_N (N_of_ascii c) in
  if decide (48 ≤ n ≤ 57)%Z then Some (n - 48)%Z else None.

Fixpoint parse_digits (acc : Z) (s : string) : option Z :=
  match s with
  | EmptyString => Some acc
  | String c s' =>
      match digit_val c with
      | Some d => parse_digits (10 * acc + d) s'
      | None => None
      end
  end.

(** The magnitude: at least one digit, and nothing but digits (underscores are only
    accepted with base 0). *)
Definition parse_magnitude (s : string) : option Z :=
  match s with
  | EmptyString => None
  | _ => parse_digits 0 s
  end.

Definition check_range (z : Z) : option Z :=
  if decide (int64 z) then Some z else None.

(** [strconv.ParseInt(s, 10, 64)]; [None] stands for both [ErrSyntax] and [ErrRange]:
    every caller treats them alike. *)
Definition ParseInt (s : string) : option Z :=
  match s with
  | String "+" s' => parse_magnitude s' ≫= check_range
  | String "-" s' => z ← parse_magnitude s'; check_range (- z)
  | _ => parse_magnitude s ≫= check_range
  end.

(** [strconv.ParseBool]. *)
Definition ParseBool (s : string) : option bool :=
  if bool_decide (s ∈ ["1"; "t"; "T"; "true"; "TRUE"; "True"]) then Some true
  else if bool_decide (s ∈ ["0"; "f"; "F"; "false"; "FALSE"; "False"]) then Some false
  else None.

End Strconv.

(** ** strings *)

Module GoStrings.

(** [strings.HasPrefix]. *)
Fixpoint HasPrefix (s p : string) {struct p} : bool :=
  match p, s with
  | EmptyString, _ => true
  | String c p', String c' s' => if decide (c = c') then HasPrefix s' p' else false
  | String _ _, EmptyString => false
  end.

(** [strings.Contains]. *)
Fixpoint Contains (s sub : string) : bool :=
  HasPrefix s sub ||
  match s with
  | EmptyString => false
  | String _ s' => Contains s' sub
  end.

(** [strings.Split(s, sep)] for a separator of one byte. *)
Fixpoint Split (s : string) (sep : ascii) : list string :=
  match s with
  | EmptyString => [""]
  | String c s' =>
      if decide (c = sep) then "" :: Split s' sep
      else match Split s' sep with
           | [] => [String c ""]
           | p :: ps => String c p :: ps
           end
  end.

(** [strings.Replace(s, old, new, -1)] for single bytes. *)
Fixpoint ReplaceAll (s : string) (old new : ascii) : string :=
  match s with
  | EmptyString => ""
  | String c s' => String (if decide (c = old) then new else c) (ReplaceAll s' old new)
  end.

(** [strings.Join]. *)
Fixpoint Join (l : list string) (sep : string) : string :=
  match l with
  | [] => ""
  | [s] => s
  | s :: l' => s +:+ sep +:+ Join l' sep
  end.

(** The UTF-8 encodings of the runes [unicode.IsSpace] accepts. *)
Definition space_runes : list string :=
  [ String "009" ""; String "010" ""; String "011" ""; String "012" ""; String "013" ""; " ";
    String "194" (String "133" ""); String "194" (String "160" "");
    String "225" (String "154" (String "128" ""));
    String "226" (String "128" (String "128" "")); String "226" (String "128" (String "129" ""));
    String "226" (String "128" (String "130" "")); String "226" (String "128" (String "131" ""));
    String "226" (String "128" (String "132" "")); String "226" (String "128" (String "133" ""));
    String "226" (String "128" (String "134" "")); String "226" (String "128" (String "135" ""));
    String "226" (String "128" (String "136" "")); String "226" (String "128" (String "137" ""));
    String "226" (String "128" (String "138" "")); String "226" (String "128" (String "168" ""));
    String "226" (String "128" (String "169" "")); String "226" (String "128" (String "175" ""));
    String "226" (String "129" (String "159" "")); String "227" (String "128" (String "128" ""))
  ].

(** [s] without the prefix [p], when it has it. *)
Fixpoint cut_prefix (s p : string) {struct p} : option string :=
  match p, s with
  | EmptyString, _ => Some s
  | String c p', String c' s' => if decide (c = c') then cut_prefix s' p' else None
  | String _ _, EmptyString => None
  end.

Fixpoint cut_any (s : string) (ps : list string) : option string :=
  match ps with
  | [] => None
  | p :: ps' => match cut_prefix s p with Some s' => Some s' | None => cut_any s ps' end
  end.

(** Drop prefixes of [ps] as long as there is one; every prefix is at least one byte
    long, so the length of the string bounds the number of rounds. *)
Fixpoint trim_left (fuel : nat) (s : string) (ps : list string) : string :=
  match fuel with
  | O => s
  | S fuel' => match cut_any s ps with Some s' => trim_left fuel' s' ps | None => s end
  end.

(** [strings.TrimSpace]. *)
Definition TrimSpace (s : string) : string :=
  let left := trim_left (String.length s) s space_runes in
  String.rev (trim_left (String.length left) (String.rev left) (String.rev <$> space_runes)).

End GoStrings.

(** ** path/filepath, on Unix *)

Module Filepath.

(** One step of [filepath.Clean]: [out] holds the elements kept so far, the last one
    first; empty elements and [.] are dropped, [..] removes the element before it, is
    dropped at the root and kept at the start of a relative path. *)
Definition clean_step (rooted : bool) (out : list string) (e : string) : list string :=
  if decide (e = "" ∨ e = ".") then out
  else if decide (e = "..") then
    match out with
    | [] => if rooted then [] else [".."]
    | p :: out' => if decide (p = "..") then ".." :: out else out'
    end
  else e :: out.

Definition is_rooted (p : string) : bool := GoStrings.HasPrefix p "/".

(** [filepath.Clean]. *)
Definition Clean (p : string) : string :=
  let rooted := is_rooted p in
  let kept := rev (foldl (clean_step rooted) [] (GoStrings.Split p "/")) in
  let body := GoStrings.Join kept "/" in
  if rooted then "/" +:+ body
  else match kept with [] => "." | _ => body end.

(** [filepath.Join(a, b)]: leading empty elements are skipped. *)
Definition Join (a b : string) : string :=
  if decide (a = "") then (if decide (b = "") then "" else Clean b)
  else Clean (a +:+ "/" +:+ b).

(** [filepath.Dir]: up to and with the last slash, cleaned. *)
Definition Dir (p : string) : string :=
  Clean (GoStrings.Join (removelast (GoStrings.Split p "/") ++ [""]) "/").

End Filepath.

(** ** encoding/csv *)

Module Csv.

Inductive csv_error := EOF | ErrBareQuote | ErrQuote.

Definition quote : ascii := "034".
Definition CR : ascii := "013".
Definition LF : ascii := "010".
Definition comma : ascii := ",".

(** [readLine] over the whole input: every [\r\n] becomes [\n] and a final [\r] is
    dropped. *)
Fixpoint normalize (s : string) : string :=
  match s with
  | EmptyString => ""
  | String c s' =>
      if decide (c = CR) then
        match s' with
        | EmptyString => ""
        | String c' _ => if decide (c' = LF) then normalize s' else String c (normalize s')
        end
      else String c (normalize s')
  end.

Fixpoint skip_empty_lines (s : string) : string :=
  match s with
  | String c s' => if decide (c = LF) then skip_empty_lines s' else s
  | EmptyString => ""
  end.

(** Where the scanner of a record stands in the current field: at its first byte, inside
    a bare field, inside a quoted field, or after a quote inside a quoted field. *)
Inductive mode := FieldStart | Bare | Quoted | QuoteSeen.

(** [readRecord] on the normalized input: [rec] holds the fields already complete and
    [fld] the bytes of the current field. A record ends at the end of its line or of the
    input. *)
Fixpoint scan (m : mode) (rec : list string) (fld : string) (s : string)
    : result csv_error (list string) :=
  match s with
  | EmptyString => match m with Quoted => Err ErrQuote | _ => Ok (rec ++ [fld]) end
  | String c s' =>
      match m with
      | FieldStart =>
          if decide (c = quote) then scan Quoted rec fld s'
          else if decide (c = comma) then scan FieldStart (rec ++ [fld]) "" s'
          else if decide (c = LF) then Ok (rec ++ [fld])
          else scan Bare rec (fld +:+ String c "") s'
      | Bare =>
          if decide (c = quote) then Err ErrBareQuote
          else if decide (c = comma) then scan FieldStart (rec ++ [fld]) "" s'
          else if decide (c = LF) then Ok (rec ++ [fld])
          else scan Bare rec (fld +:+ String c "") s'
      | Quoted =>
          if decide (c = quote) then scan QuoteSeen rec fld s'
          else scan Quoted rec (fld +:+ String c "") s'
      | QuoteSeen =>
          if decide (c = quote) then scan Quoted rec (fld +:+ String c "") s'
          else if decide (c = comma) then scan FieldStart (rec ++ [fld]) "" s'
          else if decide (c = LF) then Ok (rec ++ [fld])
          else Err ErrQuote
      end
  end.

(** [csv.NewReader(strings.NewReader(s)).Read()]: the first record of the input. *)
Definition Read (s : string) : result csv_error (list string) :=
  match skip_empty_lines (normalize s) with
  | EmptyString => Err EOF
  | s' => scan FieldStart [] "" s'
  end.

End Csv.

(** ** math/rand *)

Module Rand.

(** The values the source's [Int63] will return, in order. *)
Definition source := list Z.

(** The largest draw [Int63n(n)] accepts: [(1<<63) - 1 - (1<<63) % n]. *)
Definition int63n_max (n : Z) : Z := 2 ^ 63 - 1 - (2 ^ 63) `mod` n.

(** [Int63n] for [n > 0] that is not a power of two: draws above the largest multiple of
    [n] are thrown away. [None]: the source has no acceptable draw left. *)
Fixpoint Int63n_reject (src : source) (n : Z) : option (Z * source) :=
  match src with
  | [] => None
  | v :: src' => if decide (v ≤ int63n_max n)%Z then Some (v `mod` n, src') else Int63n_reject src' n
  end%Z.

Definition Int63n (src : source) (n : Z) : option (Z * source) :=
  if decide (Z.land n (n - 1) = 0)%Z then
    match src with
    | [] => None
    | v :: src' => Some (Z.land v (n - 1), src')
    end
  else Int63n_reject src n.

End Rand.

(** ** Facts about strconv *)

Section strconv_facts.
Import Strconv.
Local Open Scope Z_scope.

Lemma check_range_Some z z' : check_range z = Some z' → z' = z ∧ int64 z.
Proof. unfold check_range. by case_decide; intros; simplify_eq. Qed.

(** Whatever [ParseInt] accepts fits in 64 bits. *)
Lemma ParseInt_range s z : ParseInt s = Some z → int64 z.
Proof.
  unfold ParseInt. intros H.
  repeat case_match; simplify_option_eq;
    match goal with H : check_range _ = Some _ |- _ => apply check_range_Some in H as [-> ?] end;
    done.
Qed.

Lemma digit_val_pretty n : (n < 10)%N → digit_val (pretty_N_char n) = Some (Z.of_N n).
Proof.
  intros Hn.
  assert (n = 0 ∨ n = 1 ∨ n = 2 ∨ n = 3 ∨ n = 4 ∨ n = 5 ∨ n = 6 ∨ n = 7 ∨ n = 8 ∨ n = 9)%N
    as Hc by lia.
  by repeat destruct Hc as [->|Hc]; [..|subst].
Qed.

Lemma parse_digits_pretty_go x s :
  parse_digits 0 (pretty_N_go x s) = parse_digits (Z.of_N x) s.
Proof.
  revert s. induction (N.lt_wf_0 x) as [x _ IH]; intros s.
  destruct (decide (x = 0)%N) as [->|Hx]; [done|].
  rewrite pretty_N_go_step by lia. rewrite IH by (apply N.div_lt; lia). cbn [parse_digits].
  rewrite digit_val_pretty by (apply N.mod_lt; lia). f_equal.
  pose proof (N.div_mod x 10). lia.
Qed.

Lemma pretty_pos_head (p : positive) :
  ∃ c s, pretty (N.pos p) = String c s ∧ is_Some (digit_val c).
Proof.
  assert (∀ x s, (0 < x)%N → ∃ c s', pretty_N_go x s = String c s' ∧ is_Some (digit_val c)) as Hgo.
  { intros x. induction (N.lt_wf_0 x) as [x _ IH]; intros s Hx.
    rewrite pretty_N_go_step by done.
    destruct (decide (x `div` 10 = 0)%N) as [->|Hd].
    - rewrite pretty_N_go_0. do 2 eexists. split; [done|].
      rewrite digit_val_pretty by (apply N.mod_lt; lia). done.
    - apply IH; [by apply N.div_lt|by apply N.neq_0_lt_0]. }
  destruct (Hgo (N.pos p) "") as (c & s & Heq & Hc); [done|]. exists c, s. split; [|done].
  unfold pretty, pretty_N. by case_decide.
Qed.

Lemma parse_magnitude_pretty (p : positive) :
  parse_magnitude (pretty (N.pos p)) = Some (Z.pos p).
Proof.
  destruct (pretty_pos_head p) as (c & s & Heq & _). rewrite Heq. unfold parse_magnitude.
  rewrite <- Heq. unfold pretty, pretty_N. case_decide; [done|].
  by rewrite parse_digits_pretty_go.
Qed.

(** A string that starts with a digit has no sign. *)
Lemma ParseInt_unsigned c s :
  is_Some (digit_val c) →
  ParseInt (String c s) = parse_magnitude (String c s) ≫= check_range.
Proof.
  intros Hc. unfold ParseInt.
  by destruct c as [[] [] [] [] [] [] [] []]; try destruct Hc as [? [=]].
Qed.

(** Printing in decimal and parsing back is the identity on 64-bit integers. *)
Lemma ParseInt_pretty z : int64 z → ParseInt (pretty z) = Some z.
Proof.
  intros Hz. assert (check_range z = Some z) as Hr by (unfold check_range; by case_decide).
  destruct z as [|p|p].
  - done.
  - change (pretty (Z.pos p)) with (pretty (N.pos p)).
    destruct (pretty_pos_head p) as (c & s & Heq & Hc).
    rewrite Heq, ParseInt_unsigned by done. rewrite <- Heq.
    by rewrite parse_magnitude_pretty.
  - transitivity (z ← parse_magnitude (pretty (N.pos p)); check_range (- z)); [done|].
    by rewrite parse_magnitude_pretty.
Qed.

End strconv_facts.

(** ** Facts about strings *)

Section strings_facts.
Import GoStrings.

Lemma Split_no_sep (sep : ascii) s : has_char sep s = false → Split s sep = [s].
Proof.
  induction s as [|c s IH]; [done|]. simpl. case_decide; [done|]. intros Hs.
  rewrite decide_False by congruence. by rewrite IH.
Qed.

Lemma Split_sep (sep : ascii) a b :
  has_char sep a = false → Split (a +:+ String sep b) sep = a :: Split b sep.
Proof.
  induction a as [|c a IH]; simpl.
  - intros _. by rewrite decide_True.
  - case_decide; [done|]. intros Ha.
    rewrite decide_False by congruence. by rewrite IH.
Qed.

Lemma Split_not_nil sep s : Split s sep ≠ [].
Proof. destruct s as [|c s]; simpl; [done|]. case_decide; [done|]. by case_match. Qed.

Lemma Split_app sep a b : Split (a +:+ String sep b) sep = Split a sep ++ Split b sep.
Proof.
  induction a as [|c a IH]; simpl; [by rewrite decide_True|]. case_decide; [by rewrite IH|]. rewrite IH.
  destruct (Split a sep) eqn:Hs; [by apply Split_not_nil in Hs|done].
Qed.

Lemma last_Split sep a b : has_char sep b = false → last (Split (a +:+ String sep b) sep) = Some b.
Proof. intros Hb. by rewrite Split_app, (Split_no_sep sep b), last_snoc. Qed.

(** [Split] returns one part exactly when the separator does not occur. *)
Lemma Split_singleton sep s p : Split s sep = [p] ↔ has_char sep s = false ∧ s = p.
Proof.
  split; [|intros [? ->]; by apply Split_no_sep].
  revert p. induction s as [|c s IH]; simpl; intros p; [by intros [= <-]|].
  case_decide.
  - intros [= _ Hs]. by apply Split_not_nil in Hs.
  - destruct (Split s sep) as [|q qs] eqn:Hs; [by apply Split_not_nil in Hs|].
    intros [= <- ->]. destruct (IH q) as [-> ->]; [done|]. rewrite decide_False; [done|congruence].
Qed.

(** Joining what [Split] returns gives the string back. *)
Lemma Join_Split sep s : Join (Split s sep) (String sep "") = s.
Proof.
  induction s as [|c s IH]; [done|]. simpl.
  destruct (Split s sep) as [|q qs] eqn:Hs; [by apply Split_not_nil in Hs|].
  case_decide as Hc.
  - subst c. change (Join ("" :: q :: qs) (String sep "")) with
      ("" +:+ String sep "" +:+ Join (q :: qs) (String sep "")).
    rewrite IH. done.
  - destruct qs as [|q' qs]; simpl in *; [by subst|].
    rewrite str_app_cons. by rewrite IH.
Qed.

Lemma HasPrefix_app p s : HasPrefix (p +:+ s) p = true.
Proof. induction p as [|c p IH]; [done|]. rewrite str_app_cons. simpl. by rewrite decide_True. Qed.

Lemma HasPrefix_Contains s sub : HasPrefix s sub = true → Contains s sub = true.
Proof. destruct s; simpl; intros ->; done. Qed.

(** [ReplaceAll] leaves no occurrence of the replaced byte. *)
Lemma ReplaceAll_gone s (old new : ascii) : old ≠ new → has_char old (ReplaceAll s old new) = false.
Proof.
  intros Hne. induction s as [|c s IH]; [done|]. cbn [ReplaceAll has_char].
  destruct (decide (c = old)); by rewrite decide_False by congruence.
Qed.

End strings_facts.

(** ** Facts about filepath *)

Section filepath_facts.
Import Filepath.

(** An element [Clean] keeps as it is. *)
Definition plain_elem (e : string) : Prop :=
  e ≠ "" ∧ e ≠ "." ∧ e ≠ ".." ∧ has_char "/" e = false.

Lemma clean_plain rooted out es :
  Forall plain_elem es → foldl (clean_step rooted) out es = rev es ++ out.
Proof.
  intros Hes. revert out. induction Hes as [|e es (H1 & H2 & H3 & _) _ IH]; intros out; [done|].
  simpl. unfold clean_step at 2. rewrite decide_False by tauto. rewrite decide_False by done.
  rewrite IH. simpl. by rewrite <- app_assoc.
Qed.

Lemma Split_Join_plain es :
  es ≠ [] → Forall (λ e, has_char "/" e = false) es →
  GoStrings.Split (GoStrings.Join es "/") "/" = es.
Proof.
  intros Hne Hes. induction Hes as [|e es He Hes IH]; [done|].
  destruct es as [|e' es]; [by apply Split_no_sep|].
  change (GoStrings.Join (e :: e' :: es) "/") with (e +:+ String "/" (GoStrings.Join (e' :: es) "/")).
  rewrite Split_sep by done. by rewrite IH.
Qed.

Lemma Join_snoc es e :
  es ≠ [] → GoStrings.Join (es ++ [e]) "/" = GoStrings.Join es "/" +:+ "/" +:+ e.
Proof.
  induction es as [|x es IH]; [done|]. intros _. destruct es as [|y es]; [done|].
  change (GoStrings.Join ((x :: y :: es) ++ [e]) "/")
    with (x +:+ "/" +:+ GoStrings.Join ((y :: es) ++ [e]) "/").
  rewrite IH by done.
  change (GoStrings.Join (x :: y :: es) "/") with (x +:+ "/" +:+ GoStrings.Join (y :: es) "/").
  by autorewrite with go_str.
Qed.

(** An absolute path of plain elements is its own normal form. *)
Lemma Clean_rooted es :
  Forall plain_elem es → Clean ("/" +:+ GoStrings.Join es "/") = "/" +:+ GoStrings.Join es "/".
Proof.
  intros Hes. unfold Clean.
  change (is_rooted ("/" +:+ GoStrings.Join es "/")) with true. cbv iota zeta. f_equal.
  change ("/" +:+ GoStrings.Join es "/") with (String "/" (GoStrings.Join es "/")).
  cbn [GoStrings.Split]. rewrite decide_True by done. cbn [foldl].
  change (clean_step true [] "") with (@nil string).
  destruct es as [|e es]; [done|].
  rewrite Split_Join_plain; [|done|by eapply Forall_impl; [done|intros ? (_ & _ & _ & ?)]].
  rewrite clean_plain by done. by rewrite app_nil_r, rev_involutive.
Qed.

(** Joining an absolute path of plain elements with one more plain element. *)
Lemma Join_rooted es e :
  es ≠ [] → Forall plain_elem es → plain_elem e →
  Join ("/" +:+ GoStrings.Join es "/") e = "/" +:+ GoStrings.Join es "/" +:+ "/" +:+ e.
Proof.
  intros Hne Hes He. unfold Join. rewrite decide_False by done.
  rewrite str_app_assoc, <- Join_snoc by done. apply Clean_rooted. by apply Forall_app_2; [|constructor].
Qed.

(** The directory of an absolute path of plain elements. *)
Lemma Dir_rooted es e :
  es ≠ [] → Forall plain_elem es → plain_elem e →
  Dir ("/" +:+ GoStrings.Join (es ++ [e]) "/") = "/" +:+ GoStrings.Join es "/".
Proof.
  intros Hne Hes He. assert (Forall (λ e, has_char "/" e = false) (es ++ [e])) as Hsep.
  { apply Forall_app_2; [|constructor; [apply He|constructor]]. by eapply Forall_impl; [done|intros ? (_ & _ & _ & ?)]. }
  unfold Dir. change ("/" +:+ GoStrings.Join (es ++ [e]) "/") with (String "/" (GoStrings.Join (es ++ [e]) "/")).
  cbn [GoStrings.Split]. rewrite decide_True by done. rewrite Split_Join_plain by (done || by destruct es).
  change ("" :: es ++ [e]) with (("" :: es) ++ [e]). rewrite removelast_last.
  assert (GoStrings.Join (("" :: es) ++ [""]) "/" = "/" +:+ (GoStrings.Join (es ++ [""]) "/")) as ->.
  { destruct es as [|x es]; [done|]. reflexivity. }
  unfold Clean. change (is_rooted ("/" +:+ _)) with true. cbv iota zeta. f_equal.
  change ("/" +:+ GoStrings.Join (es ++ [""]) "/") with (String "/" (GoStrings.Join (es ++ [""]) "/")).
  cbn [GoStrings.Split]. rewrite decide_True by done. cbn [foldl].
  change (clean_step true [] "") with (@nil string).
  rewrite Split_Join_plain; [|by destruct es|].
  - rewrite foldl_app, (clean_plain true [] es) by done. cbn [foldl]. unfold clean_step. rewrite decide_True; [|by left].
    by rewrite app_nil_r, rev_involutive.
  - apply Forall_app in Hsep as [Hsep _]. apply Forall_app_2; [done|by repeat constructor].
Qed.

End filepath_facts.

(** ** Facts about encoding/csv *)

Section csv_facts.
Import Csv.

(** A field that needs no quoting: no quote, comma or line break in it. *)
Definition plain_field (s : string) : Prop :=
  has_char quote s = false ∧ has_char comma s = false ∧ has_char CR s = false ∧ has_char LF s = false.

Lemma plain_field_cons c s :
  plain_field (String c s) ↔
  (c ≠ quote ∧ c ≠ comma ∧ c ≠ CR ∧ c ≠ LF) ∧ plain_field s.
Proof. unfold plain_field. rewrite !has_char_cons_false. naive_solver. Qed.

Lemma normalize_no_CR s : has_char CR s = false → normalize s = s.
Proof.
  induction s as [|c s IH]; [done|]. simpl. case_decide; [done|]. intros Hs.
  rewrite decide_False by congruence. by rewrite IH.
Qed.

(** The scanner copies the bytes of a bare field and stops at the comma or the end. *)
Lemma scan_bare_byte m rec fld c s :
  m = FieldStart ∨ m = Bare → c ≠ quote ∧ c ≠ comma ∧ c ≠ CR ∧ c ≠ LF →
  scan m rec fld (String c s) = scan Bare rec (fld +:+ String c "") s.
Proof.
  intros Hm (? & ? & ? & ?). simpl.
  destruct Hm as [-> | ->]; by rewrite !decide_False by done.
Qed.

Lemma scan_bare m rec fld s :
  m = FieldStart ∨ m = Bare → plain_field s →
  scan m rec fld s = Ok (rec ++ [fld +:+ s]).
Proof.
  revert m fld. induction s as [|c s IH]; intros m fld Hm.
  - intros _. rewrite str_app_nil_r. by destruct Hm as [-> | ->].
  - rewrite plain_field_cons. intros [Hc Hs]. rewrite scan_bare_byte by done.
    rewrite IH by auto. by autorewrite with go_str.
Qed.

Lemma scan_bare_comma m rec fld s rest :
  m = FieldStart ∨ m = Bare → plain_field s →
  scan m rec fld (s +:+ String comma rest) = scan FieldStart (rec ++ [fld +:+ s]) "" rest.
Proof.
  revert m fld. induction s as [|c s IH]; intros m fld Hm.
  - intros _. rewrite str_app_nil_r, str_app_nil_l. by destruct Hm as [-> | ->].
  - rewrite plain_field_cons. intros [Hc Hs]. rewrite str_app_cons, scan_bare_byte by done.
    rewrite IH by auto. by autorewrite with go_str.
Qed.

Lemma scan_Join rec l :
  l ≠ [] → Forall plain_field l → scan FieldStart rec "" (GoStrings.Join l ",") = Ok (rec ++ l).
Proof.
  intros Hne Hl. revert rec. induction Hl as [|s l Hs Hl IH]; intros rec; [done|].
  destruct l as [|s' l].
  - simpl. rewrite scan_bare by auto. done.
  - change (GoStrings.Join (s :: s' :: l) ",")
      with (s +:+ String comma (GoStrings.Join (s' :: l) ",")).
    rewrite scan_bare_comma by auto. rewrite IH by done. by rewrite <- app_assoc.
Qed.

Lemma has_char_Join c l :
  c ≠ comma → Forall (λ s, has_char c s = false) l → has_char c (GoStrings.Join l ",") = false.
Proof.
  intros Hc Hl. induction Hl as [|s l Hs Hl IH]; [done|]. destruct l as [|s' l]; [done|].
  change (GoStrings.Join (s :: s' :: l) ",") with (s +:+ String comma (GoStrings.Join (s' :: l) ",")).
  rewrite has_char_app, Hs. simpl. by rewrite decide_False.
Qed.

(** The first record of a comma-separated list of plain fields is that list; the one
    exception is the empty input, which has no record. *)
Lemma Read_Join l :
  Forall plain_field l → GoStrings.Join l "," ≠ "" → Csv.Read (GoStrings.Join l ",") = Ok l.
Proof.
  intros Hl Hne.
  assert (has_char CR (GoStrings.Join l ",") = false) as HCR.
  { apply has_char_Join; [done|]. eapply Forall_impl; [done|]. by intros s (_ & _ & ? & _). }
  assert (has_char LF (GoStrings.Join l ",") = false) as HLF.
  { apply has_char_Join; [done|]. eapply Forall_impl; [done|]. by intros s (_ & _ & _ & ?). }
  unfold Csv.Read. rewrite normalize_no_CR by done.
  assert (skip_empty_lines (GoStrings.Join l ",") = GoStrings.Join l ",") as ->.
  { destruct (GoStrings.Join l ",") as [|c s]; [done|]. simpl in *. case_decide; [done|].
    rewrite decide_False; [done|congruence]. }
  pose proof (scan_Join [] l) as Hscan.
  destruct (GoStrings.Join l ",") eqn:?; [done|]. rewrite Hscan; [done| |done].
  by destruct l.
Qed.

End csv_facts.

(** ** Facts about math/rand *)

Section rand_facts.
Import Rand.
Local Open Scope Z_scope.

Lemma Int63n_reject_bounds src n v src' :
  0 < n → Int63n_reject src n = Some (v, src') → 0 ≤ v < n.
Proof.
  intros Hn. induction src as [|w src IH]; simpl; [done|].
  case_decide; [|done]. intros [= <- _]. by apply Z.mod_pos_bound.
Qed.

(** With at least one acceptable draw left the rejection loop ends. *)
Lemma Int63n_reject_total src n :
  Exists (λ v, v ≤ int63n_max n) src → is_Some (Int63n_reject src n).
Proof.
  induction 1 as [v src Hv|v src _ IH]; simpl; [by rewrite decide_True|].
  by case_decide.
Qed.

End rand_facts.
