(* ===== verification/Pkg.v ===== *)
(** * Package pkg: constants, annotation names and flag validation

    Models src/pkg/constants.go, src/pkg/annotations.go and src/pkg/validation.go. *)

From S2P Require Import Prelude GoStd.

(** ** constants.go *)

Definition MaxTokenExpiration : Z := 86400.
Definition DefaultTokenExpiration : Z := 86400.
Definition DefaultMinTokenExpiration : Z := 79200.
Definition MinTokenExpiration : Z := 600.

Definition AwsEnvVarContainerCredentialsFullUri : string := "AWS_CONTAINER_CREDENTIALS_FULL_URI".
Definition AwsEnvVarContainerAuthorizationTokenFile : string :=
  "AWS_CONTAINER_AUTHORIZATION_TOKEN_FILE".

(** ** annotations.go *)

Definition AudienceAnnotation : string := "audience".
Definition RoleARNAnnotation : string := "role-arn".
Definition UseRegionalSTSAnnotation : string := "sts-regional-endpoints".
Definition TokenExpirationAnnotation : string := "token-expiration".
Definition SkipContainersAnnotation : string := "skip-containers".

(** ** validation.go *)

Definition ValidateMinTokenExpiration (expiration : Z) : Z :=
  if decide (expiration < MinTokenExpiration)%Z then MinTokenExpiration else expiration.

(** The TLS version numbers of crypto/tls. *)
Definition VersionTLS10 : Z := 0x0301.
Definition VersionTLS11 : Z := 0x0302.
Definition VersionTLS12 : Z := 0x0303.
Definition VersionTLS13 : Z := 0x0304.

Definition ValidateTLSMinVersion (version : string) : result string Z :=
  if decide (version = "1.0" ∨ version = "VersionTLS10") then Ok VersionTLS10
  else if decide (version = "1.1" ∨ version = "VersionTLS11") then Ok VersionTLS11
  else if decide (version = "1.2" ∨ version = "VersionTLS12") then Ok VersionTLS12
  else if decide (version = "1.3" ∨ version = "VersionTLS13") then Ok VersionTLS13
  else Err ("unsupported version " +:+ version).

(** The cipher suites of crypto/tls, which depend on the Go release: the name and the
    identifier of each. *)
Record CipherSuite := { suite_Name : string; suite_ID : Z }.

Definition add_suites (m : gmap string Z) (suites : list CipherSuite) : gmap string Z :=
  foldl (λ m s, <[suite_Name s := suite_ID s]> m) m suites.

Section validation.
Context (CipherSuites InsecureCipherSuites : list CipherSuite).

Definition availableSuites : gmap string Z := add_suites (add_suites ∅ CipherSuites) InsecureCipherSuites.

Fixpoint cipher_ids (ids : list Z) (cipherNames : list string) : result string (list Z) :=
  match cipherNames with
  | [] => Ok ids
  | name :: rest =>
      let name := GoStrings.TrimSpace name in
      if decide (name = "") then cipher_ids ids rest
      else match availableSuites !! name with
           | None => Err ("unsupported cipher suite: " +:+ name)
           | Some id => cipher_ids (ids ++ [id]) rest
           end
  end.

Definition ValidateTLSCipherSuites (cipherNames : list string) : result string (list Z) :=
  match cipherNames with
  | [] => Ok []
  | _ => cipher_ids [] cipherNames
  end.

(** The names the flag really lists: trimmed, blank ones dropped. *)
Definition listed (cipherNames : list string) : list string :=
  filter (λ n, n ≠ "") (GoStrings.TrimSpace <$> cipherNames).

End validation.

(** ** Theorems *)

Section pkg_facts.
Local Open Scope Z_scope.

Lemma ValidateMin_max e : ValidateMinTokenExpiration e = Z.max MinTokenExpiration e.
Proof. unfold ValidateMinTokenExpiration. case_decide; lia. Qed.

Lemma ValidateMin_ge e : MinTokenExpiration ≤ ValidateMinTokenExpiration e.
Proof. rewrite ValidateMin_max. lia. Qed.

Lemma ValidateMin_int64 e : Strconv.int64 e → Strconv.int64 (ValidateMinTokenExpiration e).
Proof.
  rewrite ValidateMin_max. unfold Strconv.int64, MinTokenExpiration, Strconv.min_int64, Strconv.max_int64.
  lia.
Qed.

End pkg_facts.

#[export] Hint Resolve ValidateMin_ge ValidateMin_int64 : go.

Section validation_facts.
Context (CipherSuites InsecureCipherSuites : list CipherSuite).
Let avail := availableSuites CipherSuites InsecureCipherSuites.

Lemma listed_cons n ns :
  listed (n :: ns) =
    if decide (GoStrings.TrimSpace n = "") then listed ns else GoStrings.TrimSpace n :: listed ns.
Proof. unfold listed. rewrite fmap_cons, filter_cons. repeat case_decide; naive_solver. Qed.

Lemma cipher_ids_spec ids0 names :
  match cipher_ids CipherSuites InsecureCipherSuites ids0 names with
  | Ok ids => mapM (avail !!.) (listed names) = Some (drop (length ids0) ids) ∧ ids0 `prefix_of` ids
  | Err e => ∃ pre n post, listed names = pre ++ n :: post ∧ avail !! n = None ∧
               Forall (λ m, is_Some (avail !! m)) pre ∧ e = "unsupported cipher suite: " +:+ n
  end.
Proof.
  revert ids0. induction names as [|n names IH]; intros ids0; cbn [cipher_ids].
  { by rewrite drop_all. }
  rewrite listed_cons. case_decide; [apply IH|]. fold avail.
  destruct (avail !! _) as [id|] eqn:Hid.
  - specialize (IH (ids0 ++ [id])). destruct (cipher_ids _ _ _ _) as [ids|e].
    + destruct IH as [IH [k ->]]. split; [|by exists (id :: k); rewrite <- app_assoc].
      cbn [mapM]. rewrite IH, Hid. simpl. do 2 f_equal.
      rewrite drop_app_length. rewrite <- app_assoc. by rewrite drop_app_length.
    + destruct IH as (pre & m & post & -> & ? & ? & ->).
      exists (GoStrings.TrimSpace n :: pre), m, post. by repeat (constructor || split).
  - exists [], (GoStrings.TrimSpace n), (listed names). by repeat (constructor || split).
Qed.

(** The flag value is accepted exactly when every listed suite is known, and the result
    is then their identifiers in the order of the list; otherwise the error names the
    first unknown one. *)
Theorem ValidateTLSCipherSuites_spec names :
  match ValidateTLSCipherSuites CipherSuites InsecureCipherSuites names with
  | Ok ids => mapM (avail !!.) (listed names) = Some ids
  | Err e => ∃ pre n post, listed names = pre ++ n :: post ∧ avail !! n = None ∧
               Forall (λ m, is_Some (avail !! m)) pre ∧ e = "unsupported cipher suite: " +:+ n
  end.
Proof.
  pose proof (cipher_ids_spec [] names) as H. unfold ValidateTLSCipherSuites.
  destruct names as [|n names]; [done|].
  destruct (cipher_ids _ _ _ _); [by destruct H as [-> _]|done].
Qed.

End validation_facts.
