(* ===== verification/Metrics.v ===== *)
(** * The registration of metrics

    What the packages ask of prometheus's default registry when the program starts: in
    src/pkg/cache/cache.go, src/pkg/handler/middleware.go and src/pkg/cert/request.go. *)

From S2P Require Import Prelude.

(** The names of the metrics registered with the default registry; registering one twice
    panics. *)
Definition registry := gset string.

Definition MustRegister (name : string) (r : registry) : outcome registry :=
  if decide (name ∈ r) then Panicked DuplicateRegistration else Returned ({[ name ]} ∪ r).

(** The [init] of cache.go. *)
Definition webhookUsage_name : string := "pod_identity_webhook_used".

Definition cache_init (r : registry) : outcome registry := MustRegister webhookUsage_name r.

(** [register] of middleware.go, which its [init] calls. *)
Definition requestCounter_name : string := "http_request_count".
Definition requestLatencies_name : string := "http_request_latencies".
Definition requestLatenciesSummary_name : string := "http_request_duration_microseconds".
Definition webhookPodCount_name : string := "pod_identity_webhook_pod_count".
Definition missingSACounter_name : string := "pod_identity_webhook_missing_sa_count".

Definition register (r : registry) : outcome registry :=
  let! r := MustRegister requestCounter_name r in
  let! r := MustRegister requestLatencies_name r in
  let! r := MustRegister requestLatenciesSummary_name r in
  let! r := MustRegister webhookPodCount_name r in
  MustRegister missingSACounter_name r.

Definition handler_init (r : registry) : outcome registry := register r.

(** A package is initialised after those it imports, and handler imports cache. *)
Definition package_inits (r : registry) : outcome registry :=
  let! r := cache_init r in handler_init r.

(** ** Lemmas *)

Definition register_all (names : list string) (r : registry) : outcome registry :=
  outcome_foldl (λ r name, MustRegister name r) r names.

(** All the packages register when they are initialised, in order. *)
Definition init_names : list string :=
  [webhookUsage_name; requestCounter_name; requestLatencies_name; requestLatenciesSummary_name;
   webhookPodCount_name; missingSACounter_name].

Lemma package_inits_all r : package_inits r = register_all init_names r.
Proof.
  unfold package_inits, handler_init, register, register_all, cache_init, init_names. cbn [outcome_foldl].
  repeat (destruct (MustRegister _ _) as [?|?]; cbn [outcome_bind]; [|done]). done.
Qed.

(** Distinct names nobody has taken can be registered. *)
Lemma register_all_ok names r :
  NoDup names → (∀ name, name ∈ names → name ∉ r) →
  ∃ r', register_all names r = Returned r' ∧ ∀ name, name ∈ r' ↔ name ∈ names ∨ name ∈ r.
Proof.
  unfold register_all. revert r. induction names as [|n names IH]; intros r Hnd Hr; cbn [outcome_foldl].
  - exists r. split; [done|]. set_solver.
  - apply NoDup_cons in Hnd as [Hn Hnd]. unfold MustRegister at 1. rewrite decide_False by (apply Hr; set_solver).
    cbn [outcome_bind]. destruct (IH ({[ n ]} ∪ r) Hnd) as (r' & -> & Hr'); [set_solver|].
    exists r'. split; [done|]. set_solver.
Qed.

Lemma register_all_taken names r :
  NoDup names → (∃ name, name ∈ names ∧ name ∈ r) → ∃ why, register_all names r = Panicked why.
Proof.
  unfold register_all. revert r. induction names as [|n names IH]; intros r Hnd (x & Hx & Hxr); [set_solver|].
  cbn [outcome_foldl]. apply NoDup_cons in Hnd as [Hn Hnd].
  unfold MustRegister at 1. case_decide; [by eexists|]. cbn [outcome_bind].
  apply IH; [done|]. exists x. split; [|set_solver]. apply elem_of_cons in Hx as [->|?]; done.
Qed.

Lemma init_names_NoDup : NoDup init_names.
Proof. by_decision. Qed.

Lemma package_inits_ok r :
  (∀ name, name ∈ init_names → name ∉ r) →
  ∃ r', package_inits r = Returned r' ∧ ∀ name, name ∈ r' ↔ name ∈ init_names ∨ name ∈ r.
Proof. rewrite package_inits_all. apply register_all_ok, init_names_NoDup. Qed.
