(* ===== verification/Json.v ===== *)
(** * encoding/json: the decoder the webhook's own types go through

    A byte-level model of [json.Unmarshal] as the cache and the container-credentials
    configuration use it: the grammar of the scanner (with its nesting limit), the
    unquoting of strings with their UTF-8 and surrogate rules, the case folding of field
    names, and the rules for scalars. The decoders of the particular Go types are beside
    those types; they are built from [parse], [fold_name] and the scalar decoders. *)

From S2P Require Import Prelude GoStd.

(** ** Values *)

(** A number keeps its literal, as the decoder does. Object members keep their order and
    their duplicates. *)
#[warnings="-register-all"]
Inductive json : Type :=
| JNull
| JBool (b : bool)
| JNumber (lit : string)
| JString (s : string)
| JArray (l : list json)
| JObject (l : list (string * json)).

Inductive json_error := SyntaxError | MaxDepth | UnmarshalTypeError | OutOfFuel.

Abbreviation jresult := (result json_error).

(** ** Bytes *)

Definition byte_val (c : ascii) : N := N_of_ascii c.
Definition byte_of (n : N) : ascii := ascii_of_N n.
Definition in_range (lo hi n : N) : bool := bool_decide (lo ≤ n)%N && bool_decide (n ≤ hi)%N.

Definition quote : ascii := "034".
Definition backslash : ascii := "092".

Definition is_ws (c : ascii) : bool := bool_decide (c ∈ [" "; "009"; "010"; "013"]%char).

Fixpoint skip_ws (s : string) : string :=
  match s with
  | String c s' => if is_ws c then skip_ws s' else s
  | EmptyString => ""
  end.

Definition hex_val (c : ascii) : option N :=
  let n := byte_val c in
  if in_range 48 57 n then Some (n - 48)%N
  else if in_range 97 102 n then Some (n - 87)%N
  else if in_range 65 70 n then Some (n - 55)%N
  else None.

(** ** String literals *)

Definition simple_escape (c : ascii) : option ascii :=
  if bool_decide (c ∈ [quote; backslash; "/"%char]) then Some c
  else if decide (c = "b"%char) then Some "008"%char
  else if decide (c = "f"%char) then Some "012"%char
  else if decide (c = "n"%char) then Some "010"%char
  else if decide (c = "r"%char) then Some "013"%char
  else if decide (c = "t"%char) then Some "009"%char
  else None.

Definition cons_raw (p : string) (r : option (string * string)) : option (string * string) :=
  match r with Some (raw, rest) => Some (p +:+ raw, rest) | None => None end.

(** The body of a literal after its opening quote, still escaped, and what follows the
    closing quote. *)
Fixpoint lex_string (s : string) : option (string * string) :=
  match s with
  | EmptyString => None
  | String c s' =>
      if decide (c = quote) then Some ("", s')
      else if decide (c = backslash) then
        match s' with
        | String e s1 =>
            if decide (e = "u"%char) then
              match s1 with
              | String h1 (String h2 (String h3 (String h4 s2))) =>
                  match hex_val h1, hex_val h2, hex_val h3, hex_val h4 with
                  | Some _, Some _, Some _, Some _ =>
                      cons_raw (String c (String e (String h1 (String h2 (String h3 (String h4 ""))))))
                        (lex_string s2)
                  | _, _, _, _ => None
                  end
              | _ => None
              end
            else match simple_escape e with
                 | Some _ => cons_raw (String c (String e "")) (lex_string s1)
                 | None => None
                 end
        | EmptyString => None
        end
      else if bool_decide (byte_val c < 32)%N then None
      else cons_raw (String c "") (lex_string s')
  end.

(** [getu4]: the value of an escape [\uXXXX] at the start of the string. *)
Definition getu4 (s : string) : option (N * string) :=
  match s with
  | String b (String u (String h1 (String h2 (String h3 (String h4 rest))))) =>
      if decide (b = backslash) then
        if decide (u = "u"%char) then
          match hex_val h1, hex_val h2, hex_val h3, hex_val h4 with
          | Some a, Some b, Some c, Some d => Some (4096 * a + 256 * b + 16 * c + d, rest)%N
          | _, _, _, _ => None
          end
        else None
      else None
  | _ => None
  end.

(** [utf8.EncodeRune] for the code points up to 0x10FFFF that are not surrogates. *)
Definition encode_rune (r : N) : string :=
  (if bool_decide (r < 128) then String (byte_of r) ""
   else if bool_decide (r < 2048) then
     String (byte_of (192 + r `div` 64)) (String (byte_of (128 + r `mod` 64)) "")
   else if bool_decide (r < 65536) then
     String (byte_of (224 + r `div` 4096))
       (String (byte_of (128 + (r `div` 64) `mod` 64)) (String (byte_of (128 + r `mod` 64)) ""))
   else
     String (byte_of (240 + r `div` 262144))
       (String (byte_of (128 + (r `div` 4096) `mod` 64))
          (String (byte_of (128 + (r `div` 64) `mod` 64)) (String (byte_of (128 + r `mod` 64)) ""))))%N.

Definition replacement : string := String "239" (String "191" (String "189" "")).

Definition is_surrogate (r : N) : bool := in_range 55296 57343 r.

(** [utf16.DecodeRune] on a pair that is one. *)
Definition decode_pair (r1 r2 : N) : option N :=
  if in_range 55296 56319 r1 && in_range 56320 57343 r2
  then Some (65536 + 1024 * (r1 - 55296) + (r2 - 56320))%N
  else None.

Definition is_cont (c : ascii) : bool := in_range 128 191 (byte_val c).

(** How many continuation bytes the well-formed UTF-8 sequence that starts with [c] and
    goes on with [s] has; [None] for an ill-formed one. *)
Definition utf8_tail (c : ascii) (s : string) : option nat :=
  let n := byte_val c in
  let second (lo hi : N) : bool :=
    match s with String d _ => in_range lo hi (byte_val d) | EmptyString => false end in
  let third : bool := match s with String _ (String e _) => is_cont e | _ => false end in
  let fourth : bool := match s with String _ (String _ (String f _)) => is_cont f | _ => false end in
  (if in_range 194 223 n then (if second 128 191 then Some 1%nat else None)
   else if in_range 224 239 n then
     let lo := if decide (n = 224) then 160 else 128 in
     let hi := if decide (n = 237) then 159 else 191 in
     if second lo hi && third then Some 2%nat else None
   else if in_range 240 244 n then
     let lo := if decide (n = 240) then 144 else 128 in
     let hi := if decide (n = 244) then 143 else 191 in
     if second lo hi && third && fourth then Some 3%nat else None
   else None)%N.

(** [unquote] on a literal [lex_string] accepted. [skip] counts the bytes of the input
    that an earlier step has already consumed; [copy] those that an earlier step has
    found to continue a well-formed sequence. *)
Fixpoint unquote (skip copy : nat) (s : string) : string :=
  match s with
  | EmptyString => ""
  | String c s' =>
      match skip, copy with
      | S skip', _ => unquote skip' copy s'
      | O, S copy' => String c (unquote 0 copy' s')
      | O, O =>
          if decide (c = backslash) then
            match getu4 s with
            | Some (r, rest) =>
                if is_surrogate r then
                  match getu4 rest with
                  | Some (r2, _) =>
                      match decode_pair r r2 with
                      | Some d => encode_rune d +:+ unquote 11 0 s'
                      | None => replacement +:+ unquote 5 0 s'
                      end
                  | None => replacement +:+ unquote 5 0 s'
                  end
                else encode_rune r +:+ unquote 5 0 s'
            | None =>
                match s' with
                | String e _ =>
                    match simple_escape e with
                    | Some b => String b (unquote 1 0 s')
                    | None => ""
                    end
                | EmptyString => ""
                end
            end
          else if bool_decide (byte_val c < 128)%N then String c (unquote 0 0 s')
          else match utf8_tail c s' with
               | Some n => String c (unquote 0 n s')
               | None => replacement +:+ unquote 0 0 s'
               end
      end
  end.

(** ** Number literals *)

Definition is_digit (c : ascii) : bool := in_range 48 57 (byte_val c).

(** The longest prefix of digits, and the rest. *)
Fixpoint take_digits (s : string) : string * string :=
  match s with
  | String c s' =>
      if is_digit c then let '(d, rest) := take_digits s' in (String c d, rest) else ("", s)
  | EmptyString => ("", "")
  end.

Definition lex_int (s : string) : option (string * string) :=
  match s with
  | String c s' =>
      if decide (c = "0"%char) then Some ("0", s')
      else if is_digit c then let '(d, rest) := take_digits s' in Some (String c d, rest)
      else None
  | EmptyString => None
  end.

Definition lex_frac (s : string) : option (string * string) :=
  match s with
  | String c s' =>
      if decide (c = "."%char) then
        match take_digits s' with
        | (EmptyString, _) => None
        | (d, rest) => Some (String c d, rest)
        end
      else Some ("", s)
  | EmptyString => Some ("", "")
  end.

Definition lex_exp (s : string) : option (string * string) :=
  match s with
  | String c s' =>
      if bool_decide (c ∈ ["e"; "E"]%char) then
        let '(sign, s1) := match s' with
                           | String d s2 => if bool_decide (d ∈ ["+"; "-"]%char) then (String d "", s2) else ("", s')
                           | EmptyString => ("", "")
                           end in
        match take_digits s1 with
        | (EmptyString, _) => None
        | (d, rest) => Some (String c (sign +:+ d), rest)
        end
      else Some ("", s)
  | EmptyString => Some ("", "")
  end.

Definition lex_number (s : string) : option (string * string) :=
  let '(sign, s0) := match s with
                     | String c s' => if decide (c = "-"%char) then ("-", s') else ("", s)
                     | EmptyString => ("", "")
                     end in
  '(i, s1) ← lex_int s0;
  '(f, s2) ← lex_frac s1;
  '(e, s3) ← lex_exp s2;
  Some (sign +:+ i +:+ f +:+ e, s3).

(** ** The grammar *)

#[warnings="-abstract-large-number"]
Definition maxNestingDepth : nat := 10000.

(** One call of [parse_value] reads one value after optional white space and returns the
    rest of the input. [fuel] bounds the number of nested calls, not the nesting of the
    document: [depth] counts the open arrays and objects, as the scanner's stack does. *)
Fixpoint parse_value (fuel depth : nat) (s : string) : jresult (json * string) :=
  match fuel with
  | O => Err OutOfFuel
  | S fuel' =>
      match skip_ws s with
      | EmptyString => Err SyntaxError
      | String c s' =>
          if decide (c = "{"%char) then
            if bool_decide (depth < maxNestingDepth) then
              match skip_ws s' with
              | String c1 s1 =>
                  if decide (c1 = "}"%char) then Ok (JObject [], s1)
                  else match parse_members fuel' (S depth) s' with
                       | Ok (ms, rest) => Ok (JObject ms, rest)
                       | Err e => Err e
                       end
              | EmptyString => Err SyntaxError
              end
            else Err MaxDepth
          else if decide (c = "["%char) then
            if bool_decide (depth < maxNestingDepth) then
              match skip_ws s' with
              | String c1 s1 =>
                  if decide (c1 = "]"%char) then Ok (JArray [], s1)
                  else match parse_elements fuel' (S depth) s' with
                       | Ok (es, rest) => Ok (JArray es, rest)
                       | Err e => Err e
                       end
              | EmptyString => Err SyntaxError
              end
            else Err MaxDepth
          else if decide (c = quote) then
            match lex_string s' with
            | Some (raw, rest) => Ok (JString (unquote 0 0 raw), rest)
            | None => Err SyntaxError
            end
          else match GoStrings.cut_prefix (String c s') "true" with
          | Some rest => Ok (JBool true, rest)
          | None =>
          match GoStrings.cut_prefix (String c s') "false" with
          | Some rest => Ok (JBool false, rest)
          | None =>
          match GoStrings.cut_prefix (String c s') "null" with
          | Some rest => Ok (JNull, rest)
          | None =>
              match lex_number (String c s') with
              | Some (lit, rest) => Ok (JNumber lit, rest)
              | None => Err SyntaxError
              end
          end end end
      end
  end
with parse_elements (fuel depth : nat) (s : string) : jresult (list json * string) :=
  match fuel with
  | O => Err OutOfFuel
  | S fuel' =>
      match parse_value fuel' depth s with
      | Err e => Err e
      | Ok (v, s1) =>
          match skip_ws s1 with
          | String c s2 =>
              if decide (c = "]"%char) then Ok ([v], s2)
              else if decide (c = ","%char) then
                match parse_elements fuel' depth s2 with
                | Ok (vs, rest) => Ok (v :: vs, rest)
                | Err e => Err e
                end
              else Err SyntaxError
          | EmptyString => Err SyntaxError
          end
      end
  end
with parse_members (fuel depth : nat) (s : string) : jresult (list (string * json) * string) :=
  match fuel with
  | O => Err OutOfFuel
  | S fuel' =>
      match skip_ws s with
      | String q s0 =>
          if decide (q = quote) then
            match lex_string s0 with
            | None => Err SyntaxError
            | Some (raw, s1) =>
                match skip_ws s1 with
                | String c s2 =>
                    if decide (c = ":"%char) then
                      match parse_value fuel' depth s2 with
                      | Err e => Err e
                      | Ok (v, s3) =>
                          let k := unquote 0 0 raw in
                          match skip_ws s3 with
                          | String d s4 =>
                              if decide (d = "}"%char) then Ok ([(k, v)], s4)
                              else if decide (d = ","%char) then
                                match parse_members fuel' depth s4 with
                                | Ok (ms, rest) => Ok ((k, v) :: ms, rest)
                                | Err e => Err e
                                end
                              else Err SyntaxError
                          | EmptyString => Err SyntaxError
                          end
                      end
                    else Err SyntaxError
                | EmptyString => Err SyntaxError
                end
            end
          else Err SyntaxError
      | EmptyString => Err SyntaxError
      end
  end.

(** A whole document: one value and nothing but white space after it. *)
Definition parse (s : string) : jresult json :=
  match parse_value (2 * String.length s + 2) 0 s with
  | Err e => Err e
  | Ok (v, rest) => match skip_ws rest with EmptyString => Ok v | _ => Err SyntaxError end
  end.

(** ** Decoding into Go values *)

(** [foldName], for comparison with a field name made of ASCII letters: upper case for
    ASCII, and the two runes outside ASCII whose fold is a letter, the long s (U+017F)
    and the Kelvin sign (U+212A). *)
Fixpoint fold_name (s : string) : string :=
  match s with
  | EmptyString => ""
  | String c s' =>
      let n := byte_val c in
      if in_range 97 122 n then String (byte_of (n - 32)) (fold_name s')
      else if decide (c = "197"%char) then
        match s' with
        | String d s'' => if decide (d = "191"%char) then String "S" (fold_name s'') else String c (fold_name s')
        | EmptyString => String c ""
        end
      else if decide (c = "226"%char) then
        match s' with
        | String d (String e s'') =>
            if decide (d = "132"%char ∧ e = "170"%char) then String "K" (fold_name s'')
            else String c (fold_name s')
        | _ => String c (fold_name s')
        end
      else String c (fold_name s')
  end.

Definition names_field (key field : string) : bool := bool_decide (fold_name key = fold_name field).

(** Decoding into a variable that holds [old]: null leaves it alone, a value of another
    JSON type is an [UnmarshalTypeError]. *)
Definition decode_string (old : string) (v : json) : jresult string :=
  match v with JNull => Ok old | JString s => Ok s | _ => Err UnmarshalTypeError end.

Definition decode_bool (old : bool) (v : json) : jresult bool :=
  match v with JNull => Ok old | JBool b => Ok b | _ => Err UnmarshalTypeError end.

(** A number goes into an [int64] only when its literal is an integer in range. *)
Definition decode_int64 (old : Z) (v : json) : jresult Z :=
  match v with
  | JNull => Ok old
  | JNumber lit => match Strconv.ParseInt lit with Some z => Ok z | None => Err UnmarshalTypeError end
  | _ => Err UnmarshalTypeError
  end.

(** Decode the members of an object one after the other. *)
Fixpoint decode_members {A} (f : A → string → json → jresult A) (a : A) (ms : list (string * json))
    : jresult A :=
  match ms with
  | [] => Ok a
  | (k, v) :: ms' => match f a k v with Ok a' => decode_members f a' ms' | Err e => Err e end
  end.

(** ** The fuel is enough

    Every call of [parse_value] that succeeds leaves a strictly shorter input, and two
    more units of fuel than twice the length of the input cover every nested call; the
    fuel [parse] starts with is therefore never used up. *)

Abbreviation len := String.length.

Section fuel.

Lemma skip_ws_len s : len (skip_ws s) ≤ len s.
Proof. induction s as [|c s IH]; simpl; [done|]. case_match; simpl; lia. Qed.

Lemma skip_ws_cons s c s' : skip_ws s = String c s' → len s' < len s.
Proof. intros H. pose proof (skip_ws_len s) as Hl. rewrite H in Hl. simpl in Hl. lia. Qed.

Lemma cons_raw_Some p r raw rest :
  cons_raw p r = Some (raw, rest) → ∃ raw', r = Some (raw', rest).
Proof. destruct r as [[raw' rest']|]; simpl; intros; simplify_eq; eauto. Qed.

Lemma lex_string_len n s raw rest :
  len s ≤ n → lex_string s = Some (raw, rest) → len rest < len s.
Proof.
  revert s raw rest. induction n as [|n IH]; intros [|c s] raw rest Hn; cbn [lex_string]; try done.
  { simpl in Hn. lia. }
  simpl in Hn. repeat case_match; try done; intros Hr; simplify_eq/=; try lia;
    apply cons_raw_Some in Hr as [raw' Hr]; apply IH in Hr; simpl in *; lia.
Qed.

Lemma cut_prefix_len s p s' : GoStrings.cut_prefix s p = Some s' → len s' + len p = len s.
Proof.
  revert s. induction p as [|c p IH]; intros [|c' s]; simpl; try (intros; simplify_eq/=; lia).
  case_decide; [|done]. intros Hs%IH. lia.
Qed.

Lemma take_digits_len s d rest : take_digits s = (d, rest) → len rest ≤ len s.
Proof.
  revert d rest. induction s as [|c s IH]; simpl; intros d rest; [by intros [= <- <-]|].
  case_match; [|by intros [= <- <-]].
  destruct (take_digits s) as [d' r] eqn:E. intros [= <- <-]. specialize (IH _ _ eq_refl). lia.
Qed.

Ltac digits :=
  repeat match goal with
  | H : take_digits _ = _ |- _ => apply take_digits_len in H
  end.

Lemma lex_int_len s i rest : lex_int s = Some (i, rest) → len rest < len s.
Proof. unfold lex_int. intros. repeat case_match; simplify_eq/=; digits; lia. Qed.

Lemma lex_frac_len s f rest : lex_frac s = Some (f, rest) → len rest ≤ len s.
Proof. unfold lex_frac. intros. repeat case_match; simplify_eq/=; digits; lia. Qed.

Lemma lex_exp_len s e rest : lex_exp s = Some (e, rest) → len rest ≤ len s.
Proof.
  unfold lex_exp. intros. repeat (case_match; simplify_eq/=); digits; simpl in *; try lia.
  all: apply Nat.le_le_succ_r; etrans; [|by eapply (take_digits_len (String _ _))]; done.
Qed.

Lemma lex_number_len s lit rest : lex_number s = Some (lit, rest) → len rest < len s.
Proof.
  unfold lex_number. intros H.
  assert (∃ sign s0, match s with
     | String c s' => if decide (c = "-"%char) then ("-", s') else ("", s)
     | EmptyString => ("", "") end = (sign, s0) ∧ len s0 ≤ len s) as (sign & s0 & Hs & Hl).
  { repeat case_match; do 2 eexists; (split; [done|]); simpl; lia. }
  rewrite Hs in H. apply bind_Some in H as ([i s1] & Hi & H).
  apply bind_Some in H as ([f s2] & Hf & H). apply bind_Some in H as ([e s3] & He & H).
  simplify_eq. apply lex_int_len in Hi. apply lex_frac_len in Hf. apply lex_exp_len in He. lia.
Qed.

(** Neither out of fuel nor, on success, without progress. *)
Definition progress {A} (s : string) (r : jresult (A * string)) : Prop :=
  match r with
  | Ok (_, rest) => len rest < len s
  | Err e => e ≠ OutOfFuel
  end.

Ltac lens :=
  repeat match goal with
  | H : skip_ws _ = String _ _ |- _ => apply skip_ws_cons in H
  | H : lex_string _ = Some _ |- _ => apply (lex_string_len _ _ _ _ (reflexivity _)) in H
  | H : lex_number _ = Some _ |- _ => apply lex_number_len in H
  | H : GoStrings.cut_prefix _ _ = Some _ |- _ => apply cut_prefix_len in H
  end.

Lemma parse_progress fuel :
  (∀ depth s, 2 * len s + 1 ≤ fuel → progress s (parse_value fuel depth s)) ∧
  (∀ depth s, 2 * len s + 2 ≤ fuel → progress s (parse_elements fuel depth s)) ∧
  (∀ depth s, 2 * len s + 2 ≤ fuel → progress s (parse_members fuel depth s)).
Proof.
  induction fuel as [|fuel (IHv & IHe & IHm)]; [repeat split; intros; lia|].
  repeat split; intros depth s Hf.
  - cbn [parse_value]. destruct (skip_ws s) as [|c s'] eqn:Hs; [done|].
    pose proof (skip_ws_cons _ _ _ Hs) as Hl.
    pose proof (IHm (S depth) s' ltac:(lia)) as Hm. pose proof (IHe (S depth) s' ltac:(lia)) as He.
    repeat case_match; simplify_eq; unfold progress in *; try done; lens; simpl in *; lia.
  - cbn [parse_elements]. pose proof (IHv depth s ltac:(lia)) as Hv.
    destruct (parse_value fuel depth s) as [[v s1]|e]; [|done]. simpl in Hv.
    destruct (skip_ws s1) as [|c s2] eqn:Hs; [done|]. pose proof (skip_ws_cons _ _ _ Hs) as Hl.
    pose proof (IHe depth s2 ltac:(lia)) as He.
    repeat case_match; simplify_eq; unfold progress in *; try done; lia.
  - cbn [parse_members]. destruct (skip_ws s) as [|q s0] eqn:Hs; [done|].
    case_match; [|done]. destruct (lex_string s0) as [[raw s1]|] eqn:Hr; [|done].
    destruct (skip_ws s1) as [|c s2] eqn:Hs1; [done|]. case_match; [|done]. lens.
    pose proof (IHv depth s2 ltac:(lia)) as Hv.
    destruct (parse_value fuel depth s2) as [[v s3]|err]; [|done]. simpl in Hv.
    destruct (skip_ws s3) as [|d s4] eqn:Hs3; [done|]. lens.
    pose proof (IHm depth s4 ltac:(lia)) as Hm.
    repeat case_match; simplify_eq; unfold progress in *; try done; lia.
Qed.

Lemma parse_never_out_of_fuel s : parse s ≠ Err OutOfFuel.
Proof.
  unfold parse. destruct (parse_progress (2 * len s + 2)) as [Hv _].
  specialize (Hv 0 s ltac:(lia)). destruct (parse_value _ _ _) as [[v rest]|e]; simpl in Hv.
  - by case_match.
  - congruence.
Qed.

End fuel.

Lemma decode_int64_range old v z : Strconv.int64 old → decode_int64 old v = Ok z → Strconv.int64 z.
Proof.
  unfold decode_int64. intros. repeat case_match; simplify_eq/=; eauto using ParseInt_range.
Qed.

Lemma decode_members_no_fuel {A} (g : A → string → json → jresult A) a ms :
  (∀ a k v, g a k v ≠ Err OutOfFuel) → decode_members g a ms ≠ Err OutOfFuel.
Proof.
  intros Hg. revert a. induction ms as [|[k v] ms IH]; intros a; simpl; [done|].
  pose proof (Hg a k v). destruct (g a k v); [apply IH|congruence].
Qed.

Lemma decode_string_no_fuel s v : decode_string s v ≠ Err OutOfFuel.
Proof. by destruct v. Qed.

(** An invariant kept by every member holds of the decoded value. *)
Lemma decode_members_inv {A} (P : A → Prop) (f : A → string → json → jresult A) a ms a' :
  (∀ a k v a', P a → f a k v = Ok a' → P a') →
  P a → decode_members f a ms = Ok a' → P a'.
Proof.
  intros Hf. revert a. induction ms as [|[k v] ms IH]; simpl; intros a Ha; [by intros [= <-]|].
  destruct (f a k v) eqn:E; [|done]. eauto.
Qed.
