(* ===== verification/JsonPrint.v ===== *)
(** * encoding/json: the encoder

    A byte-level model of [json.MarshalIndent] with an empty prefix, as the dumps of the
    caches use it: the escaping of strings, the sorted keys of maps, the layout. The
    reader of Json.v takes back what it prints, strings up to the replacement of ill-formed
    UTF-8. *)

From stdpp Require Import sorting.
From S2P Require Import Prelude GoStd Json.

(** ** Strings *)

(** [hex] of encode.go. *)
Definition hex_digit (n : N) : ascii :=
  match String.get (N.to_nat n) "0123456789abcdef" with
  | Some c => c
  | None => "0"%char
  end.

(** What [appendString] writes for a byte below [utf8.RuneSelf]; HTML is escaped too. *)
Definition escape_byte (c : ascii) : string :=
  let n := byte_val c in
  if bool_decide (c ∈ [quote; backslash]) then String backslash (String c "")
  else if decide (c = "008"%char) then String backslash "b"
  else if decide (c = "012"%char) then String backslash "f"
  else if decide (c = "010"%char) then String backslash "n"
  else if decide (c = "013"%char) then String backslash "r"
  else if decide (c = "009"%char) then String backslash "t"
  else if bool_decide (n < 32)%N || bool_decide (c ∈ ["<"; ">"; "&"]%char) then
    String backslash (String "u" (String "0" (String "0" (String (hex_digit (n `div` 16))
      (String (hex_digit (n `mod` 16)) "")))))
  else String c "".

Definition escaped_replacement : string := String backslash "ufffd".

(** The last byte of the line and the paragraph separator, U+2028 and U+2029, at the start of
    the string, after the first byte. *)
Definition separator (c : ascii) (s : string) : option ascii :=
  match s with
  | String d (String e _) =>
      if decide (c = "226"%char ∧ d = "128"%char) then
        if decide (e = "168"%char) then Some "8"%char
        else if decide (e = "169"%char) then Some "9"%char
        else None
      else None
  | _ => None
  end.

(** The body of the literal. [skip] counts the bytes already written in another form, [copy]
    those that continue a well-formed sequence. *)
Fixpoint escape (skip copy : nat) (s : string) : string :=
  match s with
  | EmptyString => ""
  | String c s' =>
      match skip, copy with
      | S skip', _ => escape skip' copy s'
      | O, S copy' => String c (escape 0 copy' s')
      | O, O =>
          if bool_decide (byte_val c < 128)%N then escape_byte c +:+ escape 0 0 s'
          else match utf8_tail c s' with
               | None => escaped_replacement +:+ escape 0 0 s'
               | Some n =>
                   match separator c s' with
                   | Some d => String backslash "u202" +:+ String d (escape 2 0 s')
                   | None => String c (escape 0 n s')
                   end
               end
      end
  end.

Definition print_string (s : string) : string := String quote (escape 0 0 s) +:+ String quote "".

(** ** Values *)

(** [newline] of indent.go with the indent of one space. *)
Fixpoint spaces (n : nat) : string :=
  match n with
  | O => ""
  | S n' => String " " (spaces n')
  end.

Definition newline (depth : nat) : string := String "010" (spaces depth).

(** The parts of an array or object, each on a line of its own. *)
Fixpoint print_parts (depth : nat) (parts : list string) : string :=
  match parts with
  | [] => ""
  | [p] => newline depth +:+ p
  | p :: ps => newline depth +:+ p +:+ "," +:+ print_parts depth ps
  end.

Definition print_parts_in (opening closing : string) (depth : nat) (parts : list string) : string :=
  match parts with
  | [] => opening +:+ closing
  | _ => opening +:+ print_parts (S depth) parts +:+ newline depth +:+ closing
  end.

Fixpoint print_value (depth : nat) (v : json) : string :=
  match v with
  | JNull => "null"
  | JBool true => "true"
  | JBool false => "false"
  | JNumber lit => lit
  | JString s => print_string s
  | JArray vs => print_parts_in "[" "]" depth (map (print_value (S depth)) vs)
  | JObject ms =>
      print_parts_in "{" "}" depth (map (λ '(k, v), print_string k +:+ ": " +:+ print_value (S depth) v) ms)
  end.

(** [json.MarshalIndent(v, empty, space)]. *)
Definition MarshalIndent (v : json) : string := print_value 0 v.

(** Integers are printed in decimal. *)
Definition json_int (z : Z) : json := JNumber (pretty z).

(** A map is printed with its keys in the order of their bytes. *)
Definition key_le {A} (x y : string * A) : Prop := String.leb x.1 y.1 = true.

#[export] Instance key_le_dec {A} (x y : string * A) : Decision (key_le x y).
Proof. unfold key_le. apply _. Defined.

Definition json_map {A} (f : A → json) (m : gmap string A) : json :=
  JObject (prod_map id f <$> merge_sort key_le (map_to_list m)).

(** ** What the reader gets back *)

(** A string with every ill-formed byte replaced by U+FFFD. *)
Fixpoint sanitize (copy : nat) (s : string) : string :=
  match s with
  | EmptyString => ""
  | String c s' =>
      match copy with
      | S copy' => String c (sanitize copy' s')
      | O =>
          if bool_decide (byte_val c < 128)%N then String c (sanitize 0 s')
          else match utf8_tail c s' with
               | None => replacement +:+ sanitize 0 s'
               | Some n => String c (sanitize n s')
               end
      end
  end.

Definition valid_utf8 (s : string) : Prop := sanitize 0 s = s.

#[export] Instance valid_utf8_dec s : Decision (valid_utf8 s).
Proof. unfold valid_utf8. apply _. Defined.

Example MarshalIndent_ex :
  MarshalIndent (json_map json_int {[ "b" := 2%Z; "a" := (-1)%Z ]}) =
    "{" +:+ String "010" " " +:+ print_string "a" +:+ ": -1," +:+ String "010" " " +:+ print_string "b" +:+ ": 2"
    +:+ String "010" "}".
Proof. vm_compute. reflexivity. Qed.

(** ** Lemmas on strings *)

Section strings.

Definition high (c : ascii) : bool := bool_decide (128 ≤ byte_val c)%N.

(** The first [n] bytes are there and outside ASCII. *)
Fixpoint conts (n : nat) (s : string) : bool :=
  match n, s with
  | O, _ => true
  | S n', String c s' => high c && conts n' s'
  | S _, EmptyString => false
  end.

Lemma ascii_forall (P : ascii → bool) :
  forallb P (ascii_of_nat <$> seq 0 256) = true → ∀ c, P c = true.
Proof.
  intros H c. rewrite forallb_forall in H. apply H. apply list_elem_of_In, list_elem_of_fmap.
  exists (nat_of_ascii c). split; [by rewrite ascii_nat_embedding|].
  apply elem_of_seq. split; [lia|]. apply nat_ascii_bounded.
Qed.

Lemma escape_byte_lex c t :
  (byte_val c < 128)%N → lex_string (escape_byte c +:+ t) = cons_raw (escape_byte c) (lex_string t).
Proof. destruct c as [[] [] [] [] [] [] [] []]; intros H; first [by vm_compute in H | reflexivity]. Qed.

Lemma escape_byte_unquote c t :
  (byte_val c < 128)%N → unquote 0 0 (escape_byte c +:+ t) = String c (unquote 0 0 t).
Proof.
  destruct c as [[] [] [] [] [] [] [] []]; intros H;
    first [by vm_compute in H | reflexivity | by destruct t as [|? [|? [|? [|? ?]]]]].
Qed.

(** What [utf8_tail] reports are bytes outside ASCII, and it looks at no others. *)
Lemma utf8_tail_spec c s n :
  utf8_tail c s = Some n →
  high c = true ∧ conts n s = true ∧ ∀ t, utf8_tail c (String.substring 0 n s +:+ t) = Some n.
Proof.
  assert (∀ lo hi d, (128 ≤ lo)%N → in_range lo hi (byte_val d) = true → high d = true) as Hhigh.
  { intros lo hi d Hlo. unfold in_range, high. rewrite andb_true_iff, !bool_decide_eq_true. lia. }
  assert (∀ lo hi d, in_range lo hi (byte_val d) = true → (128 ≤ lo)%N → high d = true) as Hin by eauto.
  unfold utf8_tail at 1, is_cont.
  destruct (in_range 194 223 (byte_val c)) eqn:H2; [|destruct (in_range 224 239 (byte_val c)) eqn:H3;
    [|destruct (in_range 240 244 (byte_val c)) eqn:H4; [|done]]].
  - case_match eqn:Hs; [|done]. intros [= <-]. destruct s as [|d s]; [done|].
    split; [by apply (Hin _ _ _ H2)|]. split; [cbn -[in_range high]; by rewrite (Hin _ _ _ Hs)|].
    intros t. unfold utf8_tail. by destruct s; cbn -[decide in_range high]; rewrite ?str_app_cons, H2, Hs.
  - case_match eqn:Hs; [|done]. intros [= <-]. apply andb_true_iff in Hs as [Hs Ht].
    destruct s as [|d [|e s]]; [done..|]. split; [by apply (Hin _ _ _ H3)|].
    split. { cbn -[decide in_range high]. rewrite (Hin _ _ _ Hs), (Hin _ _ _ Ht) by (repeat case_decide; lia). done. }
    intros t. unfold utf8_tail, is_cont. by destruct s; cbn -[decide in_range high]; rewrite ?str_app_cons, H2, H3, Hs, Ht.
  - case_match eqn:Hs; [|done]. intros [= <-]. apply andb_true_iff in Hs as [[Hs Ht]%andb_true_iff Hf].
    destruct s as [|d [|e [|f s]]]; [done..|]. split; [by apply (Hin _ _ _ H4)|].
    split. { cbn -[decide in_range high]. rewrite (Hin _ _ _ Hs), (Hin _ _ _ Ht), (Hin _ _ _ Hf) by (repeat case_decide; lia). done. }
    intros t. unfold utf8_tail, is_cont. by destruct s; cbn -[decide in_range high]; rewrite ?str_app_cons, H2, H3, H4, Hs, Ht, Hf.
Qed.

Lemma conts_escape n s :
  conts n s = true → ∃ t, escape 0 n s = String.substring 0 n s +:+ t.
Proof.
  revert s. induction n as [|n IH]; intros s; [by exists (escape 0 0 s); destruct s|].
  destruct s as [|c s]; [done|]. cbn [conts escape String.substring]. intros [_ [t ->]%IH]%andb_true_iff.
  by exists t.
Qed.

Lemma utf8_tail_escape c s n : utf8_tail c s = Some n → utf8_tail c (escape 0 n s) = Some n.
Proof.
  intros (_ & Hc & Ht)%utf8_tail_spec. destruct (conts_escape _ _ Hc) as [t ->]. apply Ht.
Qed.

Lemma separator_spec c s d :
  separator c s = Some d →
  ∃ e s', s = String "128" (String e s') ∧ c = "226"%char ∧
    (e = "168"%char ∧ d = "8"%char ∨ e = "169"%char ∧ d = "9"%char).
Proof.
  unfold separator. destruct s as [|x [|e s]]; [done..|]. case_decide as Hc; [|done].
  destruct Hc as [-> ->]. repeat case_decide; intros [= <-]; subst; eauto 10.
Qed.

Lemma high_lex c t : high c = true → lex_string (String c t) = cons_raw (String c "") (lex_string t).
Proof. destruct c as [[] [] [] [] [] [] [] []]; intros H; first [by vm_compute in H | reflexivity]. Qed.

Lemma high_unquote c t n :
  high c = true → utf8_tail c t = Some n → unquote 0 0 (String c t) = String c (unquote 0 n t).
Proof.
  intros Hc Ht. cbn [unquote]. rewrite decide_False by (by intros ->).
  unfold high in Hc. apply bool_decide_eq_true in Hc. by rewrite bool_decide_false, Ht by lia.
Qed.

Lemma separator_lex d t :
  d = "8"%char ∨ d = "9"%char →
  lex_string ((String backslash "u202" +:+ String d "") +:+ t) =
    cons_raw (String backslash "u202" +:+ String d "") (lex_string t).
Proof. by intros [-> | ->]. Qed.

(** The literal ends where it should. *)
Lemma escape_lex s skip copy rest :
  (skip = 0 ∨ copy = 0) → (skip = 0 → conts copy s = true) →
  lex_string (escape skip copy s +:+ String quote rest) = Some (escape skip copy s, rest).
Proof.
  revert skip copy. induction s as [|c s IH]; intros skip copy Hsc Hconts; [reflexivity|].
  destruct skip as [|skip]; cbn [escape].
  2: { apply IH; [by destruct Hsc; auto|]. destruct Hsc as [ | ->]; [done|]. by destruct s. }
  specialize (Hconts eq_refl). destruct copy as [|copy].
  - case_bool_decide as Hb; [by rewrite str_app_assoc, escape_byte_lex, IH by (auto; by destruct s)|].
    destruct (utf8_tail c s) as [n|] eqn:Ht.
    + apply utf8_tail_spec in Ht as (Hc & Hn & _). destruct (separator c s) as [d|] eqn:Hs.
      * apply separator_spec in Hs as (e & s' & _ & _ & Hd).
        change (String d (escape 2 0 s)) with (String d "" +:+ escape 2 0 s).
        rewrite <- str_app_assoc, (str_app_assoc _ (escape 2 0 s)).
        rewrite separator_lex, IH by (auto; naive_solver). done.
      * by rewrite str_app_cons, high_lex, IH by auto.
    + rewrite str_app_assoc.
      change (lex_string (escaped_replacement +:+ ?t)) with (cons_raw escaped_replacement (lex_string t)).
      by rewrite IH by (auto; by destruct s).
  - cbn [conts] in Hconts. apply andb_true_iff in Hconts as [Hc Hn].
    by rewrite str_app_cons, high_lex, IH by auto.
Qed.

(** The reader undoes the escapes. *)
Fixpoint str_drop (n : nat) (s : string) : string :=
  match n, s with
  | S n', String _ s' => str_drop n' s'
  | _, _ => s
  end.

Lemma escape_unquote s skip copy :
  (skip = 0 ∨ copy = 0) → (skip = 0 → conts copy s = true) →
  unquote 0 copy (escape skip copy s) = sanitize copy (str_drop skip s).
Proof.
  revert skip copy. induction s as [|c s IH]; intros skip copy Hsc Hconts; [by destruct skip|].
  destruct skip as [|skip]; cbn [escape str_drop].
  2: { apply IH; [by destruct Hsc; auto|]. destruct Hsc as [ | ->]; [done|]. by destruct s. }
  specialize (Hconts eq_refl). destruct copy as [|copy]; cbn [sanitize].
  - case_bool_decide as Hb.
    { rewrite escape_byte_unquote, IH by (auto; by destruct s). by destruct s. }
    destruct (utf8_tail c s) as [n|] eqn:Ht.
    + pose proof (utf8_tail_spec _ _ _ Ht) as (Hc & Hn & _). destruct (separator c s) as [d|] eqn:Hs.
      * apply separator_spec in Hs as (e & s' & -> & -> & Hd).
        specialize (IH 2 0 ltac:(auto) ltac:(done)). cbn [str_drop] in IH.
        assert (n = 2) as ->; [by destruct Hd as [[-> _] | [-> _]]; vm_compute in Ht; congruence|].
        cbn [sanitize]. change (str_drop 0 s') with s' in IH. rewrite <- IH.
        by destruct Hd as [[-> ->] | [-> ->]].
      * rewrite (high_unquote c _ n) by (done || by apply utf8_tail_escape). rewrite IH by auto. by destruct s.
    + change (unquote 0 0 (escaped_replacement +:+ ?t)) with (replacement +:+ unquote 0 0 t).
      rewrite IH by (auto; by destruct s). by destruct s.
  - cbn [conts] in Hconts. apply andb_true_iff in Hconts as [Hc Hn].
    cbn [unquote]. rewrite IH by auto. by destruct s.
Qed.

End strings.

(** ** The reader takes back the printed value *)

Section reading.

Lemma print_string_app s rest :
  print_string s +:+ rest = String quote (escape 0 0 s +:+ String quote rest).
Proof. unfold print_string. by rewrite str_app_assoc. Qed.

Lemma lex_escaped s rest :
  lex_string (escape 0 0 s +:+ String quote rest) = Some (escape 0 0 s, rest).
Proof. apply escape_lex; [by left|]. by destruct s. Qed.

Lemma unquote_escaped s : unquote 0 0 (escape 0 0 s) = sanitize 0 s.
Proof. apply (escape_unquote s 0 0); [by left|]. by destruct s. Qed.

(** Nothing that could go on with a number. *)
Definition ends_number (s : string) : bool :=
  match s with
  | EmptyString => true
  | String c _ => negb (is_digit c || bool_decide (c ∈ ["."; "e"; "E"]%char))
  end.

Fixpoint all_digits (s : string) : bool :=
  match s with
  | EmptyString => true
  | String c s' => is_digit c && all_digits s'
  end.

Lemma take_digits_all s rest :
  all_digits s = true → ends_number rest = true → take_digits (s +:+ rest) = (s, rest).
Proof.
  intros Hs Hrest. induction s as [|c s IH].
  - rewrite str_app_nil_l. destruct rest as [|c rest]; [done|]. cbn in *.
    apply negb_true_iff, orb_false_iff in Hrest as [-> _]. done.
  - rewrite str_app_cons. cbn in *. apply andb_true_iff in Hs as [-> Hs]. by rewrite IH.
Qed.

Lemma pretty_char_digit n : (n < 10)%N → is_digit (pretty_N_char n) = true ∧ (n ≠ 0%N → pretty_N_char n ≠ "0"%char).
Proof.
  intros Hn.
  assert (n = 0 ∨ n = 1 ∨ n = 2 ∨ n = 3 ∨ n = 4 ∨ n = 5 ∨ n = 6 ∨ n = 7 ∨ n = 8 ∨ n = 9)%N
    as Hc by lia.
  by repeat destruct Hc as [->|Hc]; [..|subst].
Qed.

(** A positive number is printed as digits, the first of which is not zero. *)
Lemma pretty_digits (p : positive) :
  ∃ c s, pretty (N.pos p) = String c s ∧ is_digit c = true ∧ c ≠ "0"%char ∧ all_digits s = true.
Proof.
  assert (∀ x s, (0 < x)%N → all_digits s = true →
    ∃ c s', pretty_N_go x s = String c s' ∧ is_digit c = true ∧ c ≠ "0"%char ∧ all_digits s' = true) as Hgo.
  { intros x. induction (N.lt_wf_0 x) as [x _ IH]; intros s Hx Hs.
    rewrite pretty_N_go_step by done.
    destruct (pretty_char_digit (x `mod` 10)) as [Hd Hz]; [by apply N.mod_lt|].
    destruct (decide (x `div` 10 = 0)%N) as [Hq|Hq].
    - rewrite Hq, pretty_N_go_0. do 2 eexists. split_and!; [done..| |done].
      apply Hz. pose proof (N.div_mod x 10). lia.
    - apply IH; [by apply N.div_lt|by apply N.neq_0_lt_0|]. cbn [all_digits]. by rewrite Hd. }
  destruct (Hgo (N.pos p) "") as (c & s & Heq & Hc); [done..|]. exists c, s. split; [|done].
  unfold pretty, pretty_N. by case_decide.
Qed.

Lemma lex_digits c s rest :
  is_digit c = true → c ≠ "0"%char → all_digits s = true → ends_number rest = true →
  ('(i, s1) ← lex_int (String c s +:+ rest); '(f, s2) ← lex_frac s1; '(e, s3) ← lex_exp s2;
   Some (i +:+ f +:+ e, s3)) = Some (String c s, rest).
Proof.
  intros Hc Hz Hs Hrest. rewrite str_app_cons. cbn [lex_int]. rewrite decide_False by done.
  rewrite Hc, take_digits_all by done. cbn [mbind option_bind].
  destruct rest as [|d rest]; cbn [lex_frac lex_exp mbind option_bind]; [by rewrite !str_app_nil_r|].
  cbn [ends_number] in Hrest. apply negb_true_iff, orb_false_iff in Hrest as [_ Hd%bool_decide_eq_false].
  rewrite decide_False by (intros ->; apply Hd; left). cbn [mbind option_bind lex_exp].
  rewrite bool_decide_false by (intros H; apply Hd; by right). cbn [mbind option_bind].
  by rewrite !str_app_nil_r.
Qed.

Lemma lex_number_pretty (z : Z) rest :
  ends_number rest = true → lex_number (pretty z +:+ rest) = Some (pretty z, rest).
Proof.
  intros Hrest. destruct z as [|p|p].
  - change (pretty 0%Z) with "0". destruct rest as [|d rest]; [done|]. 
    cbn [ends_number] in Hrest. apply negb_true_iff, orb_false_iff in Hrest as [_ Hd%bool_decide_eq_false].
    unfold lex_number. rewrite str_app_cons, str_app_nil_l.
    rewrite decide_False by done. cbn [lex_int]. rewrite decide_True by done. cbn [mbind option_bind lex_frac].
    rewrite decide_False by (intros ->; apply Hd; left). cbn [mbind option_bind lex_exp].
    by rewrite bool_decide_false by (intros H; apply Hd; by right).
  - change (pretty (Z.pos p)) with (pretty (N.pos p)).
    destruct (pretty_digits p) as (c & s & -> & Hc & Hz & Hs). unfold lex_number. rewrite str_app_cons.
    rewrite decide_False by (by intros ->). rewrite <- str_app_cons. by apply lex_digits.
  - change (pretty (Z.neg p)) with ("-" +:+ pretty (N.pos p)).
    destruct (pretty_digits p) as (c & s & -> & Hc & Hz & Hs). unfold lex_number.
    rewrite str_app_cons. rewrite str_app_nil_l. rewrite str_app_cons. rewrite decide_True by done.
    pose proof (lex_digits c s rest Hc Hz Hs Hrest) as H.
    destruct (lex_int _) as [[i s1]|]; [|done]. cbn [mbind option_bind] in *.
    destruct (lex_frac s1) as [[f s2]|]; [|done]. cbn [mbind option_bind] in *.
    destruct (lex_exp s2) as [[e s3]|]; [|done]. cbn [mbind option_bind] in *. injection H as H1 H2.
    by rewrite str_app_cons, str_app_nil_l, H1, H2.
Qed.

(** *** Values *)

Fixpoint sanitize_json (v : json) : json :=
  match v with
  | JString s => JString (sanitize 0 s)
  | JArray vs => JArray (map sanitize_json vs)
  | JObject ms => JObject (map (λ '(k, v), (sanitize 0 k, sanitize_json v)) ms)
  | v => v
  end.

(** Values with integers only and at most [n] levels of arrays and objects. *)
Fixpoint printable (n : nat) (v : json) : Prop :=
  match v, n with
  | JNumber lit, _ => ∃ z : Z, lit = pretty z
  | JArray vs, S n' => Forall (printable n') vs
  | JObject ms, S n' => Forall (printable n') ms.*2
  | JArray _, O | JObject _, O => False
  | _, _ => True
  end.

Lemma str_length_app s t : len (s +:+ t) = len s + len t.
Proof. induction s as [|c s IH]; [done|]. rewrite str_app_cons. simpl. by rewrite IH. Qed.

Lemma skip_ws_newline n s : skip_ws (newline n +:+ s) = skip_ws s.
Proof.
  unfold newline. rewrite str_app_cons. cbn -[spaces]. induction n as [|n IH]; [done|].
  cbn [spaces]. by rewrite str_app_cons.
Qed.

Lemma parse_value_newline fuel d n s : parse_value fuel d (newline n +:+ s) = parse_value fuel d s.
Proof. destruct fuel; [done|]. cbn [parse_value]. by rewrite skip_ws_newline. Qed.

Lemma parse_members_newline fuel d n s : parse_members fuel d (newline n +:+ s) = parse_members fuel d s.
Proof. destruct fuel; [done|]. cbn [parse_members]. by rewrite skip_ws_newline. Qed.

Lemma parse_elements_newline fuel d n s : parse_elements fuel d (newline n +:+ s) = parse_elements fuel d s.
Proof. destruct fuel; [done|]. cbn [parse_elements]. by rewrite parse_value_newline. Qed.

Lemma parse_value_space fuel d s : parse_value fuel d (String " " s) = parse_value fuel d s.
Proof. by destruct fuel. Qed.

Lemma parse_value_string fuel d s rest :
  parse_value (S fuel) d (print_string s +:+ rest) = Ok (JString (sanitize 0 s), rest).
Proof.
  rewrite print_string_app.
  transitivity (match lex_string (escape 0 0 s +:+ String quote rest) with
    | Some (raw, rest) => Ok (JString (unquote 0 0 raw), rest)
    | None => Err SyntaxError
    end : jresult (json * string)); [done|].
  by rewrite lex_escaped, unquote_escaped.
Qed.

Lemma parse_value_numeric fuel d c s :
  is_digit c || bool_decide (c = "-"%char) = true →
  parse_value (S fuel) d (String c s) =
    match lex_number (String c s) with
    | Some (lit, rest) => Ok (JNumber lit, rest)
    | None => Err SyntaxError
    end.
Proof. destruct c as [[] [] [] [] [] [] [] []]; intros H; first [by vm_compute in H | reflexivity]. Qed.

Lemma parse_value_number fuel d (z : Z) rest :
  ends_number rest = true → parse_value (S fuel) d (pretty z +:+ rest) = Ok (JNumber (pretty z), rest).
Proof.
  intros Hrest. pose proof (lex_number_pretty z rest Hrest) as Hlex.
  assert (∃ c s, pretty z = String c s ∧ is_digit c || bool_decide (c = "-"%char) = true) as (c & s & Hz & Hc).
  { destruct z as [|p|p]; [by do 2 eexists| |by do 2 eexists].
    destruct (pretty_digits p) as (c & s & Hp & Hc & _). exists c, s. by rewrite Hc. }
  rewrite Hz in *. rewrite str_app_cons in *. rewrite parse_value_numeric by done. by rewrite Hlex.
Qed.

(** The text of [v] at depth [d] reads as [v], whatever ends the number it may be. *)
Definition reads (d : nat) (s : string) (v : json) : Prop :=
  ∀ fuel rest, ends_number rest = true → 2 * len (s +:+ rest) + 1 ≤ fuel →
    parse_value fuel d (s +:+ rest) = Ok (v, rest).

Lemma members_read d n m (ms : list (string * json)) fuel rest :
  ms ≠ [] → Forall (λ v, reads d (print_value d v) (sanitize_json v)) ms.*2 →
  let s := print_parts n (map (λ '(k, v), print_string k +:+ ": " +:+ print_value d v) ms) +:+
           newline m +:+ "}" +:+ rest in
  2 * len s + 2 ≤ fuel →
  parse_members fuel d s = Ok (map (λ '(k, v), (sanitize 0 k, sanitize_json v)) ms, rest).
Proof.
  intros Hne Hms s. unfold s. clear s. revert fuel.
  induction ms as [|[k v] ms IH]; [done|]. intros fuel Hf.
  rewrite fmap_cons, Forall_cons in Hms. destruct Hms as [Hv Hms]. cbn [snd] in Hv.
  destruct fuel as [|fuel]; [lia|].
  assert (∀ tail, ends_number tail = true →
    2 * len (print_string k +:+ ": " +:+ print_value d v +:+ tail) + 2 ≤ S fuel →
    parse_members (S fuel) d (print_string k +:+ ": " +:+ print_value d v +:+ tail) =
      match skip_ws tail with
      | String c s4 =>
          if decide (c = "}"%char) then Ok ([(sanitize 0 k, sanitize_json v)], s4)
          else if decide (c = ","%char) then
            match parse_members fuel d s4 with
            | Ok (ms, rest) => Ok ((sanitize 0 k, sanitize_json v) :: ms, rest)
            | Err e => Err e
            end
          else Err SyntaxError
      | EmptyString => Err SyntaxError
      end) as Hone.
  { intros tail Htail Hl. rewrite print_string_app in *.
    cbn [parse_members skip_ws]. change (is_ws quote) with false. cbv iota. rewrite decide_True by done.
    rewrite lex_escaped. rewrite str_app_cons.
    change (skip_ws (String ":" ?t)) with (String ":" t). cbv beta iota. rewrite decide_True by done.
    rewrite str_app_cons, str_app_nil_l, parse_value_space, Hv; [by rewrite unquote_escaped|done|].
    cbn [len] in Hl. rewrite !str_length_app in Hl. cbn [len] in Hl. rewrite !str_length_app in Hl.
    rewrite str_length_app. lia. }
  destruct ms as [|kv ms].
  - cbn [map print_parts] in *. rewrite !str_app_assoc in *. rewrite parse_members_newline.
    rewrite Hone; [|done|].
    + rewrite skip_ws_newline. done.
    + rewrite str_length_app in Hf. lia.
  - assert (print_parts n (map (λ '(k, v), print_string k +:+ ": " +:+ print_value d v) ((k, v) :: kv :: ms)) =
      newline n +:+ (print_string k +:+ ": " +:+ print_value d v) +:+ "," +:+
      print_parts n (map (λ '(k, v), print_string k +:+ ": " +:+ print_value d v) (kv :: ms))) as Heq by done.
    rewrite Heq in *. rewrite !str_app_assoc in *. rewrite parse_members_newline.
    assert (∀ t, len t ≤ len (newline n +:+ t)) as Hnl by (intros t; rewrite str_length_app; lia).
    rewrite Hone; [|done|etrans; [|exact Hf]; rewrite (str_length_app (newline n)); lia].
    rewrite str_app_cons. change (skip_ws (String "," ?t)) with (String "," t). cbv beta iota.
    rewrite decide_False, decide_True by done. rewrite str_app_nil_l, IH; [done|done|done|].
    rewrite !str_length_app in *. cbn [len] in *. lia.
Qed.

Lemma elements_read d n m (vs : list json) fuel rest :
  vs ≠ [] → Forall (λ v, reads d (print_value d v) (sanitize_json v)) vs →
  let s := print_parts n (map (print_value d) vs) +:+ newline m +:+ "]" +:+ rest in
  2 * len s + 2 ≤ fuel →
  parse_elements fuel d s = Ok (map sanitize_json vs, rest).
Proof.
  intros Hne Hvs s. unfold s. clear s. revert fuel.
  induction vs as [|v vs IH]; [done|]. intros fuel Hf.
  apply Forall_cons in Hvs as [Hv Hvs]. destruct fuel as [|fuel]; [lia|].
  assert (∀ t, len t ≤ len (newline n +:+ t)) as Hnl by (intros t; rewrite str_length_app; lia).
  destruct vs as [|v' vs].
  - cbn [map print_parts] in *. rewrite !str_app_assoc in *. rewrite parse_elements_newline.
    cbn [parse_elements]. rewrite Hv; [|done|].
    + rewrite skip_ws_newline. done.
    + rewrite (str_length_app (newline n)) in Hf. lia.
  - assert (print_parts n (map (print_value d) (v :: v' :: vs)) =
      newline n +:+ print_value d v +:+ "," +:+ print_parts n (map (print_value d) (v' :: vs))) as Heq by done.
    rewrite Heq in *. rewrite !str_app_assoc in *. rewrite parse_elements_newline.
    cbn [parse_elements]. rewrite Hv; [|done|rewrite (str_length_app (newline n)) in Hf; lia].
    rewrite str_app_cons. change (skip_ws (String "," ?t)) with (String "," t). cbv beta iota.
    rewrite decide_False, decide_True by done. rewrite str_app_nil_l, IH; [done|done|done|].
    rewrite !str_length_app in *. cbn [len] in *. lia.
Qed.

(** The first byte of a value closes nothing. *)
Lemma print_value_head n d v :
  printable n v → ∃ c s, print_value d v = String c s ∧ is_ws c = false ∧ c ≠ "]"%char.
Proof.
  intros Hv. destruct v as [|[]|lit|s|vs|ms]; try (do 2 eexists; split; [reflexivity|done]).
  - assert (∃ z : Z, lit = pretty z) as [z ->] by by destruct n.
    destruct z as [|p|p]; [by do 2 eexists| |by do 2 eexists].
    destruct (pretty_digits p) as (c & s & Hp & Hc & _). exists c, s. split; [exact Hp|].
    destruct c as [[] [] [] [] [] [] [] []]; first [by vm_compute in Hc | done].
  - cbn [print_value]. unfold print_parts_in. by destruct (map _ vs); do 2 eexists.
  - cbn [print_value]. unfold print_parts_in. by destruct (map _ ms); do 2 eexists.
Qed.

Lemma skip_ws_parts n p ps c s tail :
  p = String c s → is_ws c = false → ∃ s', skip_ws (print_parts n (p :: ps) +:+ tail) = String c s'.
Proof.
  intros -> Hc. destruct ps as [|p' ps]; cbn [print_parts]; rewrite !str_app_assoc, skip_ws_newline, str_app_cons;
    cbn [skip_ws]; rewrite Hc; by eexists.
Qed.

(** Printing at depth [d] and reading at depth [d] agree, as long as the reader's limit on
    nesting is not reached. *)
Lemma print_value_reads n d v :
  printable n v → d + n ≤ maxNestingDepth → reads d (print_value d v) (sanitize_json v).
Proof.
  revert d v. induction n as [|n IH]; intros d v Hv Hd fuel rest Hrest Hf.
  - destruct fuel as [|fuel]; [lia|]. destruct v as [|[]|lit|s|vs|ms]; try done.
    + destruct Hv as [z ->]. by apply parse_value_number.
    + apply parse_value_string.
  - destruct fuel as [|fuel]; [lia|]. assert (d < maxNestingDepth) as Hlt by lia.
    destruct v as [|[]|lit|s|vs|ms]; try done.
    + destruct Hv as [z ->]. by apply parse_value_number.
    + apply parse_value_string.
    + destruct vs as [|v vs]; [cbn; by rewrite bool_decide_true|].
      assert (∀ s', parse_value (S fuel) d (String "[" s') =
        match skip_ws s' with
        | String c1 s1 =>
            if decide (c1 = "]"%char) then Ok (JArray [], s1)
            else match parse_elements fuel (S d) s' with
                 | Ok (es, rest) => Ok (JArray es, rest)
                 | Err e => Err e
                 end
        | EmptyString => Err SyntaxError
        end) as Hopen by (intros; cbn [parse_value]; cbn -[maxNestingDepth]; by rewrite bool_decide_true).
      change (print_value d (JArray (v :: vs)) +:+ rest) with
        (((String "[" (print_parts (S d) (map (print_value (S d)) (v :: vs)))) +:+ newline d +:+ "]") +:+ rest) in *.
      rewrite !str_app_assoc, str_app_cons, Hopen in *. clear Hopen.
      cbn [printable] in Hv. pose proof (Forall_inv Hv) as Hv1.
      destruct (print_value_head n (S d) v Hv1) as (c & t & Hhead & Hws & Hc).
      destruct (skip_ws_parts (S d) _ (map (print_value (S d)) vs) c t (newline d +:+ "]" +:+ rest) Hhead Hws)
        as [s' Hs']. rewrite map_cons, Hs', decide_False by done. rewrite <- map_cons.
      rewrite elements_read; [done|done| |cbn [len] in Hf; lia].
      eapply Forall_impl; [exact Hv|]. intros v0 Hv0. apply IH; [done|lia].
    + destruct ms as [|[k v] ms]; [cbn; by rewrite bool_decide_true|].
      assert (∀ s', parse_value (S fuel) d (String "{" s') =
        match skip_ws s' with
        | String c1 s1 =>
            if decide (c1 = "}"%char) then Ok (JObject [], s1)
            else match parse_members fuel (S d) s' with
                 | Ok (ms, rest) => Ok (JObject ms, rest)
                 | Err e => Err e
                 end
        | EmptyString => Err SyntaxError
        end) as Hopen by (intros; cbn [parse_value]; cbn -[maxNestingDepth]; by rewrite bool_decide_true).
      set (part := λ '(k, v), print_string k +:+ ": " +:+ print_value (S d) v).
      change (print_value d (JObject ((k, v) :: ms)) +:+ rest) with
        (((String "{" (print_parts (S d) (map part ((k, v) :: ms)))) +:+ newline d +:+ "}") +:+ rest) in *.
      rewrite !str_app_assoc, str_app_cons, Hopen in *. clear Hopen.
      destruct (skip_ws_parts (S d) (part (k, v)) (map part ms) quote
        ((escape 0 0 k +:+ String quote "") +:+ ": " +:+ print_value (S d) v) (newline d +:+ "}" +:+ rest))
        as [s' Hs']; [done..|].
      rewrite map_cons, Hs', decide_False by done. rewrite <- map_cons. unfold part in *.
      rewrite members_read; [done|done| |cbn [len] in Hf; lia].
      cbn [printable] in Hv. eapply Forall_impl; [exact Hv|]. intros v0 Hv0. apply IH; [done|lia].
Qed.

(** A printed document reads back as the value, with its strings made well-formed. *)
Lemma parse_MarshalIndent n v :
  printable n v → n ≤ maxNestingDepth → parse (MarshalIndent v) = Ok (sanitize_json v).
Proof.
  intros Hv Hn. unfold parse, MarshalIndent.
  pose proof (print_value_reads n 0 v Hv Hn (2 * len (print_value 0 v) + 2) "" eq_refl) as H.
  rewrite str_app_nil_r in H. by rewrite H by lia.
Qed.

(** *** Maps *)

Lemma json_map_members {A} (m : gmap string A) :
  list_to_map (merge_sort key_le (map_to_list m)) = m ∧ NoDup (merge_sort key_le (map_to_list m)).*1.
Proof.
  assert (merge_sort key_le (map_to_list m) ≡ₚ map_to_list m) as Hp by apply merge_sort_Permutation.
  assert (NoDup (merge_sort key_le (map_to_list m)).*1) as Hnd.
  { rewrite Hp. apply NoDup_fst_map_to_list. }
  split; [|done]. rewrite (list_to_map_proper _ _ Hnd Hp). apply list_to_map_to_list.
Qed.

(** Decoding the members of a printed map into a map, with a decoder that inverts the printer
    of its elements. *)
Lemma decode_json_map {A B} (f : A → json) (g : json → jresult B) (h : A → B) (m : gmap string A) :
  map_Forall (λ k a, valid_utf8 k ∧ g (sanitize_json (f a)) = Ok (h a)) m →
  match sanitize_json (json_map f m) with
  | JObject ms => decode_members (λ m k v, let? b := g v in Ok (<[k := b]> m)) ∅ ms = Ok (h <$> m)
  | _ => False
  end.
Proof.
  intros Hm. unfold json_map. cbn [sanitize_json].
  destruct (json_map_members m) as [Hl Hnd]. set (l := merge_sort key_le (map_to_list m)) in *.
  assert (Forall (λ ka, valid_utf8 ka.1 ∧ g (sanitize_json (f ka.2)) = Ok (h ka.2)) l) as Hall.
  { apply Forall_forall. intros [k a] Hka. apply Hm. rewrite <- Hl. by apply elem_of_list_to_map_1. }
  assert (∀ m0 : gmap string B,
    decode_members (λ m k v, let? b := g v in Ok (<[k := b]> m)) m0
      (map (λ '(k, v), (sanitize 0 k, sanitize_json v)) (prod_map id f <$> l)) =
    Ok (foldl (λ m kb, <[kb.1 := kb.2]> m) m0 (prod_map id h <$> l))) as Hgen.
  { clear -Hall. induction Hall as [|[k a] l [Hk Ha] _ IH]; intros m0; [done|].
    cbn in *. rewrite Ha. cbn. rewrite Hk. apply IH. }
  rewrite Hgen. f_equal. rewrite foldl_insert_map.
  - rewrite map_union_empty, list_to_map_fmap. by rewrite Hl.
  - by rewrite <- list_fmap_compose.
Qed.

(** A printed map is as deep as its elements, and one more. *)
Lemma printable_json_map {A} (f : A → json) n (m : gmap string A) :
  (∀ a, printable n (f a)) → printable (S n) (json_map f m).
Proof.
  intros Hf. unfold json_map. cbn [printable]. rewrite !Forall_fmap.
  apply Forall_forall. intros [k a] _. apply Hf.
Qed.

End reading.
