(* ===== verification/Notifications.v ===== *)
(** * Notifications of service accounts entering the cache

    Models src/pkg/cache/notifications.go, with the [Request] of src/pkg/cache/cache.go.
    A channel is a number; the heap of channels says which were allocated and which are
    closed, so that closing one twice is the panic Go makes of it. Both operations run
    under the mutex of [notifications] and are atomic; Locks.v takes them apart. *)

From S2P Require Import Prelude.

(** ** Requests *)

Record Request := mkRequest {
  req_Name : string;
  req_Namespace : string;
  RequestNotification : bool
}.

(** The key of a service account: [namespace + "/" + name], written out at every use in
    cache.go. *)
Definition sa_key (name namespace : string) : string := namespace +:+ "/" +:+ name.

Definition CacheKey (r : Request) : string := req_Namespace r +:+ "/" +:+ req_Name r.

#[export] Instance Request_eq_dec : EqDecision Request.
Proof. solve_decision. Defined.

(** ** Channels *)

Abbreviation chan := nat.

Record chans := mkChans { next_chan : nat; closed_chans : gset nat }.

Definition make_chan (h : chans) : chan * chans :=
  (next_chan h, mkChans (S (next_chan h)) (closed_chans h)).

Definition close_chan (c : chan) (h : chans) : outcome chans :=
  if decide (c ∈ closed_chans h) then Panicked CloseOfClosedChannel
  else Returned (mkChans (next_chan h) ({[c]} ∪ closed_chans h)).

(** ** The component *)

(** [fetchRequests] is the content of the buffered channel the fetching goroutine reads
    from, oldest first, and [fetch_capacity] its capacity. *)
Record notifications := mkNotifications {
  handlers : gmap string chan;
  fetchRequests : list Request;
  fetch_capacity : nat;
  heap : chans
}.

Definition newNotifications (capacity : nat) : notifications :=
  mkNotifications ∅ [] capacity (mkChans 0 ∅).

(** [None]: the send on [fetchRequests] blocks because the buffer is full. *)
Definition create (req : Request) (n : notifications) : option (chan * notifications) :=
  match handlers n !! CacheKey req with
  | Some notifier => Some (notifier, n)
  | None =>
      let '(notifier, h) := make_chan (heap n) in
      if decide (length (fetchRequests n) < fetch_capacity n) then
        Some (notifier,
              mkNotifications (<[CacheKey req := notifier]> (handlers n))
                (fetchRequests n ++ [req]) (fetch_capacity n) h)
      else None
  end.

Definition broadcast (key : string) (n : notifications) : outcome notifications :=
  match handlers n !! key with
  | Some handler =>
      let! h := close_chan handler (heap n) in
      Returned (mkNotifications (delete key (handlers n)) (fetchRequests n) (fetch_capacity n) h)
  | None => Returned n
  end.

(** The goroutine that drains the fetch requests takes the oldest one. *)
Definition take_fetch (n : notifications) : option (Request * notifications) :=
  match fetchRequests n with
  | [] => None
  | req :: rest => Some (req, mkNotifications (handlers n) rest (fetch_capacity n) (heap n))
  end.

(** ** The invariant *)

(** Every handler is an allocated open channel of its own, every closed channel was
    allocated, and every allocated channel is closed or still has its handler. *)
Record notif_wf (n : notifications) : Prop := {
  wf_handler_alloc : ∀ k c, handlers n !! k = Some c → c < next_chan (heap n);
  wf_handler_open : ∀ k c, handlers n !! k = Some c → c ∉ closed_chans (heap n);
  wf_handler_inj : ∀ k k' c, handlers n !! k = Some c → handlers n !! k' = Some c → k = k';
  wf_closed_alloc : ∀ c, c ∈ closed_chans (heap n) → c < next_chan (heap n);
  wf_no_orphan : ∀ c, c < next_chan (heap n) →
    c ∈ closed_chans (heap n) ∨ ∃ k, handlers n !! k = Some c
}.

Definition is_closed (c : chan) (n : notifications) : Prop := c ∈ closed_chans (heap n).

#[export] Instance is_closed_dec ch n : Decision (is_closed ch n).
Proof. unfold is_closed. apply _. Defined.

(** ** Lemmas *)

Lemma CacheKey_sa_key r : CacheKey r = sa_key (req_Name r) (req_Namespace r).
Proof. done. Qed.

(** Keys are injective on namespaces without a slash, which Kubernetes guarantees. *)
Lemma sa_key_inj name ns name' ns' :
  has_char "/" ns = false → has_char "/" ns' = false →
  sa_key name ns = sa_key name' ns' → name = name' ∧ ns = ns'.
Proof.
  unfold sa_key. intros Hns Hns' H. apply str_sep_inj in H as [-> ->]; done.
Qed.

Lemma newNotifications_wf cap : notif_wf (newNotifications cap).
Proof. split; simpl; set_solver by lia. Qed.

(** What [create] does: an existing handler is shared and nothing is fetched again; a new
    one gets a fresh open channel and exactly one fetch request. *)
Lemma create_spec req n c n' :
  create req n = Some (c, n') →
  (handlers n !! CacheKey req = Some c ∧ n' = n) ∨
  (handlers n !! CacheKey req = None ∧ c = next_chan (heap n) ∧
   n' = mkNotifications (<[CacheKey req := c]> (handlers n)) (fetchRequests n ++ [req])
          (fetch_capacity n) (mkChans (S c) (closed_chans (heap n)))).
Proof.
  unfold create. destruct (handlers n !! CacheKey req) eqn:Hk; simpl; intros H; [naive_solver|].
  case_decide; naive_solver.
Qed.

Lemma create_handler req n c n' :
  create req n = Some (c, n') → handlers n' !! CacheKey req = Some c.
Proof.
  intros [[? ->]|(_ & _ & ->)]%create_spec; [done|]. apply lookup_insert_eq.
Qed.

Lemma create_wf req n c n' : notif_wf n → create req n = Some (c, n') → notif_wf n'.
Proof.
  intros Hwf [[_ ->]|(Hk & -> & ->)]%create_spec; [done|].
  destruct Hwf as [Ha Ho Hi Hc Hn]. split; simpl.
  - intros k c [[_ <-]|[_ H%Ha]]%lookup_insert_Some; lia.
  - intros k c [[_ <-]|[_ H]]%lookup_insert_Some; [|eauto]. intros H%Hc. lia.
  - intros k k' c [[<- <-]|[Hne H]]%lookup_insert_Some [[<- H']|[Hne' H']]%lookup_insert_Some;
      [done| | |by eauto].
    + apply Ha in H'. lia.
    + apply Ha in H. lia.
  - intros c H%Hc. lia.
  - intros c Hlt. destruct (decide (c = next_chan (heap n))) as [->|Hne].
    + right. exists (CacheKey req). apply lookup_insert_eq.
    + destruct (Hn c) as [?|[k H]]; [lia|by left|]. right. exists k.
      rewrite lookup_insert_ne; [done|]. intros <-. congruence.
Qed.

(** [broadcast] never closes a channel twice: in a well-formed state it returns, the
    handler of the key is gone and its channel closed, and nothing else changes. *)
Lemma broadcast_spec key n :
  notif_wf n →
  ∃ n', broadcast key n = Returned n' ∧ notif_wf n' ∧
    handlers n' = delete key (handlers n) ∧
    fetchRequests n' = fetchRequests n ∧ fetch_capacity n' = fetch_capacity n ∧
    next_chan (heap n') = next_chan (heap n) ∧
    (∀ c, is_closed c n' ↔ is_closed c n ∨ handlers n !! key = Some c).
Proof.
  intros Hwf. pose proof Hwf as [Ha Ho Hi Hc Hn]. unfold broadcast, is_closed.
  destruct (handlers n !! key) as [h|] eqn:Hk; simpl.
  2:{ exists n. rewrite delete_id by done. naive_solver. }
  unfold close_chan. rewrite decide_False by eauto. simpl.
  eexists; split; [done|]. split; [|set_solver].
  split; simpl.
  - intros k c [_ H]%lookup_delete_Some. eauto.
  - intros k c [Hne H]%lookup_delete_Some [Hin|Hin]%elem_of_union; [|by eapply Ho].
    apply elem_of_singleton in Hin as ->. eauto.
  - intros k k' c [_ H]%lookup_delete_Some [_ H']%lookup_delete_Some. eauto.
  - intros c [Hin|Hin]%elem_of_union; [|by eauto]. apply elem_of_singleton in Hin as ->. eauto.
  - intros c Hlt. destruct (decide (c = h)) as [->|Hne]; [set_solver|].
    destruct (Hn c Hlt) as [?|[k H]]; [set_solver|]. right. exists k.
    rewrite lookup_delete_ne; [done|]. intros <-. congruence.
Qed.

Lemma take_fetch_wf n req n' : notif_wf n → take_fetch n = Some (req, n') → notif_wf n'.
Proof.
  unfold take_fetch. destruct (fetchRequests n); intros Hwf H; simplify_eq.
  by destruct Hwf.
Qed.

#[export] Hint Resolve newNotifications_wf create_wf take_fetch_wf : go.
