(* ===== verification/Cache.v ===== *)
(** * The service account cache

    Models src/pkg/cache/cache.go: the entries built from service-account annotations and
    from the pod-identity-webhook ConfigMap, the two maps that hold them, and the informer
    handlers that keep them up to date. Every method that takes the lock is one function
    from the state before to the state after; [Cache] is the sequential view, the
    interleaving of the goroutines is in CacheSystem.v. *)

From S2P Require Import Prelude GoStd Pkg Json JsonPrint Notifications.

(** ** Data *)

Record Entry := mkEntry {
  RoleARN : string;
  Audience : string;
  UseRegionalSTS : bool;
  TokenExpiration : Z
}.

Definition zeroEntry : Entry := mkEntry "" "" false 0.

#[export] Instance Entry_eq_dec : EqDecision Entry.
Proof. solve_decision. Defined.

Record Response := mkResponse {
  resp_RoleARN : string;
  resp_Audience : string;
  resp_UseRegionalSTS : bool;
  resp_TokenExpiration : Z;
  FoundInCache : bool;
  Notifier : option chan
}.

Record ComposeRoleArn := mkComposeRoleArn {
  Enabled : bool;
  AccountID : string;
  Partition : string;
  Region : string
}.

(** Of the Kubernetes objects, the fields the package reads. *)
Record ServiceAccount := mkServiceAccount {
  sa_Name : string;
  sa_Namespace : string;
  sa_Annotations : gmap string string
}.

Record ConfigMap := mkConfigMap {
  cm_Name : string;
  cm_Data : gmap string string
}.

(** The lock is implicit: one operation at a time. [webhookUsage] is the value of the
    gauge. A pointer in either map is never nil, see [populateCacheFromCM]. *)
Record serviceAccountCache := mkCache {
  saCache : gmap string Entry;
  cmCache : gmap string Entry;
  annotationPrefix : string;
  defaultAudience : string;
  defaultRegionalSTS : bool;
  composeRoleArn : ComposeRoleArn;
  defaultTokenExpiration : Z;
  webhookUsage : Z;
  notifs : notifications
}.

Definition with_saCache (m : gmap string Entry) (c : serviceAccountCache) : serviceAccountCache :=
  mkCache m (cmCache c) (annotationPrefix c) (defaultAudience c) (defaultRegionalSTS c)
    (composeRoleArn c) (defaultTokenExpiration c) (webhookUsage c) (notifs c).
Definition with_cmCache (m : gmap string Entry) (c : serviceAccountCache) : serviceAccountCache :=
  mkCache (saCache c) m (annotationPrefix c) (defaultAudience c) (defaultRegionalSTS c)
    (composeRoleArn c) (defaultTokenExpiration c) (webhookUsage c) (notifs c).
Definition with_webhookUsage (v : Z) (c : serviceAccountCache) : serviceAccountCache :=
  mkCache (saCache c) (cmCache c) (annotationPrefix c) (defaultAudience c) (defaultRegionalSTS c)
    (composeRoleArn c) (defaultTokenExpiration c) v (notifs c).
Definition with_notifs (n : notifications) (c : serviceAccountCache) : serviceAccountCache :=
  mkCache (saCache c) (cmCache c) (annotationPrefix c) (defaultAudience c) (defaultRegionalSTS c)
    (composeRoleArn c) (defaultTokenExpiration c) (webhookUsage c) n.

(** ** Reading *)

(** [None]: blocked on the full buffer of fetch requests; the locks held meanwhile are those of
    Locks.v. *)
Definition getSA (req : Request) (c : serviceAccountCache)
    : option (option Entry * option chan * serviceAccountCache) :=
  match saCache c !! CacheKey req with
  | None =>
      if RequestNotification req then
        '(notifier, n) ← create req (notifs c);
        Some (None, Some notifier, with_notifs n c)
      else Some (None, None, c)
  | Some entry => Some (Some entry, None, c)
  end.

Definition getCM (name namespace : string) (c : serviceAccountCache) : option Entry :=
  cmCache c !! sa_key name namespace.

Definition response_of (e : Entry) (found : bool) (notifier : option chan) : Response :=
  mkResponse (RoleARN e) (Audience e) (UseRegionalSTS e) (TokenExpiration e) found notifier.

(** The second half of [Get], after [getSA] has answered: the ConfigMap entry of the
    service account, else the one for every namespace. *)
Definition Get_cm (req : Request) (found : bool) (notifier : option chan) (c : serviceAccountCache)
    : Response :=
  let entry := match getCM (req_Name req) (req_Namespace req) c with
               | None => getCM (req_Name req) "*" c
               | e => e
               end in
  match entry with
  | Some e => response_of e true notifier
  | None => mkResponse "" "" false DefaultTokenExpiration found notifier
  end.

Definition Get (req : Request) (c : serviceAccountCache) : option (Response * serviceAccountCache) :=
  '(entry, notifier, c') ← getSA req c;
  let found := match entry with Some _ => true | None => false end in
  match entry with
  | Some e =>
      if decide (RoleARN e ≠ "") then Some (response_of e found notifier, c')
      else Some (Get_cm req found notifier c', c')
  | None => Some (Get_cm req found notifier c', c')
  end.

Definition GetCommonConfigurations (name namespace : string) (c : serviceAccountCache) : bool * Z :=
  match getSA (mkRequest name namespace false) c with
  | Some (Some entry, _, _) => (UseRegionalSTS entry, TokenExpiration entry)
  | _ =>
      match getCM name namespace c with
      | Some entry => (UseRegionalSTS entry, TokenExpiration entry)
      | None => (false, DefaultTokenExpiration)
      end
  end.

(** ** Writing *)

Definition popSA (name namespace : string) (c : serviceAccountCache) : serviceAccountCache :=
  with_saCache (delete (sa_key name namespace) (saCache c)) c.

Definition popCM (name namespace : string) (c : serviceAccountCache) : serviceAccountCache :=
  with_cmCache (delete (sa_key name namespace) (cmCache c)) c.

Definition setSA (name namespace : string) (entry : Entry) (c : serviceAccountCache)
    : outcome serviceAccountCache :=
  let key := sa_key name namespace in
  let! n := broadcast key (notifs c) in
  Returned (with_notifs n (with_saCache (<[key := entry]> (saCache c)) c)).

Definition setCM (name namespace : string) (entry : Entry) (c : serviceAccountCache)
    : serviceAccountCache :=
  with_cmCache (<[sa_key name namespace := entry]> (cmCache c)) c.

Definition annotation (c : serviceAccountCache) (sa : ServiceAccount) (name : string) : option string :=
  sa_Annotations sa !! (annotationPrefix c +:+ "/" +:+ name).

(** The role ARN: a bare role name is completed when composition is enabled. The regular
    expression the ARN is then matched against only decides about a log line. *)
Definition role_arn (comp : ComposeRoleArn) (arn : string) : string :=
  if negb (GoStrings.Contains arn "arn:") && Enabled comp then
    "arn:" +:+ Partition comp +:+ ":iam::" +:+ AccountID comp +:+ ":role/" +:+ arn
  else arn.

Definition entry_of_sa (c : serviceAccountCache) (sa : ServiceAccount) : Entry :=
  mkEntry
    (match annotation c sa RoleARNAnnotation with
     | Some arn => role_arn (composeRoleArn c) arn
     | None => ""
     end)
    (default (defaultAudience c) (annotation c sa AudienceAnnotation))
    (match annotation c sa UseRegionalSTSAnnotation with
     | Some s => default (defaultRegionalSTS c) (Strconv.ParseBool s)
     | None => defaultRegionalSTS c
     end)
    (match annotation c sa TokenExpirationAnnotation with
     | Some s =>
         match Strconv.ParseInt s with
         | None => defaultTokenExpiration c
         | Some tokenExpiration => ValidateMinTokenExpiration tokenExpiration
         end
     | None => defaultTokenExpiration c
     end).

Definition addSA (sa : ServiceAccount) (c : serviceAccountCache) : outcome serviceAccountCache :=
  setSA (sa_Name sa) (sa_Namespace sa) (entry_of_sa c sa) (with_webhookUsage 1 c).

Definition Clear (c : serviceAccountCache) : serviceAccountCache :=
  with_cmCache ∅ (with_saCache ∅ c).

(** ** The dump *)

(** An [Entry] has no field tags: the names are those of the fields. *)
Definition json_entry (e : Entry) : json :=
  JObject [("RoleARN", JString (RoleARN e)); ("Audience", JString (Audience e));
           ("UseRegionalSTS", JBool (UseRegionalSTS e)); ("TokenExpiration", json_int (TokenExpiration e))].

(** Marshalling a map of entries cannot fail. *)
Definition ToJSON (c : serviceAccountCache) : string := MarshalIndent (json_map json_entry (saCache c)).

(** ** The ConfigMap *)

(** [json.Unmarshal] into an [Entry], whose fields have no tags. *)
Definition decode_entry_member (e : Entry) (k : string) (v : json) : jresult Entry :=
  if names_field k "RoleARN" then
    let? s := decode_string (RoleARN e) v in
    Ok (mkEntry s (Audience e) (UseRegionalSTS e) (TokenExpiration e))
  else if names_field k "Audience" then
    let? s := decode_string (Audience e) v in
    Ok (mkEntry (RoleARN e) s (UseRegionalSTS e) (TokenExpiration e))
  else if names_field k "UseRegionalSTS" then
    let? b := decode_bool (UseRegionalSTS e) v in
    Ok (mkEntry (RoleARN e) (Audience e) b (TokenExpiration e))
  else if names_field k "TokenExpiration" then
    let? z := decode_int64 (TokenExpiration e) v in
    Ok (mkEntry (RoleARN e) (Audience e) (UseRegionalSTS e) z)
  else Ok e.

(** Into a [*Entry] that is nil: null leaves it nil. *)
Definition decode_entry_ptr (v : json) : jresult (option Entry) :=
  match v with
  | JNull => Ok None
  | JObject ms => let? e := decode_members decode_entry_member zeroEntry ms in Ok (Some e)
  | _ => Err UnmarshalTypeError
  end.

(** Into an empty [map[string]*Entry]: the last of several equal keys wins. *)
Definition decode_entries (v : json) : jresult (gmap string (option Entry)) :=
  match v with
  | JNull => Ok ∅
  | JObject ms =>
      decode_members (λ m k v, let? e := decode_entry_ptr v in Ok (<[k := e]> m)) ∅ ms
  | _ => Err UnmarshalTypeError
  end.

Definition unmarshal_entries (s : string) : jresult (gmap string (option Entry)) :=
  let? v := parse s in decode_entries v.

Definition config_of (cm : ConfigMap) : string := default "" (cm_Data cm !! "config").

(** An expiration of zero stands for the default. *)
Definition fix_expiration (dflt : Z) (e : Entry) : Entry :=
  if decide (TokenExpiration e = 0%Z) then
    mkEntry (RoleARN e) (Audience e) (UseRegionalSTS e) dflt
  else e.

(** The body of the first loop, for one key and the pointer under it. *)
Definition set_from_config (c : serviceAccountCache) (kv : string * option Entry)
    : outcome serviceAccountCache :=
  let '(key, entry) := kv in
  match entry with
  | None => Panicked NilDereference
  | Some e =>
      match GoStrings.Split key "/" with
      | ns :: name :: _ => Returned (setCM name ns (fix_expiration (defaultTokenExpiration c) e) c)
      | _ => Panicked IndexOutOfRange
      end
  end.

(** The body of the second loop. *)
Definition pop_from_config (sas : gmap string (option Entry)) (c : serviceAccountCache)
    (kv : string * option Entry) : outcome serviceAccountCache :=
  let key := kv.1 in
  match sas !! key with
  | Some _ => Returned c
  | None =>
      match GoStrings.Split key "/" with
      | ns :: name :: _ => Returned (popCM name ns c)
      | _ => Panicked IndexOutOfRange
      end
  end.

Inductive cm_error :=
| FailedUnmarshalNew (config : string) (e : json_error)
| FailedUnmarshalOld (config : string) (e : json_error).

(** The order in which a [range] loop visits a map is up to the run time; each of the two
    loops has its own. *)
Definition map_range := gmap string (option Entry) → list (string * option Entry).

Definition range_ok (r : map_range) : Prop := ∀ m, r m ≡ₚ map_to_list m.

Definition populateCacheFromCM (range_new range_old : map_range)
    (oldCM : option ConfigMap) (newCM : ConfigMap) (c : serviceAccountCache)
    : outcome (result cm_error unit * serviceAccountCache) :=
  if decide (cm_Name newCM ≠ "pod-identity-webhook") then Returned (Ok (), c)
  else
    match unmarshal_entries (config_of newCM) with
    | Err e => Returned (Err (FailedUnmarshalNew (config_of newCM) e), c)
    | Ok sas =>
        let! c1 := outcome_foldl set_from_config c (range_new sas) in
        match oldCM with
        | None => Returned (Ok (), c1)
        | Some oldCM =>
            match unmarshal_entries (config_of oldCM) with
            | Err e => Returned (Err (FailedUnmarshalOld (config_of oldCM) e), c1)
            | Ok oldCache =>
                let! c2 := outcome_foldl (pop_from_config sas) c1 (range_old oldCache) in
                Returned (Ok (), c2)
            end
        end
    end.

(** ** Construction and informer events *)

(** Capacity of the channel of fetch requests. *)
Definition fetch_buffer : nat := 1000.

Definition New (audience prefix : string) (regionalSTS : bool) (tokenExpiration : Z)
    (comp : ComposeRoleArn) : serviceAccountCache :=
  mkCache ∅ ∅ prefix audience regionalSTS comp tokenExpiration 0 (newNotifications fetch_buffer).

(** What an informer hands to a delete handler: the object, a tombstone around the last
    known state of one, or something else. *)
Inductive deleted_obj :=
| DeletedSA (sa : ServiceAccount)
| DeletedFinalStateUnknown (obj : option ServiceAccount)
| DeletedOther.

Definition onSAAdd (sa : ServiceAccount) (c : serviceAccountCache) : outcome serviceAccountCache :=
  addSA sa c.

Definition onSADelete (obj : deleted_obj) (c : serviceAccountCache) : serviceAccountCache :=
  match obj with
  | DeletedSA sa | DeletedFinalStateUnknown (Some sa) => popSA (sa_Name sa) (sa_Namespace sa) c
  | DeletedFinalStateUnknown None | DeletedOther => c
  end.

Definition onSAUpdate (oldObj newObj : ServiceAccount) (c : serviceAccountCache)
    : outcome serviceAccountCache :=
  addSA newObj c.

(** The error of [populateCacheFromCM] is only reported. *)
Definition onCMEvent (range_new range_old : map_range) (oldCM : option ConfigMap) (newCM : ConfigMap)
    (c : serviceAccountCache) : outcome serviceAccountCache :=
  let! r := populateCacheFromCM range_new range_old oldCM newCM c in Returned r.2.

(** ** The interface of the package

    [ServiceAccountCache] is the Go interface of the same name, without the methods that
    only start goroutines or print; a [Get] that answers [None] is blocked. The laws are
    what the mutation of pods relies on. *)

Class ServiceAccountCache (S : Type) := {
  cache_Get : Request → S → option (Response * S);
  cache_GetCommonConfigurations : string → string → S → bool * Z;
  cache_ToJSON : S → string;
  cache_Clear : S → S
}.

Class ServiceAccountCacheLaws (S : Type) `{!ServiceAccountCache S} : Prop := {
  cache_miss_no_role req s resp s' :
    cache_Get req s = Some (resp, s') → FoundInCache resp = false → resp_RoleARN resp = "";
  cache_quiet_Get req s :
    RequestNotification req = false → ∃ resp, cache_Get req s = Some (resp, s) ∧ Notifier resp = None;
  cache_Get_lookup req s resp s' :
    cache_Get req s = Some (resp, s') →
    ∀ name ns, cache_GetCommonConfigurations name ns s' = cache_GetCommonConfigurations name ns s
}.

#[export] Instance serviceAccountCache_interface : ServiceAccountCache serviceAccountCache := {|
  cache_Get := Get;
  cache_GetCommonConfigurations := GetCommonConfigurations;
  cache_ToJSON := ToJSON;
  cache_Clear := Clear
|}.

(** ** Specification *)

(** What the cache promises to know of a service account: the entry of its annotations
    when that names a role, else the ConfigMap entry for it, else the ConfigMap entry for
    its name in every namespace. *)
Definition effective (sas cms : gmap string Entry) (name ns : string) : option Entry :=
  let from_cm := match cms !! sa_key name ns with
                 | Some e => Some e
                 | None => cms !! sa_key name "*"
                 end in
  match sas !! sa_key name ns with
  | Some e => if decide (RoleARN e = "") then from_cm else Some e
  | None => from_cm
  end.

(** A key of the ConfigMap that names one service account: exactly one slash. *)
Definition key_ok (k : string) : Prop := length (GoStrings.Split k "/") = 2.

(** A configuration all of whose keys are well formed and none of whose entries is null. *)
Definition config_ok (sas : gmap string (option Entry)) : Prop :=
  map_Forall (λ k e, key_ok k ∧ is_Some e) sas.

#[export] Instance config_ok_dec sas : Decision (config_ok sas).
Proof. unfold config_ok, key_ok. apply _. Defined.

(** The entries a configuration stands for. *)
Definition config_entries (dflt : Z) (sas : gmap string (option Entry)) : gmap string Entry :=
  fix_expiration dflt <$> omap id sas.

(** The state invariant: notifications are well formed, and nobody waits for a service
    account that is in the cache. *)
Record cache_wf (c : serviceAccountCache) : Prop := {
  wf_notifs : notif_wf (notifs c);
  wf_no_stale_waiter : ∀ k ch, handlers (notifs c) !! k = Some ch → saCache c !! k = None
}.

(** ** Reading: lemmas *)

Section reading.
Implicit Types (c : serviceAccountCache) (req : Request).

Lemma getSA_spec req c r c' :
  getSA req c = Some (r, c') →
  r.1 = saCache c !! CacheKey req ∧ saCache c' = saCache c ∧ cmCache c' = cmCache c ∧
  defaultTokenExpiration c' = defaultTokenExpiration c ∧
  (r.2 ≠ None ↔ RequestNotification req = true ∧ saCache c !! CacheKey req = None) ∧
  (r.2 = None → c' = c).
Proof.
  unfold getSA. destruct (saCache c !! CacheKey req) as [e|] eqn:Hk; [intros [= <- <-]; naive_solver|].
  destruct (RequestNotification req) eqn:Hn; [|intros [= <- <-]; naive_solver].
  intros ([ch n] & Hc & [= <- <-])%bind_Some. naive_solver.
Qed.

Lemma getSA_quiet req c :
  RequestNotification req = false → getSA req c = Some (saCache c !! CacheKey req, None, c).
Proof. intros Hn. unfold getSA. rewrite Hn. by case_match. Qed.

Lemma Get_cm_spec req found nt c :
  Get_cm req found nt c =
  match (match cmCache c !! sa_key (req_Name req) (req_Namespace req) with
         | Some e => Some e | None => cmCache c !! sa_key (req_Name req) "*" end) with
  | Some e => response_of e true nt
  | None => mkResponse "" "" false DefaultTokenExpiration found nt
  end.
Proof. unfold Get_cm, getCM. by repeat case_match. Qed.

(** The answer of [Get] is the one of the specification. *)
Lemma Get_effective req c resp c' :
  Get req c = Some (resp, c') →
  saCache c' = saCache c ∧ cmCache c' = cmCache c ∧
  defaultTokenExpiration c' = defaultTokenExpiration c ∧
  (Notifier resp ≠ None ↔
     RequestNotification req = true ∧ saCache c !! CacheKey req = None) ∧
  (Notifier resp = None → c' = c) ∧
  resp = match effective (saCache c) (cmCache c) (req_Name req) (req_Namespace req) with
         | Some e => response_of e true (Notifier resp)
         | None => mkResponse "" "" false DefaultTokenExpiration
                     (bool_decide (is_Some (saCache c !! CacheKey req))) (Notifier resp)
         end.
Proof.
  unfold Get. intros ([[entry nt] c1] & HSA & H)%bind_Some.
  apply getSA_spec in HSA as (Hentry & Hsa & Hcm & Hd & Hnt & Hid); simpl in *. subst entry.
  unfold effective. rewrite <- CacheKey_sa_key.
  destruct (saCache c !! CacheKey req) as [e|] eqn:Hk; [|injection H as <- <-];
    [case_decide; injection H as <- <-|].
  - rewrite decide_False by done. simpl. naive_solver.
  - rewrite Get_cm_spec, Hcm, decide_True by done.
    rewrite CacheKey_sa_key in *. repeat case_match; simpl; naive_solver.
  - rewrite Get_cm_spec, Hcm. rewrite CacheKey_sa_key in *. repeat case_match; simpl; naive_solver.
Qed.

(** An account cached with a role is answered at once, whatever is asked. *)
Lemma Get_cached req c e :
  saCache c !! CacheKey req = Some e → RoleARN e ≠ "" → Get req c = Some (response_of e true None, c).
Proof. intros He Hr. unfold Get, getSA. rewrite He. simpl. by rewrite decide_True. Qed.

Lemma Get_quiet req c :
  RequestNotification req = false → ∃ resp, Get req c = Some (resp, c) ∧ Notifier resp = None.
Proof.
  intros Hn. unfold Get. rewrite getSA_quiet by done. simpl. unfold Get_cm.
  repeat case_match; eexists; split; try done.
Qed.

Lemma GetCommon_lookup name ns c :
  GetCommonConfigurations name ns c =
  match saCache c !! sa_key name ns with
  | Some e => (UseRegionalSTS e, TokenExpiration e)
  | None => match cmCache c !! sa_key name ns with
            | Some e => (UseRegionalSTS e, TokenExpiration e)
            | None => (false, DefaultTokenExpiration)
            end
  end.
Proof.
  unfold GetCommonConfigurations. rewrite getSA_quiet by done. unfold getCM.
  change (CacheKey _) with (sa_key name ns). by destruct (saCache c !! sa_key name ns).
Qed.

End reading.

#[export] Instance serviceAccountCache_laws : ServiceAccountCacheLaws serviceAccountCache.
Proof.
  split.
  - intros req s resp s' (_ & _ & _ & _ & _ & ->)%Get_effective.
    destruct (effective _ _ _ _); simpl; done.
  - intros req s Hn. by apply Get_quiet.
  - intros req s resp s' (Hsa & Hcm & _)%Get_effective name ns. simpl.
    by rewrite !GetCommon_lookup, Hsa, Hcm.
Qed.

(** ** Writing: lemmas *)

Section writing.
Implicit Types (c : serviceAccountCache).

Lemma New_wf aud prefix sts exp comp : cache_wf (New aud prefix sts exp comp).
Proof. split; simpl; [apply newNotifications_wf|]. set_solver. Qed.

Lemma getSA_wf req c r c' : cache_wf c → getSA req c = Some (r, c') → cache_wf c'.
Proof.
  intros [Hn Hw] H. unfold getSA in H.
  destruct (saCache c !! CacheKey req) as [e|] eqn:Hk; [by simplify_eq|].
  destruct (RequestNotification req); [|by simplify_eq].
  apply bind_Some in H as ([ch n] & Hcr & [= _ <-]). split; simpl; [by eapply create_wf|].
  intros k ch' Hk'. apply create_spec in Hcr as [[_ ->]|(_ & _ & ->)]; [by eapply Hw|]. simpl in Hk'.
  apply lookup_insert_Some in Hk' as [[<- _]|[_ ?]]; [done|by eapply Hw].
Qed.

(** In a well-formed state [setSA] returns, releases the waiters of its key and touches no
    other. *)
Lemma setSA_spec name ns e c :
  cache_wf c →
  ∃ n, broadcast (sa_key name ns) (notifs c) = Returned n ∧
    setSA name ns e c = Returned (with_notifs n (with_saCache (<[sa_key name ns := e]> (saCache c)) c)) ∧
    handlers n = delete (sa_key name ns) (handlers (notifs c)) ∧
    (∀ ch, is_closed ch n ↔ is_closed ch (notifs c) ∨ handlers (notifs c) !! sa_key name ns = Some ch) ∧
    cache_wf (with_notifs n (with_saCache (<[sa_key name ns := e]> (saCache c)) c)).
Proof.
  intros [Hn Hw]. destruct (broadcast_spec (sa_key name ns) _ Hn) as (n & Hb & Hn' & Hh & _ & _ & _ & Hc).
  exists n. unfold setSA. rewrite Hb. split_and!; try done. split; simpl; [done|].
  intros k ch. rewrite Hh. intros [Hne Hk]%lookup_delete_Some.
  rewrite lookup_insert_ne by done. by eapply Hw.
Qed.

Lemma addSA_spec sa c :
  cache_wf c →
  ∃ c', addSA sa c = Returned c' ∧ cache_wf c' ∧
    saCache c' = <[sa_key (sa_Name sa) (sa_Namespace sa) := entry_of_sa c sa]> (saCache c) ∧
    cmCache c' = cmCache c ∧ defaultTokenExpiration c' = defaultTokenExpiration c ∧
    handlers (notifs c') = delete (sa_key (sa_Name sa) (sa_Namespace sa)) (handlers (notifs c)) ∧
    (∀ ch, is_closed ch (notifs c') ↔ is_closed ch (notifs c) ∨
       handlers (notifs c) !! sa_key (sa_Name sa) (sa_Namespace sa) = Some ch).
Proof.
  intros [Hn Hw]. unfold addSA.
  destruct (setSA_spec (sa_Name sa) (sa_Namespace sa) (entry_of_sa c sa) (with_webhookUsage 1 c))
    as (n & Hb & -> & Hh & Hc & Hwf); [by split|].
  eexists; split; [done|]. split_and!; try done. 
Qed.

Lemma popSA_wf name ns c : cache_wf c → cache_wf (popSA name ns c).
Proof.
  intros [Hn Hw]. split; simpl; [done|]. intros k ch Hk.
  apply lookup_delete_None. right. by eapply Hw.
Qed.

Lemma with_cmCache_wf m c : cache_wf c → cache_wf (with_cmCache m c).
Proof. by intros [Hn Hw]; split. Qed.

Lemma Clear_wf c : cache_wf c → cache_wf (Clear c).
Proof. intros [Hn Hw]. split; simpl; [done|]. intros. apply lookup_empty. Qed.

(** What one annotation-derived entry asks for as the life time of tokens. *)
Lemma role_arn_not_empty comp arn : arn ≠ "" → role_arn comp arn ≠ "".
Proof. unfold role_arn. by destruct (negb _ && _). Qed.

Lemma entry_of_sa_expiration c sa :
  (MinTokenExpiration ≤ defaultTokenExpiration c)%Z →
  (MinTokenExpiration ≤ TokenExpiration (entry_of_sa c sa))%Z.
Proof. intros. simpl. repeat case_match; auto with go. Qed.

End writing.

#[export] Hint Resolve New_wf getSA_wf popSA_wf with_cmCache_wf Clear_wf : go.

(** ** The ConfigMap: lemmas *)

Section configmap.
Implicit Types (c : serviceAccountCache) (sas : gmap string (option Entry)).

Lemma key_ok_split k : key_ok k → ∃ ns name, GoStrings.Split k "/" = [ns; name] ∧ k = sa_key name ns.
Proof.
  unfold key_ok. intros Hk. pose proof (Join_Split "/" k) as Hj.
  destruct (GoStrings.Split k "/") as [|ns [|name [|]]]; try done.
  exists ns, name. by rewrite <- Hj.
Qed.

Lemma sa_key_ok name ns : has_char "/" ns = false → has_char "/" name = false → key_ok (sa_key name ns).
Proof.
  intros Hns Hname. unfold key_ok, sa_key.
  change ("/" +:+ name) with (String "/" name). rewrite Split_sep by done. by rewrite Split_no_sep.
Qed.

Lemma with_cmCache_same m m' c : with_cmCache m (with_cmCache m' c) = with_cmCache m c.
Proof. done. Qed.

Lemma with_cmCache_id c : with_cmCache (cmCache c) c = c.
Proof. by destruct c. Qed.

(** A well-formed pair is stored under its own key. *)
Lemma set_from_config_ok c k e :
  key_ok k →
  set_from_config c (k, Some e) =
    Returned (with_cmCache (<[k := fix_expiration (defaultTokenExpiration c) e]> (cmCache c)) c).
Proof. intros (ns & name & Hs & ->)%key_ok_split. unfold set_from_config. by rewrite Hs. Qed.

Lemma pop_from_config_ok sas c k e :
  key_ok k →
  pop_from_config sas c (k, e) =
    Returned (if decide (is_Some (sas !! k)) then c else with_cmCache (delete k (cmCache c)) c).
Proof.
  intros (ns & name & Hs & ->)%key_ok_split. unfold pop_from_config. simpl. rewrite Hs.
  by destruct (sas !! _).
Qed.

(** The first loop over well-formed pairs, whatever their order. *)
Definition fixed_pair (dflt : Z) (kv : string * option Entry) : option (string * Entry) :=
  e ← kv.2; Some (kv.1, fix_expiration dflt e).

Lemma fixed_pair_Some dflt kv k e :
  fixed_pair dflt kv = Some (k, e) ↔ ∃ e0, kv = (k, Some e0) ∧ e = fix_expiration dflt e0.
Proof.
  destruct kv as [k' [e'|]]; unfold fixed_pair; simpl; split.
  - intros [= <- <-]. by exists e'.
  - by intros (e0 & [= -> ->] & ->).
  - done.
  - by intros (e0 & [=] & _).
Qed.

Lemma fixed_pair_key dflt l k e : (k, e) ∈ omap (fixed_pair dflt) l → k ∈ l.*1.
Proof.
  intros (kv & Hin & (e0 & -> & _)%fixed_pair_Some)%list_elem_of_omap.
  apply list_elem_of_fmap. by exists (k, Some e0).
Qed.

Lemma set_loop_ok c l :
  NoDup l.*1 → Forall (λ kv, key_ok kv.1 ∧ is_Some kv.2) l →
  outcome_foldl set_from_config c l =
    Returned (with_cmCache
      (list_to_map (omap (fixed_pair (defaultTokenExpiration c)) l) ∪ cmCache c) c).
Proof.
  revert c. induction l as [|[k oe] l IH]; intros c; cbn [outcome_foldl].
  - intros _ _. simpl. by rewrite map_empty_union, with_cmCache_id.
  - rewrite fmap_cons. intros [Hk Hnd]%NoDup_cons [[Hok [e He]] Hl]%Forall_cons.
    simpl in Hk, Hok, He. subst oe.
    rewrite set_from_config_ok by done. cbn [outcome_bind]. rewrite IH by done. simpl.
    rewrite with_cmCache_same, <- insert_union_l. do 2 f_equal. symmetry. apply insert_union_r.
    apply not_elem_of_list_to_map_1. intros ([k' e'] & -> & Hin)%list_elem_of_fmap.
    by apply fixed_pair_key in Hin.
Qed.

Lemma pop_loop_ok sas c l :
  Forall (λ kv, key_ok kv.1) l →
  ∃ m, outcome_foldl (pop_from_config sas) c l = Returned (with_cmCache m c) ∧
    ∀ k, m !! k = if decide (k ∈ l.*1 ∧ sas !! k = None) then None else cmCache c !! k.
Proof.
  revert c. induction l as [|[k0 e] l IH]; intros c; cbn [outcome_foldl].
  - intros _. exists (cmCache c). rewrite with_cmCache_id. split; [done|]. intros k.
    rewrite decide_False; [done|]. set_solver.
  - intros [Hk0 Hl]%Forall_cons. simpl in Hk0. rewrite pop_from_config_ok by done. cbn [outcome_bind fmap list_fmap fst].
    case_decide as Hs.
    + destruct (IH c Hl) as (m & -> & Hm). exists m. split; [done|]. intros k. rewrite Hm.
      apply decide_ext. rewrite elem_of_cons. apply not_eq_None_Some in Hs. naive_solver.
    + destruct (IH (with_cmCache (delete k0 (cmCache c)) c) Hl) as (m & -> & Hm).
      exists m. split; [done|]. intros k. rewrite Hm. simpl.
      apply eq_None_not_Some in Hs. rewrite lookup_delete.
      repeat case_decide; rewrite ?elem_of_cons in *; naive_solver.
Qed.

Lemma range_keys r sas : range_ok r → NoDup (r sas).*1.
Proof. intros Hr. rewrite (Hr sas). apply NoDup_fst_map_to_list. Qed.

Lemma range_elem r sas kv : range_ok r → kv ∈ r sas ↔ sas !! kv.1 = Some kv.2.
Proof. intros Hr. rewrite (Hr sas). destruct kv. apply elem_of_map_to_list. Qed.

Lemma range_key_dom r sas k : range_ok r → k ∈ (r sas).*1 ↔ is_Some (sas !! k).
Proof.
  intros Hr. rewrite list_elem_of_fmap. split.
  - intros ([k' e] & -> & Hin%range_elem); [by exists e|done].
  - intros [e He]. exists (k, e). split; [done|]. by apply range_elem.
Qed.

Lemma range_config_ok r sas :
  range_ok r → config_ok sas → Forall (λ kv, key_ok kv.1 ∧ is_Some kv.2) (r sas).
Proof.
  intros Hr Hok. apply Forall_forall. intros [k e] Hin%range_elem; [|done]. by eapply Hok.
Qed.

(** The pairs of a configuration, in any order, are its entries. *)
Lemma fixed_pairs_map dflt r sas :
  range_ok r → list_to_map (omap (fixed_pair dflt) (r sas)) = config_entries dflt sas.
Proof.
  intros Hr. apply map_eq. intros k. apply option_eq. intros e.
  unfold config_entries. rewrite lookup_fmap, lookup_omap.
  rewrite <- elem_of_list_to_map.
  - rewrite list_elem_of_omap. setoid_rewrite fixed_pair_Some. setoid_rewrite range_elem; [|done].
    rewrite fmap_Some. setoid_rewrite bind_Some. simpl.
    split; [intros (? & ? & e0 & -> & ->); simpl in *; eauto 10|].
    intros (e0 & (x & Hx & Hid) & ->). simpl in Hid. subst x. exists (k, Some e0). eauto.
  - pose proof (range_keys r sas Hr) as Hnd. induction (r sas) as [|[k' [e'|]] l IH]; simpl in *.
    + constructor.
    + apply NoDup_cons in Hnd as [Hk Hnd]. apply NoDup_cons. split; [|by apply IH].
      intros ([k2 e2] & -> & Hin)%list_elem_of_fmap. by apply fixed_pair_key in Hin.
    + apply NoDup_cons in Hnd as [_ Hnd]. by apply IH.
Qed.

(** Any successful run of [populateCacheFromCM] on well-formed configurations. *)
Lemma populate_ok r1 r2 oldCM newCM c sas olds :
  range_ok r1 → range_ok r2 → cm_Name newCM = "pod-identity-webhook" →
  unmarshal_entries (config_of newCM) = Ok sas → config_ok sas →
  match oldCM with
  | None => olds = ∅
  | Some cm => unmarshal_entries (config_of cm) = Ok olds
  end →
  map_Forall (λ k _, key_ok k) olds →
  ∃ m, populateCacheFromCM r1 r2 oldCM newCM c = Returned (Ok (), with_cmCache m c) ∧
    ∀ k, m !! k = match config_entries (defaultTokenExpiration c) sas !! k with
                  | Some e => Some e
                  | None => if decide (is_Some (olds !! k)) then None else cmCache c !! k
                  end.
Proof.
  intros Hr1 Hr2 Hname Hnew Hsas Hold Holds. unfold populateCacheFromCM.
  rewrite decide_False by (by intros []). rewrite Hnew.
  rewrite set_loop_ok by auto using range_keys, range_config_ok. simpl.
  rewrite fixed_pairs_map by done.
  assert (∀ k, config_entries (defaultTokenExpiration c) sas !! k = None → sas !! k = None) as Hce.
  { intros k. unfold config_entries. rewrite lookup_fmap, lookup_omap.
    destruct (sas !! k) as [oe|] eqn:Hk; [|done]. destruct (Hsas _ _ Hk) as [_ [e ->]]. done. }
  assert (∀ k, is_Some (config_entries (defaultTokenExpiration c) sas !! k) → is_Some (sas !! k)) as Hce'.
  { intros k [e He]. unfold config_entries in He. rewrite lookup_fmap, lookup_omap in He.
    destruct (sas !! k); [done|discriminate]. }
  destruct oldCM as [cm|].
  - rewrite Hold.
    destruct (pop_loop_ok sas (with_cmCache (config_entries (defaultTokenExpiration c) sas ∪ cmCache c) c)
      (r2 olds)) as (m & -> & Hm).
    { apply Forall_forall. intros [k e] Hin%range_elem; [|done]. by eapply Holds. }
    exists m. split; [done|]. intros k. rewrite Hm. simpl.
    rewrite lookup_union. specialize (Hce k). specialize (Hce' k).
    destruct (config_entries _ _ !! k) as [e|]; simpl.
    + rewrite decide_False; [by destruct (cmCache c !! k)|]. destruct Hce' as [x Hx]; [done|].
      intros [_ ?]. congruence.
    + replace (None ∪ cmCache c !! k) with (cmCache c !! k) by (by destruct (cmCache c !! k)).
      apply decide_ext. rewrite range_key_dom by done. naive_solver.
  - subst olds. eexists. split; [done|]. intros k. rewrite lookup_empty, lookup_union.
    destruct (config_entries _ _ !! k) as [e|]; [by destruct (cmCache c !! k)|].
    rewrite decide_False; [by destruct (cmCache c !! k)|]. by intros [? ?].
Qed.

End configmap.
