(* ===== verification/CacheProps.v ===== *)
(** * Properties of the service account cache

    What Cache.v does on every branch: the answers of [Get] against the specification
    [effective], the round trip of an annotated service account, and the ConfigMap as a
    mirror of its last version. *)

From S2P Require Import Prelude GoStd Pkg Json Notifications Cache.

(** ** Concrete values the witnesses share *)

Definition q : string := String "034" "".

Definition ex_cache : serviceAccountCache :=
  New "sts.amazonaws.com" "eks.amazonaws.com" false 86400 (mkComposeRoleArn false "" "" "").

Definition ex_sa : ServiceAccount :=
  mkServiceAccount "app" "default"
    {[ "eks.amazonaws.com/role-arn" := "arn:aws:iam::111122223333:role/s3-reader";
       "eks.amazonaws.com/token-expiration" := "60" ]}.

Definition ex_config (body : string) : ConfigMap :=
  mkConfigMap "pod-identity-webhook" {[ "config" := body ]}.

(** {"myns/mysa":{"RoleARN":"arn:a"},"myns2/mysa2":{"RoleARN":"arn:b","TokenExpiration":90}} *)
Definition ex_config1 : ConfigMap :=
  ex_config ("{" +:+ q +:+ "myns/mysa" +:+ q +:+ ":{" +:+ q +:+ "RoleARN" +:+ q +:+ ":" +:+ q +:+ "arn:a" +:+ q
    +:+ "}," +:+ q +:+ "myns2/mysa2" +:+ q +:+ ":{" +:+ q +:+ "RoleARN" +:+ q +:+ ":" +:+ q +:+ "arn:b" +:+ q
    +:+ "," +:+ q +:+ "TokenExpiration" +:+ q +:+ ":90}}").

(** {"myns/mysa":{"RoleARN":"arn:c"}} *)
Definition ex_config2 : ConfigMap :=
  ex_config ("{" +:+ q +:+ "myns/mysa" +:+ q +:+ ":{" +:+ q +:+ "RoleARN" +:+ q +:+ ":" +:+ q +:+ "arn:c" +:+ q +:+ "}}").

Definition ex_range : map_range := map_to_list.

(** ** The replay of ConfigMap events *)

(** One event: the two orders the run time picks and the new version of the ConfigMap. *)
Record cm_event := mkEvent { ev_new : map_range; ev_old : map_range; ev_cm : ConfigMap }.

(** The informer reports the first version with [AddFunc] and every later one with
    [UpdateFunc] and the version before. *)
Fixpoint replay (prev : option ConfigMap) (evs : list cm_event) (c : serviceAccountCache)
    : outcome serviceAccountCache :=
  match evs with
  | [] => Returned c
  | ev :: evs' =>
      let! c' := onCMEvent (ev_new ev) (ev_old ev) prev (ev_cm ev) c in
      replay (Some (ev_cm ev)) evs' c'
  end.

(** A version whose configuration the cache can hold. *)
Definition good_cm (cm : ConfigMap) (sas : gmap string (option Entry)) : Prop :=
  cm_Name cm = "pod-identity-webhook" ∧ unmarshal_entries (config_of cm) = Ok sas ∧ config_ok sas.

Definition good_event (ev : cm_event) : Prop :=
  range_ok (ev_new ev) ∧ range_ok (ev_old ev) ∧ ∃ sas, good_cm (ev_cm ev) sas.

(** A key or an entry [populateCacheFromCM] cannot handle. *)
Definition bad_pair (kv : string * option Entry) : Prop :=
  kv.2 = None ∨ has_char "/" kv.1 = false.

#[export] Instance bad_pair_dec kv : Decision (bad_pair kv).
Proof. unfold bad_pair. apply _. Defined.

(** ** Lemmas *)

Lemma ex_range_ok : range_ok ex_range.
Proof. intros m. reflexivity. Qed.

Lemma ex_cache_wf : cache_wf ex_cache.
Proof. apply New_wf. Qed.

#[export] Hint Resolve ex_range_ok ex_cache_wf : go.

Lemma config_ok_keys sas : config_ok sas → map_Forall (λ k _, key_ok k) sas.
Proof. intros H k e Hk. by destruct (H k e Hk). Qed.

Lemma config_entries_dom dflt sas k :
  is_Some (config_entries dflt sas !! k) → is_Some (sas !! k).
Proof.
  unfold config_entries. rewrite lookup_fmap, lookup_omap. intros [e He].
  by destruct (sas !! k).
Qed.

(** One event takes a mirror of the old version to a mirror of the new one. *)
Lemma mirror_step r1 r2 oldCM newCM c olds sas :
  range_ok r1 → range_ok r2 → good_cm newCM sas →
  match oldCM with
  | None => olds = ∅
  | Some cm => unmarshal_entries (config_of cm) = Ok olds
  end → config_ok olds →
  cmCache c = config_entries (defaultTokenExpiration c) olds →
  onCMEvent r1 r2 oldCM newCM c =
    Returned (with_cmCache (config_entries (defaultTokenExpiration c) sas) c).
Proof.
  intros Hr1 Hr2 (Hname & Hnew & Hsas) Hold Holds Hc. unfold onCMEvent.
  destruct (populate_ok r1 r2 oldCM newCM c sas olds) as (m & -> & Hm);
    auto using config_ok_keys.
  simpl. f_equal. f_equal. apply map_eq. intros k. rewrite Hm, Hc.
  destruct (config_entries _ sas !! k) eqn:Hk; [done|]. case_decide as Ho; [done|].
  apply eq_None_not_Some. intros H%config_entries_dom. done.
Qed.

(** A pair [set_from_config] handles, and one it does not. *)
Lemma set_from_config_bad c kv : bad_pair kv → ∃ why, set_from_config c kv = Panicked why.
Proof.
  destruct kv as [k [e|]]; intros [[=]|Hk]; simpl in *; eauto. by rewrite Split_no_sep; eauto.
Qed.

Lemma set_from_config_good c kv : ¬ bad_pair kv → ∃ c', set_from_config c kv = Returned c'.
Proof.
  intros Hb. destruct kv as [k [e|]]; [|destruct Hb; by left]. simpl.
  destruct (GoStrings.Split k "/") as [|ns [|name rest]] eqn:Hs; [by apply Split_not_nil in Hs| |eauto].
  apply Split_singleton in Hs as [Hs _]. destruct Hb. by right.
Qed.

(** The two loops, over any order. *)
Lemma set_loop_panics r c sas :
  range_ok r →
  (∃ why, outcome_foldl set_from_config c (r sas) = Panicked why ∧
     ∃ k e, sas !! k = Some e ∧ (e = None ∨ has_char "/" k = false)) ∨
  (∃ c', outcome_foldl set_from_config c (r sas) = Returned c' ∧
     ¬ ∃ k e, sas !! k = Some e ∧ (e = None ∨ has_char "/" k = false)).
Proof.
  intros Hr. assert ((∃ why, outcome_foldl set_from_config c (r sas) = Panicked why) ↔
    ∃ k e, sas !! k = Some e ∧ (e = None ∨ has_char "/" k = false)) as Hiff.
  { rewrite (outcome_foldl_panics bad_pair); [|eauto using set_from_config_bad|eauto using set_from_config_good|apply _].
    rewrite Exists_exists. split.
    - intros ([k e] & Hin%range_elem & Hb); [|done]. by exists k, e.
    - intros (k & e & Hk & Hb). exists (k, e). split; [by apply range_elem|done]. }
  destruct (outcome_foldl _ _ _) as [c'|why]; [right; exists c'|left; exists why]; (split; [done|]); [|apply Hiff; eauto].
  by rewrite <- Hiff; intros [why [=]].
Qed.

Lemma pop_loop_panics r (sas olds : gmap string (option Entry)) c :
  range_ok r →
  (∃ why, outcome_foldl (pop_from_config sas) c (r olds) = Panicked why) ↔
  ∃ k, is_Some (olds !! k) ∧ sas !! k = None ∧ has_char "/" k = false.
Proof.
  intros Hr. rewrite (outcome_foldl_panics (λ kv, sas !! kv.1 = None ∧ has_char "/" kv.1 = false)); [| | |apply _].
  - rewrite Exists_exists. split.
    + intros ([k e] & Hin%range_elem & Hb); [|done]. exists k. split; [by eexists|done].
    + intros (k & [e Hk] & Hb). exists (k, e). split; [by apply range_elem|done].
  - intros a [k e] _ [Hk Hs]. unfold pop_from_config. simpl in *. rewrite Hk, Split_no_sep by done. by eexists.
  - intros a [k e] _ Hb. unfold pop_from_config. simpl in *. destruct (sas !! k) eqn:Hk; [by eexists|].
    destruct (GoStrings.Split k "/") as [|ns [|name rest]] eqn:Hs; [by apply Split_not_nil in Hs| |by eexists].
    apply Split_singleton in Hs as [Hs _]. by destruct Hb.
Qed.

(** A service account with another name or namespace has another key. *)
Lemma other_key name ns name' ns' :
  has_char "/" ns = false → has_char "/" ns' = false → (name, ns) ≠ (name', ns') →
  sa_key name ns ≠ sa_key name' ns'.
Proof. intros ? ? Hne H. apply sa_key_inj in H as [-> ->]; done. Qed.

(** The reader of the ConfigMap never runs out of fuel. *)
Lemma decode_bool_no_fuel b v : decode_bool b v ≠ Err OutOfFuel.
Proof. by destruct v. Qed.

Lemma decode_int64_no_fuel z v : decode_int64 z v ≠ Err OutOfFuel.
Proof. destruct v; simpl; try done. by case_match. Qed.

Lemma decode_entry_member_no_fuel e k v : decode_entry_member e k v ≠ Err OutOfFuel.
Proof.
  unfold decode_entry_member.
  repeat case_match; try done; apply result_bind_not_Err; try done;
    auto using decode_string_no_fuel, decode_bool_no_fuel, decode_int64_no_fuel.
Qed.

Lemma unmarshal_entries_no_fuel s : unmarshal_entries s ≠ Err OutOfFuel.
Proof.
  apply result_bind_not_Err; [apply parse_never_out_of_fuel|]. intros v. unfold decode_entries.
  destruct v as [| | | | |ms]; try done. apply decode_members_no_fuel. intros m k v.
  apply result_bind_not_Err; [|done]. unfold decode_entry_ptr. destruct v as [| | | | |ms']; try done.
  apply result_bind_not_Err; [|done]. apply decode_members_no_fuel. apply decode_entry_member_no_fuel.
Qed.

(** ** Theorems *)

(** A request that asks for no notification is always answered, the state does not
    change, and the answer is the one of the specification: the annotated role when there
    is one, else the ConfigMap entry of the service account, else the ConfigMap entry of
    its name in namespace "*", else nothing with the default expiration. *)
Theorem Get_answers_effective c name ns :
  Get (mkRequest name ns false) c =
    Some (match effective (saCache c) (cmCache c) name ns with
          | Some e => response_of e true None
          | None => mkResponse "" "" false DefaultTokenExpiration
                      (bool_decide (is_Some (saCache c !! sa_key name ns))) None
          end, c).
Proof.
  destruct (Get_quiet (mkRequest name ns false) c) as (resp & HG & Hn); [done|].
  rewrite HG. apply Get_effective in HG as (_ & _ & _ & _ & _ & ->).
  rewrite Hn. done.
Qed.

(** After an informer or the API server delivers a service account that names a role,
    every [Get] for it returns exactly what its annotations say, found in the cache, with
    no notifier and without touching the state. *)
Theorem addSA_then_Get c sa :
  cache_wf c → RoleARN (entry_of_sa c sa) ≠ "" →
  ∃ c', addSA sa c = Returned c' ∧ cache_wf c' ∧
    ∀ rn, Get (mkRequest (sa_Name sa) (sa_Namespace sa) rn) c' =
            Some (response_of (entry_of_sa c sa) true None, c').
Proof.
  intros Hwf Hrole. destruct (addSA_spec sa c Hwf) as (c' & Hadd & Hwf' & Hsa & _).
  exists c'. split_and!; [done..|]. intros rn. unfold Get, getSA.
  change (CacheKey _) with (sa_key (sa_Name sa) (sa_Namespace sa)).
  rewrite Hsa, lookup_insert_eq. cbn [mbind option_bind]. by rewrite decide_True.
Qed.

Lemma addSA_then_Get_witness :
  cache_wf ex_cache ∧ RoleARN (entry_of_sa ex_cache ex_sa) ≠ "" ∧
  ∃ c', addSA ex_sa ex_cache = Returned c' ∧ cache_wf c' ∧
    ∀ rn, Get (mkRequest "app" "default" rn) c' =
            Some (response_of (mkEntry "arn:aws:iam::111122223333:role/s3-reader"
                                 "sts.amazonaws.com" false 600) true None, c').
Proof.
  assert (RoleARN (entry_of_sa ex_cache ex_sa) ≠ "") as Hr by (vm_compute; discriminate).
  split; [exact ex_cache_wf|]. split; [exact Hr|].
  exact (addSA_then_Get ex_cache ex_sa ex_cache_wf Hr).
Defined.

(** Adding, updating or deleting one service account leaves what [Get] and
    [GetCommonConfigurations] answer for any other unchanged: the concatenated key does
    not confuse two service accounts, because a namespace has no slash. *)
Theorem sa_events_frame c sa name ns :
  cache_wf c → has_char "/" ns = false → has_char "/" (sa_Namespace sa) = false →
  (name, ns) ≠ (sa_Name sa, sa_Namespace sa) →
  let answers c' :=
    effective (saCache c') (cmCache c') name ns = effective (saCache c) (cmCache c) name ns ∧
    GetCommonConfigurations name ns c' = GetCommonConfigurations name ns c in
  (∃ c', onSAAdd sa c = Returned c' ∧ answers c') ∧
  (∀ old, ∃ c', onSAUpdate old sa c = Returned c' ∧ answers c') ∧
  answers (onSADelete (DeletedSA sa) c) ∧
  answers (onSADelete (DeletedFinalStateUnknown (Some sa)) c).
Proof.
  intros Hwf Hns Hsns Hne answers.
  pose proof (other_key _ _ _ _ Hns Hsns Hne) as Hkey.
  assert (∀ c', cmCache c' = cmCache c → saCache c' !! sa_key name ns = saCache c !! sa_key name ns →
    answers c') as Hans.
  { intros c' Hcm Hsa. unfold answers, effective. by rewrite !GetCommon_lookup, Hcm, Hsa. }
  destruct (addSA_spec sa c Hwf) as (c' & Hadd & _ & Hsa & Hcm & _).
  assert (answers c') by (apply Hans; [done|]; by rewrite Hsa, lookup_insert_ne).
  split_and!; eauto; apply Hans; try done; simpl; by rewrite lookup_delete_ne.
Qed.

Lemma sa_events_frame_witness :
  let other := "other" in
  ∃ c', onSAAdd ex_sa ex_cache = Returned c' ∧
    effective (saCache c') (cmCache c') other "default" = None.
Proof.
  intros other.
  destruct (sa_events_frame ex_cache ex_sa other "default" ex_cache_wf eq_refl eq_refl)
    as [(c' & Hadd & Heff & _) _]; [intros [=]|].
  exists c'. split; [exact Hadd|]. rewrite Heff. reflexivity.
Defined.

(** When a service account is deleted, by an object or by a tombstone, its annotations
    no longer count: the answer is the ConfigMap's alone. *)
Theorem deleted_sa_falls_back c sa :
  let c' := onSADelete (DeletedFinalStateUnknown (Some sa)) c in
  onSADelete (DeletedSA sa) c = c' ∧ cmCache c' = cmCache c ∧
  effective (saCache c') (cmCache c') (sa_Name sa) (sa_Namespace sa) =
    effective ∅ (cmCache c) (sa_Name sa) (sa_Namespace sa).
Proof.
  intros c'. split_and!; try done. unfold effective. simpl.
  by rewrite lookup_delete_eq, lookup_empty.
Qed.

(** The token life time of an annotated service account: the annotation when it is a
    64-bit integer, raised to the 600 seconds the API server demands, and the flag's value
    otherwise; so it is never below the minimum when the flag's value is not. *)
Theorem entry_of_sa_token_expiration c sa z :
  Strconv.int64 z →
  TokenExpiration (entry_of_sa c (mkServiceAccount (sa_Name sa) (sa_Namespace sa)
      (<[annotationPrefix c +:+ "/" +:+ TokenExpirationAnnotation := pretty z]> (sa_Annotations sa))))
    = Z.max 600 z ∧
  (annotation c sa TokenExpirationAnnotation = None →
     TokenExpiration (entry_of_sa c sa) = defaultTokenExpiration c) ∧
  ((600 ≤ defaultTokenExpiration c)%Z → (600 ≤ TokenExpiration (entry_of_sa c sa))%Z).
Proof.
  intros Hz. split_and!.
  - unfold entry_of_sa, annotation. cbn [TokenExpiration sa_Annotations].
    rewrite lookup_insert_eq, ParseInt_pretty by done. by rewrite ValidateMin_max.
  - intros Ha. unfold entry_of_sa. cbn [TokenExpiration]. by rewrite Ha.
  - apply entry_of_sa_expiration.
Qed.

Lemma entry_of_sa_token_expiration_witness :
  TokenExpiration (entry_of_sa ex_cache (mkServiceAccount "app" "default"
      (<["eks.amazonaws.com/token-expiration" := "-5"]> (sa_Annotations ex_sa)))) = 600%Z ∧
  (600 ≤ TokenExpiration (entry_of_sa ex_cache ex_sa))%Z.
Proof.
  assert (Strconv.int64 (-5)) as Hz by (unfold Strconv.int64, Strconv.min_int64, Strconv.max_int64; lia).
  destruct (entry_of_sa_token_expiration ex_cache ex_sa (-5) Hz) as (H1 & _ & H3).
  split; [exact H1|]. apply H3. simpl. lia.
Defined.

(** The ConfigMap half of the cache is a mirror: whatever orders the run time picks for
    its [range] loops, after the informer has reported any sequence of well-formed versions
    the cache holds exactly the entries of the last one (a zero expiration replaced by the
    flag's value), and nothing else of the state has changed. *)
Theorem configmap_mirror c evs last sas :
  cmCache c = ∅ → Forall good_event (evs ++ [last]) → good_cm (ev_cm last) sas →
  replay None (evs ++ [last]) c =
    Returned (with_cmCache (config_entries (defaultTokenExpiration c) sas) c).
Proof.
  intros Hempty Hgood Hlast.
  assert (∀ prev olds c, Forall good_event (evs ++ [last]) → config_ok olds →
    match prev with None => olds = ∅ | Some cm => unmarshal_entries (config_of cm) = Ok olds end →
    cmCache c = config_entries (defaultTokenExpiration c) olds →
    replay prev (evs ++ [last]) c =
      Returned (with_cmCache (config_entries (defaultTokenExpiration c) sas) c)) as Hgen.
  { clear c Hempty Hgood. induction evs as [|ev evs IH]; intros prev olds c Hgood Holds Hprev Hc.
    - apply Forall_singleton in Hgood as (Hr1 & Hr2 & _). cbn [app replay].
      by rewrite (mirror_step _ _ _ _ _ olds sas).
    - apply Forall_cons in Hgood as [(Hr1 & Hr2 & sas1 & Hcm) Hgood]. cbn [app replay].
      rewrite (mirror_step _ _ _ _ _ olds sas1) by done. cbn [outcome_bind].
      destruct Hcm as (_ & Hu & Hok). by rewrite (IH (Some (ev_cm ev)) sas1). }
  apply (Hgen None ∅); [done|apply map_Forall_empty|done|].
  rewrite Hempty. unfold config_entries. by rewrite omap_empty, fmap_empty.
Qed.

Lemma configmap_mirror_witness :
  ∃ c, replay None [mkEvent ex_range ex_range ex_config1; mkEvent ex_range ex_range ex_config2] ex_cache
         = Returned c ∧
    cmCache c = {[ "myns/mysa" := mkEntry "arn:c" "" false 86400 ]}.
Proof.
  assert (good_cm ex_config1 {[ "myns/mysa" := Some (mkEntry "arn:a" "" false 0);
                                "myns2/mysa2" := Some (mkEntry "arn:b" "" false 90) ]}) as H1.
  { split; [reflexivity|]. split; [vm_compute; reflexivity|by_decision]. }
  assert (good_cm ex_config2 {[ "myns/mysa" := Some (mkEntry "arn:c" "" false 0) ]}) as H2.
  { split; [reflexivity|]. split; [vm_compute; reflexivity|by_decision]. }
  eexists. split.
  - eapply (configmap_mirror ex_cache [mkEvent ex_range ex_range ex_config1]
      (mkEvent ex_range ex_range ex_config2)); [reflexivity| |exact H2].
    repeat constructor; try exact ex_range_ok; eexists; [exact H1|exact H2].
  - vm_compute. reflexivity.
Defined.

(** C38. When the handler of the ConfigMap panics, whatever order the entries are visited in: exactly
    when the version it is told of is the pod-identity-webhook one and decodes, and either has a
    null entry or a key without a slash, or the version before decodes and has a key without a
    slash that the new one no longer has; on every other version, the first or a later one,
    it returns. *)
Theorem configmap_panics_iff r1 r2 oldCM newCM c :
  range_ok r1 → range_ok r2 →
  (∃ why, populateCacheFromCM r1 r2 oldCM newCM c = Panicked why) ↔
  cm_Name newCM = "pod-identity-webhook" ∧
  ∃ sas, unmarshal_entries (config_of newCM) = Ok sas ∧
    ((∃ k e, sas !! k = Some e ∧ (e = None ∨ has_char "/" k = false)) ∨
     ∃ old olds k, oldCM = Some old ∧ unmarshal_entries (config_of old) = Ok olds ∧
       is_Some (olds !! k) ∧ sas !! k = None ∧ has_char "/" k = false).
Proof.
  intros Hr1 Hr2. unfold populateCacheFromCM. case_decide as Hname; [naive_solver|].
  rewrite Hname. clear Hname.
  destruct (unmarshal_entries (config_of newCM)) as [sas|]; [|naive_solver].
  destruct (set_loop_panics r1 c sas Hr1) as [(why & -> & Hbad)|(c1 & -> & Hgood)]; cbn [outcome_bind].
  { split; [|by eexists]. intros _. split; [done|]. exists sas. auto. }
  transitivity (∃ old olds k, oldCM = Some old ∧ unmarshal_entries (config_of old) = Ok olds ∧
    is_Some (olds !! k) ∧ sas !! k = None ∧ has_char "/" k = false).
  2: { split; [by eauto 10|]. intros (_ & sas' & [= <-] & [Hbad|Hx]); [by destruct Hgood|exact Hx]. }
  destruct oldCM as [old|]; [|split; [by intros [why [=]]|by intros (? & ? & ? & [=] & _)]].
  destruct (unmarshal_entries (config_of old)) as [olds|] eqn:Hold.
  2: { split; [by intros [why [=]]|]. intros (old' & olds & k & [= <-] & Ho & _). congruence. }
  transitivity (∃ why, outcome_foldl (pop_from_config sas) c1 (r2 olds) = Panicked why).
  { destruct (outcome_foldl _ _ _) as [c2|why]; cbn [outcome_bind]; [by split; intros [why [=]]|by split; eexists]. }
  rewrite (pop_loop_panics r2 sas olds c1 Hr2). split.
  - intros (k & Hk). by exists old, olds, k.
  - intros (old' & olds' & k & [= <-] & Ho & Hk). exists k. rewrite Hold in Ho. by injection Ho as <-.
Qed.

(** {"mysa":{}} and a version without it. *)
Definition ex_no_slash : ConfigMap := ex_config ("{" +:+ q +:+ "mysa" +:+ q +:+ ":{}}").

Lemma configmap_panics_iff_witness :
  (∃ why, populateCacheFromCM ex_range ex_range None ex_no_slash ex_cache = Panicked why) ∧
  (∃ why, populateCacheFromCM ex_range ex_range (Some ex_no_slash) ex_config2 ex_cache = Panicked why).
Proof.
  split.
  - apply (configmap_panics_iff ex_range ex_range None ex_no_slash ex_cache ex_range_ok ex_range_ok).
    split; [reflexivity|]. exists {[ "mysa" := Some zeroEntry ]}. split; [vm_compute; reflexivity|].
    left. exists "mysa", (Some zeroEntry). split; [reflexivity|]. right. reflexivity.
  - apply (configmap_panics_iff ex_range ex_range (Some ex_no_slash) ex_config2 ex_cache ex_range_ok ex_range_ok).
    split; [reflexivity|]. exists {[ "myns/mysa" := Some (mkEntry "arn:c" "" false 0) ]}. split; [vm_compute; reflexivity|].
    right. exists ex_no_slash, {[ "mysa" := Some zeroEntry ]}, "mysa". split; [reflexivity|]. split; [vm_compute; reflexivity|].
    split; [by eexists|]. split; reflexivity.
Defined.

(** When the old version does not decode, the error is reported after the new entries
    are in: the new entries are served, but an entry only the cache had stays. *)
Theorem configmap_old_error_keeps_stale r1 r2 oldCM newCM c sas e :
  range_ok r1 → good_cm newCM sas → unmarshal_entries (config_of oldCM) = Err e →
  populateCacheFromCM r1 r2 (Some oldCM) newCM c =
    Returned (Err (FailedUnmarshalOld (config_of oldCM) e),
              with_cmCache (config_entries (defaultTokenExpiration c) sas ∪ cmCache c) c).
Proof.
  intros Hr (Hname & Hnew & Hsas) Hold. unfold populateCacheFromCM.
  rewrite decide_False by (by intros []). rewrite Hnew.
  rewrite set_loop_ok by auto using range_keys, range_config_ok.
  rewrite fixed_pairs_map by done. cbn [outcome_bind]. by rewrite Hold.
Qed.

Lemma configmap_old_error_keeps_stale_witness :
  ∃ c', populateCacheFromCM ex_range ex_range (Some (ex_config "{")) ex_config2
          (setCM "gone" "myns" zeroEntry ex_cache)
        = Returned (Err (FailedUnmarshalOld "{" SyntaxError), c') ∧
    getCM "gone" "myns" c' = Some zeroEntry ∧ is_Some (getCM "mysa" "myns" c').
Proof.
  eexists. split.
  - apply (configmap_old_error_keeps_stale ex_range ex_range (ex_config "{") ex_config2 _
      {[ "myns/mysa" := Some (mkEntry "arn:c" "" false 0) ]} SyntaxError ex_range_ok).
    + split; [reflexivity|]. split; [vm_compute; reflexivity|by_decision].
    + vm_compute. reflexivity.
  - split; vm_compute; [reflexivity|]. eexists. reflexivity.
Defined.

(** The only wildcard is the whole namespace: an entry for "test-*" (or any other
    pattern) is never the answer for a namespace with another name. *)
Theorem namespace_patterns_do_not_match c pattern name ns e :
  has_char "/" pattern = false → has_char "/" ns = false → pattern ≠ "*" → pattern ≠ ns →
  saCache c = ∅ → cmCache c = {[ sa_key name pattern := e ]} →
  Get (mkRequest name ns false) c =
    Some (mkResponse "" "" false DefaultTokenExpiration false None, c).
Proof.
  intros Hp Hns Hstar Hne Hsa Hcm.
  destruct (Get_quiet (mkRequest name ns false) c) as (resp & HG & Hn); [done|].
  rewrite HG. apply Get_effective in HG as (_ & _ & _ & _ & _ & ->). rewrite Hn.
  unfold effective. cbn [req_Name req_Namespace]. rewrite CacheKey_sa_key, Hsa, Hcm, !lookup_empty.
  rewrite !lookup_singleton_ne; [done|..]; apply other_key; try done; congruence.
Qed.

Lemma namespace_patterns_do_not_match_witness :
  Get (mkRequest "sa" "test-1" false) (setCM "sa" "test-*" (mkEntry "arn" "" true 0) ex_cache)
    = Some (mkResponse "" "" false 86400 false None, setCM "sa" "test-*" (mkEntry "arn" "" true 0) ex_cache).
Proof.
  apply (namespace_patterns_do_not_match _ "test-*" "sa" "test-1" (mkEntry "arn" "" true 0));
    try reflexivity; intros [=].
Defined.

(** The configuration shared with the container-credentials method does not know the
    wildcard: for a service account that only a "*" entry configures, [Get] returns that
    entry and [GetCommonConfigurations] the defaults. *)
Theorem common_configurations_ignore_wildcard c name ns e :
  saCache c !! sa_key name ns = None → cmCache c !! sa_key name ns = None →
  cmCache c !! sa_key name "*" = Some e →
  Get (mkRequest name ns false) c = Some (response_of e true None, c) ∧
  GetCommonConfigurations name ns c = (false, DefaultTokenExpiration).
Proof.
  intros Hsa Hcm Hw. split.
  - destruct (Get_quiet (mkRequest name ns false) c) as (resp & HG & Hn); [done|].
    rewrite HG. apply Get_effective in HG as (_ & _ & _ & _ & _ & ->). rewrite Hn.
    unfold effective. cbn [req_Name req_Namespace]. by rewrite Hsa, Hcm, Hw.
  - by rewrite GetCommon_lookup, Hsa, Hcm.
Qed.

Lemma common_configurations_ignore_wildcard_witness :
  let c := setCM "sa" "*" (mkEntry "arn" "aud" true 3600) ex_cache in
  Get (mkRequest "sa" "ns" false) c = Some (mkResponse "arn" "aud" true 3600 true None, c) ∧
  GetCommonConfigurations "sa" "ns" c = (false, 86400%Z).
Proof.
  intros c. apply (common_configurations_ignore_wildcard c "sa" "ns" (mkEntry "arn" "aud" true 3600));
    reflexivity.
Defined.
