(* ===== verification/RoleArn.v ===== *)
(** * The check of role ARNs

    [addSA] of src/pkg/cache/cache.go matches the ARN of an account against a regular
    expression and warns when it does not match. The file has the expressions the check
    needs with an executable matcher, proved to decide their language, the expression
    itself, and what it accepts. *)

From S2P Require Import Prelude GoStd Pkg Notifications Cache.

(** ** Regular expressions *)

Module Regexp.

(** A class is a predicate on bytes. *)
Inductive regexp : Type :=
| NoMatch
| EmptyMatch
| CharClass (p : ascii → bool)
| Concat (r1 r2 : regexp)
| Alternate (r1 r2 : regexp)
| Star (r : regexp).

Inductive matches : regexp → string → Prop :=
| matches_empty : matches EmptyMatch ""
| matches_class p c : p c = true → matches (CharClass p) (String c "")
| matches_concat r1 r2 s1 s2 : matches r1 s1 → matches r2 s2 → matches (Concat r1 r2) (s1 +:+ s2)
| matches_left r1 r2 s : matches r1 s → matches (Alternate r1 r2) s
| matches_right r1 r2 s : matches r2 s → matches (Alternate r1 r2) s
| matches_star_nil r : matches (Star r) ""
| matches_star_cons r s1 s2 : matches r s1 → matches (Star r) s2 → matches (Star r) (s1 +:+ s2).
#[export] Hint Constructors matches : go.

Fixpoint nullable (r : regexp) : bool :=
  match r with
  | NoMatch | CharClass _ => false
  | EmptyMatch | Star _ => true
  | Concat r1 r2 => nullable r1 && nullable r2
  | Alternate r1 r2 => nullable r1 || nullable r2
  end.

(** What is left to match after the byte [c]. *)
Fixpoint after (c : ascii) (r : regexp) : regexp :=
  match r with
  | NoMatch | EmptyMatch => NoMatch
  | CharClass p => if p c then EmptyMatch else NoMatch
  | Concat r1 r2 =>
      if nullable r1 then Alternate (Concat (after c r1) r2) (after c r2) else Concat (after c r1) r2
  | Alternate r1 r2 => Alternate (after c r1) (after c r2)
  | Star r => Concat (after c r) (Star r)
  end.

(** [regexp.Match] with an expression that is anchored at both ends. *)
Fixpoint Match (r : regexp) (s : string) : bool :=
  match s with
  | EmptyString => nullable r
  | String c s' => Match (after c r) s'
  end.

(** Literals, bounded repetition and [+] in terms of the constructors. *)
Fixpoint Literal (s : string) : regexp :=
  match s with
  | EmptyString => EmptyMatch
  | String c s' => Concat (CharClass (λ c', bool_decide (c' = c))) (Literal s')
  end.

Fixpoint Repeat (n : nat) (r : regexp) : regexp :=
  match n with
  | O => EmptyMatch
  | S n' => Concat r (Repeat n' r)
  end.

Definition Plus (r : regexp) : regexp := Concat r (Star r).

End Regexp.

(** ** The expression *)

Import Regexp.

Definition between (lo hi c : ascii) : bool :=
  bool_decide (N_of_ascii lo ≤ N_of_ascii c ≤ N_of_ascii hi)%N.

Definition digit : ascii → bool := between "0" "9".
Definition partition_char (c : ascii) : bool := between "a" "z" c || digit c || bool_decide (c = "-"%char).

(** The class of [\w], and the one with the other bytes of a role's path and name; after [\w]
    the dash stands for itself. *)
Definition word_char (c : ascii) : bool :=
  between "a" "z" c || between "A" "Z" c || digit c || bool_decide (c = "_"%char).
Definition path_char (c : ascii) : bool :=
  word_char c || bool_decide (c ∈ ["-"; "/"; "."; "@"; "+"; "="; ","]%char).

Definition role_arn_pattern : regexp :=
  Concat (Literal "arn:aws") (Concat (Star (CharClass partition_char)) (Concat (Literal ":iam::")
    (Concat (Repeat 12 (CharClass digit)) (Concat (Literal ":role/") (Plus (CharClass path_char)))))).

(** What [addSA] logs about the role of an account. *)
Definition addSA_warning (c : serviceAccountCache) (sa : ServiceAccount) : option string :=
  match annotation c sa RoleARNAnnotation with
  | Some arn =>
      let arn := role_arn (composeRoleArn c) arn in
      if Match role_arn_pattern arn then None else Some ("arn is invalid: " +:+ arn)
  | None => None
  end.

(** ** The matcher decides the language *)

Lemma nullable_matches r : nullable r = true ↔ matches r "".
Proof.
  split.
  - induction r as [| |p|r1 IH1 r2 IH2|r1 IH1 r2 IH2|r IH]; simpl; intros H; try done; auto with go.
    + apply andb_true_iff in H as [H1 H2]. apply (matches_concat r1 r2 "" ""); auto.
    + apply orb_true_iff in H as [H|H]; auto with go.
  - remember "" as s eqn:Hs. induction 1 as [|p c|r1 r2 s1 s2 _ IH1 _ IH2|r1 r2 s _ IH|r1 r2 s _ IH| |];
      simpl; try done.
    + destruct s1; [|done]. rewrite IH1, IH2 by done. done.
    + by rewrite IH.
    + by rewrite IH, orb_true_r.
Qed.

(** A star that matches a non-empty string matches a first part that is not empty. *)
Lemma star_uncons r c s :
  matches (Star r) (String c s) → ∃ s1 s2, s = s1 +:+ s2 ∧ matches r (String c s1) ∧ matches (Star r) s2.
Proof.
  remember (Star r) as r' eqn:Hr. remember (String c s) as t eqn:Ht. intros H.
  induction H as [| | | | | |r0 s1 s2 H1 _ H2 IH2]; simplify_eq.
  destruct s1 as [|c1 s1]; [auto|].
  rewrite str_app_cons in Ht. injection Ht as -> <-. eauto.
Qed.

Lemma after_matches c r s : matches (after c r) s ↔ matches r (String c s).
Proof.
  split.
  - revert s. induction r as [| |p|r1 IH1 r2 IH2|r1 IH1 r2 IH2|r IH]; intros s; simpl; try by inversion 1.
    + destruct (p c) eqn:Hp; [|by inversion 1]. inversion 1; subst. by constructor.
    + assert (∀ t, matches (Concat (after c r1) r2) t → matches (Concat r1 r2) (String c t)) as Hc.
      { intros t Ht. inversion Ht; subst. rewrite <- str_app_cons. auto with go. }
      destruct (nullable r1) eqn:Hn; [|auto]. inversion 1; subst; [auto|].
      apply nullable_matches in Hn. apply (matches_concat r1 r2 "" (String c s)); auto.
    + inversion 1; subst; auto with go.
    + inversion 1; subst. rewrite <- str_app_cons. auto with go.
  - revert s. induction r as [| |p|r1 IH1 r2 IH2|r1 IH1 r2 IH2|r IH]; intros s; simpl; try by inversion 1.
    + inversion 1 as [|? ? Hp| | | | |]; subst. rewrite Hp. constructor.
    + remember (String c s) as t eqn:Ht. inversion 1 as [| |? ? s1 s2 H1 H2| | | |]; subst r0 r3 t.
      destruct s1 as [|c1 s1]; [rewrite str_app_nil_l in *; subst s2|rewrite str_app_cons in *; simplify_eq].
      * rewrite (proj2 (nullable_matches r1)) by done. auto with go.
      * destruct (nullable r1); auto with go.
    + inversion 1; subst; auto with go.
    + intros (s1 & s2 & -> & H1 & H2)%star_uncons. auto with go.
Qed.

Lemma Match_matches r s : Match r s = true ↔ matches r s.
Proof.
  revert r. induction s as [|c s IH]; intros r; simpl; [apply nullable_matches|].
  by rewrite IH, after_matches.
Qed.

(** ** Languages of the building blocks *)

Fixpoint all_chars (p : ascii → bool) (s : string) : bool :=
  match s with
  | EmptyString => true
  | String c s' => p c && all_chars p s'
  end.

Lemma matches_Concat r1 r2 s :
  matches (Concat r1 r2) s ↔ ∃ s1 s2, s = s1 +:+ s2 ∧ matches r1 s1 ∧ matches r2 s2.
Proof. split; [inversion 1; subst; eauto 10|]. intros (s1 & s2 & -> & ? & ?). by constructor. Qed.

Lemma matches_class_concat p r s :
  matches (Concat (CharClass p) r) s ↔ ∃ c s', s = String c s' ∧ p c = true ∧ matches r s'.
Proof.
  rewrite matches_Concat. split.
  - intros (s1 & s2 & -> & H1 & H2). inversion H1; subst. eauto.
  - intros (c & s' & -> & Hc & Hs). exists (String c ""), s'. eauto with go.
Qed.

Lemma matches_Literal l s : matches (Literal l) s ↔ s = l.
Proof.
  revert s. induction l as [|c l IH]; intros s; cbn [Literal].
  - split; [by inversion 1|intros ->; constructor].
  - rewrite matches_class_concat. split.
    + intros (c' & s' & -> & Hc & ->%IH). by apply bool_decide_eq_true in Hc as ->.
    + intros ->. exists c, l. by rewrite bool_decide_true, IH.
Qed.

Lemma matches_star_class p s : matches (Star (CharClass p)) s ↔ all_chars p s = true.
Proof.
  induction s as [|c s IH]; cbn [all_chars]; [split; auto with go|]. rewrite andb_true_iff, <- IH. split.
  - intros (s1 & s2 & -> & H1 & H2)%star_uncons. by inversion H1; subst.
  - intros [Hc Hs]. apply (matches_star_cons _ (String c "") s); auto with go.
Qed.

Lemma matches_plus_class p s : matches (Plus (CharClass p)) s ↔ s ≠ "" ∧ all_chars p s = true.
Proof.
  unfold Plus. rewrite matches_class_concat. split.
  - intros (c & s' & -> & Hc & Hs%matches_star_class). simpl. by rewrite Hc, Hs.
  - destruct s as [|c s]; [by intros []|]. intros [_ [Hc Hs]%andb_true_iff].
    exists c, s. by rewrite matches_star_class.
Qed.

Lemma matches_repeat_class n p s :
  matches (Repeat n (CharClass p)) s ↔ String.length s = n ∧ all_chars p s = true.
Proof.
  revert s. induction n as [|n IH]; intros s; cbn [Repeat].
  - split; [by inversion 1|]. destruct s; [constructor|by intros []].
  - rewrite matches_class_concat. split.
    + intros (c & s' & -> & Hc & [<- Hs]%IH). simpl. by rewrite Hc, Hs.
    + destruct s as [|c s]; [by intros []|]. simpl. rewrite andb_true_iff. intros [Hl [Hc Hs]].
      exists c, s. rewrite IH. naive_solver.
Qed.

(** Bytes of a class do not include the colon that ends it. *)
Lemma all_chars_no_colon p s : p ":"%char = false → all_chars p s = true → has_char ":" s = false.
Proof.
  intros Hp. induction s as [|c s IH]; simpl; [done|]. intros [Hc Hs]%andb_true_iff.
  rewrite decide_False by congruence. auto.
Qed.

(** ** What the expression accepts *)

(** The alphabets are spelled out, apart from the classes of the expression. *)
Definition written_in (alphabet s : string) : bool := all_chars (λ c, has_char c alphabet) s.

Definition decimal_digits : string := "0123456789".
Definition small_letters : string := "abcdefghijklmnopqrstuvwxyz".
Definition capital_letters : string := "ABCDEFGHIJKLMNOPQRSTUVWXYZ".

Definition partition_suffix (p : string) : Prop := written_in (small_letters +:+ decimal_digits +:+ "-") p = true.
Definition account_id (a : string) : Prop := String.length a = 12 ∧ written_in decimal_digits a = true.
Definition role_path (r : string) : Prop :=
  r ≠ "" ∧ written_in (small_letters +:+ capital_letters +:+ decimal_digits +:+ "_-/.@+=,") r = true.

(** A class is an alphabet, byte for byte. *)
Lemma written_in_class alphabet p s :
  forallb (λ n, eqb (has_char (ascii_of_nat n) alphabet) (p (ascii_of_nat n))) (seq 0 256) = true →
  written_in alphabet s = all_chars p s.
Proof.
  intros Hall. unfold written_in. induction s as [|c s IH]; [done|]. cbn [all_chars]. rewrite IH. f_equal.
  rewrite forallb_forall in Hall. specialize (Hall (nat_of_ascii c)). rewrite ascii_nat_embedding in Hall.
  apply eqb_prop, Hall, in_seq. pose proof (nat_ascii_bounded c). lia.
Qed.

Lemma partition_suffix_class p : partition_suffix p ↔ all_chars partition_char p = true.
Proof. unfold partition_suffix. by rewrite (written_in_class _ partition_char) by (vm_compute; reflexivity). Qed.

Lemma account_id_class a : account_id a ↔ String.length a = 12 ∧ all_chars digit a = true.
Proof. unfold account_id. by rewrite (written_in_class _ digit) by (vm_compute; reflexivity). Qed.

Lemma role_path_class r : role_path r ↔ r ≠ "" ∧ all_chars path_char r = true.
Proof. unfold role_path. by rewrite (written_in_class _ path_char) by (vm_compute; reflexivity). Qed.

Lemma pattern_language s :
  matches role_arn_pattern s ↔
  ∃ p a r, s = "arn:aws" +:+ p +:+ ":iam::" +:+ a +:+ ":role/" +:+ r ∧
    partition_suffix p ∧ account_id a ∧ role_path r.
Proof.
  unfold role_arn_pattern. setoid_rewrite partition_suffix_class. setoid_rewrite account_id_class.
  setoid_rewrite role_path_class. split.
  - rewrite matches_Concat. intros (s1 & s2 & -> & ->%matches_Literal & (p & s3 & -> & Hp%matches_star_class &
      (s4 & s5 & -> & ->%matches_Literal & (a & s6 & -> & Ha%matches_repeat_class &
      (s7 & r & -> & ->%matches_Literal & Hr%matches_plus_class)%matches_Concat)%matches_Concat)%matches_Concat)%matches_Concat).
    by exists p, a, r.
  - intros (p & a & r & -> & Hp & Ha & Hr).
    apply matches_concat; [by apply matches_Literal|].
    apply matches_concat; [by apply matches_star_class|].
    apply matches_concat; [by apply matches_Literal|].
    apply matches_concat; [by apply matches_repeat_class|].
    apply matches_concat; [by apply matches_Literal|by apply matches_plus_class].
Qed.

(** An ARN composed of parts without colons takes them apart again. *)
Lemma composed_parts p a r p' a' r' :
  has_char ":" p = false → has_char ":" p' = false → has_char ":" a = false → has_char ":" a' = false →
  "arn:aws" +:+ p +:+ ":iam::" +:+ a +:+ ":role/" +:+ r = "arn:aws" +:+ p' +:+ ":iam::" +:+ a' +:+ ":role/" +:+ r' →
  p = p' ∧ a = a' ∧ r = r'.
Proof.
  intros Hp Hp' Ha Ha'. rewrite !str_app_cons, !str_app_nil_l. intros Heq. simplify_eq.
  apply str_sep_inj in Heq as [-> Heq]; [|done..]. simplify_eq.
  apply str_sep_inj in Heq as [-> Heq]; [|done..]. by simplify_eq.
Qed.

(** ** Properties *)

(** C24. The check of [addSA] is its reference: an annotated role is warned about exactly when
    it has not the five parts of a role's ARN, with a partition of aws in small letters, digits
    and hyphens, an account of twelve digits, and a path that is not empty and has letters,
    digits and the characters _-/.@+=, only. *)
Theorem warning_iff_malformed (c : serviceAccountCache) (sa : ServiceAccount) :
  addSA_warning c sa = None ↔
  match annotation c sa RoleARNAnnotation with
  | None => True
  | Some arn =>
      ∃ p a r, role_arn (composeRoleArn c) arn = "arn:aws" +:+ p +:+ ":iam::" +:+ a +:+ ":role/" +:+ r ∧
        partition_suffix p ∧ account_id a ∧ role_path r
  end.
Proof.
  unfold addSA_warning. destruct (annotation c sa RoleARNAnnotation) as [arn|]; [|done]. cbv zeta.
  rewrite <- pattern_language, <- Match_matches. by destruct (Match _ _).
Qed.

(** A role composed of a name: what is warned about is the account of the webhook or the
    name, since the partition is one of those main.go chooses. *)
Lemma composed_warning c sa p name :
  annotation c sa RoleARNAnnotation = Some name → GoStrings.Contains name "arn:" = false →
  Enabled (composeRoleArn c) = true → Partition (composeRoleArn c) = "aws" +:+ p →
  all_chars partition_char p = true → has_char ":" (AccountID (composeRoleArn c)) = false →
  addSA_warning c sa = None ↔ account_id (AccountID (composeRoleArn c)) ∧ role_path name.
Proof.
  intros Hann Hname He Hpart Hp Hacc. unfold addSA_warning. rewrite Hann. cbv zeta.
  assert (role_arn (composeRoleArn c) name =
    "arn:aws" +:+ p +:+ ":iam::" +:+ AccountID (composeRoleArn c) +:+ ":role/" +:+ name) as ->.
  { unfold role_arn. rewrite Hname, He, Hpart. cbn [negb andb]. by autorewrite with go_str. }
  pose proof (all_chars_no_colon partition_char p eq_refl Hp) as Hpc.
  transitivity (matches role_arn_pattern
    ("arn:aws" +:+ p +:+ ":iam::" +:+ AccountID (composeRoleArn c) +:+ ":role/" +:+ name)).
  { rewrite <- Match_matches. by destruct (Match _ _). }
  rewrite pattern_language. split.
  - intros (p' & a' & r' & Heq & Hp' & Ha' & Hr').
    apply composed_parts in Heq as (-> & -> & ->); [done|done| |done|].
    + by apply (all_chars_no_colon partition_char); [|apply partition_suffix_class].
    + apply (all_chars_no_colon digit); [done|]. by apply account_id_class in Ha' as [_ Ha'].
  - intros [Ha Hr]. exists p, (AccountID (composeRoleArn c)), name. by rewrite partition_suffix_class.
Qed.

Example pattern_accepts :
  Match role_arn_pattern "arn:aws-us-gov:iam::111122223333:role/team-a/s3.reader@prod,x=1+2" = true ∧
  Match role_arn_pattern "arn:aws:iam::11112222333:role/short-account" = false ∧
  Match role_arn_pattern "arn:aws:iam::111122223333:role/" = false ∧
  Match role_arn_pattern "arn:aws:iam::111122223333:user/alice" = false ∧
  Match role_arn_pattern "s3-reader" = false.
Proof. vm_compute. done. Qed.

(** With composition on, an empty annotation names a role too, one without a name. *)
Example empty_annotation_composed :
  role_arn (mkComposeRoleArn true "111122223333" "aws" "eu-west-1") "" = "arn:aws:iam::111122223333:role/" ∧
  Match role_arn_pattern "arn:aws:iam::111122223333:role/" = false.
Proof. vm_compute. done. Qed.
