(* ===== verification/CacheSystem.v ===== *)
(** * The cache under concurrency

    The goroutines that share a [serviceAccountCache]: webhook requests inside [Get], the
    goroutine that drains the fetch requests and the ones it starts, and the informer
    handlers. A step is one critical section, so a [Get] is up to three steps and other
    goroutines run in between, as they do around the calls of [getSA] and [getCM]. That this
    loses nothing of what the locks allow is shown in Locks.v. *)

From S2P Require Import Prelude GoStd Pkg Json Notifications Cache CacheProps.

(** ** States *)

(** Where a goroutine inside [Get] stands: between [getSA] and the first [getCM], between
    the two calls of [getCM], or done. *)
Inductive get_phase :=
| AfterSA (req : Request) (found : bool) (notifier : option chan)
| AfterCM (req : Request) (found : bool) (notifier : option chan)
| Answered (req : Request) (resp : Response).

Definition phase_notifier (p : get_phase) : Request * option chan :=
  match p with
  | AfterSA req _ nt | AfterCM req _ nt => (req, nt)
  | Answered req resp => (req, Notifier resp)
  end.

(** [in_flight]: the requests whose goroutine is asking the API server. *)
Record system := mkSystem {
  sys_cache : serviceAccountCache;
  gets : gmap nat get_phase;
  in_flight : list Request
}.

Definition initial (audience prefix : string) (regionalSTS : bool) (tokenExpiration : Z)
    (comp : ComposeRoleArn) : system :=
  mkSystem (New audience prefix regionalSTS tokenExpiration comp) ∅ [].

(** ** Steps *)

(** The first critical section of [Get]: an entry with a role is the answer. *)
Definition getSA_phase (req : Request) (r : option Entry * option chan) : get_phase :=
  match r with
  | (Some e, nt) => if decide (RoleARN e ≠ "") then Answered req (response_of e true nt)
                    else AfterSA req true nt
  | (None, nt) => AfterSA req false nt
  end.

(** The second and third. *)
Definition getCM_phase (c : serviceAccountCache) (p : get_phase) : get_phase :=
  match p with
  | AfterSA req found nt =>
      match getCM (req_Name req) (req_Namespace req) c with
      | Some e => Answered req (response_of e true nt)
      | None => AfterCM req found nt
      end
  | AfterCM req found nt =>
      match getCM (req_Name req) "*" c with
      | Some e => Answered req (response_of e true nt)
      | None => Answered req (mkResponse "" "" false DefaultTokenExpiration found nt)
      end
  | Answered req resp => Answered req resp
  end.

Inductive step : system → system → Prop :=
| step_getSA t req r c' s :
    gets s !! t = None → getSA req (sys_cache s) = Some (r, c') →
    step s (mkSystem c' (<[t := getSA_phase req r]> (gets s)) (in_flight s))
| step_getCM t p s :
    gets s !! t = Some p →
    step s (mkSystem (sys_cache s) (<[t := getCM_phase (sys_cache s) p]> (gets s)) (in_flight s))
| step_take_fetch req n s :
    take_fetch (notifs (sys_cache s)) = Some (req, n) →
    step s (mkSystem (with_notifs n (sys_cache s)) (gets s) (in_flight s ++ [req]))
| step_fetch_err pre req post s :
    in_flight s = pre ++ req :: post → step s (mkSystem (sys_cache s) (gets s) (pre ++ post))
| step_fetch_ok pre req post sa c' s :
    in_flight s = pre ++ req :: post →
    sa_Name sa = req_Name req → sa_Namespace sa = req_Namespace req →
    addSA sa (sys_cache s) = Returned c' → step s (mkSystem c' (gets s) (pre ++ post))
| step_sa_event sa c' s :
    addSA sa (sys_cache s) = Returned c' → step s (mkSystem c' (gets s) (in_flight s))
| step_sa_delete obj s :
    step s (mkSystem (onSADelete obj (sys_cache s)) (gets s) (in_flight s))
| step_cm_set name ns e s :
    step s (mkSystem (setCM name ns e (sys_cache s)) (gets s) (in_flight s))
| step_cm_pop name ns s :
    step s (mkSystem (popCM name ns (sys_cache s)) (gets s) (in_flight s))
| step_clear s :
    step s (mkSystem (Clear (sys_cache s)) (gets s) (in_flight s)).

Definition reachable (s0 s : system) : Prop := rtc step s0 s.

(** ** The invariant *)

(** Every notifier a [Get] holds is allocated, and it is closed or still registered under
    the key the [Get] asked for. *)
Record sys_wf (s : system) : Prop := {
  wf_cache : cache_wf (sys_cache s);
  wf_waiter : ∀ t p ch, gets s !! t = Some p → (phase_notifier p).2 = Some ch →
    is_closed ch (notifs (sys_cache s)) ∨
    handlers (notifs (sys_cache s)) !! CacheKey (phase_notifier p).1 = Some ch
}.

Definition buffer_ok (n : notifications) : Prop :=
  0 < fetch_capacity n ∧ length (fetchRequests n) ≤ fetch_capacity n.

(** ** Lemmas *)

Section system_facts.
Implicit Types (s : system) (c : serviceAccountCache).

Lemma initial_wf aud prefix sts exp comp : sys_wf (initial aud prefix sts exp comp).
Proof. split; simpl; [apply New_wf|]. intros t p ch. by rewrite lookup_empty. Qed.

(** What a step does to the registered handlers and the closed channels. *)
Record notif_step (c c' : serviceAccountCache) : Prop := {
  ns_closed : ∀ ch, is_closed ch (notifs c) → is_closed ch (notifs c');
  ns_handler : ∀ k ch, handlers (notifs c) !! k = Some ch →
    handlers (notifs c') !! k = Some ch ∨ is_closed ch (notifs c')
}.

Lemma notif_step_same c c' : notifs c' = notifs c → notif_step c c'.
Proof. intros H. split; rewrite H; eauto. Qed.

Lemma getSA_notif_step req c r c' : getSA req c = Some (r, c') → notif_step c c'.
Proof.
  unfold getSA. destruct (saCache c !! CacheKey req); [intros; simplify_eq; by apply notif_step_same|].
  destruct (RequestNotification req); [|intros; simplify_eq; by apply notif_step_same].
  intros ([ch n] & Hcr & [= _ <-])%bind_Some.
  apply create_spec in Hcr as [[_ ->]|(Hk & _ & ->)]; [by apply notif_step_same|].
  split; simpl; [done|]. intros k ch' Hk'. left. rewrite lookup_insert_ne; [done|]. intros <-. congruence.
Qed.

(** [getSA] registers the notifier it hands out. *)
Lemma getSA_registers req c e ch c' :
  getSA req c = Some ((e, Some ch), c') → handlers (notifs c') !! CacheKey req = Some ch.
Proof.
  unfold getSA. destruct (saCache c !! CacheKey req); [by intros [=]|].
  destruct (RequestNotification req); [|by intros [=]].
  intros ([ch' n] & Hcr & [= _ -> <-])%bind_Some. by apply create_handler in Hcr.
Qed.

Lemma addSA_notif_step sa c c' : cache_wf c → addSA sa c = Returned c' → notif_step c c' ∧ cache_wf c'.
Proof.
  intros Hwf Hadd. destruct (addSA_spec sa c Hwf) as (c1 & Hadd1 & Hwf1 & _ & _ & _ & Hh & Hc).
  rewrite Hadd in Hadd1. simplify_eq. split; [|done]. split.
  - intros ch Hch. apply Hc. by left.
  - intros k ch Hk. destruct (decide (k = sa_key (sa_Name sa) (sa_Namespace sa))) as [->|Hne].
    + right. apply Hc. by right.
    + left. by rewrite Hh, lookup_delete_ne.
Qed.

Lemma onSADelete_wf obj c : cache_wf c → cache_wf (onSADelete obj c).
Proof. intros. destruct obj as [sa|[sa|]|]; simpl; auto with go. Qed.

Lemma onSADelete_notifs obj c : notifs (onSADelete obj c) = notifs c.
Proof. by destruct obj as [sa|[sa|]|]. Qed.

Lemma take_fetch_spec n req n' :
  take_fetch n = Some (req, n') →
  handlers n' = handlers n ∧ heap n' = heap n ∧ fetch_capacity n' = fetch_capacity n ∧
  fetchRequests n = req :: fetchRequests n'.
Proof. unfold take_fetch. destruct (fetchRequests n) eqn:?; intros; by simplify_eq/=. Qed.

(** Waiters survive any change of the notifications that [notif_step] allows. *)
Lemma waiters_step s c' (g' : gmap nat get_phase) :
  sys_wf s → notif_step (sys_cache s) c' →
  (∀ t p ch, g' !! t = Some p → (phase_notifier p).2 = Some ch →
     (∃ p', gets s !! t = Some p' ∧ phase_notifier p' = phase_notifier p) ∨
     handlers (notifs c') !! CacheKey (phase_notifier p).1 = Some ch) →
  ∀ t p ch, g' !! t = Some p → (phase_notifier p).2 = Some ch →
    is_closed ch (notifs c') ∨ handlers (notifs c') !! CacheKey (phase_notifier p).1 = Some ch.
Proof.
  intros [_ Hw] [Hc Hh] Hg t p ch Hp Hch. destruct (Hg t p ch Hp Hch) as [(p' & Hp' & Heq)|?]; [|by right].
  destruct (Hw t p' ch Hp') as [Hcl|Hreg]; [by rewrite Heq|by left; apply Hc|].
  rewrite Heq in Hreg. destruct (Hh _ _ Hreg); [by right|by left].
Qed.

Lemma getSA_phase_notifier req r : phase_notifier (getSA_phase req r) = (req, r.2).
Proof. destruct r as [[e|] nt]; simpl; [by case_decide|done]. Qed.

Lemma getCM_phase_notifier c p : phase_notifier (getCM_phase c p) = phase_notifier p.
Proof. destruct p; simpl; by try case_match. Qed.

Ltac same_gets := intros ? ? ? ? ?; left; eauto.

Lemma step_wf s s' : sys_wf s → step s s' → sys_wf s' ∧ notif_step (sys_cache s) (sys_cache s').
Proof.
  intros Hwf Hstep. pose proof Hwf as [Hc Hw].
  assert (∀ c' fl, cache_wf c' → notif_step (sys_cache s) c' →
    sys_wf (mkSystem c' (gets s) fl) ∧ notif_step (sys_cache s) c') as Hsame.
  { intros c' fl Hc' Hn. split; [|done]. split; [done|]. simpl.
    eapply waiters_step; [done|done|same_gets]. }
  destruct Hstep; simpl; try (apply Hsame; [solve [auto with go]|by apply notif_step_same]).
  - assert (notif_step (sys_cache s) c') as Hn by (by eapply getSA_notif_step).
    split; [|done]. split; simpl; [by eapply getSA_wf|].
    eapply waiters_step; [done|done|]. intros t' p ch [[<- <-]|[_ Hp]]%lookup_insert_Some; [|eauto].
    rewrite getSA_phase_notifier. simpl. intros Hch. right. destruct r as [e nt]. simpl in Hch. subst nt.
    by eapply getSA_registers.
  - split; [|by apply notif_step_same]. split; simpl; [done|].
    eapply waiters_step; [done|by apply notif_step_same|].
    intros t' p' ch [[<- <-]|[_ Hp]]%lookup_insert_Some; [|eauto].
    rewrite getCM_phase_notifier. eauto.
  - pose proof (take_fetch_spec _ _ _ H) as (Hh & Hhp & _).
    apply Hsame.
    + destruct Hc as [Hn Hs]. split; simpl; [by eapply take_fetch_wf|]. by rewrite Hh.
    + split; simpl; unfold is_closed; rewrite ?Hh, ?Hhp; auto.
  - destruct (addSA_notif_step sa (sys_cache s) c'); auto.
  - destruct (addSA_notif_step sa (sys_cache s) c'); auto.
  - apply Hsame; [by apply onSADelete_wf|]. apply notif_step_same. apply onSADelete_notifs.
  - apply Hsame; [by apply with_cmCache_wf|by apply notif_step_same].
  - apply Hsame; [by apply with_cmCache_wf|by apply notif_step_same].
Qed.

Lemma reachable_wf s0 s : sys_wf s0 → reachable s0 s → sys_wf s.
Proof. intros H0. induction 1; [done|]. apply IHrtc. by eapply step_wf. Qed.

Lemma reachable_closed s0 s ch :
  sys_wf s0 → reachable s0 s → is_closed ch (notifs (sys_cache s0)) → is_closed ch (notifs (sys_cache s)).
Proof.
  intros Hwf. induction 1 as [|s0 s1 s Hstep _ IH]; [done|]. intros Hch.
  destruct (step_wf s0 s1 Hwf Hstep) as [Hwf1 [Hc _]]. auto.
Qed.

End system_facts.

(** ** Token life times and the buffer of fetch requests *)

Section bounds.
Implicit Types (s : system) (c : serviceAccountCache).
Local Open Scope Z_scope.

(** Every annotation-derived entry asks for at least the minimum. *)
Definition expirations_ok c : Prop :=
  MinTokenExpiration ≤ defaultTokenExpiration c ∧
  map_Forall (λ _ e, MinTokenExpiration ≤ TokenExpiration e) (saCache c).

Lemma addSA_returned_spec sa c c' :
  addSA sa c = Returned c' →
  saCache c' = <[sa_key (sa_Name sa) (sa_Namespace sa) := entry_of_sa c sa]> (saCache c) ∧
  defaultTokenExpiration c' = defaultTokenExpiration c ∧
  fetchRequests (notifs c') = fetchRequests (notifs c) ∧
  fetch_capacity (notifs c') = fetch_capacity (notifs c).
Proof.
  unfold addSA, setSA. rewrite outcome_bind_returned. intros (n & Hb & [= <-]). simpl in *.
  unfold broadcast in Hb. destruct (handlers (notifs c) !! _); [|by simplify_eq].
  apply outcome_bind_returned in Hb as (h & _ & [= <-]). done.
Qed.

Lemma addSA_expirations sa c c' : addSA sa c = Returned c' → expirations_ok c → expirations_ok c'.
Proof.
  intros (Hsa & Hd & _)%addSA_returned_spec [Hdef Hall]. split; rewrite ?Hd, ?Hsa; [done|].
  apply map_Forall_insert_2; [by apply entry_of_sa_expiration|done].
Qed.

Lemma onSADelete_expirations obj c : expirations_ok c → expirations_ok (onSADelete obj c).
Proof.
  intros [Hdef Hall]. destruct obj as [sa|[sa|]|]; split; simpl; try done; by apply map_Forall_delete.
Qed.

Lemma step_expirations s s' :
  step s s' → expirations_ok (sys_cache s) → expirations_ok (sys_cache s').
Proof.
  intros Hstep H. destruct Hstep; simpl; try done; eauto using addSA_expirations, onSADelete_expirations.
  - apply getSA_spec in H1 as (_ & Hsa & _ & Hd & _). destruct H as [Hdef Hall].
    split; by rewrite ?Hd, ?Hsa.
  - destruct H as [Hdef _]. split; simpl; [done|apply map_Forall_empty].
Qed.

(** The settings main passes to [New] are never changed. *)
Definition settings c : string * string * bool * ComposeRoleArn * Z :=
  (annotationPrefix c, defaultAudience c, defaultRegionalSTS c, composeRoleArn c, defaultTokenExpiration c).

Lemma addSA_settings sa c c' : addSA sa c = Returned c' → settings c' = settings c.
Proof.
  unfold addSA, setSA. rewrite outcome_bind_returned. by intros (n & _ & [= <-]).
Qed.

Lemma step_settings s s' : step s s' → settings (sys_cache s') = settings (sys_cache s).
Proof.
  destruct 1 as [t req r c' s Hg HSA|t p s Hp|req n s Htf|pre req post s Hfl|pre req post sa c' s Hfl Hn Hns Hadd|
    sa c' s Hadd|obj s|name ns e s|name ns s|s]; cbn [sys_cache]; try done; try by eapply addSA_settings.
  - unfold getSA in HSA. destruct (saCache _ !! _); [by simplify_eq|].
    destruct (RequestNotification req); [|by simplify_eq]. by apply bind_Some in HSA as ([ch n] & _ & [= _ <-]).
  - by destruct obj as [sa|[sa|]|].
Qed.

Lemma reachable_settings s0 s : rtc step s0 s → settings (sys_cache s) = settings (sys_cache s0).
Proof. induction 1 as [|s1 s2 s3 Hs _ IH]; [done|]. by rewrite IH, (step_settings _ _ Hs). Qed.

End bounds.

Section buffer.
Implicit Types (s : system) (c : serviceAccountCache).

Lemma create_buffer req n ch n' : buffer_ok n → create req n = Some (ch, n') → buffer_ok n'.
Proof.
  unfold create, buffer_ok. destruct (handlers n !! CacheKey req); simpl; [by intros; simplify_eq|].
  case_decide; [|done]. intros; simplify_eq/=. rewrite length_app. simpl. lia.
Qed.

Lemma getSA_buffer req c r c' : buffer_ok (notifs c) → getSA req c = Some (r, c') → buffer_ok (notifs c').
Proof.
  unfold getSA. destruct (saCache c !! CacheKey req); [by intros; simplify_eq|].
  destruct (RequestNotification req); [|by intros; simplify_eq].
  intros H ([ch n] & Hcr & [= _ <-])%bind_Some. by eapply create_buffer.
Qed.

Lemma step_buffer s s' : step s s' → buffer_ok (notifs (sys_cache s)) → buffer_ok (notifs (sys_cache s')).
Proof.
  intros Hstep [Hpos Hlen].
  destruct Hstep as [? ? ? ? ? ? HSA| |? ? ? Htf| |? ? ? ? ? ? ? ? ? Hadd|? ? ? Hadd|obj ?| | |]; simpl; try done.
  - by eapply getSA_buffer.
  - apply take_fetch_spec in Htf as (_ & _ & Hcap & Hq). rewrite Hq in Hlen. simpl in Hlen.
    split; rewrite Hcap; lia.
  - apply addSA_returned_spec in Hadd as (_ & _ & Hq & Hcap). split; rewrite ?Hq, Hcap; done.
  - apply addSA_returned_spec in Hadd as (_ & _ & Hq & Hcap). split; rewrite ?Hq, Hcap; done.
  - unfold buffer_ok. by rewrite onSADelete_notifs.
Qed.

(** A [Get] that cannot proceed is blocked on a full buffer. *)

End buffer.

Lemma reachable_inv (P : serviceAccountCache → Prop) s0 s :
  (∀ s s', step s s' → P (sys_cache s) → P (sys_cache s')) →
  P (sys_cache s0) → reachable s0 s → P (sys_cache s).
Proof. intros Hstep H0. induction 1; eauto. Qed.

(** ** Theorems *)

(** The delivery of a service account, by the informer or by a fetch. *)
Definition delivers (sa : ServiceAccount) (s s' : system) : Prop :=
  step s s' ∧ addSA sa (sys_cache s) = Returned (sys_cache s').

(** A goroutine inside [Get] or done with it, and the notifier it holds. *)
Definition waits (t : nat) (key : string) (ch : chan) (s : system) : Prop :=
  ∃ p, gets s !! t = Some p ∧ CacheKey (phase_notifier p).1 = key ∧ (phase_notifier p).2 = Some ch.

Definition ex_sys : system :=
  initial "sts.amazonaws.com" "eks.amazonaws.com" false 86400 (mkComposeRoleArn false "" "" "").

Definition ex_req : Request := mkRequest "app" "default" true.

(** The state after one [Get] of [ex_req] has registered. *)
Definition ex_waiting : system :=
  mkSystem
    (with_notifs (mkNotifications {[ "default/app" := 0 ]} [ex_req] fetch_buffer (mkChans 1 ∅)) (sys_cache ex_sys))
    {[ 7 := AfterSA ex_req false (Some 0) ]} [].

Lemma ex_waiting_reachable : reachable ex_sys ex_waiting.
Proof. apply rtc_once. exact (step_getSA 7 ex_req (None, Some 0) (sys_cache ex_waiting) ex_sys eq_refl eq_refl). Qed.

(** The state after the informer has delivered [ex_sa]. *)
Definition ex_delivered : system :=
  match addSA ex_sa (sys_cache ex_waiting) with
  | Returned c => mkSystem c (gets ex_waiting) (in_flight ex_waiting)
  | Panicked _ => ex_waiting
  end.

Lemma ex_delivers : delivers ex_sa ex_waiting ex_delivered.
Proof. split; [by apply (step_sa_event ex_sa)|done]. Qed.

Lemma step_closes s s' t key ch :
  sys_wf s → step s s' → waits t key ch s →
  ¬ is_closed ch (notifs (sys_cache s)) → is_closed ch (notifs (sys_cache s')) →
  is_Some (saCache (sys_cache s') !! key).
Proof.
  intros [Hc Hw] Hstep (p & Hp & <- & Hch) Hopen Hclosed.
  destruct (Hw t p ch Hp Hch) as [?|Hreg]; [done|].
  assert (∀ sa c', addSA sa (sys_cache s) = Returned c' → is_closed ch (notifs c') →
    is_Some (saCache c' !! CacheKey (phase_notifier p).1)) as Hadd.
  { intros sa c' Hadd Hcl. destruct (addSA_spec sa _ Hc) as (c1 & H1 & _ & Hsa & _ & _ & _ & Hiff).
    rewrite Hadd in H1. simplify_eq. apply Hiff in Hcl as [?|Hk]; [done|].
    rewrite (wf_handler_inj _ (wf_notifs _ Hc) _ _ _ Hreg Hk), Hsa, lookup_insert_eq. done. }
  destruct Hstep as [? ? ? ? ? ? HSA| |? ? ? Htf| |? ? ? ? ? ? ? ? ? Ha|? ? ? Ha|obj ?| | |];
    simpl in *; try done; eauto.
  - exfalso. apply Hopen. unfold getSA in HSA. destruct (saCache (sys_cache s) !! CacheKey req); [by simplify_eq|].
    destruct (RequestNotification req); [|by simplify_eq].
    apply bind_Some in HSA as ([ch' n] & Hcr & [= _ <-]).
    apply create_spec in Hcr as [[_ ->]|(_ & _ & ->)]; done.
  - exfalso. apply take_fetch_spec in Htf as (_ & Hhp & _). apply Hopen. unfold is_closed in *. by rewrite Hhp in Hclosed.
  - exfalso. apply Hopen. by rewrite onSADelete_notifs in Hclosed.
Qed.

(** A delivery closes the notifier of whoever waits for the account, and it stays closed. *)
Lemma delivery_closes s s' s'' sa t key ch :
  sys_wf s → waits t key ch s → sa_key (sa_Name sa) (sa_Namespace sa) = key → delivers sa s s' →
  reachable s' s'' → is_closed ch (notifs (sys_cache s'')).
Proof.
  intros [Hc Hw] (p & Hp & <- & Hch) Hkey [Hstep Hadd] Hr'.
  eapply reachable_closed; [by eapply step_wf|done|].
  destruct (addSA_spec sa _ Hc) as (c1 & H1 & _ & _ & _ & _ & _ & Hiff).
  rewrite Hadd in H1. injection H1 as <-. apply Hiff.
  destruct (Hw t p ch Hp Hch); [by left|right]. by rewrite Hkey.
Qed.

(** C1. No notification is lost: once a [Get] holds a notifier for a service account, the
    next delivery of that service account closes it, whatever other goroutines did in
    between, and it stays closed, so the waiting goroutine is woken. *)
Theorem no_lost_wakeup aud prefix sts exp comp s s' s'' sa t key ch :
  reachable (initial aud prefix sts exp comp) s → waits t key ch s →
  sa_key (sa_Name sa) (sa_Namespace sa) = key → delivers sa s s' → reachable s' s'' →
  is_closed ch (notifs (sys_cache s'')).
Proof.
  intros Hr. apply delivery_closes. exact (reachable_wf _ _ (initial_wf aud prefix sts exp comp) Hr).
Qed.

Lemma no_lost_wakeup_witness : is_closed 0 (notifs (sys_cache ex_delivered)).
Proof.
  eapply (no_lost_wakeup _ _ _ _ _ ex_waiting _ _ ex_sa 7 "default/app");
    [exact ex_waiting_reachable| |reflexivity|exact ex_delivers|apply rtc_refl].
  eexists. split; [reflexivity|]. split; reflexivity.
Defined.

(** And none is spurious: when the notifier a [Get] holds is closed, the service account
    is in the cache at that moment. *)
Theorem wakeup_means_cached aud prefix sts exp comp s s' t key ch :
  reachable (initial aud prefix sts exp comp) s → waits t key ch s → step s s' →
  ¬ is_closed ch (notifs (sys_cache s)) → is_closed ch (notifs (sys_cache s')) →
  is_Some (saCache (sys_cache s') !! key).
Proof.
  intros Hr Hw Hstep. eapply step_closes; [|done..].
  by apply (reachable_wf _ _ (initial_wf aud prefix sts exp comp)).
Qed.

Lemma wakeup_means_cached_witness : is_Some (saCache (sys_cache ex_delivered) !! "default/app").
Proof.
  eapply (wakeup_means_cached _ _ _ _ _ ex_waiting _ 7 "default/app" 0);
    [exact ex_waiting_reachable| |exact (proj1 ex_delivers)|by_decision|by_decision].
  eexists. split; [reflexivity|]. split; reflexivity.
Defined.

(** C35. In every reachable state no goroutine can panic by closing a channel twice: any
    service account can be added, and nobody is registered as waiting for a service
    account that is in the cache. *)
Theorem add_never_panics aud prefix sts exp comp s :
  reachable (initial aud prefix sts exp comp) s →
  (∀ sa, ∃ c', addSA sa (sys_cache s) = Returned c') ∧
  (∀ k ch, handlers (notifs (sys_cache s)) !! k = Some ch →
     saCache (sys_cache s) !! k = None ∧ ¬ is_closed ch (notifs (sys_cache s))).
Proof.
  intros Hr. pose proof (reachable_wf _ _ (initial_wf aud prefix sts exp comp) Hr) as [Hc _]. split.
  - intros sa. destruct (addSA_spec sa _ Hc) as (c' & Hadd & _). by exists c'.
  - intros k ch Hk. split; [by eapply wf_no_stale_waiter|].
    by eapply wf_handler_open; [apply wf_notifs|].
Qed.

Lemma add_never_panics_witness :
  (∃ c', addSA ex_sa (sys_cache ex_waiting) = Returned c') ∧ saCache (sys_cache ex_waiting) !! "default/app" = None.
Proof.
  destruct (add_never_panics _ _ _ _ _ ex_waiting ex_waiting_reachable) as [Hadd Hk].
  split; [apply Hadd|]. by destruct (Hk "default/app" 0).
Defined.

(** C37. As long as the flag is validated the way main does, no annotation-derived entry the
    cache serves ever asks for a token life time below 600 seconds, in any reachable
    state; entries of the ConfigMap have no such bound. *)
Theorem annotated_expirations_bounded aud prefix sts flag comp s k e :
  reachable (initial aud prefix sts (ValidateMinTokenExpiration flag) comp) s →
  saCache (sys_cache s) !! k = Some e → (600 ≤ TokenExpiration e)%Z.
Proof.
  intros Hr Hk.
  apply (reachable_inv expirations_ok _ _ step_expirations) in Hr as [_ Hall]; [by eapply Hall|].
  split; simpl; [apply ValidateMin_ge|apply map_Forall_empty].
Qed.

Lemma annotated_expirations_bounded_witness :
  saCache (sys_cache ex_delivered) !! "default/app" = Some (entry_of_sa ex_cache ex_sa) ∧
  (600 ≤ TokenExpiration (entry_of_sa ex_cache ex_sa))%Z.
Proof.
  assert (saCache (sys_cache ex_delivered) !! "default/app" = Some (entry_of_sa ex_cache ex_sa)) as Hk
    by reflexivity.
  split; [exact Hk|].
  apply (annotated_expirations_bounded "sts.amazonaws.com" "eks.amazonaws.com" false 86400
    (mkComposeRoleArn false "" "" "") ex_delivered "default/app"); [|exact Hk].
  exact (rtc_r _ _ _ ex_waiting_reachable (proj1 ex_delivers)).
Defined.
