(* ===== verification/Locks.v ===== *)
(** * The locks of the cache

    The steps of CacheSystem.v are whole critical sections. Here the goroutines of
    src/pkg/cache/cache.go and src/pkg/cache/notifications.go go statement by statement: from
    [c.mu.RLock()] or [c.mu.Lock()] to the map, to [n.mu.Lock()] inside, to the send on the
    channel of fetch requests, which blocks with both locks held when the buffer is full,
    and back. Nothing they do can deadlock, and what they do is what CacheSystem.v says. The
    clearing by the debug handler takes no lock and is left out. *)

From S2P Require Import Prelude GoStd Pkg Json Notifications Cache CacheProps CacheSystem.

(** ** Where a goroutine stands *)

(** What is done under the read lock: the section of [getSA], one of the two of [getCM], or one
    whose answer only goes to its caller ([ToJSON], [GetCommonConfigurations]). *)
Inductive read_section :=
| ReadSA (req : Request)
| ReadCM (p : get_phase)
| ReadOther.

(** What is done under the write lock; [from] is the request a fetch serves. *)
Inductive write_section :=
| AddSA (from : option Request) (sa : ServiceAccount)
| PopSA (name ns : string)
| SetCM (name ns : string) (e : Entry)
| PopCM (name ns : string).

(** The statement a goroutine is at. *)
Inductive pc :=
| Fetching (req : Request)
| AtAddSA (from : option Request) (sa : ServiceAccount)
| AtRLock (r : read_section)
| InRead (r : read_section)
| AtMuLock (req : Request)
| InMu (req : Request)
| AtSend (req : Request) (notifier : chan)
| AtMuUnlock (req : Request) (notifier : chan)
| AtRUnlock (p : option get_phase)
| AtLock (w : write_section)
| Waiting (w : write_section)
| InWrite (w : write_section)
| AtBroadcastLock (from : option Request) (sa : ServiceAccount)
| InBroadcast (from : option Request) (sa : ServiceAccount)
| AtBroadcastUnlock
| AtUnlock
| Finished (p : option get_phase).

(** Who holds [c.mu] for reading and for writing, who waits inside [c.mu.Lock()] for the readers
    to leave, and who holds [n.mu]. *)
Definition reads (p : pc) : bool :=
  match p with InRead _ | AtMuLock _ | InMu _ | AtSend _ _ | AtMuUnlock _ _ | AtRUnlock _ => true | _ => false end.
Definition writes (p : pc) : bool :=
  match p with InWrite _ | AtBroadcastLock _ _ | InBroadcast _ _ | AtBroadcastUnlock | AtUnlock => true | _ => false end.
Definition announced (p : pc) : bool := match p with Waiting _ => true | _ => false end.
Definition holds_mu (p : pc) : bool :=
  match p with InMu _ | AtSend _ _ | AtMuUnlock _ _ | InBroadcast _ _ | AtBroadcastUnlock => true | _ => false end.

Record process := mkProcess { shared : serviceAccountCache; threads : gmap nat pc }.

Definition nobody (f : pc → bool) (l : process) : Prop := map_Forall (λ _ p, f p = false) (threads l).

(** ** Steps *)

(** Where [Get] goes from a section. *)
Definition after_section (p : option get_phase) : pc :=
  match p with
  | Some (AfterSA _ _ _ as p) | Some (AfterCM _ _ _ as p) => AtRLock (ReadCM p)
  | _ => Finished p
  end.

(** One statement of one goroutine, at [p]: what it leaves of the cache, and where it goes. As with
    [sync.RWMutex], a writer first keeps other writers and new readers out and then waits for the
    readers there are. A fetch ends: its context has a time limit and its retries are counted. *)
Inductive advance (l : process) : pc → serviceAccountCache → pc → Prop :=
| adv_fetch_error req : advance l (Fetching req) (shared l) (Finished None)
| adv_fetched req sa :
    sa_Name sa = req_Name req → sa_Namespace sa = req_Namespace req →
    advance l (Fetching req) (shared l) (AtAddSA (Some req) sa)
| adv_use from sa : advance l (AtAddSA from sa) (with_webhookUsage 1 (shared l)) (AtLock (AddSA from sa))
| adv_RLock r :
    nobody writes l → nobody announced l → advance l (AtRLock r) (shared l) (InRead r)
| adv_hit req e :
    saCache (shared l) !! CacheKey req = Some e →
    advance l (InRead (ReadSA req)) (shared l) (AtRUnlock (Some (getSA_phase req (Some e, None))))
| adv_quiet_miss req :
    saCache (shared l) !! CacheKey req = None → RequestNotification req = false →
    advance l (InRead (ReadSA req)) (shared l) (AtRUnlock (Some (getSA_phase req (None, None))))
| adv_miss req :
    saCache (shared l) !! CacheKey req = None → RequestNotification req = true →
    advance l (InRead (ReadSA req)) (shared l) (AtMuLock req)
| adv_mu_lock req : nobody holds_mu l → advance l (AtMuLock req) (shared l) (InMu req)
| adv_found req notifier :
    handlers (notifs (shared l)) !! CacheKey req = Some notifier →
    advance l (InMu req) (shared l) (AtMuUnlock req notifier)
| adv_make req notifier h n :
    n = notifs (shared l) → handlers n !! CacheKey req = None → make_chan (heap n) = (notifier, h) →
    advance l (InMu req)
      (with_notifs (mkNotifications (<[CacheKey req := notifier]> (handlers n)) (fetchRequests n) (fetch_capacity n) h) (shared l))
      (AtSend req notifier)
| adv_send req notifier n :
    n = notifs (shared l) → length (fetchRequests n) < fetch_capacity n →
    advance l (AtSend req notifier)
      (with_notifs (mkNotifications (handlers n) (fetchRequests n ++ [req]) (fetch_capacity n) (heap n)) (shared l))
      (AtMuUnlock req notifier)
| adv_mu_unlock req notifier :
    advance l (AtMuUnlock req notifier) (shared l) (AtRUnlock (Some (getSA_phase req (None, Some notifier))))
| adv_getCM p : advance l (InRead (ReadCM p)) (shared l) (AtRUnlock (Some (getCM_phase (shared l) p)))
| adv_other : advance l (InRead ReadOther) (shared l) (AtRUnlock None)
| adv_RUnlock p : advance l (AtRUnlock p) (shared l) (after_section p)
| adv_announce w :
    nobody writes l → nobody announced l → advance l (AtLock w) (shared l) (Waiting w)
| adv_Lock w : nobody reads l → advance l (Waiting w) (shared l) (InWrite w)
| adv_setSA from sa :
    advance l (InWrite (AddSA from sa))
      (with_saCache (<[sa_key (sa_Name sa) (sa_Namespace sa) := entry_of_sa (shared l) sa]> (saCache (shared l))) (shared l))
      (AtBroadcastLock from sa)
| adv_broadcast_lock from sa :
    nobody holds_mu l → advance l (AtBroadcastLock from sa) (shared l) (InBroadcast from sa)
| adv_broadcast from sa n :
    broadcast (sa_key (sa_Name sa) (sa_Namespace sa)) (notifs (shared l)) = Returned n →
    advance l (InBroadcast from sa) (with_notifs n (shared l)) AtBroadcastUnlock
| adv_broadcast_unlock : advance l AtBroadcastUnlock (shared l) AtUnlock
| adv_popSA name ns : advance l (InWrite (PopSA name ns)) (popSA name ns (shared l)) AtUnlock
| adv_setCM name ns e : advance l (InWrite (SetCM name ns e)) (setCM name ns e (shared l)) AtUnlock
| adv_popCM name ns : advance l (InWrite (PopCM name ns)) (popCM name ns (shared l)) AtUnlock
| adv_Unlock : advance l AtUnlock (shared l) (Finished None).

(** What goes on without anybody calling the cache: the goroutines inside it, and the one that
    drains the fetch requests, which takes no lock and starts a goroutine for each. *)
Inductive internal (l : process) : process → Prop :=
| internal_advance t p c' p' :
    threads l !! t = Some p → advance l p c' p' → internal l (mkProcess c' (<[t := p']> (threads l)))
| internal_drain t req n :
    take_fetch (notifs (shared l)) = Some (req, n) → threads l !! t = None →
    internal l (mkProcess (with_notifs n (shared l)) (<[t := Fetching req]> (threads l))).

(** Where a call enters. *)
Definition enters (p : pc) : Prop :=
  match p with
  | AtRLock (ReadSA _) | AtRLock ReadOther | AtAddSA None _ => True
  | AtLock (PopSA _ _) | AtLock (SetCM _ _ _) | AtLock (PopCM _ _) => True
  | _ => False
  end.

Inductive lock_step (l : process) : process → Prop :=
| lock_internal l' : internal l l' → lock_step l l'
| lock_call t p : threads l !! t = None → enters p → lock_step l (mkProcess (shared l) (<[t := p]> (threads l))).

(** ** The state of CacheSystem.v a process stands for *)

(** A lookup that is past the point that decides about its first section. *)
Definition phase_of (p : pc) : option get_phase :=
  match p with
  | AtRLock (ReadCM p) | InRead (ReadCM p) => Some p
  | AtMuUnlock req notifier => Some (getSA_phase req (None, Some notifier))
  | AtRUnlock p | Finished p => p
  | _ => None
  end.

(** An account that is being added and not yet announced to those who wait for it. *)
Definition adding (p : pc) : option (option Request * ServiceAccount) :=
  match p with
  | AtAddSA from sa | AtLock (AddSA from sa) | Waiting (AddSA from sa) | InWrite (AddSA from sa)
  | AtBroadcastLock from sa | InBroadcast from sa => Some (from, sa)
  | _ => None
  end.

Definition fetch_of (p : pc) : option Request :=
  match p with Fetching req => Some req | _ => adding p ≫= fst end.

Definition fetches (m : gmap nat pc) : list Request := omap (fetch_of ∘ snd) (map_to_list m).

(** The gauge is set before the lock is taken, which nobody in the cache can tell. *)
Definition no_usage (c : serviceAccountCache) : serviceAccountCache := with_webhookUsage 0 c.

(** A lookup that has not found its key. *)
Definition missed (p : pc) : option Request :=
  match p with AtMuLock req | InMu req | AtSend req _ => Some req | _ => None end.

(** In the middle of a change: the cache is not what it was before nor what it will be. *)
Definition midway (p : pc) : bool :=
  match p with AtSend _ _ | AtBroadcastLock _ _ | InBroadcast _ _ => true | _ => false end.

(** What the shared cache is when [c] is what it is between the changes. *)
Inductive stands_for (m : gmap nat pc) (shared c : serviceAccountCache) : Prop :=
| stands_still :
    (∀ t p, m !! t = Some p → midway p = false) → no_usage shared = no_usage c → stands_for m shared c
| stands_sending t req notifier :
    m !! t = Some (AtSend req notifier) → (∀ t' p, t' ≠ t → m !! t' = Some p → midway p = false) →
    handlers (notifs c) !! CacheKey req = None → notifier = next_chan (heap (notifs c)) →
    no_usage shared = with_notifs
      (mkNotifications (<[CacheKey req := notifier]> (handlers (notifs c))) (fetchRequests (notifs c))
         (fetch_capacity (notifs c)) (mkChans (S notifier) (closed_chans (heap (notifs c))))) (no_usage c) →
    stands_for m shared c
| stands_adding t p from sa :
    m !! t = Some p → p = AtBroadcastLock from sa ∨ p = InBroadcast from sa →
    (∀ t' p, t' ≠ t → m !! t' = Some p → midway p = false) →
    no_usage shared =
      with_saCache (<[sa_key (sa_Name sa) (sa_Namespace sa) := entry_of_sa c sa]> (saCache c)) (no_usage c) →
    stands_for m shared c.

(** Who can be inside at the same time. *)
Definition compatible (p q : pc) : bool :=
  negb (writes p && (reads q || writes q || announced q)) && negb (writes q && (reads p || announced p)) &&
  negb (holds_mu p && holds_mu q) && negb (announced p && announced q).

Definition exclusive (m : gmap nat pc) : Prop :=
  ∀ t t' p q, t ≠ t' → m !! t = Some p → m !! t' = Some q → compatible p q = true.

Record simulates (l : process) (s : system) : Prop := {
  sim_wf : sys_wf s;
  sim_exclusive : exclusive (threads l);
  sim_gets : gets s = omap phase_of (threads l);
  sim_fetches : in_flight s ≡ₚ fetches (threads l);
  sim_missed : ∀ t p req, threads l !! t = Some p → missed p = Some req →
    saCache (shared l) !! CacheKey req = None ∧ RequestNotification req = true;
  sim_adding : ∀ t p req sa, threads l !! t = Some p → adding p = Some (Some req, sa) →
    sa_Name sa = req_Name req ∧ sa_Namespace sa = req_Namespace req;
  sim_shared : stands_for (threads l) (shared l) (sys_cache s)
}.

(** ** Lemmas *)

(** *** Maps of goroutines *)

Lemma fetches_new m t p : m !! t = None → fetches (<[t := p]> m) ≡ₚ option_list (fetch_of p) ++ fetches m.
Proof.
  intros Ht. unfold fetches. rewrite (map_to_list_insert m t p Ht). simpl. by destruct (fetch_of p).
Qed.

Lemma fetches_put m t p p' :
  m !! t = Some p → option_list (fetch_of p) ++ fetches (<[t := p']> m) ≡ₚ option_list (fetch_of p') ++ fetches m.
Proof.
  intros Ht. rewrite <- (insert_id m t p Ht) at 2. rewrite <- !(insert_delete_eq m t).
  rewrite !fetches_new by apply lookup_delete_eq. rewrite !app_assoc. f_equiv. apply Permutation_app_comm.
Qed.

Lemma fetches_same m t p p' : m !! t = Some p → fetch_of p' = fetch_of p → fetches (<[t := p']> m) ≡ₚ fetches m.
Proof. intros Ht Hf. pose proof (fetches_put m t p p' Ht) as H. rewrite Hf in H. by apply Permutation_app_inv_l in H. Qed.

(** A fetch that is over. *)
Lemma fetches_over m t p p' req l :
  m !! t = Some p → fetch_of p = Some req → fetch_of p' = None → l ≡ₚ fetches m →
  ∃ pre post, l = pre ++ req :: post ∧ pre ++ post ≡ₚ fetches (<[t := p']> m).
Proof.
  intros Ht Hp Hp' Hl. pose proof (fetches_put m t p p' Ht) as H. rewrite Hp, Hp' in H. simpl in H.
  assert (req ∈ l) as (pre & post & ->)%list_elem_of_split by (rewrite Hl, <- H; set_solver).
  exists pre, post. split; [done|]. rewrite <- H, <- Permutation_middle in Hl. by apply Permutation_cons_inv in Hl.
Qed.

Lemma phases_put (m : gmap nat pc) t p q : phase_of p = Some q → omap phase_of (<[t := p]> m) = <[t := q]> (omap phase_of m).
Proof. intros Hp. by rewrite omap_insert, Hp. Qed.

Lemma phases_same (m : gmap nat pc) t p p' : m !! t = Some p → phase_of p' = phase_of p → omap phase_of (<[t := p']> m) = omap phase_of m.
Proof.
  intros Ht Hp. rewrite <- (insert_id m t p Ht) at 2. by rewrite !omap_insert, Hp.
Qed.

Lemma phases_new (m : gmap nat pc) t p : m !! t = None → phase_of p = None → omap phase_of (<[t := p]> m) = omap phase_of m.
Proof. intros Ht Hp. rewrite omap_insert, Hp. apply delete_id. by rewrite lookup_omap, Ht. Qed.

Lemma nobody_or f l : nobody f l ∨ ∃ t p, threads l !! t = Some p ∧ f p = true.
Proof.
  unfold nobody. destruct (decide (map_Forall (λ _ p, f p = false) (threads l))) as [|Hn]; [by left|right].
  apply map_not_Forall in Hn as (t & p & Ht & Hf); [|apply _]. exists t, p. split; [done|]. by destruct (f p).
Qed.

(** *** Exclusion *)

Lemma exclusive_put m t p :
  exclusive m → (∀ t' q, t' ≠ t → m !! t' = Some q → compatible p q = true) → exclusive (<[t := p]> m).
Proof.
  intros Hex Hp t1 t2 p1 p2 Hne H1 H2.
  apply lookup_insert_Some in H1 as [[<- <-]|[H1 H1']], H2 as [[<- <-]|[H2 H2']]; eauto; try done.
  assert (compatible p p1 = true) as Hc by eauto. revert Hc. unfold compatible.
  destruct (reads p), (writes p), (announced p), (holds_mu p), (reads p1), (writes p1), (announced p1), (holds_mu p1); done.
Qed.

(** Locks are taken only when they are free. *)
Lemma exclusive_advance l t p c' p' :
  exclusive (threads l) → threads l !! t = Some p → advance l p c' p' → exclusive (<[t := p']> (threads l)).
Proof.
  intros Hex Ht Hadv. apply exclusive_put; [done|]. intros t' q Hne Hq.
  assert (compatible p q = true) as Hc by (by eapply (Hex t t')).
  assert (∀ f, nobody f l → f q = false) as Hno by (intros f Hf; by apply (Hf t' q)).
  revert Hc. unfold compatible.
  destruct Hadv; try (destruct p as [[]|]); cbn;
    repeat match goal with H : nobody _ l |- _ => rewrite (Hno _ H); clear H end;
    destruct (reads q), (writes q), (announced q), (holds_mu q); try done.
  all: repeat case_match; done.
Qed.

(** Who is in the middle of a change is alone with it. *)
Lemma alone m t p :
  exclusive m → m !! t = Some p → writes p || reads p && holds_mu p = true →
  ∀ t' q, t' ≠ t → m !! t' = Some q → midway q = false.
Proof.
  intros Hex Ht Hp t' q Hne Hq. assert (compatible p q = true) as Hc by (by eapply (Hex t t')).
  revert Hc Hp. unfold compatible. destruct q; try done; cbn; by destruct (writes p), (reads p), (announced p), (holds_mu p).
Qed.

(** *** What the shared cache stands for *)

Lemma stands_frame m t p p' sh sh' c :
  m !! t = Some p → midway p = false → midway p' = false → no_usage sh' = no_usage sh →
  stands_for m sh c → stands_for (<[t := p']> m) sh' c.
Proof.
  intros Ht Hp Hp' Hsh [Hstill Heq|t1 req nt Ht1 Ho Hk Hn Heq|t1 q from sa Ht1 Hq Ho Heq].
  - apply stands_still; [|congruence]. intros t' q [[_ <-]|[_ Hq]]%lookup_insert_Some; eauto.
  - assert (t ≠ t1) as Hne by (intros ->; simplify_eq). apply (stands_sending _ _ _ t1 req nt); [by rewrite lookup_insert_ne| |done..|by rewrite Hsh].
    intros t' q Hne' [[_ <-]|[_ Hq]]%lookup_insert_Some; eauto.
  - assert (t ≠ t1) as Hne by (intros ->; destruct Hq; simplify_eq).
    apply (stands_adding _ _ _ t1 q from sa); [by rewrite lookup_insert_ne|done| |by rewrite Hsh].
    intros t' q' Hne' [[_ <-]|[_ Hq']]%lookup_insert_Some; eauto.
Qed.

Lemma stands_new m t p sh c :
  m !! t = None → midway p = false → stands_for m sh c → stands_for (<[t := p]> m) sh c.
Proof.
  intros Ht Hp [Hstill Heq|t1 req nt Ht1 Ho Hk Hn Heq|t1 q from sa Ht1 Hq Ho Heq].
  - apply stands_still; [|done]. intros t' q [[_ <-]|[_ Hq]]%lookup_insert_Some; eauto.
  - apply (stands_sending _ _ _ t1 req nt); [rewrite lookup_insert_ne by congruence; exact Ht1| |done..].
    intros t' q Hne' [[_ <-]|[_ Hq]]%lookup_insert_Some; eauto.
  - apply (stands_adding _ _ _ t1 q from sa); [rewrite lookup_insert_ne by congruence; exact Ht1|done| |done].
    intros t' q' Hne' [[_ <-]|[_ Hq']]%lookup_insert_Some; eauto.
Qed.

(** A writer that has just come in, and a lookup inside [n.mu], find it still. *)
Lemma stands_alone m t p sh c :
  exclusive m → m !! t = Some p → writes p || reads p && holds_mu p = true → midway p = false →
  stands_for m sh c → no_usage sh = no_usage c.
Proof.
  intros Hex Ht Hp Hmid [? ?|t1 req nt Ht1|t1 q from sa Ht1 Hq]; [done|exfalso..].
  - assert (t1 ≠ t) as Hne by (by intros ->; simplify_eq/=). by pose proof (alone m t p Hex Ht Hp t1 _ Hne Ht1).
  - assert (t1 ≠ t) as Hne by (by intros ->; destruct Hq; simplify_eq/=).
    pose proof (alone m t p Hex Ht Hp t1 _ Hne Ht1). by destruct Hq; subst.
Qed.

(** And it is still again when the change is done. *)
Lemma stands_again m t p p' sh c :
  exclusive m → m !! t = Some p → writes p || reads p && holds_mu p = true → midway p' = false →
  no_usage sh = no_usage c → stands_for (<[t := p']> m) sh c.
Proof.
  intros Hex Ht Hp Hp' Heq. apply stands_still; [|done].
  intros t' q [[_ <-]|[Hne Hq]]%lookup_insert_Some; [done|].
  exact (alone m t p Hex Ht Hp t' q (not_eq_sym Hne) Hq).
Qed.

(** A reader sees the maps as they are between the changes. *)
Lemma stands_read m t p sh c :
  exclusive m → m !! t = Some p → reads p = true → stands_for m sh c →
  saCache sh = saCache c ∧ cmCache sh = cmCache c.
Proof.
  intros Hex Ht Hp [_ Heq|t1 req nt _ _ _ _ Heq|t1 q from sa Ht1 Hq _ _].
  - by injection Heq.
  - by injection Heq.
  - exfalso. assert (writes q = true) as Hw by (by destruct Hq; subst).
    assert (t1 ≠ t) as Hne by (intros ->; simplify_eq; by destruct Hq; subst).
    pose proof (Hex t1 t q p Hne Ht1 Ht) as Hc. unfold compatible in Hc. by rewrite Hw, Hp in Hc.
Qed.

(** *** The other invariants *)

Lemma advance_saCache l p c' p' : advance l p c' p' → writes p = false → saCache c' = saCache (shared l).
Proof. by destruct 1. Qed.

Lemma missed_advance l s t p c' p' :
  simulates l s → threads l !! t = Some p → advance l p c' p' →
  ∀ t' q req, <[t := p']> (threads l) !! t' = Some q → missed q = Some req →
    saCache c' !! CacheKey req = None ∧ RequestNotification req = true.
Proof.
  intros Hsim Ht Hadv t' q req [[<- <-]|[Hne Hq]]%lookup_insert_Some Hm.
  - assert (writes p = false) as Hw by (destruct Hadv; try done; by destruct p as [[]|]).
    rewrite (advance_saCache _ _ _ _ Hadv Hw).
    destruct Hadv; try done; simplify_eq/=; try (by eapply (sim_missed _ _ Hsim)); try done.
    destruct p as [[]|]; done.
  - destruct (writes p) eqn:Hw; [|rewrite (advance_saCache _ _ _ _ Hadv Hw); by eapply (sim_missed _ _ Hsim)].
    pose proof (sim_exclusive _ _ Hsim t t' p q Hne Ht Hq) as Hc. unfold compatible in Hc. rewrite Hw in Hc.
    by destruct q; simplify_eq/=.
Qed.

Lemma adding_advance l s t p c' p' :
  simulates l s → threads l !! t = Some p → advance l p c' p' →
  ∀ t' q req sa, <[t := p']> (threads l) !! t' = Some q → adding q = Some (Some req, sa) →
    sa_Name sa = req_Name req ∧ sa_Namespace sa = req_Namespace req.
Proof.
  intros Hsim Ht Hadv t' q req sa [[<- <-]|[Hne Hq]]%lookup_insert_Some Ha; [|by eapply (sim_adding _ _ Hsim)].
  destruct Hadv; try destruct w; try (destruct p as [[]|]); simplify_eq/=; try done; by eapply (sim_adding _ _ Hsim).
Qed.

(** A statement is a step of the system, or none. *)
Lemma simulates_intro l s s' t p c' p' :
  simulates l s → threads l !! t = Some p → advance l p c' p' → s' = s ∨ step s s' →
  gets s' = omap phase_of (<[t := p']> (threads l)) → in_flight s' ≡ₚ fetches (<[t := p']> (threads l)) →
  stands_for (<[t := p']> (threads l)) c' (sys_cache s') →
  ∃ s', rtc step s s' ∧ simulates (mkProcess c' (<[t := p']> (threads l))) s'.
Proof.
  intros Hsim Ht Hadv Hs Hg Hf Hc. exists s'. split; [destruct Hs as [->|Hs]; [done|by apply rtc_once]|].
  split; try done.
  - destruct Hs as [->|Hs]; [apply Hsim|]. eapply step_wf; [apply Hsim|done].
  - eapply exclusive_advance; [apply Hsim|done..].
  - by eapply missed_advance.
  - by eapply adding_advance.
Qed.

(** *** Refinement, statement by statement *)

Section refinement.
Context (l : process) (s : system) (t : nat) (p : pc).
Context (Hsim : simulates l s) (Ht : threads l !! t = Some p).

Abbreviation goal c' p' := (∃ s', rtc step s s' ∧ simulates (mkProcess c' (<[t := p']> (threads l))) s').

Lemma no_phase : phase_of p = None → gets s !! t = None.
Proof using Hsim Ht. intros Hp. rewrite (sim_gets _ _ Hsim), lookup_omap, Ht. exact Hp. Qed.

(** Statements that decide about nothing. *)
Lemma refine_silent c' p' :
  advance l p c' p' → phase_of p' = phase_of p → fetch_of p' = fetch_of p → midway p = false → midway p' = false →
  no_usage c' = no_usage (shared l) → goal c' p'.
Proof using Hsim Ht.
  intros Hadv Hph Hf Hm Hm' Hc. eapply (simulates_intro l s s); [done..|by left| | |].
  - rewrite (phases_same _ _ p) by done. apply Hsim.
  - rewrite (fetches_same _ _ p) by done. apply Hsim.
  - eapply stands_frame; [done..|apply Hsim].
Qed.

(** The statement that decides about the section of [getSA]. *)
Lemma refine_getSA c' p' req r c1 :
  advance l p c' p' → phase_of p = None → phase_of p' = Some (getSA_phase req r) → fetch_of p' = fetch_of p →
  getSA req (sys_cache s) = Some (r, c1) → stands_for (<[t := p']> (threads l)) c' c1 → goal c' p'.
Proof using Hsim Ht.
  intros Hadv Hph Hph' Hf HSA Hc.
  eapply (simulates_intro l s (mkSystem c1 (<[t := getSA_phase req r]> (gets s)) (in_flight s)));
    [done..|right; apply step_getSA; [by apply no_phase|done]| | |done]; cbn [gets in_flight].
  - rewrite (phases_put _ _ _ _ Hph'). f_equal. apply Hsim.
  - rewrite (fetches_same _ _ p) by done. apply Hsim.
Qed.

(** A change of the cache under the write lock. *)
Lemma refine_write c' p' c1 :
  advance l p c' p' → phase_of p' = phase_of p → fetch_of p' = fetch_of p → writes p = true → midway p' = false →
  step s (mkSystem c1 (gets s) (in_flight s)) → no_usage c' = no_usage c1 → goal c' p'.
Proof using Hsim Ht.
  intros Hadv Hph Hf Hw Hm' Hs Hc. eapply (simulates_intro l s _); [done..|by right| | |]; cbn [gets in_flight sys_cache].
  - rewrite (phases_same _ _ p) by done. apply Hsim.
  - rewrite (fetches_same _ _ p) by done. apply Hsim.
  - eapply (stands_again _ _ p); [apply Hsim|done| |done..]. by rewrite Hw.
Qed.

Lemma refine_fetch_error req : p = Fetching req → goal (shared l) (Finished None).
Proof using Hsim Ht.
  intros Hp. destruct (fetches_over _ _ _ (Finished None) req (in_flight s) Ht) as (pre & post & Heq & Hf);
    [by rewrite Hp|done|apply Hsim|].
  eapply (simulates_intro l s (mkSystem (sys_cache s) (gets s) (pre ++ post))); cbn [gets in_flight sys_cache]; try done.
  - rewrite Hp. apply adv_fetch_error.
  - right. by eapply step_fetch_err.
  - rewrite (phases_same _ _ p) by (done || by rewrite Hp). apply Hsim.
  - eapply stands_frame; [done|by rewrite Hp|done..|apply Hsim].
Qed.

(** Under the read lock the maps are as they are between the changes. *)
Lemma sees : reads p = true → saCache (shared l) = saCache (sys_cache s) ∧ cmCache (shared l) = cmCache (sys_cache s).
Proof using Hsim Ht. intros Hp. eapply stands_read; [apply Hsim|exact Ht|done|apply Hsim]. Qed.

Lemma refine_hit req e :
  p = InRead (ReadSA req) → saCache (shared l) !! CacheKey req = Some e →
  goal (shared l) (AtRUnlock (Some (getSA_phase req (Some e, None)))).
Proof using Hsim Ht.
  intros Hp He. destruct sees as [Hsa _]; [by rewrite Hp|].
  eapply (refine_getSA _ _ req _ (sys_cache s)); [rewrite Hp; by apply adv_hit|by rewrite Hp|done|by rewrite Hp| |].
  - unfold getSA. by rewrite <- Hsa, He.
  - eapply stands_frame; [done|by rewrite Hp|done..|apply Hsim].
Qed.

Lemma refine_quiet_miss req :
  p = InRead (ReadSA req) → saCache (shared l) !! CacheKey req = None → RequestNotification req = false →
  goal (shared l) (AtRUnlock (Some (getSA_phase req (None, None)))).
Proof using Hsim Ht.
  intros Hp Hk Hn. destruct sees as [Hsa _]; [by rewrite Hp|].
  eapply (refine_getSA _ _ req _ (sys_cache s)); [rewrite Hp; by apply adv_quiet_miss|by rewrite Hp|done|by rewrite Hp| |].
  - unfold getSA. by rewrite <- Hsa, Hk, Hn.
  - eapply stands_frame; [done|by rewrite Hp|done..|apply Hsim].
Qed.

Lemma refine_getCM q : p = InRead (ReadCM q) → goal (shared l) (AtRUnlock (Some (getCM_phase (shared l) q))).
Proof using Hsim Ht.
  intros Hp. destruct sees as [_ Hcm]; [by rewrite Hp|].
  assert (getCM_phase (sys_cache s) q = getCM_phase (shared l) q) as Hq.
  { unfold getCM_phase, getCM. by rewrite Hcm. }
  eapply (simulates_intro l s (mkSystem (sys_cache s) (<[t := getCM_phase (sys_cache s) q]> (gets s)) (in_flight s)));
    cbn [gets in_flight sys_cache]; [done|done|rewrite Hp; apply adv_getCM| | | |].
  - right. apply step_getCM. by rewrite (sim_gets _ _ Hsim), lookup_omap, Ht, Hp.
  - rewrite (phases_put _ _ _ (getCM_phase (shared l) q)), Hq by done. f_equal. apply Hsim.
  - rewrite (fetches_same _ _ p) by (done || by rewrite Hp). apply Hsim.
  - eapply stands_frame; [done|by rewrite Hp|done..|apply Hsim].
Qed.

(** The key that a lookup has not found is not there for as long as it holds the lock. *)
Lemma missed_abs req : missed p = Some req → saCache (sys_cache s) !! CacheKey req = None ∧ RequestNotification req = true.
Proof using Hsim Ht.
  intros Hm. destruct (sim_missed _ _ Hsim t p req Ht Hm) as [Hk Hn]. split; [|done].
  destruct sees as [<- _]; [by destruct p|done].
Qed.

Lemma refine_found req nt :
  p = InMu req → handlers (notifs (shared l)) !! CacheKey req = Some nt → goal (shared l) (AtMuUnlock req nt).
Proof using Hsim Ht.
  intros Hp Hk. destruct (missed_abs req) as [Hmiss Hn]; [by rewrite Hp|].
  assert (no_usage (shared l) = no_usage (sys_cache s)) as Heq
    by (eapply (stands_alone _ t p); [apply Hsim|exact Ht|by rewrite Hp|by rewrite Hp|apply Hsim]).
  eapply (refine_getSA _ _ req (None, Some nt) (sys_cache s)); [rewrite Hp; by apply adv_found|by rewrite Hp|done|by rewrite Hp| |].
  - apply (f_equal notifs) in Heq. change (notifs (shared l) = notifs (sys_cache s)) in Heq.
    unfold getSA, create. rewrite Hmiss, Hn, <- Heq, Hk. simpl. rewrite Heq.
    by destruct (sys_cache s).
  - eapply (stands_frame _ _ p _ (shared l)); [done|by rewrite Hp|done..|apply Hsim].
Qed.

(** A new notifier: registered at once, and asked for with the send. *)
Lemma refine_make req nt h :
  p = InMu req → handlers (notifs (shared l)) !! CacheKey req = None → make_chan (heap (notifs (shared l))) = (nt, h) →
  goal (with_notifs (mkNotifications (<[CacheKey req := nt]> (handlers (notifs (shared l)))) (fetchRequests (notifs (shared l)))
          (fetch_capacity (notifs (shared l))) h) (shared l)) (AtSend req nt).
Proof using Hsim Ht.
  intros Hp Hk Hmk. assert (no_usage (shared l) = no_usage (sys_cache s)) as Heq
    by (eapply (stands_alone _ t p); [apply Hsim|exact Ht|by rewrite Hp|by rewrite Hp|apply Hsim]).
  assert (notifs (shared l) = notifs (sys_cache s)) as Hno by (by apply (f_equal notifs) in Heq).
  eapply (simulates_intro l s s); [done|done|rewrite Hp; by eapply adv_make|by left| | |].
  - rewrite (phases_same _ _ p) by (done || by rewrite Hp). apply Hsim.
  - rewrite (fetches_same _ _ p) by (done || by rewrite Hp). apply Hsim.
  - rewrite Hno in *. injection Hmk as <- <-. eapply (stands_sending _ _ _ t req); [apply lookup_insert_eq| |done|done|].
    + intros t' q Hne Hq. rewrite lookup_insert_ne in Hq by done.
      eapply (alone _ t p); [apply Hsim|exact Ht|by rewrite Hp|exact Hne|exact Hq].
    + exact (f_equal (with_notifs _) Heq).
Qed.

Lemma refine_send req nt :
  p = AtSend req nt → length (fetchRequests (notifs (shared l))) < fetch_capacity (notifs (shared l)) →
  goal (with_notifs (mkNotifications (handlers (notifs (shared l))) (fetchRequests (notifs (shared l)) ++ [req])
          (fetch_capacity (notifs (shared l))) (heap (notifs (shared l)))) (shared l)) (AtMuUnlock req nt).
Proof using Hsim Ht.
  intros Hp Hroom. pose proof (adv_send l req nt _ eq_refl Hroom) as Hadv. rewrite <- Hp in Hadv.
  destruct (missed_abs req) as [Hmiss Hn]; [by rewrite Hp|].
  destruct (sim_shared _ _ Hsim) as [Hstill _|t1 req1 nt1 Ht1 Ho Hk Hnt Heq|t1 q from sa Ht1 Hq Ho _].
  - by specialize (Hstill t p Ht); rewrite Hp in Hstill.
  - destruct (decide (t = t1)) as [<-|Hne]; [|by specialize (Ho t p Hne Ht); rewrite Hp in Ho].
    rewrite Ht, Hp in Ht1. injection Ht1 as <- <-.
    assert (notifs (shared l) = _) as Hno by exact (f_equal notifs Heq). cbn [notifs with_notifs] in Hno.
    rewrite Hno in *. cbn [handlers fetchRequests fetch_capacity heap] in *.
    eapply (refine_getSA _ _ req (None, Some nt)); [exact Hadv|by rewrite Hp|done|by rewrite Hp| |].
    + unfold getSA, create, make_chan. rewrite Hmiss, Hn, Hk, decide_True by done. rewrite <- Hnt. reflexivity.
    + eapply (stands_again _ _ p); [apply Hsim|exact Ht|by rewrite Hp|done|].
      exact (f_equal (with_notifs _) Heq).
  - assert (t ≠ t1) as Hne by (intros ->; destruct Hq; congruence). by specialize (Ho t p Hne Ht); rewrite Hp in Ho.
Qed.

(** An account that comes in: the entry under the write lock, the notifier with [n.mu] besides. *)
Lemma refine_setSA from sa :
  p = InWrite (AddSA from sa) →
  goal (with_saCache (<[sa_key (sa_Name sa) (sa_Namespace sa) := entry_of_sa (shared l) sa]> (saCache (shared l))) (shared l))
    (AtBroadcastLock from sa).
Proof using Hsim Ht.
  intros Hp. assert (no_usage (shared l) = no_usage (sys_cache s)) as Heq
    by (eapply (stands_alone _ t p); [apply Hsim|exact Ht|by rewrite Hp|by rewrite Hp|apply Hsim]).
  eapply (simulates_intro l s s); [done|done|rewrite Hp; by eapply adv_setSA|by left| | |].
  - rewrite (phases_same _ _ p) by (done || by rewrite Hp). apply Hsim.
  - rewrite (fetches_same _ _ p) by (done || by rewrite Hp). apply Hsim.
  - eapply (stands_adding _ _ _ t _ from sa); [apply lookup_insert_eq|by left| |].
    + intros t' q Hne Hq. rewrite lookup_insert_ne in Hq by done.
      eapply (alone _ t p); [apply Hsim|exact Ht|by rewrite Hp|exact Hne|exact Hq].
    + exact (f_equal (λ c, with_saCache (<[_ := entry_of_sa c sa]> (saCache c)) c) Heq).
Qed.

(** Whoever is at the broadcast has just stored the entry, and nothing else has changed. *)
Lemma adding_now from sa :
  p = AtBroadcastLock from sa ∨ p = InBroadcast from sa →
  no_usage (shared l) = with_saCache (<[sa_key (sa_Name sa) (sa_Namespace sa) := entry_of_sa (sys_cache s) sa]>
    (saCache (sys_cache s))) (no_usage (sys_cache s)) ∧
  (∀ t' q, t' ≠ t → threads l !! t' = Some q → midway q = false).
Proof using Hsim Ht.
  intros Hp. assert (midway p = true) as Hmid by (by destruct Hp; subst).
  destruct (sim_shared _ _ Hsim) as [Hstill _|t1 req1 nt1 Ht1 Ho _ _ _|t1 q from1 sa1 Ht1 Hq Ho Heq].
  - specialize (Hstill t p Ht). congruence.
  - destruct (decide (t = t1)) as [<-|Hne]; [destruct Hp; simplify_eq|].
    specialize (Ho t p Hne Ht). congruence.
  - destruct (decide (t = t1)) as [<-|Hne]; [|specialize (Ho t p Hne Ht); congruence].
    assert (sa1 = sa) as -> by (destruct Hp, Hq; congruence). done.
Qed.

Lemma refine_broadcast_lock from sa :
  p = AtBroadcastLock from sa → nobody holds_mu l → goal (shared l) (InBroadcast from sa).
Proof using Hsim Ht.
  intros Hp Hmu. destruct (adding_now from sa (or_introl Hp)) as [Heq Ho].
  eapply (simulates_intro l s s); [done|done|rewrite Hp; by apply adv_broadcast_lock|by left| | |].
  - rewrite (phases_same _ _ p) by (done || by rewrite Hp). apply Hsim.
  - rewrite (fetches_same _ _ p) by (done || by rewrite Hp). apply Hsim.
  - eapply (stands_adding _ _ _ t _ from sa); [apply lookup_insert_eq|by right| |exact Heq].
    intros t' q Hne Hq. rewrite lookup_insert_ne in Hq by done. by eapply Ho.
Qed.

Lemma refine_broadcast from sa n :
  p = InBroadcast from sa → broadcast (sa_key (sa_Name sa) (sa_Namespace sa)) (notifs (shared l)) = Returned n →
  goal (with_notifs n (shared l)) AtBroadcastUnlock.
Proof using Hsim Ht.
  intros Hp Hb. destruct (adding_now from sa (or_intror Hp)) as [Heq Ho].
  assert (notifs (shared l) = notifs (sys_cache s)) as Hno by exact (f_equal notifs Heq).
  assert (∃ c1, addSA sa (sys_cache s) = Returned c1 ∧ no_usage (with_notifs n (shared l)) = no_usage c1) as (c1 & Hadd & Hc1).
  { eexists. split; [unfold addSA, setSA; cbn [notifs with_webhookUsage]; rewrite <- Hno, Hb; reflexivity|].
    exact (f_equal (with_notifs n) Heq). }
  assert (stands_for (<[t := AtBroadcastUnlock]> (threads l)) (with_notifs n (shared l)) c1) as Hst
    by (eapply (stands_again _ _ p); [apply Hsim|exact Ht|by rewrite Hp|done|done]).
  destruct from as [req|].
  - destruct (sim_adding _ _ Hsim t p req sa Ht) as [Hname Hns]; [by rewrite Hp|].
    destruct (fetches_over _ _ _ AtBroadcastUnlock req (in_flight s) Ht) as (pre & post & Hfl & Hf); [by rewrite Hp|done|apply Hsim|].
    eapply (simulates_intro l s (mkSystem c1 (gets s) (pre ++ post))); cbn [gets in_flight sys_cache];
      [done|done|rewrite Hp; by apply adv_broadcast|right; by eapply step_fetch_ok| |done|done].
    rewrite (phases_same _ _ p) by (done || by rewrite Hp). apply Hsim.
  - eapply (refine_write _ _ c1); [rewrite Hp; by apply adv_broadcast|by rewrite Hp..|done|by eapply step_sa_event|done].
Qed.

End refinement.

Lemma refine_advance l s t p c' p' :
  simulates l s → threads l !! t = Some p → advance l p c' p' →
  ∃ s', rtc step s s' ∧ simulates (mkProcess c' (<[t := p']> (threads l))) s'.
Proof.
  intros Hsim Ht Hadv. pose proof Hadv as Hadv'.
  destruct Hadv' as [req|req sa|from sa|[]|req e He|req Hk Hn|req Hk Hn|req|req nt Hk|req nt h n -> Hk Hmk|req nt n -> Hroom
    |req nt|q| |[[]|]|[]|[]|from sa|from sa|from sa n Hb| |name ns|name ns e|name ns|];
    try (by eapply (refine_silent l s t _ Hsim Ht)).
  - by eapply refine_fetch_error.
  - by eapply refine_hit.
  - by eapply refine_quiet_miss.
  - by eapply refine_found.
  - by eapply refine_make.
  - by eapply refine_send.
  - by eapply refine_getCM.
  - by eapply refine_setSA.
  - by eapply refine_broadcast_lock.
  - by eapply refine_broadcast.
  - eapply (refine_write l s t _ Hsim Ht _ _ (popSA name ns (sys_cache s)) Hadv); try done.
    + exact (step_sa_delete (DeletedSA (mkServiceAccount name ns ∅)) s).
    + exact (f_equal (popSA name ns) (stands_alone _ _ _ _ _ (sim_exclusive _ _ Hsim) Ht eq_refl eq_refl (sim_shared _ _ Hsim))).
  - eapply (refine_write l s t _ Hsim Ht _ _ (setCM name ns e (sys_cache s)) Hadv); try done; [apply step_cm_set|].
    exact (f_equal (setCM name ns e) (stands_alone _ _ _ _ _ (sim_exclusive _ _ Hsim) Ht eq_refl eq_refl (sim_shared _ _ Hsim))).
  - eapply (refine_write l s t _ Hsim Ht _ _ (popCM name ns (sys_cache s)) Hadv); try done; [apply step_cm_pop|].
    exact (f_equal (popCM name ns) (stands_alone _ _ _ _ _ (sim_exclusive _ _ Hsim) Ht eq_refl eq_refl (sim_shared _ _ Hsim))).
Qed.

(** A goroutine that is new keeps what does not depend on the cache. *)
Lemma simulates_new l s s' t p c' :
  simulates l s → threads l !! t = None → s' = s ∨ step s s' →
  reads p || writes p || announced p || holds_mu p = false → phase_of p = None → missed p = None →
  (∀ req sa, adding p ≠ Some (Some req, sa)) → saCache c' = saCache (shared l) →
  gets s' = gets s → in_flight s' ≡ₚ option_list (fetch_of p) ++ in_flight s →
  stands_for (threads l) c' (sys_cache s') → simulates (mkProcess c' (<[t := p]> (threads l))) s'.
Proof.
  intros Hsim Ht Hs Hlocks Hph Hmi Had Hsa Hg Hf Hst. split; cbn [shared threads].
  - destruct Hs as [->|Hs]; [apply Hsim|]. eapply step_wf; [apply Hsim|done].
  - apply exclusive_put; [apply Hsim|]. intros t' q Hne Hq. revert Hlocks. unfold compatible.
    destruct (reads p), (writes p), (announced p), (holds_mu p), (writes q); done.
  - rewrite Hg, (phases_new _ _ _ Ht Hph). apply Hsim.
  - rewrite Hf, (fetches_new _ _ _ Ht). f_equiv. apply Hsim.
  - rewrite Hsa. intros t' q req [[_ <-]|[_ Hq]]%lookup_insert_Some Hm; [congruence|]. by eapply (sim_missed _ _ Hsim).
  - intros t' q req sa [[_ <-]|[_ Hq]]%lookup_insert_Some Ha; [by apply Had in Ha|]. by eapply (sim_adding _ _ Hsim).
  - apply stands_new; [done| |done]. by destruct p.
Qed.

(** Draining touches the buffer only, in the middle of other changes as between them. *)
Lemma refine_drain l s t req n :
  simulates l s → take_fetch (notifs (shared l)) = Some (req, n) → threads l !! t = None →
  ∃ s', rtc step s s' ∧ simulates (mkProcess (with_notifs n (shared l)) (<[t := Fetching req]> (threads l))) s'.
Proof.
  intros Hsim Htake Ht.
  assert (∃ n', take_fetch (notifs (sys_cache s)) = Some (req, n') ∧
    stands_for (threads l) (with_notifs n (shared l)) (with_notifs n' (sys_cache s))) as (n' & Htake' & Hst).
  { apply take_fetch_spec in Htake as (Hh & Hhp & Hcap & Hq).
    destruct (sim_shared _ _ Hsim) as [Hstill Heq|t1 req1 nt1 Ht1 Ho Hk Hnt Heq|t1 q from sa Ht1 Hpc Ho Heq];
      pose proof (f_equal notifs Heq) as Hno; cbn [notifs no_usage with_notifs with_webhookUsage with_saCache] in Hno.
    - exists n. split; [|apply stands_still; [done|exact (f_equal (with_notifs n) Heq)]].
      rewrite Hno in *. unfold take_fetch. rewrite Hq. by destruct n; simplify_eq/=.
    - rewrite Hno in *. cbn [handlers fetchRequests fetch_capacity heap] in *. unfold take_fetch. rewrite Hq. eexists. split; [done|].
      apply (stands_sending _ _ _ t1 req1 nt1); [done..|]. cbn [notifs with_notifs handlers fetchRequests fetch_capacity heap].
      apply (f_equal (with_notifs n)) in Heq. rewrite <- Hh, <- Hcap, <- Hhp. by destruct n.
    - exists n. split; [|apply (stands_adding _ _ _ t1 q from sa); [done..|exact (f_equal (with_notifs n) Heq)]].
      rewrite Hno in *. unfold take_fetch. rewrite Hq. by destruct n; simplify_eq/=. }
  assert (step s (mkSystem (with_notifs n' (sys_cache s)) (gets s) (in_flight s ++ [req]))) as Hs by by apply step_take_fetch.
  eexists. split; [by apply rtc_once|].
  eapply (simulates_new l s); [done|done|by right|done..| | |]; cbn [gets in_flight sys_cache].
  - done.
  - simpl. by rewrite Permutation_app_comm.
  - done.
Qed.

Lemma refine_step l s l' : simulates l s → lock_step l l' → ∃ s', rtc step s s' ∧ simulates l' s'.
Proof.
  intros Hsim [l1 [t p c' p' Ht Hadv|t req n Htake Ht]|t p Ht Hp].
  - by eapply refine_advance.
  - by eapply refine_drain.
  - exists s. split; [done|]. destruct p as [|[]| [] | | | | | | |[]| | | | | | |]; try done;
      (eapply (simulates_new l s); [done|done|by left|done..|apply Hsim]).
Qed.

Lemma boot_simulates c : cache_wf c → simulates (mkProcess c ∅) (mkSystem c ∅ []).
Proof.
  intros Hwf. split; cbn [shared threads sys_cache gets in_flight].
  - split; [done|]. intros t p ch. cbn [gets]. by rewrite lookup_empty.
  - intros t t' p q _. by rewrite lookup_empty.
  - by rewrite omap_empty.
  - done.
  - intros t p req. by rewrite lookup_empty.
  - intros t p req sa. by rewrite lookup_empty.
  - apply stands_still; [|done]. intros t p. by rewrite lookup_empty.
Qed.

Lemma refine_run l l' s : rtc lock_step l l' → simulates l s → ∃ s', rtc step s s' ∧ simulates l' s'.
Proof.
  intros Hrun. revert s. induction Hrun as [|l l1 l' Hstep _ IH]; intros s Hsim; [by exists s|].
  destruct (refine_step _ _ _ Hsim Hstep) as (s1 & Hs1 & Hsim1). destruct (IH _ Hsim1) as (s' & Hs' & Hsim').
  exists s'. split; [by etrans|done].
Qed.

(** *** Progress *)

Definition is_finished (p : pc) : bool := match p with Finished _ => true | _ => false end.

(** Every call has come back and no fetch is under way. *)
Definition settled (l : process) : Prop :=
  map_Forall (λ _ p, is_finished p = true) (threads l) ∧ fetchRequests (notifs (shared l)) = [].

Section progress.
Context (l : process) (s : system) (Hsim : simulates l s) (Hbuf : buffer_ok (notifs (sys_cache s))).

Abbreviation enabled := (∃ l', internal l l').

Lemma goes t p c' p' : threads l !! t = Some p → advance l p c' p' → enabled.
Proof using. intros. eexists. by eapply internal_advance. Qed.

(** The buffer is that of the system, whoever is midway. *)
Lemma buffer_shared :
  fetchRequests (notifs (shared l)) = fetchRequests (notifs (sys_cache s)) ∧
  fetch_capacity (notifs (shared l)) = fetch_capacity (notifs (sys_cache s)).
Proof using Hsim.
  destruct (sim_shared _ _ Hsim) as [_ Heq|t1 req1 nt1 _ _ _ _ Heq|t1 q from sa _ _ _ Heq];
    pose proof (f_equal notifs Heq) as Hno; cbn [notifs no_usage with_notifs with_webhookUsage with_saCache] in Hno; by rewrite Hno.
Qed.

Lemma drains : fetchRequests (notifs (shared l)) ≠ [] → enabled.
Proof using.
  intros Hne. destruct (take_fetch (notifs (shared l))) as [[req n]|] eqn:Htake.
  - eexists. apply (internal_drain l (fresh (dom (threads l))) req n Htake).
    apply not_elem_of_dom. apply is_fresh.
  - unfold take_fetch in Htake. by destruct (fetchRequests _).
Qed.

(** A writer is held up by nobody: [n.mu] is taken inside [c.mu] only. *)
Lemma writer_goes t p : threads l !! t = Some p → writes p = true → enabled.
Proof using Hsim.
  intros Ht Hp. destruct p as [| | | | | | | | | | |[from sa|name ns|name ns e|name ns]|from sa|from sa| | |]; try done;
    try (eapply goes; [exact Ht|by constructor]).
  - eapply goes; [exact Ht|]. apply adv_broadcast_lock. intros t' q Hq.
    destruct (decide (t = t')) as [<-|Hne]; [by simplify_eq|].
    pose proof (sim_exclusive _ _ Hsim t t' _ q Hne Ht Hq) as Hc. by destruct q.
  - destruct (adding_now l s t _ Hsim Ht from sa (or_intror eq_refl)) as [Heq _].
    assert (notifs (shared l) = notifs (sys_cache s)) as Hno by exact (f_equal notifs Heq).
    destruct (broadcast_spec (sa_key (sa_Name sa) (sa_Namespace sa)) (notifs (shared l))) as (n & Hb & _).
    { rewrite Hno. apply Hsim. }
    eapply goes; [exact Ht|by apply adv_broadcast].
Qed.

(** A reader waits for [n.mu] or for room in the buffer only. *)
Lemma mu_holder_goes t p : threads l !! t = Some p → holds_mu p = true → enabled.
Proof using Hsim Hbuf.
  intros Ht Hp. destruct (writes p) eqn:Hw; [by eapply writer_goes|]. destruct p as [| | | | |req|req nt|req nt| | | | | | | | |]; try done.
  - destruct (handlers (notifs (shared l)) !! CacheKey req) eqn:Hk; eapply goes; [exact Ht|by apply adv_found|exact Ht|].
    by eapply adv_make.
  - destruct (decide (fetchRequests (notifs (shared l)) = [])) as [He|]; [|by apply drains].
    eapply goes; [exact Ht|]. eapply adv_send; [reflexivity|]. destruct buffer_shared as [_ ->], Hbuf as [Hpos _].
    by rewrite He.
  - eapply goes; [exact Ht|constructor].
Qed.

Lemma reader_goes t p : nobody holds_mu l → threads l !! t = Some p → reads p = true → enabled.
Proof using.
  intros Hmu Ht Hp. destruct p as [| | |[req|q|]|req|req|req nt|req nt|q| | | | | | | |]; try done;
    try (eapply goes; [exact Ht|by constructor]); try by specialize (Hmu t _ Ht).
  destruct (saCache (shared l) !! CacheKey req) eqn:Hk; [eapply goes; [exact Ht|by apply adv_hit]|].
  destruct (RequestNotification req) eqn:Hn; eapply goes; [exact Ht|by apply adv_miss|exact Ht|by apply adv_quiet_miss].
Qed.

Lemma not_settled_goes : ¬ settled l → enabled.
Proof using Hsim Hbuf.
  intros Hns. destruct (decide (fetchRequests (notifs (shared l)) = [])) as [Hb|]; [|by apply drains].
  destruct (nobody_or writes l) as [Hw|(t & p & Ht & Hp)]; [|by eapply writer_goes].
  destruct (nobody_or holds_mu l) as [Hmu|(t & p & Ht & Hp)]; [|by eapply mu_holder_goes].
  destruct (nobody_or reads l) as [Hr|(t & p & Ht & Hp)]; [|by eapply reader_goes].
  destruct (nobody_or announced l) as [Ha|(t & p & Ht & Hp)].
  2: { destruct p; try done. eapply goes; [exact Ht|by apply adv_Lock]. }
  destruct (nobody_or (negb ∘ is_finished) l) as [Hf|(t & p & Ht & Hp)].
  { destruct Hns. split; [|done]. intros t p Ht. specialize (Hf t p Ht). simpl in Hf. by destruct (is_finished p). }
  pose proof (Hw t p Ht). pose proof (Hr t p Ht). pose proof (Ha t p Ht).
  destruct p; try done; (eapply goes; [exact Ht|by constructor]).
Qed.

End progress.

(** *** Termination *)

Definition phase_rank (p : get_phase) : nat := match p with AfterSA _ _ _ => 2 | AfterCM _ _ _ => 1 | Answered _ _ => 0 end.

(** How many statements a goroutine can still go, with those of the fetch it may ask for. *)
Definition pc_rank (p : pc) : nat :=
  match p with
  | Finished _ => 0
  | AtRUnlock (Some p) => 4 * phase_rank p + 1
  | AtRUnlock None | AtUnlock => 1
  | AtRLock (ReadCM p) => 4 * phase_rank p + if decide (phase_rank p = 0) then 4 else 0
  | InRead (ReadCM p) => 4 * phase_rank p + (if decide (phase_rank p = 0) then 4 else 0) - 1
  | AtRLock ReadOther => 4
  | InRead ReadOther => 3
  | AtRLock (ReadSA _) => 25
  | InRead (ReadSA _) => 24
  | AtMuLock _ => 23
  | InMu _ => 22
  | AtSend _ _ => 21
  | AtMuUnlock _ _ => 10
  | Fetching _ => 9
  | AtAddSA _ _ => 8
  | AtLock _ => 7
  | Waiting _ => 6
  | InWrite _ => 5
  | AtBroadcastLock _ _ => 4
  | InBroadcast _ _ => 3
  | AtBroadcastUnlock => 2
  end.

Definition threads_rank (m : gmap nat pc) : nat := map_fold (λ _ p n, pc_rank p + n) 0 m.

Definition rank (l : process) : nat := threads_rank (threads l) + 10 * length (fetchRequests (notifs (shared l))).

Lemma threads_rank_new m t p : m !! t = None → threads_rank (<[t := p]> m) = pc_rank p + threads_rank m.
Proof. intros Ht. apply (map_fold_insert_L (λ _ p n, pc_rank p + n)); [lia|done]. Qed.

Lemma threads_rank_put m t p p' :
  m !! t = Some p → threads_rank (<[t := p']> m) + pc_rank p = pc_rank p' + threads_rank m.
Proof.
  intros Ht. rewrite <- (insert_id m t p Ht) at 2. rewrite <- !(insert_delete_eq m t).
  rewrite !threads_rank_new by apply lookup_delete_eq. lia.
Qed.

Lemma getCM_phase_rank c p : phase_rank (getCM_phase c p) ≤ phase_rank p - 1.
Proof. destruct p; simpl; repeat case_match; simpl; lia. Qed.

Lemma broadcast_buffer key n n' : broadcast key n = Returned n' → fetchRequests n' = fetchRequests n.
Proof.
  unfold broadcast. destruct (handlers n !! key); [|by intros [= ->]].
  rewrite outcome_bind_returned. by intros (h & _ & [= <-]).
Qed.

(** What a statement leaves to be done is less, with a request in the buffer counted. *)
Lemma advance_rank l p c' p' :
  advance l p c' p' →
  pc_rank p' + 10 * length (fetchRequests (notifs c')) < pc_rank p + 10 * length (fetchRequests (notifs (shared l))).
Proof.
  destruct 1 as [req|req sa|from sa|[]|req e He|req Hk Hn|req Hk Hn|req|req nt Hk|req nt h n -> Hk Hmk|req nt n -> Hroom
    |req nt|q| |[[]|]|[]|[]|from sa|from sa|from sa n Hb| |name ns|name ns e|name ns|];
    cbn [pc_rank notifs with_notifs with_saCache with_cmCache with_webhookUsage setCM popCM popSA fetchRequests after_section phase_rank];
    rewrite ?length_app; cbn [length]; try lia.
  all: try (unfold getSA_phase; repeat case_decide; simpl; lia).
  - pose proof (getCM_phase_rank (shared l) q). case_decide; lia.
  - rewrite (broadcast_buffer _ _ _ Hb). lia.
Qed.

Lemma internal_rank l l' : internal l l' → rank l' < rank l.
Proof.
  destruct 1 as [t p c' p' Ht Hadv|t req n Htake Ht]; unfold rank; cbn [threads shared].
  - pose proof (threads_rank_put _ _ _ p' Ht). apply advance_rank in Hadv. lia.
  - rewrite (threads_rank_new _ _ _ Ht). apply take_fetch_spec in Htake as (_ & _ & _ & Hq).
    cbn [notifs with_notifs pc_rank]. rewrite Hq. simpl. lia.
Qed.

Lemma internal_ends l : sn internal l.
Proof.
  remember (rank l) as n eqn:Hn. revert l Hn. induction (lt_wf n) as [n _ IH]. intros l ->.
  constructor. intros l' Hl'%internal_rank. by eapply IH.
Qed.

(** ** Properties *)

(** C36. The locks and the buffer cannot deadlock the cache: whatever lookups, informer events and
    fetches have been started from a cache with room for at least one request, lookups waiting
    for room with both locks held, writers waiting for them and readers waiting for the writers
    included, what is inside goes on without any further call and comes to an end, and it comes
    to none before every call has come back and every fetch requested has been served. *)
Theorem cache_never_deadlocks c l :
  cache_wf c → buffer_ok (notifs c) → rtc lock_step (mkProcess c ∅) l →
  sn internal l ∧ ∀ l', rtc internal l l' → nf internal l' → settled l'.
Proof.
  intros Hwf Hbuf Hrun. split; [apply internal_ends|]. intros l' Hl' Hnf.
  assert (rtc lock_step (mkProcess c ∅) l') as Hrun'.
  { etrans; [exact Hrun|]. eapply rtc_subrel; [|exact Hl']. intros. by apply lock_internal. }
  destruct (refine_run _ _ _ Hrun' (boot_simulates c Hwf)) as (s & Hs & Hsim).
  apply (reachable_inv (λ c, buffer_ok (notifs c)) _ _ step_buffer) in Hs; [|done].
  apply dec_stable. intros Hns. destruct Hnf. by eapply not_settled_goes.
Qed.

(** C40. The critical sections are atomic: what goroutines do to the cache statement by
    statement, under its two locks, is a run of the system whose steps are whole sections:
    every lookup is as far and holds the same notifier and the same answer there, the same
    fetches are under way, and whenever nobody is in the middle of a change the maps, the
    notifications and the settings are the same. *)
Theorem critical_sections_are_atomic c l :
  cache_wf c → rtc lock_step (mkProcess c ∅) l →
  ∃ s, rtc step (mkSystem c ∅ []) s ∧ gets s = omap phase_of (threads l) ∧ in_flight s ≡ₚ fetches (threads l) ∧
    (nobody midway l → no_usage (shared l) = no_usage (sys_cache s)).
Proof.
  intros Hwf Hrun. destruct (refine_run _ _ _ Hrun (boot_simulates c Hwf)) as (s & Hs & Hsim).
  exists s. split; [done|]. split; [apply Hsim|]. split; [apply Hsim|]. intros Hno.
  destruct (sim_shared _ _ Hsim) as [_ ?|t req nt Ht _ _ _ _|t p from sa Ht Hp _ _]; [done|exfalso..].
  - by specialize (Hno t _ Ht).
  - specialize (Hno t _ Ht). by destruct Hp; subst.
Qed.

(** ** Witnesses *)

(** A cache with room for one request. *)
Definition ex_tight : serviceAccountCache := with_notifs (newNotifications 1) ex_cache.

Definition ex_lookup (name : string) : Request := mkRequest name "default" true.

(** The first lookup has asked for a fetch and goes on to the ConfigMap; the second holds both
    locks and waits for room; an informer waits for it to leave; the others wait for the informer. *)
Definition ex_blocked : process :=
  mkProcess
    (with_notifs (mkNotifications (<["default/b" := 1]> {[ "default/a" := 0 ]}) [ex_lookup "a"] 1 (mkChans 2 ∅))
       (with_webhookUsage 1 ex_tight))
    (<[3 := AtRLock (ReadSA (ex_lookup "c"))]> (<[2 := Waiting (AddSA None ex_sa)]> (<[1 := AtSend (ex_lookup "b") 1]>
       {[ 0 := AtRLock (ReadCM (AfterSA (ex_lookup "a") false (Some 0))) ]}))).

Ltac goes t tac := eapply rtc_l; [eapply lock_internal, (internal_advance _ t); [reflexivity|tac]|cbn [shared threads]].
Ltac calls t p := eapply rtc_l; [apply (lock_call _ t p); [reflexivity|exact I]|cbn [shared threads]].

Lemma ex_blocked_reachable : rtc lock_step (mkProcess ex_tight ∅) ex_blocked.
Proof.
  assert (∃ l, rtc lock_step (mkProcess ex_tight ∅) l ∧ l = ex_blocked) as (l & Hl & <-); [|exact Hl].
  eexists. split.
  - calls 0 (AtRLock (ReadSA (ex_lookup "a"))). goes 0 ltac:(apply adv_RLock; unfold nobody; by_decision).
    goes 0 ltac:(by apply adv_miss). goes 0 ltac:(apply adv_mu_lock; unfold nobody; by_decision).
    goes 0 ltac:(by eapply adv_make). goes 0 ltac:(eapply adv_send; [reflexivity|by_decision]).
    goes 0 ltac:(by apply adv_mu_unlock). goes 0 ltac:(by apply adv_RUnlock).
    calls 1 (AtRLock (ReadSA (ex_lookup "b"))). goes 1 ltac:(apply adv_RLock; unfold nobody; by_decision).
    goes 1 ltac:(by apply adv_miss). goes 1 ltac:(apply adv_mu_lock; unfold nobody; by_decision).
    goes 1 ltac:(by eapply adv_make).
    calls 2 (AtAddSA None ex_sa). goes 2 ltac:(by apply adv_use).
    goes 2 ltac:(apply adv_announce; unfold nobody; by_decision).
    calls 3 (AtRLock (ReadSA (ex_lookup "c"))). apply rtc_refl.
  - vm_compute. reflexivity.
Qed.

Lemma ex_tight_ok : cache_wf ex_tight ∧ buffer_ok (notifs ex_tight).
Proof.
  split; [|by_decision]. split; [apply newNotifications_wf|]. intros k ch Hk. cbn in Hk. by rewrite lookup_empty in Hk.
Qed.

(** Until the buffer is drained, nobody in it can go on. *)
Lemma ex_blocked_waits t p c' p' : threads ex_blocked !! t = Some p → ¬ advance ex_blocked p c' p'.
Proof.
  assert (∀ f t p, threads ex_blocked !! t = Some p → f p = true → ¬ nobody f ex_blocked) as Hsome.
  { intros f t0 p0 Ht Hf Hno. specialize (Hno t0 p0 Ht). simpl in Hno. congruence. }
  intros Ht Hadv. cbn [ex_blocked threads] in Ht.
  apply lookup_insert_Some in Ht as [[_ <-]|[_ Ht]]; [inversion Hadv; subst; by eapply (Hsome announced 2)|].
  apply lookup_insert_Some in Ht as [[_ <-]|[_ Ht]]; [inversion Hadv; subst; by eapply (Hsome reads 1)|].
  apply lookup_insert_Some in Ht as [[_ <-]|[_ Ht]]; [inversion Hadv; subst; cbn in *; lia|].
  apply lookup_singleton_Some in Ht as [_ <-]. inversion Hadv; subst; by eapply (Hsome announced 2).
Qed.

(** Draining lets them all go on, and all come back. *)
Lemma cache_never_deadlocks_witness :
  (∀ t p c' p', threads ex_blocked !! t = Some p → ¬ advance ex_blocked p c' p') ∧ ¬ settled ex_blocked ∧
  sn internal ex_blocked ∧ ∀ l', rtc internal ex_blocked l' → nf internal l' → settled l'.
Proof.
  split; [exact ex_blocked_waits|]. split; [intros [_ Hb]; discriminate Hb|].
  apply (cache_never_deadlocks ex_tight); [apply ex_tight_ok|apply ex_tight_ok|exact ex_blocked_reachable].
Defined.

Lemma critical_sections_are_atomic_witness :
  ∃ s, rtc step (mkSystem ex_tight ∅ []) s ∧
    gets s = {[ 0 := AfterSA (ex_lookup "a") false (Some 0) ]}.
Proof.
  destruct (critical_sections_are_atomic ex_tight ex_blocked) as (s & Hs & Hg & _);
    [apply ex_tight_ok|exact ex_blocked_reachable|].
  exists s. split; [exact Hs|]. rewrite Hg. vm_compute. reflexivity.
Defined.
