(* ===== verification/ConfigMaps.v ===== *)
(** * The life of the ConfigMap

    What the informer of ConfigMaps tells [populateCacheFromCM] of src/pkg/cache/cache.go, over
    any history of the pod-identity-webhook ConfigMap: versions that decode and versions that do
    not, and deletions, for which [New] registers no handler. The specification follows one
    key through the history. *)

From S2P Require Import Prelude GoStd Pkg Json Notifications Cache CacheProps CacheSystem.

(** ** The informer's calls *)

Inductive cm_change :=
| CMWritten (ev : cm_event)
| CMRemoved.

(** The first version is reported with [AddFunc], a later one with [UpdateFunc] and the version
    before, and a deletion to nobody; [prev] is the version the informer has. *)
Definition cm_notify (prev : option ConfigMap) (ch : cm_change) (c : serviceAccountCache)
    : outcome (option ConfigMap * serviceAccountCache) :=
  match ch with
  | CMWritten ev =>
      let! c' := onCMEvent (ev_new ev) (ev_old ev) prev (ev_cm ev) c in Returned (Some (ev_cm ev), c')
  | CMRemoved => Returned (None, c)
  end.

Fixpoint follow (prev : option ConfigMap) (l : list cm_change) (c : serviceAccountCache) : outcome serviceAccountCache :=
  match l with
  | [] => Returned c
  | ch :: l' => let! x := cm_notify prev ch c in follow x.1 l' x.2
  end.

(** ** Specification *)

(** What a version says, if it decodes. *)
Definition version_of (cm : ConfigMap) : option (gmap string (option Entry)) :=
  match unmarshal_entries (config_of cm) with Ok sas => Some sas | Err _ => None end.

(** A version whose keys and entries can be stored, or that does not decode. *)
Definition storable (ch : cm_change) : Prop :=
  match ch with
  | CMWritten ev =>
      range_ok (ev_new ev) ∧ range_ok (ev_old ev) ∧ cm_Name (ev_cm ev) = "pod-identity-webhook" ∧
      match version_of (ev_cm ev) with Some sas => config_ok sas | None => True end
  | CMRemoved => True
  end.

(** One key through one change: the entry the cache serves under it, and whether the version the
    informer has decodes and lists it. *)
Definition key_after (dflt : Z) (k : string) (st : option Entry * bool) (ch : cm_change) : option Entry * bool :=
  match ch with
  | CMRemoved => (st.1, false)
  | CMWritten ev =>
      match version_of (ev_cm ev) with
      | None => (st.1, false)
      | Some sas =>
          match sas !! k with
          | Some oe => (fix_expiration dflt <$> oe, true)
          | None => (if st.2 then None else st.1, false)
          end
      end
  end.

Definition key_history (dflt : Z) (k : string) (st : option Entry * bool) (l : list cm_change) : option Entry * bool :=
  foldl (key_after dflt k) st l.

(** No version lists the key. *)
Definition silent_on (k : string) (ch : cm_change) : Prop :=
  match ch with
  | CMWritten ev => match version_of (ev_cm ev) with Some sas => sas !! k = None | None => True end
  | CMRemoved => True
  end.

(** ** Lemmas *)

(** What the version the informer has says of a key. *)
Definition listed (prev : option ConfigMap) (k : string) : bool :=
  match prev ≫= version_of with Some olds => bool_decide (is_Some (olds !! k)) | None => false end.

Definition prev_ok (prev : option ConfigMap) : Prop :=
  match prev ≫= version_of with Some olds => config_ok olds | None => True end.

Lemma config_entries_lookup dflt sas k :
  config_ok sas →
  config_entries dflt sas !! k = match sas !! k with Some oe => fix_expiration dflt <$> oe | None => None end ∧
  (is_Some (sas !! k) → is_Some (config_entries dflt sas !! k)).
Proof.
  intros Hok. unfold config_entries. rewrite lookup_fmap, lookup_omap.
  destruct (sas !! k) as [oe|] eqn:Hk; simpl; [|split; [done|by intros []]].
  destruct (Hok k oe Hk) as [_ [e ->]]. simpl. by split.
Qed.

Lemma version_Ok cm sas : version_of cm = Some sas → unmarshal_entries (config_of cm) = Ok sas.
Proof. unfold version_of. destruct (unmarshal_entries _); by intros [= ->]. Qed.

Lemma version_Err cm : version_of cm = None → ∃ e, unmarshal_entries (config_of cm) = Err e.
Proof. unfold version_of. destruct (unmarshal_entries _) as [|e]; [done|]. by exists e. Qed.

(** One call of the informer, key by key. *)
Lemma cm_notify_spec prev ch c :
  prev_ok prev → storable ch →
  ∃ prev' m, cm_notify prev ch c = Returned (prev', with_cmCache m c) ∧ prev_ok prev' ∧
    ∀ k, (m !! k, listed prev' k) = key_after (defaultTokenExpiration c) k (cmCache c !! k, listed prev k) ch.
Proof.
  intros Hp. destruct ch as [ev|]; [|intros _; exists None, (cmCache c); by rewrite with_cmCache_id].
  intros (Hr1 & Hr2 & Hname & Hv). cbn [cm_notify key_after]. unfold onCMEvent.
  destruct (version_of (ev_cm ev)) as [sas|] eqn:Hver.
  - pose proof (version_Ok _ _ Hver) as Hu.
    assert (∃ r m, populateCacheFromCM (ev_new ev) (ev_old ev) prev (ev_cm ev) c = Returned (r, with_cmCache m c) ∧
      ∀ k, m !! k = match config_entries (defaultTokenExpiration c) sas !! k with
                    | Some e => Some e
                    | None => if listed prev k then None else cmCache c !! k
                    end) as (r & m & -> & Hm).
    { unfold listed, prev_ok in *. destruct prev as [old|]; simpl in *; [destruct (version_of old) as [olds|] eqn:Hold|].
      - destruct (populate_ok (ev_new ev) (ev_old ev) (Some old) (ev_cm ev) c sas olds) as (m & -> & Hm);
          auto using config_ok_keys, version_Ok.
        exists (Ok ()), m. split; [done|]. intros k. rewrite Hm. case_match; [done|].
        case_bool_decide; by case_decide.
      - destruct (version_Err _ Hold) as [e He].
        rewrite (configmap_old_error_keeps_stale _ _ old (ev_cm ev) c sas e) by (assumption || by split_and!).
        eexists _, _. split; [reflexivity|]. intros k. rewrite lookup_union.
        by destruct (config_entries _ sas !! k), (cmCache c !! k).
      - destruct (populate_ok (ev_new ev) (ev_old ev) None (ev_cm ev) c sas ∅) as (m & -> & Hm); [done..|].
        exists (Ok ()), m. split; [done|]. intros k. rewrite Hm, lookup_empty. case_match; [done|].
        by rewrite decide_False by (by intros []). }
    cbn [outcome_bind snd]. exists (Some (ev_cm ev)), m. split; [done|].
    split; [unfold prev_ok; simpl; by rewrite Hver|].
    intros k. unfold listed at 1. simpl. rewrite Hver, Hm.
    destruct (config_entries_lookup (defaultTokenExpiration c) sas k Hv) as [-> Hs].
    destruct (sas !! k) as [oe|] eqn:Hk; simpl; [|done].
    destruct (Hv k oe Hk) as [_ [e ->]]. done.
  - destruct (version_Err _ Hver) as [e He]. exists (Some (ev_cm ev)), (cmCache c).
    unfold populateCacheFromCM. rewrite decide_False by (by intros []). rewrite He.
    rewrite with_cmCache_id. split; [done|]. split; [unfold prev_ok; simpl; by rewrite Hver|].
    intros k. unfold listed at 1. simpl. by rewrite Hver.
Qed.

Lemma follow_spec prev l c :
  prev_ok prev → Forall storable l →
  ∃ m, follow prev l c = Returned (with_cmCache m c) ∧
    ∀ k, m !! k = (key_history (defaultTokenExpiration c) k (cmCache c !! k, listed prev k) l).1.
Proof.
  revert prev c. induction l as [|ch l IH]; intros prev c Hp.
  - intros _. exists (cmCache c). by rewrite with_cmCache_id.
  - intros [Hch Hl]%Forall_cons. cbn [follow].
    destruct (cm_notify_spec prev ch c Hp Hch) as (prev' & m & -> & Hp' & Hm). cbn [outcome_bind fst snd].
    destruct (IH prev' (with_cmCache m c) Hp' Hl) as (m' & -> & Hm'). exists m'. rewrite with_cmCache_same.
    split; [done|]. intros k. rewrite Hm'. cbn [key_history foldl]. by rewrite <- Hm.
Qed.

(** What the cache serves under a key the informer's version does not list stays until a version
    lists it. *)
Lemma silent_history dflt k e l :
  Forall (silent_on k) l → key_history dflt k (e, false) l = (e, false).
Proof.
  unfold key_history. induction 1 as [|ch l Hch _ IH]; [done|]. cbn [foldl].
  assert (key_after dflt k (e, false) ch = (e, false)) as ->; [|exact IH].
  unfold key_after. destruct ch as [ev|]; simpl in *; [|done].
  destruct (version_of (ev_cm ev)) as [sas|]; [|done]. by rewrite Hch.
Qed.

(** The loops of [populateCacheFromCM] are sequences of steps of the concurrent cache. *)
Lemma loop_steps {B} (f : serviceAccountCache → B → outcome serviceAccountCache) c l c' g fl :
  (∀ c x c', f c x = Returned c' → rtc step (mkSystem c g fl) (mkSystem c' g fl)) →
  outcome_foldl f c l = Returned c' → rtc step (mkSystem c g fl) (mkSystem c' g fl).
Proof.
  intros Hf. revert c. induction l as [|x l IH]; intros c; cbn [outcome_foldl]; [by intros [= <-]; apply rtc_refl|].
  rewrite outcome_bind_returned. intros (c1 & H1 & H2). etrans; eauto.
Qed.

Lemma set_from_config_steps c kv c' g fl :
  set_from_config c kv = Returned c' → rtc step (mkSystem c g fl) (mkSystem c' g fl).
Proof.
  unfold set_from_config. destruct kv as [k [e|]]; [|done]. destruct (GoStrings.Split k "/") as [|ns [|name l]]; [done..|].
  intros [= <-]. apply rtc_once, (step_cm_set _ _ _ (mkSystem c g fl)).
Qed.

Lemma pop_from_config_steps sas c kv c' g fl :
  pop_from_config sas c kv = Returned c' → rtc step (mkSystem c g fl) (mkSystem c' g fl).
Proof.
  unfold pop_from_config. destruct (sas !! kv.1); [by intros [= <-]; apply rtc_refl|].
  destruct (GoStrings.Split kv.1 "/") as [|ns [|name l]]; [done..|].
  intros [= <-]. apply rtc_once, (step_cm_pop _ _ (mkSystem c g fl)).
Qed.

Lemma populate_steps r1 r2 oldCM newCM c x g fl :
  populateCacheFromCM r1 r2 oldCM newCM c = Returned x → rtc step (mkSystem c g fl) (mkSystem x.2 g fl).
Proof.
  unfold populateCacheFromCM. case_decide; [by intros [= <-]; apply rtc_refl|].
  destruct (unmarshal_entries _) as [sas|e]; [|by intros [= <-]; apply rtc_refl].
  rewrite outcome_bind_returned. intros (c1 & H1 & H2).
  etrans; [eapply loop_steps, H1; intros *; apply set_from_config_steps|].
  destruct oldCM as [old|]; [|by simplify_eq; apply rtc_refl].
  destruct (unmarshal_entries _) as [olds|e]; [|by simplify_eq; apply rtc_refl].
  apply outcome_bind_returned in H2 as (c2 & H2 & [= <-]).
  eapply loop_steps, H2. intros *. apply pop_from_config_steps.
Qed.

(** ** Theorems *)

(** The informer's calls refine the concurrent cache: whatever versions they report, decodable and
    storable or not, as long as they return they are sequences of its steps, so what is proved
    of every reachable state holds while ConfigMaps come and go. *)
Theorem follow_is_steps prev l c c' g fl :
  follow prev l c = Returned c' → rtc step (mkSystem c g fl) (mkSystem c' g fl).
Proof.
  revert prev c. induction l as [|ch l IH]; intros prev c; cbn [follow]; [by intros [= <-]; apply rtc_refl|].
  rewrite outcome_bind_returned. intros ([prev' c1] & H1 & H2). etrans; [|by eapply IH].
  destruct ch as [ev|]; cbn [cm_notify] in H1; [|by simplify_eq; apply rtc_refl].
  apply outcome_bind_returned in H1 as (c2 & H1 & [= <- <-]). unfold onCMEvent in H1.
  apply outcome_bind_returned in H1 as (x & H1 & [= <-]). by eapply populate_steps.
Qed.

(** C5. The ConfigMap half of the cache over the whole life of the ConfigMap, with versions that
    do not decode and with deletions, whatever orders Go ranges over maps in: under each key
    the cache serves what the last version that lists it says, and it drops a key exactly
    when a version without it directly follows one with it and both decode. *)
Theorem configmap_history l c :
  cmCache c = ∅ → Forall storable l →
  ∃ m, follow None l c = Returned (with_cmCache m c) ∧
    ∀ k, m !! k = (key_history (defaultTokenExpiration c) k (None, false) l).1.
Proof.
  intros Hc Hl. destruct (follow_spec None l c I Hl) as (m & Hf & Hm). exists m. split; [done|].
  intros k. by rewrite Hm, Hc, lookup_empty.
Qed.

(** C18. Deleting the ConfigMap revokes nothing: an entry of its last version is served after the
    deletion, and for as long as no version of a ConfigMap created later lists it again,
    whatever else these say; a lookup of an account without a role of its own gets it. *)
Theorem removed_configmap_is_served l ev sas l' c name ns e :
  Forall storable (l ++ CMWritten ev :: CMRemoved :: l') →
  version_of (ev_cm ev) = Some sas → sas !! sa_key name ns = Some (Some e) →
  Forall (silent_on (sa_key name ns)) l' →
  match saCache c !! sa_key name ns with Some e => RoleARN e = "" | None => True end →
  ∃ c', follow None (l ++ CMWritten ev :: CMRemoved :: l') c = Returned c' ∧
    Get (mkRequest name ns false) c' =
      Some (response_of (fix_expiration (defaultTokenExpiration c) e) true None, c').
Proof.
  intros Hl Hv Hk Hsil Hsa. destruct (follow_spec None _ c I Hl) as (m & Hf & Hm). eexists. split; [exact Hf|].
  destruct (Get_quiet (mkRequest name ns false) (with_cmCache m c)) as (resp & HG & Hn); [done|].
  rewrite HG. apply Get_effective in HG as (_ & _ & _ & _ & _ & ->). rewrite Hn.
  assert (m !! sa_key name ns = Some (fix_expiration (defaultTokenExpiration c) e)) as Hmk.
  { rewrite Hm. unfold key_history. rewrite foldl_app. cbn [foldl].
    assert (∀ st, key_after (defaultTokenExpiration c) (sa_key name ns) st (CMWritten ev) =
      (Some (fix_expiration (defaultTokenExpiration c) e), true)) as ->.
    { intros st. cbn [key_after]. by rewrite Hv, Hk. }
    cbn [key_after fst]. by apply (f_equal fst (silent_history _ _ _ _ Hsil)). }
  unfold effective. cbn [req_Name req_Namespace saCache cmCache with_cmCache]. rewrite Hmk.
  destruct (saCache c !! sa_key name ns) as [x|]; [by rewrite decide_True|done].
Qed.

(** ** Witnesses *)

Definition ex_written (cm : ConfigMap) : cm_change := CMWritten (mkEvent ex_range ex_range cm).

Lemma ex_written_storable cm sas :
  cm_Name cm = "pod-identity-webhook" → version_of cm = Some sas → config_ok sas → storable (ex_written cm).
Proof. intros Hn Hv Hok. split; [exact ex_range_ok|]. split; [exact ex_range_ok|]. split; [done|]. cbn [ev_cm]. by rewrite Hv. Qed.

Definition ex_sas1 : gmap string (option Entry) :=
  {[ "myns/mysa" := Some (mkEntry "arn:a" "" false 0); "myns2/mysa2" := Some (mkEntry "arn:b" "" false 90) ]}.
Definition ex_sas2 : gmap string (option Entry) := {[ "myns/mysa" := Some (mkEntry "arn:c" "" false 0) ]}.

(** Written with two entries, deleted, and created again with one. *)
Definition ex_life : list cm_change := [ex_written ex_config1; CMRemoved; ex_written ex_config2].

Lemma ex_life_storable : Forall storable ex_life.
Proof.
  apply Forall_cons; split; [|apply Forall_cons; split; [exact I|apply Forall_singleton]];
    [apply (ex_written_storable _ ex_sas1)|apply (ex_written_storable _ ex_sas2)];
    solve [reflexivity|by_decision|vm_compute; reflexivity].
Qed.

Lemma follow_is_steps_witness :
  ∃ c', rtc step ex_sys (mkSystem c' ∅ []) ∧ follow None ex_life ex_cache = Returned c'.
Proof.
  destruct (follow_spec None ex_life ex_cache I ex_life_storable) as (m & Hf & _). eexists. split; [|exact Hf].
  exact (follow_is_steps None ex_life ex_cache _ ∅ [] Hf).
Defined.

Lemma configmap_history_witness :
  ∃ m, follow None ex_life ex_cache = Returned (with_cmCache m ex_cache) ∧
    m !! "myns/mysa" = Some (mkEntry "arn:c" "" false 86400) ∧ m !! "myns2/mysa2" = Some (mkEntry "arn:b" "" false 90).
Proof.
  destruct (configmap_history ex_life ex_cache eq_refl ex_life_storable) as (m & Hf & Hm).
  exists m. split; [exact Hf|]. rewrite !Hm. split; vm_compute; reflexivity.
Defined.

Lemma removed_configmap_is_served_witness :
  ∃ c', follow None ex_life ex_cache = Returned c' ∧
    Get (mkRequest "mysa2" "myns2" false) c' = Some (mkResponse "arn:b" "" false 90 true None, c').
Proof.
  apply (removed_configmap_is_served [] (mkEvent ex_range ex_range ex_config1) ex_sas1 [ex_written ex_config2]
    ex_cache "mysa2" "myns2" (mkEntry "arn:b" "" false 90)).
  - exact ex_life_storable.
  - vm_compute. reflexivity.
  - by_decision.
  - constructor; [|constructor]. vm_compute. reflexivity.
  - exact I.
Defined.
