(* ===== verification/Lookup.v ===== *)
(** * One lookup among the other goroutines

    [Get] of src/pkg/cache/cache.go takes the lock up to three times, and other goroutines
    change the cache in between. This file says what such a lookup answers: the precedence of
    [Cache.effective] over up to three snapshots of the cache, taken in order; and how far
    that is from an answer about one moment. *)

From S2P Require Import Prelude GoStd Pkg Notifications Cache CacheProps CacheSystem.

(** ** Specification *)

(** The precedence of [Cache.effective], each source as it was when the lookup looked at it:
    the annotations, the ConfigMap entry of the account, the one for every namespace. *)
Definition precedence (annotated own wildcard : option Entry) : option Entry :=
  let from_cm := match own with Some e => Some e | None => wildcard end in
  match annotated with
  | Some e => if decide (RoleARN e = "") then from_cm else Some e
  | None => from_cm
  end.

Definition annotated (req : Request) (s : system) : option Entry := saCache (sys_cache s) !! CacheKey req.
Definition own (req : Request) (s : system) : option Entry := cmCache (sys_cache s) !! CacheKey req.
Definition wildcard (req : Request) (s : system) : option Entry :=
  cmCache (sys_cache s) !! sa_key (req_Name req) "*".

(** What is known of the account at one moment. *)
Definition effective_in (req : Request) (s : system) : option Entry :=
  effective (saCache (sys_cache s)) (cmCache (sys_cache s)) (req_Name req) (req_Namespace req).

(** The response for what the lookup has found, and whether the account had annotations. *)
Definition answer (found : bool) (nt : option chan) (e : option Entry) : Response :=
  match e with
  | Some e => response_of e true nt
  | None => mkResponse "" "" false DefaultTokenExpiration found nt
  end.

(** A step to a state that satisfies [P]; a run of these satisfies [P] all along. *)
Definition step_in (P : system → Prop) (s s' : system) : Prop := step s s' ∧ P s'.

(** ** Lemmas *)

Lemma effective_precedence req s :
  effective_in req s = precedence (annotated req s) (own req s) (wildcard req s).
Proof. done. Qed.

Lemma step_in_run (P : system → Prop) s s' : rtc (step_in P) s s' → P s → P s'.
Proof. induction 1 as [|s1 s2 s3 [_ HP] _ IH]; auto. Qed.

(** The phase of a goroutine that has begun changes only in its own critical sections. *)
Lemma step_phase_of t p s s' :
  step s s' → gets s !! t = Some p →
  sys_cache s' = sys_cache s ∧ gets s' !! t = Some (getCM_phase (sys_cache s) p) ∨ gets s' !! t = Some p.
Proof.
  intros Hstep Hp. destruct Hstep as [t' req r c' s Hg HSA|t' p' s Hp'|?|?|?|?|?|?|?|?]; cbn [gets sys_cache]; auto.
  - right. rewrite lookup_insert_ne; [done|congruence].
  - destruct (decide (t' = t)) as [->|Hne]; [left|right; by rewrite lookup_insert_ne].
    rewrite lookup_insert_eq. by simplify_eq.
Qed.

Section explained.
Context (P : system → Prop) (req : Request) (sa : option Entry) (nt : option chan) (s1 : system).

Definition found_annotations : bool := bool_decide (is_Some sa).

(** Without a role in the annotations the lookup goes on to the ConfigMap. *)
Definition no_role : Prop := match sa with Some e => RoleARN e = "" | None => True end.

(** Where the lookup stands in [s], explained by the states between [s1] and [s]. *)
Definition explained (s : system) (p : get_phase) : Prop :=
  match p with
  | AfterSA req' found nt' => req' = req ∧ found = found_annotations ∧ nt' = nt ∧ no_role
  | AfterCM req' found nt' =>
      req' = req ∧ found = found_annotations ∧ nt' = nt ∧ no_role ∧
      ∃ s2, rtc (step_in P) s1 s2 ∧ rtc (step_in P) s2 s ∧ own req s2 = None
  | Answered req' resp =>
      req' = req ∧
      ∃ s2 s3, rtc (step_in P) s1 s2 ∧ rtc (step_in P) s2 s3 ∧ rtc (step_in P) s3 s ∧
        resp = answer found_annotations nt (precedence sa (own req s2) (wildcard req s3))
  end.

Lemma precedence_no_role o w : no_role → precedence sa o w = match o with Some e => Some e | None => w end.
Proof. unfold no_role, precedence. destruct sa; [|done]. intros ->. by rewrite decide_True. Qed.

Lemma explained_later s s' p : step_in P s s' → explained s p → explained s' p.
Proof.
  intros Hstep. destruct p as [req' f n|req' f n|req' resp]; simpl; [done|..].
  - intros (-> & -> & -> & Hno & s2 & H1 & H2 & Ho). split_and!; try done. exists s2. split_and!; [done| |done].
    by eapply rtc_r.
  - intros (-> & s2 & s3 & H1 & H2 & H3 & Hresp). split; [done|]. exists s2, s3. split_and!; try done.
    by eapply rtc_r.
Qed.

Lemma explained_getCM s p : rtc (step_in P) s1 s → explained s p → explained s (getCM_phase (sys_cache s) p).
Proof.
  intros Hrun. destruct p as [req' f n|req' f n|req' resp]; cbn [explained getCM_phase]; [| |done].
  - intros (-> & -> & -> & Hno). unfold getCM.
    destruct (cmCache (sys_cache s) !! sa_key (req_Name req) (req_Namespace req)) as [e|] eqn:He; cbn [explained].
    + split; [done|]. exists s, s. split_and!; try done. rewrite precedence_no_role by done.
      unfold own. by rewrite CacheKey_sa_key, He.
    + split_and!; try done. exists s. split_and!; try done.
  - intros (-> & -> & -> & Hno & s2 & H1 & H2 & Ho). unfold getCM.
    assert (answer found_annotations nt (precedence sa (own req s2) (wildcard req s)) =
      answer found_annotations nt (cmCache (sys_cache s) !! sa_key (req_Name req) "*")) as Hans.
    { by rewrite precedence_no_role, Ho. }
    destruct (cmCache (sys_cache s) !! sa_key (req_Name req) "*") as [e|]; cbn [explained];
      (split; [done|]; exists s2, s; split_and!; try done).
Qed.

Lemma explained_run t s s' p :
  rtc (step_in P) s1 s → rtc (step_in P) s s' → gets s !! t = Some p → explained s p →
  ∃ p', gets s' !! t = Some p' ∧ explained s' p'.
Proof.
  intros Hpre Hrun. revert p Hpre. induction Hrun as [s|s s2 s' Hstep Hrun IH]; intros p Hpre Hp Hex; [eauto|].
  assert (rtc (step_in P) s1 s2) as Hpre' by (by eapply rtc_r).
  destruct (step_phase_of t p s s2 (proj1 Hstep) Hp) as [[Hc Hp2]|Hp2]; eapply IH; try done.
  - eapply explained_later; [done|]. by apply explained_getCM.
  - by eapply explained_later.
Qed.

End explained.

(** The first critical section. *)
Lemma explained_start P req r s c' (g : gmap nat get_phase) fl :
  getSA req (sys_cache s) = Some (r, c') →
  explained P req (annotated req s) r.2 (mkSystem c' g fl) (mkSystem c' g fl) (getSA_phase req r).
Proof.
  intros (Hsa & _ & _ & _ & _ & _)%getSA_spec. unfold annotated. rewrite <- Hsa. destruct r as [[e|] nt]; simpl; [|done].
  case_decide as Hrole; cbn [explained].
  - split; [done|]. do 2 eexists. split_and!; try apply rtc_refl. unfold precedence. by rewrite decide_False.
  - by split_and!.
Qed.

(** A lookup from its first critical section to its answer. *)
Lemma lookup_explained P t req r c' s s' req' resp :
  getSA req (sys_cache s) = Some (r, c') →
  let s1 := mkSystem c' (<[t := getSA_phase req r]> (gets s)) (in_flight s) in
  P s1 → rtc (step_in P) s1 s' → gets s' !! t = Some (Answered req' resp) →
  req' = req ∧
  ∃ s2 s3, rtc (step_in P) s1 s2 ∧ rtc (step_in P) s2 s3 ∧ rtc (step_in P) s3 s' ∧ P s2 ∧ P s3 ∧
    resp = answer (bool_decide (is_Some (annotated req s))) r.2
             (precedence (annotated req s) (own req s2) (wildcard req s3)).
Proof.
  intros HSA s1 HP Hrun Hans.
  destruct (explained_run P req (annotated req s) r.2 s1 t s1 s' (getSA_phase req r))
    as (p & Hp & Hex); [apply rtc_refl|done|apply lookup_insert_eq|by apply explained_start|].
  rewrite Hans in Hp. injection Hp as <-. destruct Hex as (-> & s2 & s3 & H2 & H3 & H4 & ->).
  split; [done|]. exists s2, s3. pose proof (step_in_run P s1 s2 H2 HP) as HP2.
  pose proof (step_in_run P s2 s3 H3 HP2) as HP3. by split_and!.
Qed.

(** ** Theorems *)

(** C15. What a lookup answers is explained, whatever other goroutines do between its critical
    sections: there are moments [s2] and [s3], in this order, between its first section and
    its answer, such that it answers by the precedence of the annotations before its first
    section, the ConfigMap entry of the account at [s2] and the one for every namespace
    at [s3]. *)
Theorem answer_is_explained t req r c' s s' req' resp :
  gets s !! t = None → getSA req (sys_cache s) = Some (r, c') →
  rtc step (mkSystem c' (<[t := getSA_phase req r]> (gets s)) (in_flight s)) s' →
  gets s' !! t = Some (Answered req' resp) →
  req' = req ∧
  ∃ s2 s3, rtc step s s2 ∧ rtc step s2 s3 ∧ rtc step s3 s' ∧
    resp = answer (bool_decide (is_Some (annotated req s))) r.2
             (precedence (annotated req s) (own req s2) (wildcard req s3)).
Proof.
  intros Ht HSA Hrun Hans.
  destruct (lookup_explained (λ _, True) t req r c' s s' req' resp HSA I) as (-> & s2 & s3 & H2 & H3 & H4 & _ & _ & ->);
    [|done|].
  - revert Hrun. apply rtc_subrel. by split.
  - split; [done|]. assert (∀ a b, rtc (step_in (λ _, True)) a b → rtc step a b) as Hsub.
    { intros a b. by apply rtc_subrel; intros ? ? [? _]. }
    exists s2, s3. split_and!; auto. eapply rtc_l; [by eapply step_getSA|auto].
Qed.

(** C16. Hence a lookup during which the two ConfigMap entries that apply to the account stay
    as they are answers what was known of the account at its first critical section,
    whatever happens to annotations meanwhile: with respect to the informer of service
    accounts and to fetches, a lookup is atomic. *)
Theorem lookup_is_atomic t req r c' s s' req' resp :
  gets s !! t = None → getSA req (sys_cache s) = Some (r, c') →
  rtc (step_in (λ s2, own req s2 = own req s ∧ wildcard req s2 = wildcard req s))
    (mkSystem c' (<[t := getSA_phase req r]> (gets s)) (in_flight s)) s' →
  gets s' !! t = Some (Answered req' resp) →
  resp = answer (bool_decide (is_Some (annotated req s))) r.2 (effective_in req s).
Proof.
  intros Ht HSA Hrun Hans. pose proof HSA as (_ & _ & Hcm & _)%getSA_spec.
  eapply (lookup_explained _ _ _ _ _ _ _ req' resp) in Hrun as (_ & s2 & s3 & _ & _ & _ & [Ho _] & [_ Hw] & Hresp); [|done| |done].
  2: { unfold own, wildcard. cbn [sys_cache]. by rewrite Hcm. }
  rewrite Hresp.
  by rewrite effective_precedence, Ho, Hw.
Qed.

(** ** A lookup that misses *)

(** The role of the account in the ConfigMap, and the account with and without annotations. *)
Definition ex_role : Entry := mkEntry "arn:aws:iam::111122223333:role/s3-reader" "sts.amazonaws.com" false 86400.
Definition ex_bare : ServiceAccount := mkServiceAccount "app" "default" ∅.

Definition after_add (sa : ServiceAccount) (s : system) : system :=
  match addSA sa (sys_cache s) with
  | Returned c => mkSystem c (gets s) (in_flight s)
  | Panicked _ => s
  end.

(** The ConfigMap gives the account its role; it has no annotations. *)
Definition ex_listed : system :=
  let s := after_add ex_bare ex_sys in
  mkSystem (setCM "app" "default" ex_role (sys_cache s)) (gets s) (in_flight s).

(** The lookup has seen that there is no role in the annotations. *)
Definition ex_between : system := mkSystem (sys_cache ex_listed) {[ 7 := AfterSA ex_req true None ]} [].

(** The account gets the annotation, and is then taken out of the ConfigMap. *)
Definition ex_moved : system :=
  let s := after_add ex_sa ex_between in
  mkSystem (popCM "app" "default" (sys_cache s)) (gets s) (in_flight s).

(** One more critical section of a lookup. *)
Definition go_on (t : nat) (s : system) : system :=
  match gets s !! t with
  | Some p => mkSystem (sys_cache s) (<[t := getCM_phase (sys_cache s) p]> (gets s)) (in_flight s)
  | None => s
  end.

Definition has_role (req : Request) (s : system) : Prop :=
  match effective_in req s with Some e => RoleARN e ≠ "" | None => False end.

#[export] Instance has_role_dec req s : Decision (has_role req s).
Proof. unfold has_role. destruct (effective_in req s); apply _. Defined.

Lemma after_add_step sa s : sys_wf s → step s (after_add sa s).
Proof.
  intros [Hc _]. destruct (addSA_spec sa _ Hc) as (c' & Hadd & _). unfold after_add. rewrite Hadd.
  by eapply step_sa_event.
Qed.

Lemma go_on_step t s : is_Some (gets s !! t) → step s (go_on t s).
Proof. intros [p Hp]. unfold go_on. rewrite Hp. by apply step_getCM. Qed.

Lemma ex_sys_wf : sys_wf ex_sys.
Proof. apply initial_wf. Qed.

Lemma ex_listed_reachable : reachable ex_sys ex_listed.
Proof.
  eapply rtc_l; [exact (after_add_step ex_bare _ ex_sys_wf)|].
  apply rtc_once. exact (step_cm_set "app" "default" ex_role (after_add ex_bare ex_sys)).
Qed.

Lemma ex_begin : step ex_listed ex_between.
Proof. exact (step_getSA 7 ex_req (Some (entry_of_sa ex_cache ex_bare), None) (sys_cache ex_listed) ex_listed eq_refl eq_refl). Qed.

Lemma ex_between_wf : sys_wf ex_between.
Proof.
  eapply reachable_wf; [exact ex_sys_wf|]. eapply rtc_r; [exact ex_listed_reachable|exact ex_begin].
Qed.

(** C20. The limit of this: an account that has a role at every moment can be missed. While a
    lookup is between its critical sections, the role moves from the ConfigMap to the
    annotations; the lookup then finds it in neither, and as the account is cached it
    holds no notifier and reports the account as found, so nothing makes it look again. *)
Theorem interleaved_get_can_miss :
  ∃ s s' t req resp, reachable ex_sys s ∧ gets s !! t = None ∧ has_role req s ∧
    rtc (step_in (has_role req)) s s' ∧ gets s' !! t = Some (Answered req resp) ∧
    resp_RoleARN resp = "" ∧ Notifier resp = None ∧ FoundInCache resp = true.
Proof.
  exists ex_listed, (go_on 7 (go_on 7 ex_moved)), 7, ex_req, (mkResponse "" "" false DefaultTokenExpiration true None).
  split; [exact ex_listed_reachable|]. split; [reflexivity|]. split; [by_decision|].
  split; [|by split_and!].
  eapply rtc_l; [split; [exact ex_begin|by_decision]|].
  eapply rtc_l; [split; [exact (after_add_step ex_sa _ ex_between_wf)|by_decision]|].
  eapply rtc_l; [split; [exact (step_cm_pop "app" "default" (after_add ex_sa ex_between))|by_decision]|].
  eapply rtc_l; [split; [apply (go_on_step 7 ex_moved); by_decision|by_decision]|].
  apply rtc_once. split; [apply go_on_step; by_decision|by_decision].
Qed.

(** ** Witnesses *)

(** The same lookup when only the annotation comes: it answers what the ConfigMap said. *)
Definition ex_answered : system := go_on 7 (after_add ex_sa ex_between).

Lemma answer_is_explained_witness :
  ex_req = ex_req ∧
  ∃ s2 s3, rtc step ex_listed s2 ∧ rtc step s2 s3 ∧ rtc step s3 ex_answered ∧
    response_of ex_role true None =
      answer true None (precedence (annotated ex_req ex_listed) (own ex_req s2) (wildcard ex_req s3)).
Proof.
  apply (answer_is_explained 7 ex_req (Some (entry_of_sa ex_cache ex_bare), None) (sys_cache ex_listed) ex_listed
    ex_answered ex_req (response_of ex_role true None)).
  - reflexivity.
  - reflexivity.
  - eapply rtc_l; [exact (after_add_step ex_sa _ ex_between_wf)|].
    apply rtc_once, (go_on_step 7 (after_add ex_sa ex_between)); by_decision.
  - reflexivity.
Defined.

Lemma lookup_is_atomic_witness :
  response_of ex_role true None = answer true None (effective_in ex_req ex_listed).
Proof.
  apply (lookup_is_atomic 7 ex_req (Some (entry_of_sa ex_cache ex_bare), None) (sys_cache ex_listed) ex_listed
    ex_answered ex_req (response_of ex_role true None)).
  - reflexivity.
  - reflexivity.
  - eapply rtc_l; [split; [exact (after_add_step ex_sa _ ex_between_wf)|by_decision]|].
    apply rtc_once. split; [apply (go_on_step 7 (after_add ex_sa ex_between)); by_decision|by_decision].
  - reflexivity.
Defined.
