(* ===== verification/Informers.v ===== *)
(** * The cache and the API server

    The cache of src/pkg/cache/cache.go learns of service accounts in two ways that are not
    ordered with each other: the informer's notifications, and the answers to fetches. This
    file puts the cache between an API server and an informer, known by the interface
    [SAInformer] and its documented laws, and says when the cache mirrors the API server. The
    reading of an account by [fetchFromAPI] and its delivery by [addSA] are two steps: others
    run in between, as in the goroutines that [New] starts. *)

From S2P Require Import Prelude GoStd Pkg Notifications Cache CacheProps CacheSystem.

(** ** The informer *)

#[export] Instance ServiceAccount_eq_dec : EqDecision ServiceAccount.
Proof. solve_decision. Defined.

(** The three calls of a [ResourceEventHandlerFuncs]. *)
Inductive notification :=
| OnAdd (sa : ServiceAccount)
| OnUpdate (oldObj newObj : ServiceAccount)
| OnDelete (obj : deleted_obj).

Definition key_of (sa : ServiceAccount) : string := sa_key (sa_Name sa) (sa_Namespace sa).

(** The handlers of [New]. *)
Definition sa_handler (n : notification) (c : serviceAccountCache) : outcome serviceAccountCache :=
  match n with
  | OnAdd sa => onSAAdd sa c
  | OnUpdate oldObj newObj => onSAUpdate oldObj newObj c
  | OnDelete obj => Returned (onSADelete obj c)
  end.

(** The account a notification is about. *)
Definition subject (n : notification) : option ServiceAccount :=
  match n with
  | OnAdd sa | OnUpdate _ sa => Some sa
  | OnDelete (DeletedSA sa) => Some sa
  | OnDelete (DeletedFinalStateUnknown obj) => obj
  | OnDelete DeletedOther => None
  end.

(** What is known of the accounts after a notification. *)
Definition learn (n : notification) (m : gmap string ServiceAccount) : gmap string ServiceAccount :=
  match n, subject n with
  | OnDelete _, Some sa => delete (key_of sa) m
  | _, Some sa => <[key_of sa := sa]> m
  | _, None => m
  end.

(** The keys it is about. *)
Definition subjects (n : notification) : gset string :=
  match subject n with Some sa => {[ key_of sa ]} | None => ∅ end.

(** [accounts]: the accounts of the API server. [told]: those the informer has told its handlers
    of. [lag]: how many notifications are on their way. *)
Class SAInformer (I : Type) := {
  accounts : I → gmap string ServiceAccount;
  told : I → gmap string ServiceAccount;
  lag : I → nat;
  notify : I → notification → I → Prop;
  server_step : I → I → Prop
}.

(** The documented promises: handlers are told of every change, in order; once they have been
    told of all of them they know the accounts as they are; and at a resync they are told again
    of an account that has not changed. *)
Class SAInformerLaws (I : Type) `{!SAInformer I} : Prop := {
  notify_told i n i' : notify i n i' → told i' = learn n (told i);
  server_told i i' : server_step i i' → told i' = told i;
  lag_told i : lag i = 0 → told i = accounts i;
  lag_notify i l : lag i = S l → ∃ n i', notify i n i' ∧ lag i' = l ∧ accounts i' = accounts i;
  resync i sa : lag i = 0 → told i !! key_of sa = Some sa →
    ∃ i', notify i (OnUpdate sa sa) i' ∧ lag i' = 0 ∧ accounts i' = accounts i
}.

(** ** The system *)

Section cluster.
Context {I : Type} `{HI : !SAInformer I}.

(** [asked]: the goroutines that serve a request, with the account once it is read.
    [behind]: the accounts last written by a fetch that answered something else than the
    handlers had been told, or lost to a [Clear]; a ghost that no step looks at. *)
Record cluster := mkCluster {
  sys : system;
  inf : I;
  asked : list (Request * option ServiceAccount);
  behind : gset string
}.

Definition with_asked (l : list (Request * option ServiceAccount)) (c : serviceAccountCache) (s : system) : system :=
  mkSystem c (gets s) l.*1.

(** What a delivery by a fetch does to the ghost. *)
Definition fetched_behind (sa : ServiceAccount) (m : gmap string ServiceAccount) (b : gset string) : gset string :=
  if decide (m !! key_of sa = Some sa) then b ∖ {[ key_of sa ]} else {[ key_of sa ]} ∪ b.

Inductive cluster_step : cluster → cluster → Prop :=
| cl_server i cl :
    server_step (inf cl) i → cluster_step cl (mkCluster (sys cl) i (asked cl) (behind cl))
| cl_notify n i c cl :
    notify (inf cl) n i → sa_handler n (sys_cache (sys cl)) = Returned c →
    cluster_step cl (mkCluster (mkSystem c (gets (sys cl)) (in_flight (sys cl))) i (asked cl) (behind cl ∖ subjects n))
| cl_take req n cl :
    take_fetch (notifs (sys_cache (sys cl))) = Some (req, n) →
    cluster_step cl
      (mkCluster (with_asked (asked cl ++ [(req, None)]) (with_notifs n (sys_cache (sys cl))) (sys cl))
         (inf cl) (asked cl ++ [(req, None)]) (behind cl))
| cl_read pre req post sa cl :
    asked cl = pre ++ (req, None) :: post → accounts (inf cl) !! CacheKey req = Some sa →
    sa_Name sa = req_Name req → sa_Namespace sa = req_Namespace req →
    cluster_step cl (mkCluster (sys cl) (inf cl) (pre ++ (req, Some sa) :: post) (behind cl))
| cl_error pre req post cl :
    asked cl = pre ++ (req, None) :: post →
    cluster_step cl (mkCluster (with_asked (pre ++ post) (sys_cache (sys cl)) (sys cl)) (inf cl) (pre ++ post) (behind cl))
| cl_deliver pre req post sa c cl :
    asked cl = pre ++ (req, Some sa) :: post → addSA sa (sys_cache (sys cl)) = Returned c →
    cluster_step cl
      (mkCluster (with_asked (pre ++ post) c (sys cl)) (inf cl) (pre ++ post)
         (fetched_behind sa (told (inf cl)) (behind cl)))
| cl_getSA t req r c cl :
    gets (sys cl) !! t = None → getSA req (sys_cache (sys cl)) = Some (r, c) →
    cluster_step cl
      (mkCluster (mkSystem c (<[t := getSA_phase req r]> (gets (sys cl))) (in_flight (sys cl))) (inf cl) (asked cl) (behind cl))
| cl_getCM t p cl :
    gets (sys cl) !! t = Some p →
    cluster_step cl
      (mkCluster (mkSystem (sys_cache (sys cl)) (<[t := getCM_phase (sys_cache (sys cl)) p]> (gets (sys cl)))
                   (in_flight (sys cl))) (inf cl) (asked cl) (behind cl))
| cl_cm_set name ns e cl :
    cluster_step cl
      (mkCluster (mkSystem (setCM name ns e (sys_cache (sys cl))) (gets (sys cl)) (in_flight (sys cl)))
         (inf cl) (asked cl) (behind cl))
| cl_cm_pop name ns cl :
    cluster_step cl
      (mkCluster (mkSystem (popCM name ns (sys_cache (sys cl))) (gets (sys cl)) (in_flight (sys cl)))
         (inf cl) (asked cl) (behind cl))
| cl_clear cl :
    cluster_step cl
      (mkCluster (mkSystem (Clear (sys_cache (sys cl))) (gets (sys cl)) (in_flight (sys cl)))
         (inf cl) (asked cl) (dom (told (inf cl)))).

(** At the start the informer has told nothing. *)
Definition starts (s : system) (i : I) : cluster := mkCluster s i [] ∅.

(** ** Specification *)

(** What the cache holds of an account the handlers were told of. *)
Definition mirrored (k : string) (cl : cluster) : Prop :=
  saCache (sys_cache (sys cl)) !! k = entry_of_sa (sys_cache (sys cl)) <$> told (inf cl) !! k.

(** One field per fact every step keeps. *)
Record cluster_wf (cl : cluster) : Prop := {
  cwf_system : sys_wf (sys cl);
  cwf_asked : in_flight (sys cl) = (asked cl).*1;
  cwf_answers : ∀ req sa, (req, Some sa) ∈ asked cl → sa_Name sa = req_Name req ∧ sa_Namespace sa = req_Namespace req;
  cwf_keyed : map_Forall (λ k sa, k = key_of sa) (told (inf cl));
  cwf_mirror : ∀ k, k ∉ behind cl → mirrored k cl
}.

(** ** Lemmas *)

(** Every step is one of CacheSystem.v, or leaves the cache and its goroutines alone. *)
Lemma cluster_step_system cl cl' :
  cluster_wf cl → cluster_step cl cl' → sys cl' = sys cl ∨ step (sys cl) (sys cl').
Proof.
  intros Hwf. pose proof (cwf_asked _ Hwf) as Ha. destruct 1 as [i cl Hs|n i c cl Hn Hh|req n cl Ht|pre req post sa cl Hl Hacc Hname Hns|
    pre req post cl Hl|pre req post sa c cl Hl Hadd|t req r c cl Hg HSA|t p cl Hp|name ns e cl|name ns cl|cl]; cbn [sys].
  - by left.
  - right. destruct n as [sa'|old sa'|obj]; simpl in Hh; [by eapply step_sa_event..|]. injection Hh as <-. apply step_sa_delete.
  - right. unfold with_asked. rewrite fmap_app, <- Ha. by apply step_take_fetch.
  - by left.
  - right. unfold with_asked. rewrite fmap_app. rewrite Hl, fmap_app in Ha. by eapply step_fetch_err.
  - right. unfold with_asked. rewrite fmap_app. pose proof (cwf_answers _ Hwf req sa) as Hans. rewrite Hl, fmap_app in Ha.
    destruct Hans as [Hname Hns]; [rewrite Hl; set_solver|]. by eapply step_fetch_ok.
  - right. by apply step_getSA.
  - right. by apply step_getCM.
  - right. apply step_cm_set.
  - right. apply step_cm_pop.
  - right. apply step_clear.
Qed.

(** What an entry is made from, beside the account, are the settings. *)
Lemma entry_of_sa_settings c c' sa : settings c = settings c' → entry_of_sa c sa = entry_of_sa c' sa.
Proof. intros [= Hp Ha Hr Hc Hd]. unfold entry_of_sa, annotation. by rewrite Hp, Ha, Hr, Hc, Hd. Qed.

Lemma mirrored_same cl cl' k :
  settings (sys_cache (sys cl')) = settings (sys_cache (sys cl)) →
  saCache (sys_cache (sys cl')) !! k = saCache (sys_cache (sys cl)) !! k →
  told (inf cl') !! k = told (inf cl) !! k → mirrored k cl → mirrored k cl'.
Proof.
  unfold mirrored. intros Hs -> ->. intros ->. destruct (told (inf cl) !! k); [|done]. simpl. f_equal.
  symmetry. by apply entry_of_sa_settings.
Qed.

(** A notification that is handled mirrors its subject, and leaves the other accounts. *)
Lemma sa_handler_spec n c c' :
  sa_handler n c = Returned c' →
  settings c' = settings c ∧
  (∀ m k, k ∈ subjects n → saCache c' !! k = entry_of_sa c <$> learn n m !! k) ∧
  (∀ m k, k ∉ subjects n → saCache c' !! k = saCache c !! k ∧ learn n m !! k = m !! k).
Proof.
  unfold subjects. assert (∀ sa, addSA sa c = Returned c' →
    settings c' = settings c ∧ saCache c' = <[key_of sa := entry_of_sa c sa]> (saCache c)) as Hadd.
  { intros sa H. split; [by eapply addSA_settings|]. by apply addSA_returned_spec in H as (-> & _). }
  destruct n as [sa|old sa|obj]; simpl.
  1-2: intros [-> ->]%Hadd; split_and!; [done|..]; intros m k;
    [intros ->%elem_of_singleton; by rewrite !lookup_insert_eq|
     intros Hne%not_elem_of_singleton; by rewrite !lookup_insert_ne by done].
  intros [= <-]. assert (∀ sa (m : gmap string ServiceAccount) k, k ∈@{gset string} {[ key_of sa ]} →
    saCache (popSA (sa_Name sa) (sa_Namespace sa) c) !! k = entry_of_sa c <$> delete (key_of sa) m !! k) as H1.
  { intros sa m k ->%elem_of_singleton. simpl. by rewrite !lookup_delete_eq. }
  assert (∀ sa (m : gmap string ServiceAccount) k, k ∉@{gset string} {[ key_of sa ]} →
    saCache (popSA (sa_Name sa) (sa_Namespace sa) c) !! k = saCache c !! k ∧ delete (key_of sa) m !! k = m !! k) as H2.
  { intros sa m k Hne%not_elem_of_singleton. simpl. by rewrite !lookup_delete_ne by done. }
  destruct obj as [sa|[sa|]|]; simpl; split_and!; auto; set_solver.
Qed.

Lemma sa_handler_returns n c : cache_wf c → ∃ c', sa_handler n c = Returned c'.
Proof.
  intros Hc. destruct n as [sa|old sa|obj]; simpl; [| |by eexists];
    destruct (addSA_spec sa c Hc) as (c' & H & _); by exists c'.
Qed.

Lemma learn_keyed n m : map_Forall (λ k sa, k = key_of sa) m → map_Forall (λ k sa, k = key_of sa) (learn n m).
Proof.
  intros Hm. destruct n as [sa|old sa|[sa|[sa|]|]]; simpl; try done;
    by first [apply map_Forall_insert_2|apply map_Forall_delete].
Qed.

Context `{HL : !SAInformerLaws I}.

Lemma cluster_step_settings cl cl' :
  cluster_wf cl → cluster_step cl cl' → settings (sys_cache (sys cl')) = settings (sys_cache (sys cl)).
Proof. intros Hwf Hstep. destruct (cluster_step_system _ _ Hwf Hstep) as [->|Hs]; [done|by apply step_settings]. Qed.

Lemma cluster_step_told cl cl' :
  cluster_step cl cl' → told (inf cl') = told (inf cl) ∨ ∃ n, told (inf cl') = learn n (told (inf cl)).
Proof.
  destruct 1; cbn [inf]; auto; [left; by eapply server_told|right]. eexists. by eapply notify_told.
Qed.

Lemma cluster_step_asked cl cl' :
  cluster_wf cl → cluster_step cl cl' →
  in_flight (sys cl') = (asked cl').*1 ∧
  (∀ req sa, (req, Some sa) ∈ asked cl' → sa_Name sa = req_Name req ∧ sa_Namespace sa = req_Namespace req).
Proof.
  intros [_ Ha Hans _ _]. destruct 1 as [| |req n cl Ht|pre req post sa cl Hl Hacc Hname Hns|pre req post cl Hl|pre req post sa c cl Hl| | | | |];
    cbn [sys asked in_flight with_asked]; try done; (split; [try done|]).
  - intros r sa [Hin|Hin]%elem_of_app; [by apply Hans|]. set_solver.
  - by rewrite Ha, Hl, !fmap_app.
  - rewrite Hl in Hans. intros r sa' [Hin|[[= -> ->]|Hin]%elem_of_cons]%elem_of_app; try done; apply Hans; set_solver.
  - rewrite Hl in Hans. intros r sa' Hin. apply Hans. set_solver.
  - rewrite Hl in Hans. intros r sa' Hin. apply Hans. set_solver.
Qed.

Lemma cluster_step_mirror cl cl' k :
  cluster_wf cl → cluster_step cl cl' → k ∉ behind cl' → mirrored k cl'.
Proof.
  intros Hwf Hstep. pose proof (cluster_step_settings _ _ Hwf Hstep) as Hset. pose proof (cwf_mirror _ Hwf k) as Hm.
  assert (∀ s i l b, settings (sys_cache s) = settings (sys_cache (sys cl)) →
    saCache (sys_cache s) = saCache (sys_cache (sys cl)) →
    told i = told (inf cl) → k ∉ behind cl → mirrored k (mkCluster s i l b)) as Hsame.
  { intros s i l b H1 H2 H3 Hk. eapply mirrored_same, Hm; cbn [sys inf]; [done|by rewrite H2|by rewrite H3|done]. }
  destruct Hstep as [i cl Hs|n i c cl Hn Hh|req n cl Ht|pre req post sa cl Hl Hacc Hname Hns|pre req post cl Hl|
    pre req post sa c cl Hl Hadd|t req r c cl Hg HSA|t p cl Hp|name ns e cl|name ns cl|cl]; cbn [behind sys inf] in *.
  - apply Hsame; [done..|by apply server_told].
  - intros Hk. apply sa_handler_spec in Hh as (_ & Hin & Hout). pose proof (notify_told _ _ _ Hn) as Ht.
    destruct (decide (k ∈ subjects n)) as [Hs|Hs].
    + unfold mirrored. cbn [sys sys_cache inf]. rewrite (Hin (told (inf cl)) k Hs), Ht.
      destruct (learn n (told (inf cl)) !! k); [|done]. simpl. f_equal. symmetry. by apply entry_of_sa_settings.
    + destruct (Hout (told (inf cl)) k Hs) as [Hc Hl]. eapply mirrored_same, Hm; cbn [sys sys_cache inf]; [done|done| |set_solver].
      by rewrite Ht.
  - by apply Hsame.
  - by apply Hsame.
  - by apply Hsame.
  - apply addSA_returned_spec in Hadd as (Hsa & _). unfold fetched_behind. unfold mirrored in *.
    cbn [sys with_asked sys_cache inf]. fold (key_of sa) in Hsa. rewrite Hsa.
    assert (∀ x, entry_of_sa c x = entry_of_sa (sys_cache (sys cl)) x) as He by (intros x; by apply entry_of_sa_settings).
    destruct (decide (k = key_of sa)) as [->|Hne].
    + rewrite lookup_insert_eq. case_decide as Ht; [|set_solver]. rewrite Ht. simpl. intros _. by rewrite He.
    + rewrite lookup_insert_ne by done. intros Hk. rewrite Hm; [|case_decide; set_solver].
      destruct (told (inf cl) !! k); [|done]. simpl. by rewrite He.
  - apply getSA_spec in HSA as (_ & Hsa & _). by apply Hsame.
  - by apply Hsame.
  - by apply Hsame.
  - by apply Hsame.
  - intros Hk%not_elem_of_dom. unfold mirrored. cbn [sys sys_cache inf]. rewrite Hk. apply lookup_empty.
Qed.

Lemma cluster_step_wf cl cl' : cluster_wf cl → cluster_step cl cl' → cluster_wf cl'.
Proof.
  intros Hwf Hstep. destruct (cluster_step_asked _ _ Hwf Hstep) as [Ha Hans]. split; [|done|done| |].
  - pose proof (cwf_system _ Hwf). destruct (cluster_step_system _ _ Hwf Hstep) as [->|Hs]; [done|by eapply step_wf].
  - pose proof (cwf_keyed _ Hwf). destruct (cluster_step_told _ _ Hstep) as [->|[n ->]]; [done|by apply learn_keyed].
  - intros k. by eapply cluster_step_mirror.
Qed.

Lemma cluster_run_wf cl cl' : cluster_wf cl → rtc cluster_step cl cl' → cluster_wf cl'.
Proof. intros Hwf. induction 1; eauto using cluster_step_wf. Qed.

Lemma starts_wf aud prefix sts exp comp i :
  told i = ∅ → cluster_wf (starts (initial aud prefix sts exp comp) i).
Proof.
  intros Hi. split; cbn [sys inf asked starts].
  - apply initial_wf.
  - done.
  - intros req sa Hin. set_solver.
  - rewrite Hi. apply map_Forall_empty.
  - intros k _. unfold mirrored. cbn [sys inf sys_cache starts]. by rewrite Hi, !lookup_empty.
Qed.

Lemma cluster_run_settings cl cl' :
  cluster_wf cl → rtc cluster_step cl cl' → settings (sys_cache (sys cl')) = settings (sys_cache (sys cl)).
Proof.
  intros Hwf. induction 1 as [|cl cl1 cl2 Hs _ IH]; [done|].
  rewrite IH by by eapply cluster_step_wf. by apply cluster_step_settings.
Qed.

(** ** Catching up *)

(** A step in which a notification is delivered. *)
Lemma notify_step cl n i :
  cluster_wf cl → notify (inf cl) n i →
  ∃ cl', cluster_step cl cl' ∧ inf cl' = i ∧ asked cl' = asked cl ∧ behind cl' = behind cl ∖ subjects n.
Proof.
  intros Hwf Hn. pose proof (wf_cache _ (cwf_system _ Hwf)) as Hc. destruct (sa_handler_returns n _ Hc) as [c Hh].
  eexists. split; [by eapply cl_notify|]. done.
Qed.

(** What a run that only brings news leaves. *)
Definition news (cl cl' : cluster) : Prop :=
  rtc cluster_step cl cl' ∧ asked cl' = asked cl ∧ behind cl' ⊆ behind cl ∧ accounts (inf cl') = accounts (inf cl).

Lemma news_trans cl1 cl2 cl3 : news cl1 cl2 → news cl2 cl3 → news cl1 cl3.
Proof. intros (H1 & A1 & B1 & C1) (H2 & A2 & B2 & C2). split_and!; [by etrans|congruence|set_solver|congruence]. Qed.

Lemma deliveries_end cl : cluster_wf cl → ∃ cl', news cl cl' ∧ lag (inf cl') = 0.
Proof.
  remember (lag (inf cl)) as l eqn:Hl. revert cl Hl. induction l as [|l IH]; intros cl Hl Hwf.
  - exists cl. split; [|done]. by split_and!.
  - destruct (lag_notify _ _ (eq_sym Hl)) as (n & i & Hn & Hi & Hacc).
    destruct (notify_step cl n i Hwf Hn) as (cl1 & Hs & <- & Ha & Hb).
    destruct (IH cl1 (eq_sym Hi)) as (cl' & Hnews & H0); [by eapply cluster_step_wf|].
    exists cl'. split; [|done]. eapply news_trans, Hnews. split_and!; [by apply rtc_once|done|set_solver|done].
Qed.

(** A resync of some of the accounts. *)
Lemma resync_all cl (l : list (string * ServiceAccount)) :
  cluster_wf cl → lag (inf cl) = 0 → (∀ k sa, (k, sa) ∈ l → accounts (inf cl) !! k = Some sa) →
  ∃ cl', news cl cl' ∧ lag (inf cl') = 0 ∧ (∀ k, k ∈ l.*1 → k ∉ behind cl').
Proof.
  revert cl. induction l as [|[k sa] l IH]; intros cl Hwf Hlag Hl.
  { exists cl. split; [by split_and!|]. split; [done|]. set_solver. }
  assert (told (inf cl) !! k = Some sa) as Ht by (rewrite lag_told by done; apply Hl; set_solver).
  assert (k = key_of sa) as -> by exact (cwf_keyed _ Hwf k sa Ht).
  destruct (resync _ sa Hlag Ht) as (i & Hn & Hi & Hacc).
  destruct (notify_step cl _ i Hwf Hn) as (cl1 & Hs & <- & Ha & Hb).
  destruct (IH cl1) as (cl' & Hnews & H0 & Hout); [by eapply cluster_step_wf|done| |].
  { intros k' sa' Hin. rewrite Hacc. apply Hl. set_solver. }
  exists cl'. split; [|split; [done|]].
  - eapply news_trans, Hnews. split_and!; [by apply rtc_once|done|set_solver|done].
  - destruct Hnews as (_ & _ & Hsub & _).
    intros k [->|Hin]%elem_of_cons; [|by apply Hout]. intros Hin%Hsub.
    rewrite Hb in Hin. apply elem_of_difference in Hin as [_ Hin]. 
    apply Hin. unfold subjects. simpl. by apply elem_of_singleton.
Qed.

Lemma catch_up cl :
  cluster_wf cl →
  ∃ cl', news cl cl' ∧ lag (inf cl') = 0 ∧
    ∀ k sa, accounts (inf cl) !! k = Some sa →
      saCache (sys_cache (sys cl')) !! k = Some (entry_of_sa (sys_cache (sys cl')) sa).
Proof.
  intros Hwf. destruct (deliveries_end cl Hwf) as (cl1 & Hnews1 & H1).
  assert (cluster_wf cl1) as Hwf1 by (eapply cluster_run_wf; [exact Hwf|apply Hnews1]).
  assert (accounts (inf cl1) = accounts (inf cl)) as Hacc1 by apply Hnews1.
  destruct (resync_all cl1 (map_to_list (accounts (inf cl1))) Hwf1 H1) as (cl2 & Hnews2 & H2 & Hout).
  { by intros k sa ?%elem_of_map_to_list. }
  exists cl2. split; [by eapply news_trans|]. split; [done|]. intros k sa Hk.
  assert (cluster_wf cl2) as Hwf2 by (eapply cluster_run_wf; [exact Hwf1|apply Hnews2]).
  rewrite (cwf_mirror _ Hwf2 k).
  - rewrite lag_told by done. destruct Hnews2 as (_ & _ & _ & ->). by rewrite Hacc1, Hk.
  - apply Hout, list_elem_of_fmap. exists (k, sa). split; [done|]. apply elem_of_map_to_list. by rewrite Hacc1.
Qed.

End cluster.

(** ** An informer for the witnesses *)

(** The notifications are queued in the order of the changes at the API server; the accounts are
    those the handlers will know. *)
Module Queued.

Record informer := mkInformer { known : gmap string ServiceAccount; queue : list notification }.

Definition stored (i : informer) : gmap string ServiceAccount := foldl (λ m n, learn n m) (known i) (queue i).

Inductive deliver : informer → notification → informer → Prop :=
| deliver_next m n q : deliver (mkInformer m (n :: q)) n (mkInformer (learn n m) q)
| deliver_resync m sa : m !! key_of sa = Some sa → deliver (mkInformer m []) (OnUpdate sa sa) (mkInformer m []).

Inductive change : informer → informer → Prop :=
| change_create sa i :
    stored i !! key_of sa = None → change i (mkInformer (known i) (queue i ++ [OnAdd sa]))
| change_update old sa i :
    stored i !! key_of sa = Some old → change i (mkInformer (known i) (queue i ++ [OnUpdate old sa]))
| change_delete sa i :
    stored i !! key_of sa = Some sa → change i (mkInformer (known i) (queue i ++ [OnDelete (DeletedSA sa)])).

#[export] Instance queued : SAInformer informer := {|
  accounts := stored;
  told := known;
  lag i := length (queue i);
  notify := deliver;
  server_step := change
|}.

#[export] Instance queued_laws : SAInformerLaws informer.
Proof.
  split.
  - destruct 1; simpl; [done|]. by rewrite insert_id.
  - by destruct 1.
  - intros [m q]. simpl. by intros ->%nil_length_inv.
  - intros [m [|n q]] l; simpl; [done|]. intros [= <-]. eexists n, (mkInformer _ _). split; [apply deliver_next|done].
  - intros [m q] sa. simpl. intros ->%nil_length_inv Hm. exists (mkInformer m []). by split; [apply deliver_resync|].
Qed.

End Queued.

(** ** Theorems *)

(** C4. The informed cache is a mirror of the API server: in every reachable state in which the
    informer has delivered its notifications, whatever the order of lookups, fetches and
    notifications has been, a lookup of an account answers by the precedence of the
    annotations the API server has for it now over the ConfigMap; excepted are the accounts
    last written by a fetch that was overtaken by a notification, and those lost to a
    [Clear], until the next notification or resync. *)
Theorem cache_mirrors_accounts {I} `{!SAInformer I, !SAInformerLaws I} aud prefix sts exp comp (i : I) cl req resp c' :
  told i = ∅ → rtc cluster_step (starts (initial aud prefix sts exp comp) i) cl →
  lag (inf cl) = 0 → CacheKey req ∉ behind cl →
  Get req (sys_cache (sys cl)) = Some (resp, c') →
  let annotated := entry_of_sa (New aud prefix sts exp comp) <$> accounts (inf cl) in
  resp = match effective annotated (cmCache (sys_cache (sys cl))) (req_Name req) (req_Namespace req) with
         | Some e => response_of e true (Notifier resp)
         | None => mkResponse "" "" false DefaultTokenExpiration
                     (bool_decide (is_Some (accounts (inf cl) !! CacheKey req))) (Notifier resp)
         end.
Proof.
  intros Hi Hrun Hlag Hk (_ & _ & _ & _ & _ & Hresp)%Get_effective annotated.
  pose proof (cluster_run_wf _ _ (starts_wf aud prefix sts exp comp i Hi) Hrun) as Hwf.
  assert (saCache (sys_cache (sys cl)) !! CacheKey req = annotated !! CacheKey req) as He.
  { rewrite (cwf_mirror _ Hwf _ Hk), lag_told by done. subst annotated. rewrite lookup_fmap.
    destruct (accounts (inf cl) !! CacheKey req); [|done]. simpl. f_equal. apply entry_of_sa_settings.
    by rewrite (cluster_run_settings _ _ (starts_wf aud prefix sts exp comp i Hi) Hrun). }
  rewrite Hresp at 1. unfold effective. rewrite CacheKey_sa_key in *. rewrite He.
  subst annotated. rewrite lookup_fmap. destruct (accounts (inf cl) !! _) as [x|]; simpl; done.
Qed.

(** C17. And it can always recover: from every reachable state there is a run, of deliveries and a
    resync only, after which every account of the API server is cached with the entry of
    its current annotations. *)
Theorem resync_heals {I} `{!SAInformer I, !SAInformerLaws I} aud prefix sts exp comp (i : I) cl :
  told i = ∅ → rtc cluster_step (starts (initial aud prefix sts exp comp) i) cl →
  ∃ cl', rtc cluster_step cl cl' ∧ asked cl' = asked cl ∧ accounts (inf cl') = accounts (inf cl) ∧ lag (inf cl') = 0 ∧
    ∀ k sa, accounts (inf cl) !! k = Some sa →
      saCache (sys_cache (sys cl')) !! k = Some (entry_of_sa (New aud prefix sts exp comp) sa).
Proof.
  intros Hi Hrun. pose proof (starts_wf aud prefix sts exp comp i Hi) as H0.
  destruct (catch_up cl (cluster_run_wf _ _ H0 Hrun)) as (cl' & (Hrun' & Ha & _ & Hacc) & Hlag & Hall).
  exists cl'. split_and!; try done. intros k sa Hk. rewrite (Hall k sa Hk). f_equal. apply entry_of_sa_settings.
  by rewrite (cluster_run_settings _ cl' H0) by by etrans.
Qed.

(** ** A fetch that comes too late *)

Import Queued.

Section late.
Implicit Types (cl : cluster (I := informer)).

(** A step after which the API server does not have the account, and that does not empty the
    cache as [Clear] does. *)
Definition without (k : string) cl cl' : Prop :=
  cluster_step cl cl' ∧ accounts (inf cl') !! k = None ∧ saCache (sys_cache (sys cl')) ≠ ∅.

(** Nobody will be told of the account. *)
Definition unmentioned (k : string) (i : informer) : Prop :=
  known i !! k = None ∧ stored i !! k = None ∧ ∀ n, n ∈ queue i → k ∉ subjects n.

Lemma learn_other n m k : k ∉ subjects n → learn n m !! k = m !! k.
Proof.
  unfold subjects. destruct n as [sa|old sa|[sa|[sa|]|]]; simpl; try done;
    intros Hne%not_elem_of_singleton; by rewrite ?lookup_insert_ne, ?lookup_delete_ne by done.
Qed.

Lemma stored_snoc m q n : stored (mkInformer m (q ++ [n])) = learn n (stored (mkInformer m q)).
Proof. unfold stored. simpl. by rewrite foldl_app. Qed.

(** An account the server still does not have is not in the news. *)
Lemma learn_absent n m k :
  match n with
  | OnDelete (DeletedSA sa) => m !! key_of sa = Some sa
  | OnDelete _ => False
  | _ => True
  end → m !! k = None → learn n m !! k = None → k ∉ subjects n.
Proof.
  unfold subjects. destruct n as [sa|old sa|[sa|obj|]]; simpl; try done; intros Hm Hk H ->%elem_of_singleton.
  1-2: by rewrite lookup_insert_eq in H.
  congruence.
Qed.

Lemma change_unmentioned i i' k :
  change i i' → unmentioned k i → stored i' !! k = None → unmentioned k i'.
Proof.
  assert (∀ n, match n with
               | OnDelete (DeletedSA sa) => stored i !! key_of sa = Some sa
               | OnDelete _ => False
               | _ => True
               end → unmentioned k i → stored (mkInformer (known i) (queue i ++ [n])) !! k = None →
               unmentioned k (mkInformer (known i) (queue i ++ [n]))) as Hn.
  { destruct i as [m q]. intros n Hd (Hk & Hs & Hq) H. split_and!; [done|done|]. simpl.
    intros n' [Hin|[->|[]%not_elem_of_nil]%elem_of_cons]%elem_of_app; [by apply Hq|].
    eapply learn_absent; [exact Hd|done|by rewrite <- stored_snoc]. }
  destruct 1; by apply Hn.
Qed.

Lemma deliver_unmentioned i n i' k : deliver i n i' → unmentioned k i → unmentioned k i' ∧ k ∉ subjects n.
Proof.
  destruct 1 as [m n q|m sa Hm]; intros (Hk & Hs & Hq); simpl in *.
  - assert (k ∉ subjects n) as Hn by (apply Hq; set_solver). split; [|done]. split_and!; simpl; [by rewrite learn_other|done|].
    intros n' Hin. apply Hq. set_solver.
  - split; [by split_and!|]. unfold subjects. simpl. intros ->%elem_of_singleton. congruence.
Qed.

Lemma without_stays k cl cl' :
  without k cl cl' → unmentioned k (inf cl) ∧ is_Some (saCache (sys_cache (sys cl)) !! k) →
  unmentioned k (inf cl') ∧ is_Some (saCache (sys_cache (sys cl')) !! k).
Proof.
  intros (Hstep & Habs & Hne) [Hun [e He]].
  destruct Hstep as [i cl Hs|n i c cl Hn Hh|req n cl Ht|pre req post sa cl Hl Hacc Hname Hns|pre req post cl Hl|
    pre req post sa c cl Hl Hadd|t req r c cl Hg HSA|t p cl Hp|name ns e' cl|name ns cl|cl];
    cbn [sys inf sys_cache with_asked] in *; try (split; [done|by exists e]).
  - split; [by eapply change_unmentioned|by exists e].
  - destruct (deliver_unmentioned _ _ _ k Hn Hun) as [Hun' Hout]. split; [done|].
    apply sa_handler_spec in Hh as (_ & _ & H). destruct (H ∅ k Hout) as [-> _]. by exists e.
  - split; [done|]. apply addSA_returned_spec in Hadd as (-> & _).
    rewrite lookup_insert. case_decide; [done|by exists e].
  - split; [done|]. apply getSA_spec in HSA as (_ & -> & _). by exists e.
Qed.

Lemma without_run k cl cl' :
  rtc (without k) cl cl' → unmentioned k (inf cl) → is_Some (saCache (sys_cache (sys cl)) !! k) →
  is_Some (saCache (sys_cache (sys cl')) !! k).
Proof.
  intros Hrun Hun Hc. assert (unmentioned k (inf cl') ∧ is_Some (saCache (sys_cache (sys cl')) !! k)) as [_ ?]; [|done].
  induction Hrun as [cl|cl cl1 cl' Hs _ IH]; [done|]. destruct (without_stays k cl cl1 Hs (conj Hun Hc)). auto.
Qed.

(** The run, from an account that is created after the start. *)
Definition late0 : cluster := starts ex_sys (mkInformer ∅ []).
Definition late1 : cluster := mkCluster ex_sys (mkInformer ∅ [OnAdd ex_sa]) [] ∅.

(** A pod of the account comes before the news, and the account is fetched. *)
Definition late2 : cluster := mkCluster ex_waiting (mkInformer ∅ [OnAdd ex_sa]) [] ∅.
Definition late3 : cluster :=
  match take_fetch (notifs (sys_cache ex_waiting)) with
  | Some (_, n) =>
      mkCluster (with_asked [(ex_req, None)] (with_notifs n (sys_cache ex_waiting)) ex_waiting)
        (mkInformer ∅ [OnAdd ex_sa]) [(ex_req, None)] ∅
  | None => late2
  end.
Definition late4 : cluster := mkCluster (sys late3) (inf late3) [(ex_req, Some ex_sa)] ∅.

(** The account is deleted, and the informer tells of both before the fetch is delivered. *)
Definition late5 : cluster :=
  mkCluster (sys late4) (mkInformer ∅ [OnAdd ex_sa; OnDelete (DeletedSA ex_sa)]) (asked late4) ∅.

Definition tell (n : notification) (i : informer) cl : cluster :=
  match sa_handler n (sys_cache (sys cl)) with
  | Returned c => mkCluster (mkSystem c (gets (sys cl)) (in_flight (sys cl))) i (asked cl) (behind cl ∖ subjects n)
  | Panicked _ => cl
  end.
Definition late6 : cluster := tell (OnAdd ex_sa) (mkInformer {[ key_of ex_sa := ex_sa ]} [OnDelete (DeletedSA ex_sa)]) late5.
Definition late7 : cluster := tell (OnDelete (DeletedSA ex_sa)) (mkInformer ∅ []) late6.
Definition late8 : cluster :=
  match addSA ex_sa (sys_cache (sys late7)) with
  | Returned c => mkCluster (with_asked [] c (sys late7)) (inf late7) [] {[ key_of ex_sa ]}
  | Panicked _ => late7
  end.

Lemma tell_step n i cl : cluster_wf cl → notify (inf cl) n i → cluster_step cl (tell n i cl).
Proof.
  intros Hwf Hn. unfold tell. destruct (sa_handler_returns n _ (wf_cache _ (cwf_system _ Hwf))) as [c Hc].
  rewrite Hc. by eapply cl_notify.
Qed.

Lemma late0_wf : cluster_wf late0.
Proof. by apply starts_wf. Qed.

Lemma late4_run : rtc cluster_step late0 late4.
Proof.
  eapply rtc_l; [exact (cl_server _ late0 (change_create ex_sa (mkInformer ∅ []) eq_refl))|].
  eapply rtc_l; [exact (cl_getSA 7 ex_req (None, Some 0) (sys_cache ex_waiting) late1 eq_refl eq_refl)|].
  eapply rtc_l; [exact (cl_take ex_req _ late2 eq_refl)|].
  apply rtc_once. exact (cl_read [] ex_req [] ex_sa late3 eq_refl eq_refl eq_refl eq_refl).
Qed.

Lemma late5_run : rtc cluster_step late0 late5.
Proof.
  eapply rtc_r; [exact late4_run|]. exact (cl_server _ late4 (change_delete ex_sa (mkInformer ∅ [OnAdd ex_sa]) eq_refl)).
Qed.

Lemma late7_run : rtc cluster_step late0 late7.
Proof.
  assert (cluster_wf late5) as H5 by exact (cluster_run_wf _ _ late0_wf late5_run).
  assert (cluster_step late5 late6) as H56 by exact (tell_step _ _ _ H5 (deliver_next _ _ _)).
  eapply rtc_r; [eapply rtc_r; [exact late5_run|exact H56]|].
  exact (tell_step _ _ _ (cluster_step_wf _ _ H5 H56) (deliver_next _ _ _)).
Qed.

Lemma late8_run : rtc cluster_step late0 late8.
Proof.
  eapply rtc_r; [exact late7_run|]. unfold late8.
  destruct (addSA_spec ex_sa _ (wf_cache _ (cwf_system _ (cluster_run_wf _ _ late0_wf late7_run)))) as (c & Hc & _).
  rewrite Hc. exact (cl_deliver [] ex_req [] ex_sa c late7 eq_refl Hc).
Qed.

End late.

(** C19. The limit of the mirror: a fetch that is delivered after the account was deleted, and the
    informer has told so, puts the account back; with nothing on its way any more the cache
    still has a role for an account the API server does not have, and keeps it, whatever
    follows, until an account of this name is created or the cache is cleared: no resync
    takes it away. *)
Theorem late_fetch_resurrects_account :
  ∃ cl k, rtc cluster_step (starts ex_sys (mkInformer ∅ [])) cl ∧
    lag (inf cl) = 0 ∧ asked cl = [] ∧ fetchRequests (notifs (sys_cache (sys cl))) = [] ∧
    accounts (inf cl) !! k = None ∧
    (∃ e, saCache (sys_cache (sys cl)) !! k = Some e ∧ RoleARN e ≠ "") ∧
    ∀ cl', rtc (without k) cl cl' → is_Some (saCache (sys_cache (sys cl')) !! k).
Proof.
  exists late8, (key_of ex_sa). split; [exact late8_run|]. assert (inf late8 = mkInformer ∅ []) as Hinf
    by (vm_compute; reflexivity).
  assert (saCache (sys_cache (sys late8)) !! key_of ex_sa = Some (entry_of_sa ex_cache ex_sa)) as He by by_decision.
  rewrite Hinf. split_and!; [done|by_decision|by_decision|done| |].
  - exists (entry_of_sa ex_cache ex_sa). split; [exact He|by_decision].
  - intros cl' Hrun. eapply without_run; [exact Hrun| |by eexists].
    rewrite Hinf. split_and!; [done|done|]. by intros n ?%not_elem_of_nil.
Qed.

(** ** Witnesses *)

(** The state after the news, before the late fetch. *)
Lemma cache_mirrors_accounts_witness :
  let annotated := entry_of_sa ex_cache <$> accounts (inf late7) in
  mkResponse "" "" false DefaultTokenExpiration false (Some 1) =
    match effective annotated (cmCache (sys_cache (sys late7))) "app" "default" with
    | Some e => response_of e true (Some 1)
    | None => mkResponse "" "" false DefaultTokenExpiration (bool_decide (is_Some (accounts (inf late7) !! "default/app"))) (Some 1)
    end.
Proof.
  eapply (cache_mirrors_accounts "sts.amazonaws.com" "eks.amazonaws.com" false 86400 (mkComposeRoleArn false "" "" "")
    (mkInformer ∅ []) late7 ex_req).
  - reflexivity.
  - exact late7_run.
  - reflexivity.
  - by_decision.
  - vm_compute. reflexivity.
Defined.

(** Before any news: the account is only at the API server. *)
Lemma resync_heals_witness :
  ∃ cl', rtc cluster_step late4 cl' ∧ asked cl' = asked late4 ∧ accounts (inf cl') = accounts (inf late4) ∧
    lag (inf cl') = 0 ∧ ∀ k sa, accounts (inf late4) !! k = Some sa →
      saCache (sys_cache (sys cl')) !! k = Some (entry_of_sa ex_cache sa).
Proof.
  apply (resync_heals "sts.amazonaws.com" "eks.amazonaws.com" false 86400 (mkComposeRoleArn false "" "" "")
    (mkInformer ∅ []) late4); [reflexivity|exact late4_run].
Defined.
