(* ===== verification/FetchSA.v ===== *)
(** * Fetching a service account from the API server

    Models [fetchFromAPI] of src/pkg/cache/cache.go and the goroutine around it. The API
    server and the retry loop of client-go are interfaces: a fetch may change what the server
    will answer next, and [OnError] promises what its documentation says. The deadline of
    one second is part of what the server answers. *)

From S2P Require Import Prelude GoStd Pkg Notifications Cache CacheProps CacheSystem.

(** ** Interfaces *)

(** The getter for service accounts, over a state [A] of the server. *)
Class ServiceAccountsGetter (A E : Type) :=
  ServiceAccounts_Get : Request → A → result E ServiceAccount * A.

(** [errors.IsServerTimeout]. *)
Class APIError (E : Type) := IsServerTimeout : E → bool.

(** A successful answer is the account that was asked for. *)
Class ServiceAccountsGetterLaws (A E : Type) `{!ServiceAccountsGetter A E} : Prop :=
  get_answers_request : ∀ req a sa a', ServiceAccounts_Get req a = (Ok sa, a') →
    sa_Name sa = req_Name req ∧ sa_Namespace sa = req_Namespace req.

(** [retries n retriable fn s r]: [r] is what the last of at most [n + 1] runs of [fn] left;
    all before failed with a retriable error, and the last one is either the last allowed or
    has nothing to retry. *)
Inductive retries {St E} (retriable : E → bool) (fn : St → option E * St) : nat → St → option E * St → Prop :=
| retries_last n s e s' :
    fn s = (e, s') → n = 0 ∨ match e with Some e => retriable e = false | None => True end →
    retries retriable fn n s (e, s')
| retries_again n s e s' r :
    fn s = (Some e, s') → retriable e = true → retries retriable fn n s' r →
    retries retriable fn (S n) s r.

(** [retry.OnError] with [retry.DefaultBackoff]: [Steps] bounds the runs. *)
Class Retry := {
  Steps : nat;
  OnError : ∀ {St E : Type}, (E → bool) → (St → option E * St) → St → option E * St
}.

Class RetryLaws `{Retry} : Prop :=
  OnError_retries : ∀ {St E} (retriable : E → bool) (fn : St → option E * St) s,
    retries retriable fn (pred Steps) s (OnError retriable fn s).

(** ** The fetch *)

Section fetch.
Context {A E : Type} `{HE : !APIError E, HG : !ServiceAccountsGetter A E} `{HR : Retry}.

(** The closure that is retried: it assigns [sa] when the server answers. *)
Definition fetch_once (req : Request) (s : option ServiceAccount * A) : option E * (option ServiceAccount * A) :=
  let '(sa, a) := s in
  match ServiceAccounts_Get req a with
  | (Err err, a') => (Some err, (sa, a'))
  | (Ok res, a') => (None, (Some res, a'))
  end.

Definition fetchFromAPI (req : Request) (a : A) : option ServiceAccount * option E * A :=
  let '(err, (sa, a')) := OnError IsServerTimeout (fetch_once req) (None, a) in
  (sa, err, a').

(** The goroutine for one request. A nil account without an error would be dereferenced. *)
Definition serve (req : Request) (a : A) (c : serviceAccountCache) : outcome (serviceAccountCache * A) :=
  match fetchFromAPI req a with
  | (_, Some _, a') => Returned (c, a')
  | (Some sa, None, a') => let! c' := addSA sa c in Returned (c', a')
  | (None, None, _) => Panicked NilDereference
  end.

(** ** Lemmas *)

(** The conversation with the server: [n] questions before the last were answered with a
    server timeout, the last with [r]. *)
Inductive asked (req : Request) : nat → A → result E ServiceAccount → A → Prop :=
| asked_last a r a' : ServiceAccounts_Get req a = (r, a') → asked req 0 a r a'
| asked_again n a e a' r a'' :
    ServiceAccounts_Get req a = (Err e, a') → IsServerTimeout e = true → asked req n a' r a'' →
    asked req (S n) a r a''.
#[local] Hint Constructors asked : go.

Definition fetched (r : result E ServiceAccount) : option ServiceAccount * option E :=
  match r with Ok sa => (Some sa, None) | Err e => (None, Some e) end.

Lemma retries_asked req n a err sa a' :
  retries IsServerTimeout (fetch_once req) n (None, a) (err, (sa, a')) →
  ∃ k r, k ≤ n ∧ asked req k a r a' ∧ (sa, err) = fetched r ∧
    (∀ e, r = Err e → IsServerTimeout e = true → k = n).
Proof.
  remember (None, a) as s eqn:Hs. remember (err, (sa, a')) as r eqn:Hr. intros H. revert a Hs.
  induction H as [n s e s' Hfn Hend|n s e s' r Hfn He _ IH]; intros a ->; unfold fetch_once in Hfn.
  - destruct (ServiceAccounts_Get req a) as [[res|er] a1] eqn:Hget; simplify_eq.
    + exists 0, (Ok res). split; [lia|]. split; [auto with go|]. by split.
    + exists 0, (Err er). split; [lia|]. split; [auto with go|]. split; [done|].
      intros e [= <-] Ht. destruct Hend; congruence.
  - destruct (ServiceAccounts_Get req a) as [[res|er] a1] eqn:Hget; simplify_eq.
    destruct (IH eq_refl a1 eq_refl) as (k & r' & Hk & Hasked & Heq & Hlast).
    exists (S k), r'. split; [lia|]. split; [by eapply asked_again|]. split; [done|].
    intros e' He' Ht. f_equal. eauto.
Qed.

Lemma asked_answer req n a sa a' :
  ServiceAccountsGetterLaws A E → asked req n a (Ok sa) a' →
  sa_Name sa = req_Name req ∧ sa_Namespace sa = req_Namespace req.
Proof.
  intros Hlaws. remember (Ok sa) as r eqn:Hr. induction 1; simplify_eq; [by eapply get_answers_request|auto].
Qed.

Lemma fetch_conversation `{!RetryLaws} req a sa err a' :
  fetchFromAPI req a = (sa, err, a') →
  ∃ n r, n ≤ pred Steps ∧ asked req n a r a' ∧ (sa, err) = fetched r ∧
    (∀ e, r = Err e → IsServerTimeout e = true → n = pred Steps).
Proof.
  unfold fetchFromAPI. intros Hfetch. apply retries_asked.
  pose proof (OnError_retries IsServerTimeout (fetch_once req) (None, a)) as Hret.
  destruct (OnError _ _ _) as [e [s a1]]. by simplify_eq.
Qed.

End fetch.

(** ** A server and a retry loop for the witnesses *)

Module Scripted.

(** The answers the server will give, in order; without one it does not answer in time. *)
Inductive answer_error := ServerTimeout | NotFound | DeadlineExceeded.

Definition script := list (result answer_error (gmap string string)).

#[export] Instance answer_errors : APIError answer_error :=
  λ e, match e with ServerTimeout => true | _ => false end.

#[export] Instance getter : ServiceAccountsGetter script answer_error := λ req a,
  match a with
  | [] => (Err DeadlineExceeded, [])
  | Err e :: a' => (Err e, a')
  | Ok anns :: a' => (Ok (mkServiceAccount (req_Name req) (req_Namespace req) anns), a')
  end.

#[export] Instance getter_laws : ServiceAccountsGetterLaws script answer_error.
Proof. intros req [|[anns|e] a] sa a'; unfold ServiceAccounts_Get, getter; intros; by simplify_eq. Qed.

Fixpoint loop {St E} (retriable : E → bool) (fn : St → option E * St) (n : nat) (s : St) : option E * St :=
  match n, fn s with
  | S n', (Some e, s') => if retriable e then loop retriable fn n' s' else (Some e, s')
  | _, r => r
  end.

#[export] Instance four_times : Retry := {| Steps := 4; OnError St E retriable fn s := loop retriable fn 3 s |}.

#[export] Instance four_times_laws : RetryLaws.
Proof.
  intros St E retriable fn s. change (pred Steps) with 3. cbn [OnError four_times]. revert s.
  generalize 3. intros n. induction n as [|n IH]; intros s; cbn [loop]; destruct (fn s) as [[e|] s'] eqn:Hfn.
  1-2: apply retries_last; auto.
  - destruct (retriable e) eqn:He; [by eapply retries_again|]. apply retries_last; auto.
  - apply retries_last; auto.
Qed.

End Scripted.
Import Scripted.

(** ** Properties *)

(** A fetch asks the API server at least once and at most [Steps] times, again only after
    a server timeout, and gives up after one only when the steps are used up; it hands on the
    last answer, so an account comes without an error and an error without an account. *)
Theorem fetch_retries_only_timeouts {A E : Type} `{!APIError E, !ServiceAccountsGetter A E} `{HR : Retry} `{!RetryLaws}
    req (a : A) sa (err : option E) a' :
  fetchFromAPI req a = (sa, err, a') →
  ∃ n r, n ≤ pred Steps ∧ asked req n a r a' ∧
    match r with
    | Ok x => sa = Some x ∧ err = None
    | Err e => sa = None ∧ err = Some e ∧ (IsServerTimeout e = true → n = pred Steps)
    end.
Proof.
  intros (n & r & Hn & Hasked & Heq & Hlast)%fetch_conversation. exists n, r.
  split; [done|]. split; [done|]. destruct r as [x|e]; cbn in Heq; simplify_eq; eauto.
Qed.

(** C25. The goroutine that serves a request for a fetch refines the concurrent cache: in a
    reachable state it does not panic, whatever the server answers, and what it does is one
    step of the cache, which adds the account that was asked for or nothing. *)
Theorem serve_is_a_step {A E : Type} `{!APIError E, !ServiceAccountsGetter A E, !ServiceAccountsGetterLaws A E}
    `{HR : Retry} `{!RetryLaws} aud prefix sts exp comp s pre req post (a : A) :
  reachable (initial aud prefix sts exp comp) s → in_flight s = pre ++ req :: post →
  ∃ c' a', serve req a (sys_cache s) = Returned (c', a') ∧ step s (mkSystem c' (gets s) (pre ++ post)) ∧
    (c' = sys_cache s ∨
     ∃ anns, saCache c' = <[CacheKey req :=
       entry_of_sa (sys_cache s) (mkServiceAccount (req_Name req) (req_Namespace req) anns)]> (saCache (sys_cache s))).
Proof.
  intros Hr Hfl. pose proof (reachable_wf _ _ (initial_wf aud prefix sts exp comp) Hr) as [Hc _].
  unfold serve. destruct (fetchFromAPI req a) as [[sa err] a'] eqn:Hfetch.
  apply fetch_conversation in Hfetch as (n & r & _ & Hasked & Heq & _).
  destruct r as [[name ns anns]|e]; cbn in Heq; simplify_eq.
  - apply asked_answer in Hasked as [Hname Hns]; [|done]. cbn in Hname, Hns. subst name ns.
    destruct (addSA_spec (mkServiceAccount (req_Name req) (req_Namespace req) anns) _ Hc) as (c' & Hadd & _ & Hsa & _).
    rewrite Hadd. exists c', a'. split; [done|]. split; [by eapply step_fetch_ok; [exact Hfl| | |exact Hadd]|]. right. exists anns.
    by rewrite Hsa, CacheKey_sa_key.
  - exists (sys_cache s), a'. split; [done|]. split; [by eapply step_fetch_err|]. by left.
Qed.

(** ** Witnesses *)

(** Two server timeouts and then the account. *)
Definition ex_script : script :=
  [Err ServerTimeout; Err ServerTimeout; Ok (sa_Annotations ex_sa); Err NotFound].

Lemma fetch_retries_only_timeouts_witness :
  ∃ n (r : result answer_error ServiceAccount), n ≤ 3 ∧ asked (mkRequest "app" "default" true) n ex_script r [Err NotFound] ∧
    match r with
    | Ok x => Some ex_sa = Some x ∧ @None answer_error = None
    | Err e => Some ex_sa = None ∧ None = Some e ∧ (IsServerTimeout e = true → n = 3)
    end.
Proof.
  exact (fetch_retries_only_timeouts (mkRequest "app" "default" true) ex_script (Some ex_sa) None
    [Err NotFound] eq_refl).
Defined.

(** The request of the waiting [Get], taken off the buffer. *)
Definition ex_fetching : system :=
  mkSystem (match take_fetch (notifs (sys_cache ex_waiting)) with
            | Some (_, n) => with_notifs n (sys_cache ex_waiting)
            | None => sys_cache ex_waiting
            end) (gets ex_waiting) [ex_req].

Lemma serve_is_a_step_witness :
  ∃ c' a', serve ex_req ex_script (sys_cache ex_fetching) = Returned (c', a') ∧
    step ex_fetching (mkSystem c' (gets ex_fetching) []) ∧
    (c' = sys_cache ex_fetching ∨
     ∃ anns, saCache c' = <[CacheKey ex_req :=
       entry_of_sa (sys_cache ex_fetching) (mkServiceAccount (req_Name ex_req) (req_Namespace ex_req) anns)]>
       (saCache (sys_cache ex_fetching))).
Proof.
  eapply (serve_is_a_step _ _ _ _ _ ex_fetching [] ex_req []); [|reflexivity].
  eapply rtc_r; [exact ex_waiting_reachable|].
  exact (step_take_fetch ex_req _ ex_waiting eq_refl).
Defined.
