(* ===== verification/ContainerCredentials.v ===== *)
(** * Container credentials: which service accounts use them

    Models src/pkg/containercredentials: the configuration file, decoded byte for byte, the
    set it is loaded into, and the two implementations of the [Config] interface. *)

From S2P Require Import Prelude GoStd Json.

(** ** types.go *)

Record Identity := mkIdentity {
  id_Namespace : string;
  id_ServiceAccount : string
}.

#[export] Instance Identity_eq_dec : EqDecision Identity.
Proof. solve_decision. Defined.

#[export] Instance Identity_countable : Countable Identity.
Proof.
  apply (inj_countable' (λ i, (id_Namespace i, id_ServiceAccount i)) (λ p, mkIdentity p.1 p.2)).
  by intros [].
Defined.

Definition zeroIdentity : Identity := mkIdentity "" "".

Record IdentityConfigObject := mkIdentityConfigObject { Identities : list Identity }.

(** ** Decoding *)

Definition decode_identity_member (i : Identity) (k : string) (v : json) : jresult Identity :=
  if names_field k "namespace" then
    let? s := decode_string (id_Namespace i) v in Ok (mkIdentity s (id_ServiceAccount i))
  else if names_field k "serviceAccount" then
    let? s := decode_string (id_ServiceAccount i) v in Ok (mkIdentity (id_Namespace i) s)
  else Ok i.

(** Into a variable that holds [i]. *)
Definition decode_identity (i : Identity) (v : json) : jresult Identity :=
  match v with
  | JNull => Ok i
  | JObject ms => decode_members decode_identity_member i ms
  | _ => Err UnmarshalTypeError
  end.

(** Into the elements of a slice, whose backing array holds [backing] and zero values after
    that: an element is decoded over what is already there. *)
Fixpoint decode_elements (backing : list Identity) (vs : list json)
    : jresult (list Identity * list Identity) :=
  match vs with
  | [] => Ok ([], backing)
  | v :: vs' =>
      let? i := decode_identity (default zeroIdentity (head backing)) v in
      let? r := decode_elements (tail backing) vs' in
      Ok (i :: r.1, r.2)
  end.

(** A slice: its elements and what its backing array holds after them. *)
Definition slice := (list Identity * list Identity)%type.

Definition decode_slice (old : slice) (v : json) : jresult slice :=
  match v with
  | JNull | JArray [] => Ok ([], [])
  | JArray vs => decode_elements (old.1 ++ old.2) vs
  | _ => Err UnmarshalTypeError
  end.

Definition decode_config_member (s : slice) (k : string) (v : json) : jresult slice :=
  if names_field k "identities" then decode_slice s v else Ok s.

Definition decode_config (v : json) : jresult IdentityConfigObject :=
  match v with
  | JNull => Ok (mkIdentityConfigObject [])
  | JObject ms =>
      let? s := decode_members decode_config_member ([], []) ms in
      Ok (mkIdentityConfigObject s.1)
  | _ => Err UnmarshalTypeError
  end.

Definition unmarshal_config (content : string) : jresult IdentityConfigObject :=
  let? v := parse content in decode_config v.

(** ** config.go *)

Record PatchConfig := mkPatchConfig {
  pc_Audience : string;
  pc_MountPath : string;
  pc_VolumeName : string;
  pc_TokenPath : string;
  pc_FullUri : string
}.

(** [identityConfigObject] and [cache] are pointers: [None] is nil. *)
Record FileConfig := mkFileConfig {
  audience : string;
  mountPath : string;
  volumeName : string;
  tokenPath : string;
  fullUri : string;
  identityConfigObject : option IdentityConfigObject;
  cache : option (gmap Identity bool)
}.

Definition NewFileConfig (audience mountPath volumeName tokenPath fullUri : string) : FileConfig :=
  mkFileConfig audience mountPath volumeName tokenPath fullUri None (Some ∅).

Definition with_config (o : option IdentityConfigObject) (m : option (gmap Identity bool))
    (f : FileConfig) : FileConfig :=
  mkFileConfig (audience f) (mountPath f) (volumeName f) (tokenPath f) (fullUri f) o m.

Definition new_cache (ids : list Identity) : gmap Identity bool :=
  foldl (λ m item, <[item := true]> m) ∅ ids.

(** The content is [None] for a nil slice; the error is the one of [json.Unmarshal]. *)
Definition Load (content : option string) (f : FileConfig) : result json_error unit * FileConfig :=
  match content with
  | None | Some EmptyString => (Ok (), with_config None None f)
  | Some content =>
      match unmarshal_config content with
      | Err e => (Err e, f)
      | Ok configObject =>
          (Ok (), with_config (Some configObject) (Some (new_cache (Identities configObject))) f)
      end
  end.

(** Reading a nil map gives the zero value. *)
Definition getCacheItem (identity : Identity) (f : FileConfig) : bool :=
  match cache f with
  | None => false
  | Some m => default false (m !! identity)
  end.

Definition FileConfig_Get (namespace serviceAccount : string) (f : FileConfig) : option PatchConfig :=
  if getCacheItem (mkIdentity namespace serviceAccount) f then
    Some (mkPatchConfig (audience f) (mountPath f) (volumeName f) (tokenPath f) (fullUri f))
  else None.

(** ** fake.go *)

Record FakeConfig := mkFakeConfig {
  fake_patch : PatchConfig;
  fake_Identities : option (gmap Identity bool)
}.

(** Unlike the file configuration, any key of the map counts, whatever its value. *)
Definition FakeConfig_Get (namespace serviceAccount : string) (f : FakeConfig) : option PatchConfig :=
  match fake_Identities f with
  | None => None
  | Some m =>
      match m !! mkIdentity namespace serviceAccount with
      | Some _ => Some (fake_patch f)
      | None => None
      end
  end.

(** ** The interface *)

Class Config (C : Type) := config_Get : string → string → C → option PatchConfig.

#[export] Instance FileConfig_Config : Config FileConfig := FileConfig_Get.
#[export] Instance FakeConfig_Config : Config FakeConfig := FakeConfig_Get.

(** ** Lemmas *)

Lemma new_cache_lookup ids i :
  new_cache ids !! i = if decide (i ∈ ids) then Some true else None.
Proof.
  unfold new_cache.
  assert (∀ m : gmap Identity bool, foldl (λ m item, <[item := true]> m) m ids !! i =
    if decide (i ∈ ids) then Some true else m !! i) as Hgen.
  { induction ids as [|j ids IH]; intros m; cbn [foldl]; [by case_decide; [set_solver|]|].
    rewrite IH, lookup_insert. repeat case_decide; set_solver. }
  by rewrite Hgen.
Qed.

Lemma FileConfig_Get_Some ns sa f p :
  FileConfig_Get ns sa f = Some p →
  p = mkPatchConfig (audience f) (mountPath f) (volumeName f) (tokenPath f) (fullUri f) ∧
  getCacheItem (mkIdentity ns sa) f = true.
Proof. unfold FileConfig_Get. by case_match; intros; simplify_eq. Qed.

Lemma Load_error content f e f' : Load content f = (Err e, f') → f' = f.
Proof. unfold Load. intros. by repeat case_match; simplify_eq. Qed.

(** The decoders never report [OutOfFuel], which is not an error of the code. *)

Lemma decode_identity_no_fuel i v : decode_identity i v ≠ Err OutOfFuel.
Proof.
  destruct v; try done. apply decode_members_no_fuel. intros a k v. unfold decode_identity_member.
  repeat case_match; try done; apply result_bind_not_Err; try done; apply decode_string_no_fuel.
Qed.

Lemma decode_elements_no_fuel b vs : decode_elements b vs ≠ Err OutOfFuel.
Proof.
  revert b. induction vs as [|v vs IH]; intros b; cbn [decode_elements]; [done|].
  apply result_bind_not_Err; [apply decode_identity_no_fuel|]. intros i.
  by apply result_bind_not_Err.
Qed.

Lemma decode_config_no_fuel v : decode_config v ≠ Err OutOfFuel.
Proof.
  destruct v; try done. apply result_bind_not_Err; [|done].
  apply decode_members_no_fuel. intros a k v. unfold decode_config_member, decode_slice.
  repeat case_match; try done. apply decode_elements_no_fuel.
Qed.

Lemma unmarshal_config_no_fuel content : unmarshal_config content ≠ Err OutOfFuel.
Proof. apply result_bind_not_Err; [apply parse_never_out_of_fuel|apply decode_config_no_fuel]. Qed.

(** ** Specification *)

(** The identities a content of the file asks for; [None] when it is refused. *)
Definition requested (content : option string) : option (list Identity) :=
  match content with
  | None | Some EmptyString => Some []
  | Some s => match unmarshal_config s with Ok o => Some (Identities o) | Err _ => None end
  end.

(** What holds after a sequence of contents: the last one that was not refused. *)
Definition in_force (contents : list (option string)) : list Identity :=
  foldl (λ ids content, default ids (requested content)) [] contents.

Definition answers (f : FileConfig) (ids : list Identity) : Prop :=
  ∀ ns sa, FileConfig_Get ns sa f =
    if decide (mkIdentity ns sa ∈ ids)
    then Some (mkPatchConfig (audience f) (mountPath f) (volumeName f) (tokenPath f) (fullUri f))
    else None.

Definition same_settings (f f' : FileConfig) : Prop :=
  (audience f, mountPath f, volumeName f, tokenPath f, fullUri f) =
  (audience f', mountPath f', volumeName f', tokenPath f', fullUri f').

(** {"identities":[{"namespace":"default","serviceAccount":"app"}]}, for the witnesses. *)
Definition ex_identities_file : string :=
  let q := String "034" "" in
  "{" +:+ q +:+ "identities" +:+ q +:+ ":[{" +:+ q +:+ "namespace" +:+ q +:+ ":" +:+ q +:+ "default" +:+ q +:+ ","
  +:+ q +:+ "serviceAccount" +:+ q +:+ ":" +:+ q +:+ "app" +:+ q +:+ "}]}".

Lemma Load_settings content f : same_settings (Load content f).2 f.
Proof. unfold Load, same_settings. by repeat case_match. Qed.

Lemma answers_nil_cache f o : answers (with_config o None f) [].
Proof. intros ns sa. rewrite decide_False by set_solver. done. Qed.

Lemma answers_new_cache f o ids : answers (with_config o (Some (new_cache ids)) f) ids.
Proof.
  intros ns sa. unfold FileConfig_Get, getCacheItem. simpl. rewrite new_cache_lookup.
  by case_decide.
Qed.

Lemma Load_step content f ids :
  answers f ids → answers (Load content f).2 (default ids (requested content)).
Proof.
  intros Hf. unfold Load, requested. destruct content as [[|b s]|]; try apply answers_nil_cache.
  destruct (unmarshal_config _); [apply answers_new_cache|done].
Qed.

(** Any history of reloads. *)
Lemma reloads_answer aud mount vol path uri contents ns sa :
  FileConfig_Get ns sa
      (foldl (λ f content, (Load content f).2) (NewFileConfig aud mount vol path uri) contents) =
    if decide (mkIdentity ns sa ∈ in_force contents)
    then Some (mkPatchConfig aud mount vol path uri) else None.
Proof.
  assert (∀ f ids, answers f ids → same_settings f (NewFileConfig aud mount vol path uri) →
    let f' := foldl (λ f content, (Load content f).2) f contents in
    answers f' (foldl (λ ids content, default ids (requested content)) ids contents) ∧
    same_settings f' (NewFileConfig aud mount vol path uri)) as Hgen.
  { induction contents as [|content contents IH]; intros f ids Hf Hs; [done|].
    cbn [foldl]. apply IH; [by apply Load_step|].
    unfold same_settings in *. by rewrite (Load_settings content f). }
  destruct (Hgen (NewFileConfig aud mount vol path uri) []) as [Hans Hset]; [|done|].
  - intros ns' sa'. rewrite decide_False by set_solver. done.
  - rewrite Hans. unfold same_settings in Hset. injection Hset as -> -> -> -> ->. done.
Qed.

(** One reload of the configuration file: an absent or empty file clears the set, a
    file that decodes replaces it by exactly the identities listed, and any other file is
    an error of the JSON decoder that leaves everything as it was. *)
Theorem Load_branches content f :
  match content, unmarshal_config (default "" content) with
  | None, _ | Some EmptyString, _ =>
      (Load content f).1 = Ok () ∧ answers (Load content f).2 [] ∧ identityConfigObject (Load content f).2 = None
  | Some _, Ok o =>
      (Load content f).1 = Ok () ∧ answers (Load content f).2 (Identities o) ∧
      identityConfigObject (Load content f).2 = Some o
  | Some _, Err e => Load content f = (Err e, f) ∧ e ≠ OutOfFuel
  end.
Proof.
  destruct content as [[|b s]|]; simpl; try by (split_and!; [|apply answers_nil_cache|]).
  pose proof (unmarshal_config_no_fuel (String b s)) as Hf. unfold Load.
  destruct (unmarshal_config _) as [o|e]; simpl.
  - split_and!; [done|apply answers_new_cache|done].
  - split; [done|congruence].
Qed.

(** C9. Over any history of reloads from start-up, the configuration answers for exactly
    the identities of the last content that was not refused, with the settings of the
    flags. *)
Theorem reloads_refine aud mount vol path uri contents ns sa :
  FileConfig_Get ns sa
      (foldl (λ f content, (Load content f).2) (NewFileConfig aud mount vol path uri) contents) =
    if decide (mkIdentity ns sa ∈ in_force contents)
    then Some (mkPatchConfig aud mount vol path uri) else None.
Proof. apply reloads_answer. Qed.
