(* ===== verification/PodTypes.v ===== *)
(** * The Kubernetes objects the handler works on

    The structs of k8s.io/api as far as src/pkg/handler/handler.go reads or builds them.
    Their other fields are carried along in types this development knows nothing about: a
    [K8s] instance names them, with the zero value where the handler builds a struct by
    naming some fields only. A slice or map is an option where the handler tells nil from
    empty. *)

From S2P Require Import Prelude.

Class K8s := {
  EnvVarSource : Type;
  VolumeMountRest : Type;
  VolumeMountRest_zero : VolumeMountRest;
  ContainerRest : Type;
  VolumeProjectionRest : Type;
  VolumeProjectionRest_zero : VolumeProjectionRest;
  VolumeSourceRest : Type;
  VolumeSourceRest_zero : VolumeSourceRest;
  ObjectMetaRest : Type;
  PodSpecRest : Type;
  PodRest : Type
}.

Section types.
Context {K : K8s}.

Record EnvVar := mkEnvVar {
  ev_Name : string;
  ev_Value : string;
  ValueFrom : option EnvVarSource
}.

Record VolumeMount := mkVolumeMount {
  vm_Name : string;
  ReadOnly : bool;
  vm_MountPath : string;
  vm_rest : VolumeMountRest
}.

Record Container := mkContainer {
  c_Name : string;
  Env : list EnvVar;
  VolumeMounts : list VolumeMount;
  c_rest : ContainerRest
}.

Record ServiceAccountTokenProjection := mkServiceAccountTokenProjection {
  sat_Audience : string;
  ExpirationSeconds : option Z;
  sat_Path : string
}.

Record VolumeProjection := mkVolumeProjection {
  ServiceAccountToken : option ServiceAccountTokenProjection;
  vp_rest : VolumeProjectionRest
}.

Record ProjectedVolumeSource := mkProjectedVolumeSource {
  Sources : list VolumeProjection;
  DefaultMode : option Z
}.

Record VolumeSource := mkVolumeSource {
  Projected : option ProjectedVolumeSource;
  vs_rest : VolumeSourceRest
}.

Record Volume := mkVolume {
  v_Name : string;
  v_VolumeSource : VolumeSource
}.

Record ObjectMeta := mkObjectMeta {
  Name : string;
  GenerateName : string;
  Namespace : string;
  Labels : option (gmap string string);
  Annotations : gmap string string;
  meta_rest : ObjectMetaRest
}.

Record PodSpec := mkPodSpec {
  Volumes : option (list Volume);
  InitContainers : list Container;
  Containers : list Container;
  NodeSelector : gmap string string;
  ServiceAccountName : string;
  spec_rest : PodSpecRest
}.

Record Pod := mkPod {
  Meta : ObjectMeta;
  Spec : PodSpec;
  pod_rest : PodRest
}.

(** ** Updates *)

Definition with_Namespace (ns : string) (p : Pod) : Pod :=
  mkPod (mkObjectMeta (Name (Meta p)) (GenerateName (Meta p)) ns (Labels (Meta p))
           (Annotations (Meta p)) (meta_rest (Meta p))) (Spec p) (pod_rest p).
Definition with_Labels (l : option (gmap string string)) (p : Pod) : Pod :=
  mkPod (mkObjectMeta (Name (Meta p)) (GenerateName (Meta p)) (Namespace (Meta p)) l
           (Annotations (Meta p)) (meta_rest (Meta p))) (Spec p) (pod_rest p).
Definition with_Volumes (v : option (list Volume)) (p : Pod) : Pod :=
  mkPod (Meta p) (mkPodSpec v (InitContainers (Spec p)) (Containers (Spec p))
           (NodeSelector (Spec p)) (ServiceAccountName (Spec p)) (spec_rest (Spec p))) (pod_rest p).
Definition with_InitContainers (cs : list Container) (p : Pod) : Pod :=
  mkPod (Meta p) (mkPodSpec (Volumes (Spec p)) cs (Containers (Spec p))
           (NodeSelector (Spec p)) (ServiceAccountName (Spec p)) (spec_rest (Spec p))) (pod_rest p).
Definition with_Containers (cs : list Container) (p : Pod) : Pod :=
  mkPod (Meta p) (mkPodSpec (Volumes (Spec p)) (InitContainers (Spec p)) cs
           (NodeSelector (Spec p)) (ServiceAccountName (Spec p)) (spec_rest (Spec p))) (pod_rest p).

End types.

(** The plain instance: no other fields. *)
Definition plain_k8s : K8s := {|
  EnvVarSource := unit;
  VolumeMountRest := unit; VolumeMountRest_zero := tt;
  ContainerRest := unit;
  VolumeProjectionRest := unit; VolumeProjectionRest_zero := tt;
  VolumeSourceRest := unit; VolumeSourceRest_zero := tt;
  ObjectMetaRest := unit; PodSpecRest := unit; PodRest := unit
|}.
