(* ===== verification/Modifier.v ===== *)
(** * The mutation of pods

    Models src/pkg/handler/handler.go up to [MutatePod]: the environment variables and the
    volume mount of one container, the patch of a pod, the configuration the patch is built
    from, with its lookup in the two sources and the wait for a service account, and the
    admission response. *)

From S2P Require Import Prelude GoStd Pkg Notifications Cache ContainerCredentials PodTypes.

(** ** Data *)

Record Modifier := mkModifier {
  AnnotationDomain : string;
  m_MountPath : string;
  m_Region : string;
  volName : string;
  tokenName : string;
  saLookupGraceTime : Z
}.

(** A [Modifier] while it is built: its plain fields, and the cache and the configuration, nil
    until they are set. A request works on the [World] these are in. *)
Record parts (S C : Type) := mkParts {
  plain : Modifier;
  m_Cache : option S;
  m_ContainerCredentialsConfig : option C
}.
Arguments mkParts {S C}.
Arguments plain {S C}.
Arguments m_Cache {S C}.
Arguments m_ContainerCredentialsConfig {S C}.

Definition ModifierOpt (S C : Type) := parts S C → parts S C.

Section options.
Context {S C : Type}.

Definition on_plain (f : Modifier → Modifier) : ModifierOpt S C := λ p,
  mkParts (f (plain p)) (m_Cache p) (m_ContainerCredentialsConfig p).

Definition WithServiceAccountCache (c : S) : ModifierOpt S C := λ p,
  mkParts (plain p) (Some c) (m_ContainerCredentialsConfig p).
Definition WithContainerCredentialsConfig (config : C) : ModifierOpt S C := λ p,
  mkParts (plain p) (m_Cache p) (Some config).
Definition WithMountPath (mountpath : string) : ModifierOpt S C := on_plain (λ m,
  mkModifier (AnnotationDomain m) mountpath (m_Region m) (volName m) (tokenName m) (saLookupGraceTime m)).
Definition WithRegion (region : string) : ModifierOpt S C := on_plain (λ m,
  mkModifier (AnnotationDomain m) (m_MountPath m) region (volName m) (tokenName m) (saLookupGraceTime m)).
Definition WithAnnotationDomain (domain : string) : ModifierOpt S C := on_plain (λ m,
  mkModifier domain (m_MountPath m) (m_Region m) (volName m) (tokenName m) (saLookupGraceTime m)).
Definition WithSALookupGraceTime (grace : Z) : ModifierOpt S C := on_plain (λ m,
  mkModifier (AnnotationDomain m) (m_MountPath m) (m_Region m) (volName m) (tokenName m) grace).

Definition NewModifier (opts : list (ModifierOpt S C)) : parts S C :=
  foldl (λ m opt, opt m)
    (mkParts (mkModifier "eks.amazonaws.com" "/var/run/secrets/eks.amazonaws.com/serviceaccount" ""
       "aws-iam-token" "token" 0) None None) opts.

End options.

Record webIdentityPatchConfig := mkWebIdentity { RoleArn : string }.

(** [ContainersToSkip] is a map whose keys alone matter. *)
Record podPatchConfig := mkPatch {
  ContainersToSkip : gset string;
  ppc_TokenExpiration : Z;
  ppc_UseRegionalSTS : bool;
  ppc_Audience : string;
  ppc_MountPath : string;
  ppc_VolumeName : string;
  ppc_TokenPath : string;
  WebIdentityPatchConfig : option webIdentityPatchConfig;
  ContainerCredentialsPatchConfig : option PatchConfig
}.

(** ** Annotations of the pod *)

Section annotations.
Context {K : K8s}.

Definition getContainersToSkip (annotationDomain : string) (pod : Pod) : gset string :=
  match Annotations (Meta pod) !! (annotationDomain +:+ "/" +:+ SkipContainersAnnotation) with
  | Some value =>
      match Csv.Read value with
      | Err _ => ∅
      | Ok podNames => list_to_set podNames
      end
  | None => ∅
  end.

Definition parsePodAnnotations (m : Modifier) (pod : Pod) (serviceAccountTokenExpiration : Z)
    : Z * gset string :=
  let tokenExpiration :=
    match Annotations (Meta pod) !! (AnnotationDomain m +:+ "/" +:+ TokenExpirationAnnotation) with
    | Some expirationStr =>
        match Strconv.ParseInt expirationStr with
        | None => serviceAccountTokenExpiration
        | Some expiration => ValidateMinTokenExpiration expiration
        end
    | None => serviceAccountTokenExpiration
    end in
  (tokenExpiration, getContainersToSkip (AnnotationDomain m) pod).

End annotations.

(** ** One container *)

Definition webIdentityKeys : list string := ["AWS_ROLE_ARN"; "AWS_WEB_IDENTITY_TOKEN_FILE"].
Definition containerCredentialsKeys : list string :=
  [AwsEnvVarContainerCredentialsFullUri; AwsEnvVarContainerAuthorizationTokenFile].
Definition awsRegionKeys : list string := ["AWS_REGION"; "AWS_DEFAULT_REGION"].
Definition stsKey : string := "AWS_STS_REGIONAL_ENDPOINTS".

Section container.
Context {K : K8s}.

(** Whether the loop over the environment sees one of the keys. *)
Definition defines (keys : list string) (env : list EnvVar) : bool :=
  existsb (λ e, bool_decide (ev_Name e ∈ keys)) env.

Definition new_env (name value : string) : EnvVar := mkEnvVar name value None.

(** The variables the function appends, in order. *)
Definition added_env (m : Modifier) (env : list EnvVar) (tokenFilePath : string) (pc : podPatchConfig)
    : list EnvVar :=
  (if negb (defines [stsKey] env) && ppc_UseRegionalSTS pc then [new_env stsKey "regional"] else []) ++
  (if negb (defines awsRegionKeys env) && bool_decide (m_Region m ≠ "") then
     [new_env "AWS_DEFAULT_REGION" (m_Region m); new_env "AWS_REGION" (m_Region m)] else []) ++
  match ContainerCredentialsPatchConfig pc with
  | Some cc =>
      if negb (defines containerCredentialsKeys env) then
        [new_env AwsEnvVarContainerCredentialsFullUri (pc_FullUri cc);
         new_env AwsEnvVarContainerAuthorizationTokenFile tokenFilePath]
      else []
  | None =>
      match WebIdentityPatchConfig pc with
      | Some wi =>
          if negb (defines webIdentityKeys env) then
            [new_env "AWS_ROLE_ARN" (RoleArn wi);
             new_env "AWS_WEB_IDENTITY_TOKEN_FILE" tokenFilePath]
          else []
      | None => []
      end
  end.

(** The early return: the credentials, a region and the STS setting are all there. *)
Definition env_complete (env : list EnvVar) (pc : podPatchConfig) : bool :=
  ((bool_decide (WebIdentityPatchConfig pc ≠ None) && defines webIdentityKeys env) ||
   (bool_decide (ContainerCredentialsPatchConfig pc ≠ None) && defines containerCredentialsKeys env)) &&
  defines awsRegionKeys env && defines [stsKey] env.

Definition mounts_volume (vol : string) (mounts : list VolumeMount) : bool :=
  existsb (λ v, bool_decide (vm_Name v = vol)) mounts.

(** The container afterwards, and whether it changed. *)
Definition addEnvToContainer (m : Modifier) (container : Container) (tokenFilePath : string)
    (pc : podPatchConfig) : Container * bool :=
  let env := Env container in
  if env_complete env pc then (container, false)
  else
    let added := added_env m env tokenFilePath pc in
    let volExists := mounts_volume (ppc_VolumeName pc) (VolumeMounts container) in
    (mkContainer (c_Name container) (env ++ added)
       (if volExists then VolumeMounts container
        else VolumeMounts container ++
               [mkVolumeMount (ppc_VolumeName pc) true (ppc_MountPath pc) VolumeMountRest_zero])
       (c_rest container),
     bool_decide (added ≠ []) || negb volExists).

End container.

(** ** The patch of a pod *)

Section patch.
Context {K : K8s}.

Inductive patchValue :=
| VLabels (l : gmap string string)
| VString (s : string)
| VVolume (v : Volume)
| VVolumes (vs : list Volume)
| VContainers (cs : list Container).

Record patchOperation := mkOp { Op : string; Path : string; Value : patchValue }.

(** The body of the two loops over containers. *)
Definition visit (m : Modifier) (tokenFilePath : string) (pc : podPatchConfig) (c : Container)
    : Container * bool :=
  if decide (c_Name c ∈ ContainersToSkip pc) then (c, false)
  else addEnvToContainer m c tokenFilePath pc.

Definition visit_all (m : Modifier) (tokenFilePath : string) (pc : podPatchConfig) (cs : list Container)
    : list Container * bool :=
  (fst ∘ visit m tokenFilePath pc <$> cs, existsb (snd ∘ visit m tokenFilePath pc) cs).

Definition token_file_path (pod : Pod) (pc : podPatchConfig) : string :=
  let p := Filepath.Join (ppc_MountPath pc) (ppc_TokenPath pc) in
  let betaNodeSelector := default "" (NodeSelector (Spec pod) !! "beta.kubernetes.io/os") in
  let nodeSelector := default "" (NodeSelector (Spec pod) !! "kubernetes.io/os") in
  if decide (betaNodeSelector = "windows" ∨ nodeSelector = "windows")
  then "C:" +:+ GoStrings.ReplaceAll p "/" "092"
  else p.

Definition token_volume (pc : podPatchConfig) : Volume :=
  mkVolume (ppc_VolumeName pc)
    (mkVolumeSource
       (Some (mkProjectedVolumeSource
                [mkVolumeProjection
                   (Some (mkServiceAccountTokenProjection (ppc_Audience pc)
                            (Some (ppc_TokenExpiration pc)) (ppc_TokenPath pc)))
                   VolumeProjectionRest_zero] None))
       VolumeSourceRest_zero).

Definition label_key : string := "eks.amazonaws.com/pod-identity".

Definition label_patch (pod : Pod) (pc : podPatchConfig) : list patchOperation :=
  match ContainerCredentialsPatchConfig pc with
  | None => []
  | Some _ =>
      match Labels (Meta pod) with
      | None => [mkOp "add" "/metadata/labels" (VLabels {[ label_key := "enabled" ]})]
      | Some _ => [mkOp "add" "/metadata/labels/eks.amazonaws.com~1pod-identity" (VString "enabled")]
      end
  end.

Definition has_volume (vol : string) (vs : option (list Volume)) : bool :=
  existsb (λ v, bool_decide (v_Name v = vol)) (default [] vs).

Definition volume_patch (pod : Pod) (pc : podPatchConfig) : list patchOperation :=
  if has_volume (ppc_VolumeName pc) (Volumes (Spec pod)) then []
  else
    match Volumes (Spec pod) with
    | None => [mkOp "add" "/spec/volumes" (VVolumes [token_volume pc])]
    | Some _ => [mkOp "add" "/spec/volumes/0" (VVolume (token_volume pc))]
    end.

Definition getPodSpecPatch (m : Modifier) (pod : Pod) (pc : podPatchConfig)
    : list patchOperation * bool :=
  let tokenFilePath := token_file_path pod pc in
  let '(initContainers, changed1) := visit_all m tokenFilePath pc (InitContainers (Spec pod)) in
  let '(containers, changed2) := visit_all m tokenFilePath pc (Containers (Spec pod)) in
  (label_patch pod pc ++ volume_patch pod pc ++
   [mkOp "add" "/spec/containers" (VContainers containers)] ++
   (match initContainers with
    | [] => []
    | _ => [mkOp "add" "/spec/initContainers" (VContainers initContainers)]
    end),
   changed1 || changed2 || bool_decide (ContainerCredentialsPatchConfig pc ≠ None) ||
   negb (has_volume (ppc_VolumeName pc) (Volumes (Spec pod)))).

End patch.

(** ** The world of a request

    What [buildPodPatchConfig] reads and changes outside the modifier: the shared cache, the
    container-credentials configuration, the random source and the two counters. A program
    answers [None] when it is blocked: on the cache, or on a random source that has run out
    of draws. *)

Record World (S C : Type) := mkWorld {
  w_cache : S;
  w_config : C;
  w_rand : Rand.source;
  webhookPodCount : gmap string Z;
  missingSACounter : Z
}.
Arguments mkWorld {S C}.
Arguments w_cache {S C}.
Arguments w_config {S C}.
Arguments w_rand {S C}.
Arguments webhookPodCount {S C}.
Arguments missingSACounter {S C}.

(** What the first request finds; a nil cache or configuration would be dereferenced. *)
Definition world_of {S C} (p : parts S C) (random : Rand.source) : option (World S C) :=
  c ← m_Cache p; config ← m_ContainerCredentialsConfig p; Some (mkWorld c config random ∅ 0%Z).

Definition prog (W A : Type) := W → option (A * W).

Definition ret {W A} (a : A) : prog W A := λ w, Some (a, w).
Definition bind {W A B} (m : prog W A) (k : A → prog W B) : prog W B := λ w,
  match m w with
  | Some (a, w') => k a w'
  | None => None
  end.

Notation "'let*' x ':=' m 'in' k" := (bind m (λ x, k))
  (at level 10, x pattern, m at level 200, k at level 200) : go_scope.

Section build.
Context {K : K8s} {S C : Type} `{!ServiceAccountCache S} `{!Config C}.
Abbreviation W := (World S C).

Definition get (req : Request) : prog W Response := λ w,
  '(resp, s) ← cache_Get req (w_cache w);
  Some (resp, mkWorld s (w_config w) (w_rand w) (webhookPodCount w) (missingSACounter w)).

Definition get_common (name namespace : string) : prog W (bool * Z) := λ w,
  Some (cache_GetCommonConfigurations name namespace (w_cache w), w).

Definition container_credentials (namespace serviceAccount : string) : prog W (option PatchConfig) := λ w,
  Some (config_Get namespace serviceAccount (w_config w), w).

Definition int63n (n : Z) : prog W Z := λ w,
  '(v, src) ← Rand.Int63n (w_rand w) n;
  Some (v, mkWorld (w_cache w) (w_config w) src (webhookPodCount w) (missingSACounter w)).

Definition count_pod (method : string) : prog W unit := λ w,
  Some (tt, mkWorld (w_cache w) (w_config w) (w_rand w)
              (<[method := (default 0 (webhookPodCount w !! method) + 1)%Z]> (webhookPodCount w))
              (missingSACounter w)).

Definition count_missing : prog W unit := λ w,
  Some (tt, mkWorld (w_cache w) (w_config w) (w_rand w) (webhookPodCount w) (missingSACounter w + 1)%Z).

(** What other goroutines do to the cache while this one waits for a notifier or the end
    of the grace time, and which of the two comes first. *)
Definition select_env := option chan → S → bool * S.

(** The [select]: a nil channel is never ready. *)
Definition select_notified (env : select_env) (nt : option chan) : prog W bool := λ w,
  let '(notified, s) := env nt (w_cache w) in
  Some (match nt with Some _ => notified | None => false end,
        mkWorld s (w_config w) (w_rand w) (webhookPodCount w) (missingSACounter w)).

Definition addJitterToDefaultToken (tokenExpiration : Z) : prog W Z :=
  if decide (tokenExpiration = DefaultTokenExpiration) then
    let* v := int63n (DefaultTokenExpiration - DefaultMinTokenExpiration + 1)%Z in
    ret (v + DefaultMinTokenExpiration)%Z
  else ret tokenExpiration.

(** The STS web identity configuration from a response of the cache. *)
Definition web_identity (m : Modifier) (pod : Pod) (response : Response) : prog W (option podPatchConfig) :=
  if decide (resp_RoleARN response ≠ "") then
    let '(tokenExpiration, containersToSkip) := parsePodAnnotations m pod (resp_TokenExpiration response) in
    let* _ := count_pod "sts_web_identity" in
    ret (Some (mkPatch containersToSkip tokenExpiration (resp_UseRegionalSTS response)
                 (resp_Audience response) (m_MountPath m) (volName m) (tokenName m)
                 (Some (mkWebIdentity (resp_RoleARN response))) None))
  else ret None.

Definition leave_alone : prog W (option podPatchConfig) :=
  let* _ := count_missing in ret None.

Definition buildPodPatchConfig (m : Modifier) (env : select_env) (pod : Pod)
    : prog W (option podPatchConfig) :=
  let ns := Namespace (Meta pod) in
  let sa := ServiceAccountName (Spec pod) in
  let* cc := container_credentials ns sa in
  match cc with
  | Some cc =>
      let* common := get_common sa ns in
      let '(regionalSTS, tokenExpiration) := common in
      let '(tokenExpiration, containersToSkip) := parsePodAnnotations m pod tokenExpiration in
      let* tokenExpiration := addJitterToDefaultToken tokenExpiration in
      let* _ := count_pod "container_credentials" in
      ret (Some (mkPatch containersToSkip tokenExpiration regionalSTS (pc_Audience cc)
                   (pc_MountPath cc) (pc_VolumeName cc) (pc_TokenPath cc) None (Some cc)))
  | None =>
      let gracePeriodEnabled := bool_decide (0 < saLookupGraceTime m)%Z in
      let* response := get (mkRequest sa ns gracePeriodEnabled) in
      let* _ := if negb (FoundInCache response) && negb gracePeriodEnabled
                then count_missing else ret tt in
      if negb (FoundInCache response) && gracePeriodEnabled then
        let* notified := select_notified env (Notifier response) in
        if notified : bool then
          let* response := get (mkRequest sa ns false) in
          if negb (FoundInCache response) then leave_alone else web_identity m pod response
        else leave_alone
      else web_identity m pod response
  end.

(** ** The admission response *)

Record AdmissionRequest := mkAdmissionRequest {
  ar_UID : string;
  ar_Namespace : string;
  Object_Raw : string
}.

Record AdmissionReview := mkAdmissionReview { ar_Request : option AdmissionRequest }.

Record AdmissionResponse := mkAdmissionResponse {
  UID : string;
  Allowed : bool;
  Result_Message : option string;
  Patch : option string;
  PatchType : option string
}.

Definition refuse (message : string) : AdmissionResponse :=
  mkAdmissionResponse "" false (Some message) None None.

Definition badRequest : AdmissionResponse := refuse "bad content".

Definition allow_unchanged : AdmissionResponse := mkAdmissionResponse "" true None None None.

Definition allow_patched (patchBytes : string) : AdmissionResponse :=
  mkAdmissionResponse "" true None (Some patchBytes) (Some "JSONPatch").

(** [json.Unmarshal] into a [corev1.Pod] and [json.Marshal] of a patch, whose types are
    those of k8s.io/api; the error is its message. *)
Context (unmarshalPod : string → result string Pod)
        (marshalPatch : list patchOperation → result string string).

Definition MutatePod (m : Modifier) (env : select_env) (ar : option AdmissionReview) : prog W AdmissionResponse :=
  match ar with
  | None => ret badRequest
  | Some ar =>
      match ar_Request ar with
      | None => ret badRequest
      | Some req =>
          match unmarshalPod (Object_Raw req) with
          | Err e => ret (refuse e)
          | Ok pod =>
              let pod := with_Namespace (ar_Namespace req) pod in
              let* patchConfig := buildPodPatchConfig m env pod in
              match patchConfig with
              | None => ret allow_unchanged
              | Some pc =>
                  let '(patch, changed) := getPodSpecPatch m pod pc in
                  match marshalPatch patch with
                  | Err e => ret (refuse e)
                  | Ok patchBytes => ret (allow_patched patchBytes)
                  end
              end
          end
      end
  end.

End build.

(** ** logContext *)

Definition logContext (podName podGenerateName serviceAccountName namespace : string) : string :=
  let name := if decide (podName = "") then podGenerateName else podName in
  "Pod=" +:+ name +:+ ", ServiceAccount=" +:+ serviceAccountName +:+ ", Namespace=" +:+ namespace.
