(* ===== verification/ContainerProps.v ===== *)
(** * Properties of the mutation of one container

    [addEnvToContainer]: what is appended and what never is, idempotence, and the meaning of
    the reported change. *)

From S2P Require Import Prelude GoStd Pkg Notifications Cache ContainerCredentials PodTypes Modifier.

Section container_facts.
Context {K : K8s}.
Implicit Types (m : Modifier) (pc : podPatchConfig) (env : list EnvVar) (c : Container).

Definition env_names env : list string := ev_Name <$> env.

(** ** Lemmas *)

Lemma defines_app keys env env' : defines keys (env ++ env') = defines keys env || defines keys env'.
Proof. apply existsb_app. Qed.

Lemma defines_true keys env : defines keys env = true ↔ ∃ k, k ∈ keys ∧ k ∈ env_names env.
Proof.
  unfold defines, env_names. rewrite existsb_exists. setoid_rewrite bool_decide_eq_true.
  setoid_rewrite <- list_elem_of_In. split.
  - intros (e & He & Hk). exists (ev_Name e). split; [done|]. by apply list_elem_of_fmap_2.
  - intros (k & Hk & (e & -> & He)%list_elem_of_fmap). by exists e.
Qed.

Lemma defines_false keys env : defines keys env = false ↔ ∀ k, k ∈ keys → k ∉ env_names env.
Proof.
  rewrite <- not_true_iff_false, defines_true. naive_solver.
Qed.

(** The three groups of variables that can be appended. *)
Definition added_sts env pc : list EnvVar :=
  if negb (defines [stsKey] env) && ppc_UseRegionalSTS pc then [new_env stsKey "regional"] else [].
Definition added_region m env : list EnvVar :=
  if negb (defines awsRegionKeys env) && bool_decide (m_Region m ≠ "") then
    [new_env "AWS_DEFAULT_REGION" (m_Region m); new_env "AWS_REGION" (m_Region m)] else [].
Definition added_credentials env path pc : list EnvVar :=
  match ContainerCredentialsPatchConfig pc with
  | Some cc =>
      if negb (defines containerCredentialsKeys env) then
        [new_env AwsEnvVarContainerCredentialsFullUri (pc_FullUri cc);
         new_env AwsEnvVarContainerAuthorizationTokenFile path]
      else []
  | None =>
      match WebIdentityPatchConfig pc with
      | Some wi =>
          if negb (defines webIdentityKeys env) then
            [new_env "AWS_ROLE_ARN" (RoleArn wi); new_env "AWS_WEB_IDENTITY_TOKEN_FILE" path]
          else []
      | None => []
      end
  end.

Lemma added_env_groups m env path pc :
  added_env m env path pc = added_sts env pc ++ added_region m env ++ added_credentials env path pc.
Proof. done. Qed.

Lemma added_sts_again env env' pc : added_sts (env ++ added_sts env pc ++ env') pc = [].
Proof.
  unfold added_sts. rewrite !defines_app.
  destruct (defines [stsKey] env); [done|]. by destruct (ppc_UseRegionalSTS pc); rewrite ?andb_false_r.
Qed.

Lemma added_region_again m env env1 env2 : added_region m (env ++ env1 ++ added_region m env ++ env2) = [].
Proof.
  unfold added_region. rewrite !defines_app.
  destruct (defines awsRegionKeys env); [done|].
  destruct (bool_decide (m_Region m ≠ "")); simpl; [by rewrite orb_true_r|by rewrite andb_false_r].
Qed.

Lemma added_credentials_again env env1 env2 path pc :
  added_credentials (env ++ env1 ++ env2 ++ added_credentials env path pc) path pc = [].
Proof.
  unfold added_credentials. rewrite !defines_app.
  destruct (ContainerCredentialsPatchConfig pc), (WebIdentityPatchConfig pc); try done;
    match goal with |- context [defines ?k env] => destruct (defines k env) end; try done;
    simpl; by rewrite !orb_true_r.
Qed.

(** Nothing is left to add after adding. *)
Lemma added_env_again m env path pc : added_env m (env ++ added_env m env path pc) path pc = [].
Proof.
  rewrite (added_env_groups m env), (added_env_groups m (env ++ _)).
  rewrite added_sts_again, added_region_again.
  by rewrite added_credentials_again.
Qed.

Lemma mounts_volume_snoc vol mounts mt : vm_Name mt = vol → mounts_volume vol (mounts ++ [mt]) = true.
Proof.
  intros <-. unfold mounts_volume. rewrite existsb_app. simpl. rewrite bool_decide_true by done.
  by rewrite orb_true_r.
Qed.

(** No variable of the container is defined a second time. *)
Lemma elem_of_guarded {A} (b : bool) (l : list A) x : x ∈ (if b then l else []) → b = true ∧ x ∈ l.
Proof. destruct b; [done|]. by intros ?%elem_of_nil. Qed.

(** Every appended variable belongs to a group none of whose keys the container defines. *)
Lemma added_env_group m env path pc e :
  e ∈ added_env m env path pc → ∃ keys, ev_Name e ∈ keys ∧ defines keys env = false.
Proof.
  rewrite added_env_groups, !elem_of_app. intros [H|[H|H]].
  - apply elem_of_guarded in H as [[Hd%negb_true_iff _]%andb_true_iff ->%list_elem_of_singleton].
    eexists; split; [|done]. by_decision.
  - apply elem_of_guarded in H as [[Hd%negb_true_iff _]%andb_true_iff H1]. rename H1 into H. exists awsRegionKeys.
    split; [|done]. repeat (apply elem_of_cons in H as [->|H]; [by_decision|]). by apply elem_of_nil in H.
  - unfold added_credentials in H.
    destruct (ContainerCredentialsPatchConfig pc); [|destruct (WebIdentityPatchConfig pc); [|by apply elem_of_nil in H]];
      apply elem_of_guarded in H as [Hd%negb_true_iff H1]; rename H1 into H; (eexists; split; [|exact Hd]);
      repeat (apply elem_of_cons in H as [->|H]; [by_decision|]); by apply elem_of_nil in H.
Qed.

Lemma added_env_new m env path pc e : e ∈ added_env m env path pc → ev_Name e ∉ env_names env.
Proof. intros (keys & Hk & Hd)%added_env_group. rewrite defines_false in Hd. auto. Qed.

Lemma added_env_NoDup m env path pc : NoDup (env_names (added_env m env path pc)).
Proof.
  apply (bool_decide_eq_true_1 _). rewrite added_env_groups.
  unfold env_names, added_sts, added_region, added_credentials.
  destruct (ContainerCredentialsPatchConfig pc), (WebIdentityPatchConfig pc);
    repeat match goal with |- context [if ?b then _ else _] => destruct b end;
    vm_compute; reflexivity.
Qed.

(** The early return or the full treatment. *)
Lemma addEnv_cases m c path pc :
  (env_complete (Env c) pc = true ∧ addEnvToContainer m c path pc = (c, false)) ∨
  (env_complete (Env c) pc = false ∧
   addEnvToContainer m c path pc =
     (mkContainer (c_Name c) (Env c ++ added_env m (Env c) path pc)
        (if mounts_volume (ppc_VolumeName pc) (VolumeMounts c) then VolumeMounts c
         else VolumeMounts c ++
                [mkVolumeMount (ppc_VolumeName pc) true (ppc_MountPath pc) VolumeMountRest_zero])
        (c_rest c),
      bool_decide (added_env m (Env c) path pc ≠ []) ||
      negb (mounts_volume (ppc_VolumeName pc) (VolumeMounts c)))).
Proof. unfold addEnvToContainer. destruct (env_complete (Env c) pc); auto. Qed.

Lemma addEnv_idempotent m c path pc :
  addEnvToContainer m (addEnvToContainer m c path pc).1 path pc =
    ((addEnvToContainer m c path pc).1, false).
Proof.
  destruct (addEnv_cases m c path pc) as [[Hc Heq]|[Hc Heq]]; rewrite Heq; simpl; [done|].
  unfold addEnvToContainer. cbn [Env VolumeMounts c_Name c_rest].
  destruct (env_complete (Env c ++ _) pc); [done|].
  rewrite added_env_again, app_nil_r. rewrite bool_decide_false by (intros H; by apply H).
  destruct (mounts_volume (ppc_VolumeName pc) (VolumeMounts c)) eqn:Hv; [by rewrite Hv|].
  by rewrite mounts_volume_snoc.
Qed.

Lemma addEnv_unchanged m c path pc :
  (addEnvToContainer m c path pc).2 = false → (addEnvToContainer m c path pc).1 = c.
Proof.
  destruct (addEnv_cases m c path pc) as [[Hc ->]|[Hc ->]]; simpl; [done|].
  intros [Ha Hv]%orb_false_iff. apply bool_decide_eq_false, dec_stable in Ha.
  apply negb_false_iff in Hv. rewrite Ha, Hv, app_nil_r. by destruct c.
Qed.

Lemma addEnv_name m c path pc : c_Name (addEnvToContainer m c path pc).1 = c_Name c.
Proof. by destruct (addEnv_cases m c path pc) as [[_ ->]|[_ ->]]. Qed.

End container_facts.

Section container_theorems.
Context {K : K8s}.

(** C34. What the user wrote wins: the environment and the mounts of the container are kept,
    in order, as a prefix of the new ones; no variable it defines is defined again; the
    name and the other fields stay; and if its variables were distinct they still are. *)
Theorem addEnvToContainer_preserves m c path pc :
  let c' := (addEnvToContainer m c path pc).1 in
  c_Name c' = c_Name c ∧ c_rest c' = c_rest c ∧
  (∃ added, Env c' = (Env c ++ added) ∧ ∀ e, e ∈ added → ev_Name e ∉ env_names (Env c)) ∧
  (VolumeMounts c' = VolumeMounts c ∨
   VolumeMounts c' = VolumeMounts c ++
     [mkVolumeMount (ppc_VolumeName pc) true (ppc_MountPath pc) VolumeMountRest_zero]) ∧
  (NoDup (env_names (Env c)) → NoDup (env_names (Env c'))).
Proof.
  intros c'. unfold c'. destruct (addEnv_cases m c path pc) as [[_ ->]|[_ ->]]; simpl.
  - split_and!; try done; [|by left]. exists []. rewrite app_nil_r. split; [done|set_solver].
  - split_and!; try done.
    + eexists. split; [done|]. apply added_env_new.
    + case_match; auto.
    + intros Hnd. unfold env_names. rewrite fmap_app. apply NoDup_app. split_and!; [done| |].
      * intros k Hk (e & -> & He)%list_elem_of_fmap. by apply added_env_new in He.
      * apply added_env_NoDup.
Qed.

(** The credentials a mutated container gets, on every branch: with the container
    credentials the URI and the token file and never the web-identity pair, with web
    identity the role and the token file and never the other pair, each pair all or
    nothing, and nothing at all when the container already defines one of the pair. *)
Theorem added_credentials_by_method m env path pc :
  let added := added_env m env path pc in
  let names := env_names added in
  (∀ cc, ContainerCredentialsPatchConfig pc = Some cc →
     Forall (.∉ names) webIdentityKeys ∧
     if defines containerCredentialsKeys env
     then Forall (.∉ names) containerCredentialsKeys
     else [new_env "AWS_CONTAINER_CREDENTIALS_FULL_URI" (pc_FullUri cc);
           new_env "AWS_CONTAINER_AUTHORIZATION_TOKEN_FILE" path] `sublist_of` added) ∧
  (∀ wi, ContainerCredentialsPatchConfig pc = None → WebIdentityPatchConfig pc = Some wi →
     Forall (.∉ names) containerCredentialsKeys ∧
     if defines webIdentityKeys env
     then Forall (.∉ names) webIdentityKeys
     else [new_env "AWS_ROLE_ARN" (RoleArn wi); new_env "AWS_WEB_IDENTITY_TOKEN_FILE" path]
          `sublist_of` added).
Proof.
  intros added names. unfold names, added. rewrite added_env_groups.
  unfold env_names, added_sts, added_region, added_credentials.
  split; [intros cc ->; destruct (defines containerCredentialsKeys env)
         |intros wi -> ->; destruct (defines webIdentityKeys env)]; cbn [negb];
    repeat match goal with |- context [if ?b && _ then _ else _] => destruct b; cbn [andb] end;
    repeat match goal with |- context [if ?b then [_] else _] => destruct b end;
    repeat match goal with |- context [if ?b then _ :: _ else []] => destruct b end;
    (split; [by_decision|]); try by_decision; simpl;
    repeat first [apply sublist_nil | apply sublist_skip | apply sublist_cons].
Qed.

End container_theorems.
