(* ===== verification/PatchProps.v ===== *)
(** * Properties of the patch of a pod

    The patch against its meaning: an evaluator for the JSON Patch operations (RFC 6902)
    the handler emits, the pod the patch is meant to produce, and what holds of that pod. *)

From S2P Require Import Prelude GoStd Pkg Notifications Cache ContainerCredentials PodTypes Modifier ContainerProps.

(** ** JSON Patch on pods *)

Module JsonPatch.

(** A reference token of a JSON pointer (RFC 6901): [~1] stands for a slash and [~0] for a
    tilde. *)
Fixpoint unescape (s : string) : string :=
  match s with
  | String c s' =>
      if decide (c = "~"%char) then
        match s' with
        | String "1" s'' => String "/" (unescape s'')
        | String "0" s'' => String "~" (unescape s'')
        | _ => String c (unescape s')
        end
      else String c (unescape s')
  | EmptyString => ""
  end.

Definition tokens (path : string) : option (list string) :=
  match GoStrings.Split path "/" with
  | "" :: ts => Some (unescape <$> ts)
  | _ => None
  end.

Section eval.
Context {K : K8s}.

(** [add]: a member of an object is created or replaced, an element of an array is inserted
    before the index, and the object or the array must exist. *)
Definition apply_op (op : patchOperation) (pod : Pod) : option Pod :=
  if decide (Op op = "add") then
    ts ← tokens (Path op);
    match ts, Value op with
    | ["metadata"; "labels"], VLabels l => Some (with_Labels (Some l) pod)
    | ["metadata"; "labels"; k], VString s =>
        l ← Labels (Meta pod);
        Some (with_Labels (Some (<[k := s]> l)) pod)
    | ["spec"; "volumes"], VVolumes vs => Some (with_Volumes (Some vs) pod)
    | ["spec"; "volumes"; i], VVolume v =>
        vs ← Volumes (Spec pod);
        n ← Strconv.ParseInt i;
        if decide (0 ≤ n ≤ Z.of_nat (length vs))%Z then
          Some (with_Volumes (Some (take (Z.to_nat n) vs ++ v :: drop (Z.to_nat n) vs)) pod)
        else None
    | ["spec"; "containers"], VContainers cs => Some (with_Containers cs pod)
    | ["spec"; "initContainers"], VContainers cs => Some (with_InitContainers cs pod)
    | _, _ => None
    end
  else None.

Definition apply_patch (ops : list patchOperation) (pod : Pod) : option Pod :=
  foldl (λ p op, p ≫= apply_op op) (Some pod) ops.

End eval.
End JsonPatch.

Section patch_facts.
Context {K : K8s}.
Implicit Types (m : Modifier) (pc : podPatchConfig) (pod : Pod).

(** ** The pod the handler means to produce *)

Definition mutated_labels pc (l : option (gmap string string)) : option (gmap string string) :=
  match ContainerCredentialsPatchConfig pc with
  | None => l
  | Some _ => Some (<["eks.amazonaws.com/pod-identity" := "enabled"]> (default ∅ l))
  end.

Definition mutated_volumes pc (vs : option (list Volume)) : option (list Volume) :=
  if has_volume (ppc_VolumeName pc) vs then vs else Some (token_volume pc :: default [] vs).

Definition mutated_containers m (path : string) pc (cs : list Container) : list Container :=
  (λ c, if decide (c_Name c ∈ ContainersToSkip pc) then c else (addEnvToContainer m c path pc).1) <$> cs.

Definition mutate m pod pc : Pod :=
  let path := token_file_path pod pc in
  with_Labels (mutated_labels pc (Labels (Meta pod)))
    (with_Volumes (mutated_volumes pc (Volumes (Spec pod)))
       (with_Containers (mutated_containers m path pc (Containers (Spec pod)))
          (with_InitContainers (mutated_containers m path pc (InitContainers (Spec pod))) pod))).

(** ** Lemmas *)

Lemma visit_all_fst m path pc cs : (visit_all m path pc cs).1 = mutated_containers m path pc cs.
Proof. apply list_fmap_ext. intros i c _. simpl. unfold visit. by case_decide. Qed.

Lemma visit_again m path pc c : visit m path pc (visit m path pc c).1 = ((visit m path pc c).1, false).
Proof.
  unfold visit at 2 3. case_decide as Hc; unfold visit; cbn [fst].
  - by rewrite decide_True.
  - rewrite addEnv_name, decide_False by done. apply addEnv_idempotent.
Qed.

Lemma visit_unchanged m path pc c : (visit m path pc c).2 = false → (visit m path pc c).1 = c.
Proof. unfold visit. case_decide; [done|apply addEnv_unchanged]. Qed.

Lemma visit_all_again m path pc cs :
  visit_all m path pc (visit_all m path pc cs).1 = ((visit_all m path pc cs).1, false).
Proof.
  unfold visit_all. cbn [fst]. f_equal.
  - rewrite <- list_fmap_compose. apply list_fmap_ext. intros i c _. simpl. by rewrite visit_again.
  - induction cs as [|c cs IH]; [done|]. cbn [fmap list_fmap existsb compose fst snd] in *.
    by rewrite visit_again, IH.
Qed.

Lemma visit_all_unchanged m path pc cs :
  (visit_all m path pc cs).2 = false → (visit_all m path pc cs).1 = cs.
Proof.
  induction cs as [|c cs IH]; [done|]. cbn. intros [H1 H2]%orb_false_iff. f_equal.
  - by apply visit_unchanged.
  - by apply IH.
Qed.

Lemma has_volume_mutated pc vs : has_volume (ppc_VolumeName pc) (mutated_volumes pc vs) = true.
Proof.
  unfold mutated_volumes. destruct (has_volume (ppc_VolumeName pc) vs) eqn:H; [done|].
  cbn -[bool_decide]. by rewrite bool_decide_true.
Qed.

Lemma mutated_volumes_again pc vs : mutated_volumes pc (mutated_volumes pc vs) = mutated_volumes pc vs.
Proof. unfold mutated_volumes at 1. by rewrite has_volume_mutated. Qed.

Lemma mutated_labels_again pc l : mutated_labels pc (mutated_labels pc l) = mutated_labels pc l.
Proof.
  unfold mutated_labels. case_match; [|done]. simpl. by rewrite insert_insert_eq.
Qed.

Lemma getPodSpecPatch_changed m pod pc :
  (getPodSpecPatch m pod pc).2 =
    (visit_all m (token_file_path pod pc) pc (InitContainers (Spec pod))).2 ||
    (visit_all m (token_file_path pod pc) pc (Containers (Spec pod))).2 ||
    bool_decide (ContainerCredentialsPatchConfig pc ≠ None) ||
    negb (has_volume (ppc_VolumeName pc) (Volumes (Spec pod))).
Proof. done. Qed.

Lemma apply_patch_app ops ops' pod :
  JsonPatch.apply_patch (ops ++ ops') pod = JsonPatch.apply_patch ops pod ≫= JsonPatch.apply_patch ops'.
Proof.
  unfold JsonPatch.apply_patch. rewrite foldl_app. destruct (foldl _ (Some pod) ops); [done|].
  simpl. induction ops' as [|op ops' IH]; [done|]. apply IH.
Qed.

Lemma apply_label_patch pod pc :
  JsonPatch.apply_patch (label_patch pod pc) pod = Some (with_Labels (mutated_labels pc (Labels (Meta pod))) pod).
Proof.
  unfold label_patch, mutated_labels. destruct (ContainerCredentialsPatchConfig pc); [|by destruct pod as [[] [] ?]].
  destruct pod as [[] [] ?]. simpl. by case_match; simplify_eq/=.
Qed.

Lemma apply_volume_patch pod pod' pc :
  Volumes (Spec pod') = Volumes (Spec pod) →
  JsonPatch.apply_patch (volume_patch pod pc) pod' =
    Some (with_Volumes (mutated_volumes pc (Volumes (Spec pod))) pod').
Proof.
  intros Heq. unfold volume_patch, mutated_volumes. rewrite <- Heq.
  destruct pod' as [meta' [vols inits cs sel sa srest] prest]. cbn [Volumes Spec].
  destruct (has_volume _ _); [done|]. destruct vols as [vs|]; [|done].
  transitivity (if decide (0 ≤ 0 ≤ Z.of_nat (length vs))%Z
    then Some (with_Volumes (Some (token_volume pc :: vs)) (mkPod meta' (mkPodSpec (Some vs) inits cs sel sa srest) prest))
    else None); [done|]. by rewrite decide_True by lia.
Qed.

Lemma mutate_Volumes m pod pc :
  Volumes (Spec (mutate m pod pc)) = mutated_volumes pc (Volumes (Spec pod)).
Proof. done. Qed.

Lemma mutate_Containers m pod pc :
  Containers (Spec (mutate m pod pc)) =
    mutated_containers m (token_file_path pod pc) pc (Containers (Spec pod)).
Proof. done. Qed.

Lemma mutate_InitContainers m pod pc :
  InitContainers (Spec (mutate m pod pc)) =
    mutated_containers m (token_file_path pod pc) pc (InitContainers (Spec pod)).
Proof. done. Qed.

Lemma mutate_token_file_path m pod pc : token_file_path (mutate m pod pc) pc = token_file_path pod pc.
Proof. done. Qed.

(** When no change is reported there is none. *)
Lemma unreported_unchanged m pod pc :
  (getPodSpecPatch m pod pc).2 = true ∨ mutate m pod pc = pod.
Proof.
  destruct (snd (getPodSpecPatch m pod pc)) eqn:H; [by left|right].
  rewrite getPodSpecPatch_changed in H.
  apply orb_false_iff in H as [[[Hi Hc]%orb_false_iff Hcc]%orb_false_iff Hv].
  apply visit_all_unchanged in Hi, Hc. rewrite visit_all_fst in Hi, Hc.
  apply bool_decide_eq_false, dec_stable in Hcc. apply negb_false_iff in Hv.
  unfold mutate, mutated_labels, mutated_volumes. rewrite Hcc, Hv, Hi, Hc. by destruct pod as [[] [] ?].
Qed.

(** The patch applies and produces the pod meant. *)
Lemma getPodSpecPatch_applies m pod pc :
  JsonPatch.apply_patch (getPodSpecPatch m pod pc).1 pod = Some (mutate m pod pc).
Proof.
  unfold getPodSpecPatch.
  pose proof (visit_all_fst m (token_file_path pod pc) pc (InitContainers (Spec pod))) as Hi.
  pose proof (visit_all_fst m (token_file_path pod pc) pc (Containers (Spec pod))) as Hc.
  destruct (visit_all m _ pc (InitContainers (Spec pod))) as [ics ci], (visit_all m _ pc (Containers (Spec pod))) as [cs cc].
  cbn [fst] in *. rewrite apply_patch_app, apply_label_patch. cbn [mbind option_bind].
  rewrite apply_patch_app, apply_volume_patch by done. cbn [mbind option_bind].
  unfold mutate. rewrite <- Hc, <- Hi.
  destruct ics as [|i ics]; [|done].
  symmetry in Hi. apply fmap_nil_inv in Hi. destruct pod as [[] [] ?]. simpl in *. by subst.
Qed.

End patch_facts.

Section token_facts.
Context {K : K8s}.




End token_facts.

(** ** Values for the witnesses *)

Definition ex_modifier : Modifier := plain (NewModifier (S := unit) (C := unit) [WithRegion "us-west-2"]).

Definition ex_pc : podPatchConfig :=
  mkPatch ∅ 86400 false "sts.amazonaws.com" "/var/run/secrets/eks.amazonaws.com/serviceaccount"
    "aws-iam-token" "token" (Some (mkWebIdentity "arn:aws:iam::111122223333:role/s3-reader")) None.

Definition ex_container (name : string) : @Container plain_k8s :=
  @mkContainer plain_k8s name [] [] tt.

(** A pod with two containers, with the given annotations and node selector. *)
Definition ex_pod (annotations node_selector : gmap string string) : @Pod plain_k8s :=
  @mkPod plain_k8s
    (@mkObjectMeta plain_k8s "balajilovesoreos" "" "default" None annotations tt)
    (@mkPodSpec plain_k8s None [] [ex_container "app"; ex_container "sidecar"] node_selector "app" tt) tt.

Section patch_theorems.
Context {K : K8s}.

(** C3. The patch does what it is meant to do: every operation of [getPodSpecPatch] applies
    to the pod, whether it has labels, volumes and init containers or not, and the result
    is the pod with the label in container-credentials mode, the token volume unless a
    volume of that name is there, and every container that is not to be skipped mutated. *)
Theorem patch_applies m pod pc :
  JsonPatch.apply_patch (getPodSpecPatch m pod pc).1 pod = Some (mutate m pod pc).
Proof. apply getPodSpecPatch_applies. Qed.

(** C31. Admission is idempotent: the pod the patch produces is a fixed point of the
    mutation, and seeing it again the handler reports a change only in container
    credentials mode, where the label is always patched; and whenever it reports no change
    the pod already was the fixed point. *)
Theorem mutate_idempotent m pod pc :
  mutate m (mutate m pod pc) pc = mutate m pod pc ∧
  (getPodSpecPatch m (mutate m pod pc) pc).2 = bool_decide (ContainerCredentialsPatchConfig pc ≠ None) ∧
  ((getPodSpecPatch m pod pc).2 = true ∨ mutate m pod pc = pod).
Proof.
  assert (∀ path cs, mutated_containers m path pc (mutated_containers m path pc cs) = mutated_containers m path pc cs) as Hcs.
  { intros path cs. by rewrite <- !visit_all_fst, visit_all_again. }
  split_and!; [| |apply unreported_unchanged].
  - unfold mutate at 1. rewrite mutate_token_file_path. unfold mutate.
    cbn [Meta Spec Labels Volumes Containers InitContainers with_Labels with_Volumes with_Containers
         with_InitContainers].
    by rewrite mutated_volumes_again, mutated_labels_again, !Hcs.
  - rewrite getPodSpecPatch_changed, mutate_token_file_path, mutate_Volumes, mutate_Containers,
      mutate_InitContainers, has_volume_mutated, <- !visit_all_fst, !visit_all_again.
    apply orb_false_r.
Qed.

(** No dangling mounts: after the mutation the pod has a volume of the configured name,
    and every container mounts it, except one that is to be skipped or came with its
    credentials, region and STS setting defined, which is left as it was. *)
Theorem mounts_resolve m pod pc c :
  has_volume (ppc_VolumeName pc) (Volumes (Spec (mutate m pod pc))) = true ∧
  (c ∈ Containers (Spec (mutate m pod pc)) ++ InitContainers (Spec (mutate m pod pc)) →
   mounts_volume (ppc_VolumeName pc) (VolumeMounts c) = true ∨
   (c ∈ Containers (Spec pod) ++ InitContainers (Spec pod) ∧
    (c_Name c ∈ ContainersToSkip pc ∨ env_complete (Env c) pc = true))).
Proof.
  split; [apply has_volume_mutated|].
  assert (∀ path cs, c ∈ mutated_containers m path pc cs →
    mounts_volume (ppc_VolumeName pc) (VolumeMounts c) = true ∨
    (c ∈ cs ∧ (c_Name c ∈ ContainersToSkip pc ∨ env_complete (Env c) pc = true))) as Hcs.
  { intros path cs (c0 & -> & Hc0)%list_elem_of_fmap. case_decide; [by auto|].
    destruct (addEnv_cases m c0 path pc) as [[Hc Heq]|[_ Heq]]; rewrite Heq; [by auto|left].
    cbn [fst VolumeMounts]. destruct (mounts_volume _ (VolumeMounts c0)) eqn:Hv; [done|].
    by apply mounts_volume_snoc. }
  intros [H|H]%elem_of_app; apply Hcs in H as [H|[H H']]; auto; right; (split; [|done]);
    apply elem_of_app; auto.
Qed.


(** On Windows nodes the token file is a Windows path: it starts with the drive and has
    no slash left, whichever of the two node labels selects the nodes. *)
Theorem windows_token_path pod pc :
  NodeSelector (Spec pod) !! "kubernetes.io/os" = Some "windows" ∨
  NodeSelector (Spec pod) !! "beta.kubernetes.io/os" = Some "windows" →
  ∃ rest, token_file_path pod pc = "C:" +:+ rest ∧ has_char "/" (token_file_path pod pc) = false.
Proof.
  intros H. unfold token_file_path. rewrite decide_True by (destruct H as [-> | ->]; auto).
  eexists. split; [done|]. apply (ReplaceAll_gone _ "/" "092"). done.
Qed.

(** Skipped containers stay as they are: when the annotation of the pod lists names that
    need no CSV quoting, joined by commas, then exactly these names are skipped, and every
    container with one of them is in the mutated pod at its place, unchanged. *)
Theorem skipped_containers_untouched m pod pc exp names :
  Annotations (Meta pod) !! (AnnotationDomain m +:+ "/skip-containers") = Some (GoStrings.Join names ",") →
  GoStrings.Join names "," ≠ "" → Forall plain_field names →
  ContainersToSkip pc = (parsePodAnnotations m pod exp).2 →
  ContainersToSkip pc = list_to_set names ∧
  ∀ i c, c_Name c ∈ names →
    (Containers (Spec pod) !! i = Some c → Containers (Spec (mutate m pod pc)) !! i = Some c) ∧
    (InitContainers (Spec pod) !! i = Some c → InitContainers (Spec (mutate m pod pc)) !! i = Some c).
Proof.
  intros Hann Hne Hnames Hpc.
  assert (ContainersToSkip pc = list_to_set names) as Hskip.
  { rewrite Hpc. cbn [parsePodAnnotations snd]. unfold getContainersToSkip.
    change ("/" +:+ SkipContainersAnnotation) with "/skip-containers".
    by rewrite Hann, Read_Join. }
  split; [done|]. intros i c Hc. rewrite mutate_Containers, mutate_InitContainers. unfold mutated_containers.
  rewrite !list_lookup_fmap, Hskip. split; intros ->; simpl; by rewrite decide_True by by apply elem_of_list_to_set.
Qed.

End patch_theorems.

(** ** Witnesses *)


Lemma windows_token_path_witness :
  token_file_path (ex_pod ∅ {[ "kubernetes.io/os" := "windows" ]}) ex_pc =
    "C:\var\run\secrets\eks.amazonaws.com\serviceaccount\token" ∧
  has_char "/" (token_file_path (ex_pod ∅ {[ "kubernetes.io/os" := "windows" ]}) ex_pc) = false.
Proof.
  destruct (@windows_token_path plain_k8s (ex_pod ∅ {[ "kubernetes.io/os" := "windows" ]}) ex_pc) as (r & _ & H).
  - left. reflexivity.
  - split; [vm_compute; reflexivity|exact H].
Defined.

Lemma skipped_containers_untouched_witness :
  ∃ pc, ContainersToSkip pc = list_to_set ["sidecar"; "proxy"] ∧
    Containers (Spec (mutate ex_modifier
      (ex_pod {[ "eks.amazonaws.com/skip-containers" := "sidecar,proxy" ]} ∅) pc)) !! 1 = Some (ex_container "sidecar").
Proof.
  set (pod := ex_pod {[ "eks.amazonaws.com/skip-containers" := "sidecar,proxy" ]} ∅).
  set (pc := mkPatch (parsePodAnnotations ex_modifier pod 86400).2 86400 false "sts.amazonaws.com"
    "/var/run/secrets/eks.amazonaws.com/serviceaccount" "aws-iam-token" "token"
    (Some (mkWebIdentity "arn:a")) None).
  destruct (@skipped_containers_untouched plain_k8s ex_modifier pod pc 86400 ["sidecar"; "proxy"]) as [Hs H].
  - reflexivity.
  - done.
  - by_decision.
  - reflexivity.
  - exists pc. split; [exact Hs|]. apply (H 1 (ex_container "sidecar")); [left|reflexivity].
Defined.
