(* ===== verification/BuildProps.v ===== *)
(** * Properties of the configuration of a patch

    [buildPodPatchConfig]: which of the two sources configures the patch, the lookup of the
    service account with its wait, the jitter of the token expiration, the counters, and
    the admission response around it. The cache is known by the laws of its interface. *)

From S2P Require Import Prelude GoStd Pkg Notifications Cache ContainerCredentials PodTypes Modifier ContainerProps PatchProps CacheProps.

Section build_facts.
Context {K : K8s} {S C : Type} `{!ServiceAccountCache S} `{!Config C}.
Implicit Types (m : Modifier) (pod : Pod) (env : select_env (S := S)) (w : World S C).

(** ** Updates of the world *)

Definition with_cache (s : S) w : World S C :=
  mkWorld s (w_config w) (w_rand w) (webhookPodCount w) (missingSACounter w).
Definition with_rand (src : Rand.source) w : World S C :=
  mkWorld (w_cache w) (w_config w) src (webhookPodCount w) (missingSACounter w).
Definition pod_counted (method : string) w : World S C :=
  mkWorld (w_cache w) (w_config w) (w_rand w)
    (<[method := (default 0 (webhookPodCount w !! method) + 1)%Z]> (webhookPodCount w))
    (missingSACounter w).
Definition missing_counted w : World S C :=
  mkWorld (w_cache w) (w_config w) (w_rand w) (webhookPodCount w) (missingSACounter w + 1)%Z.

(** ** Specification *)

(** The configuration for a pod of a service account with a role. *)
Definition web_identity_config m pod (response : Response) : podPatchConfig :=
  mkPatch (getContainersToSkip (AnnotationDomain m) pod)
    (parsePodAnnotations m pod (resp_TokenExpiration response)).1
    (resp_UseRegionalSTS response) (resp_Audience response) (m_MountPath m) (volName m) (tokenName m)
    (Some (mkWebIdentity (resp_RoleARN response))) None.

(** What a response of the cache leads to: a patch when it has a role, else nothing. *)
Definition by_role m pod (response : Response) w : option podPatchConfig * World S C :=
  if decide (resp_RoleARN response = "") then (None, w)
  else (Some (web_identity_config m pod response), pod_counted "sts_web_identity" w).

Definition container_credentials_config m pod (cc : PatchConfig) (sts : bool) (expiration : Z) : podPatchConfig :=
  mkPatch (getContainersToSkip (AnnotationDomain m) pod) expiration sts (pc_Audience cc)
    (pc_MountPath cc) (pc_VolumeName cc) (pc_TokenPath cc) None (Some cc).

(** The expiration before the jitter. *)
Definition base_expiration m pod w : Z :=
  (parsePodAnnotations m pod
     (cache_GetCommonConfigurations (ServiceAccountName (Spec pod)) (Namespace (Meta pod)) (w_cache w)).2).1.

(** ** Lemmas *)

Lemma web_identity_spec m pod response w :
  web_identity m pod response w = Some (by_role m pod response w).
Proof.
  unfold web_identity, by_role. do 2 case_decide; try done; by exfalso.
Qed.

Lemma addJitter_spec e w e' w' :
  addJitterToDefaultToken e w = Some (e', w') →
  (if decide (e = 86400) then 79200 ≤ e' ≤ 86400 else e' = e ∧ w' = w)%Z ∧ w' = with_rand (w_rand w') w.
Proof.
  unfold addJitterToDefaultToken. change DefaultTokenExpiration with 86400%Z.
  change DefaultMinTokenExpiration with 79200%Z. case_decide as He; [|intros [= <- <-]; by destruct w].
  intros H. unfold bind, int63n, ret in H.
  destruct (Rand.Int63n _ _) as [[v src]|] eqn:Hr; [|done]. simplify_eq/=.
  change (Rand.Int63n (w_rand w) (86400 - 79200 + 1)) with (Rand.Int63n_reject (w_rand w) 7201) in Hr.
  apply Int63n_reject_bounds in Hr; [|lia]. split; [lia|done].
Qed.

Lemma addJitter_total e w :
  Exists (λ v, v ≤ Rand.int63n_max 7201)%Z (w_rand w) → is_Some (addJitterToDefaultToken e w).
Proof.
  intros Hr. unfold addJitterToDefaultToken. case_decide; [|by eexists].
  apply Int63n_reject_total in Hr as [[v src] Hr]. unfold bind, int63n.
  change (Rand.Int63n (w_rand w) (DefaultTokenExpiration - DefaultMinTokenExpiration + 1))
    with (Rand.Int63n_reject (w_rand w) 7201). rewrite Hr. by eexists.
Qed.

(** With container credentials the cache is asked for the common settings only. *)
Lemma build_container_credentials m env pod w cc :
  config_Get (Namespace (Meta pod)) (ServiceAccountName (Spec pod)) (w_config w) = Some cc →
  buildPodPatchConfig m env pod w =
    '(e, w') ← addJitterToDefaultToken (base_expiration m pod w) w;
    Some (Some (container_credentials_config m pod cc
            (cache_GetCommonConfigurations (ServiceAccountName (Spec pod)) (Namespace (Meta pod)) (w_cache w)).1 e),
          pod_counted "container_credentials" w').
Proof.
  intros Hcc. unfold buildPodPatchConfig, bind at 1, container_credentials. rewrite Hcc.
  unfold bind at 1, get_common, base_expiration.
  destruct (cache_GetCommonConfigurations _ _ _) as [sts e] eqn:Hg.
  cbn [parsePodAnnotations fst snd]. unfold bind at 1.
  by destruct (addJitterToDefaultToken _ w) as [[e' w']|].
Qed.

(** Without, the cache is looked up. *)
Lemma build_lookup m env pod w resp s :
  config_Get (Namespace (Meta pod)) (ServiceAccountName (Spec pod)) (w_config w) = None →
  cache_Get (mkRequest (ServiceAccountName (Spec pod)) (Namespace (Meta pod))
               (bool_decide (0 < saLookupGraceTime m)%Z)) (w_cache w) = Some (resp, s) →
  buildPodPatchConfig m env pod w =
    if FoundInCache resp then Some (by_role m pod resp (with_cache s w))
    else if decide (0 < saLookupGraceTime m)%Z then
      let '(notified, s') := env (Notifier resp) s in
      if (match Notifier resp with Some _ => notified | None => false end) then
        '(resp', s'') ← cache_Get (mkRequest (ServiceAccountName (Spec pod)) (Namespace (Meta pod)) false) s';
        if FoundInCache resp' then Some (by_role m pod resp' (with_cache s'' w))
        else Some (None, missing_counted (with_cache s'' w))
      else Some (None, missing_counted (with_cache s' w))
    else Some (by_role m pod resp (missing_counted (with_cache s w))).
Proof.
  intros Hcc Hget. unfold buildPodPatchConfig, bind at 1, container_credentials. rewrite Hcc.
  unfold bind at 1, get. rewrite Hget. cbn [mbind option_bind].
  destruct (FoundInCache resp) eqn:Hf; cbn [negb andb].
  { unfold bind at 1, ret at 1. by rewrite web_identity_spec. }
  destruct (decide (0 < saLookupGraceTime m)%Z) as [Hg|Hg].
  2: { rewrite bool_decide_false by done. unfold bind at 1, count_missing. cbn [negb].
       by rewrite web_identity_spec. }
  rewrite bool_decide_true by done. cbn [negb]. unfold bind at 1, ret at 1, bind at 1, select_notified.
  cbn [w_cache]. destruct (env (Notifier resp) s) as [notified s'].
  destruct (match Notifier resp with Some _ => notified | None => false end); [|done].
  unfold bind at 1. cbn [w_cache w_config w_rand webhookPodCount missingSACounter].
  destruct (cache_Get _ s') as [[resp' s'']|]; [|done]. cbn [mbind option_bind].
  destruct (FoundInCache resp'); cbn [negb]; [|done]. by rewrite web_identity_spec.
Qed.

(** Every way to return: from the configuration, from a response, or with the account
    counted as missing. *)
Lemma build_cases `{!ServiceAccountCacheLaws S} m env pod w r w' :
  buildPodPatchConfig m env pod w = Some (r, w') →
  match config_Get (Namespace (Meta pod)) (ServiceAccountName (Spec pod)) (w_config w) with
  | Some cc => (∃ sts e, r = Some (container_credentials_config m pod cc sts e)) ∧
               missingSACounter w' = missingSACounter w
  | None => (∃ resp w1, (r, w') = by_role m pod resp w1 ∧ missingSACounter w1 = missingSACounter w) ∨
            (r = None ∧ missingSACounter w' = missingSACounter w + 1)%Z
  end.
Proof.
  intros H. destruct (config_Get _ _ _) as [cc|] eqn:Hcc.
  - rewrite (build_container_credentials _ _ _ _ _ Hcc) in H.
    apply bind_Some in H as ([e w1] & He & [= <- <-]). apply addJitter_spec in He as [_ ->]. eauto.
  - destruct (cache_Get (mkRequest (ServiceAccountName (Spec pod)) (Namespace (Meta pod))
      (bool_decide (0 < saLookupGraceTime m)%Z)) (w_cache w)) as [[resp s]|] eqn:Hget.
    + rewrite (build_lookup _ _ _ _ _ _ Hcc Hget) in H.
      destruct (FoundInCache resp) eqn:Hf; [injection H as H; left; by exists resp, (with_cache s w)|].
      case_decide.
      * destruct (env (Notifier resp) s) as [notified s'].
        destruct (match Notifier resp with Some _ => notified | None => false end);
          [|injection H as <- <-; by right].
        apply bind_Some in H as ([resp' s''] & _ & H).
        destruct (FoundInCache resp'); injection H as H; [left; by exists resp', (with_cache s'' w)|].
        right. by simplify_eq.
      * unfold by_role in H. rewrite decide_True in H by by eapply cache_miss_no_role.
        injection H as <- <-. by right.
    + unfold buildPodPatchConfig, bind at 1, container_credentials in H. rewrite Hcc in H.
      unfold bind at 1, get in H. by rewrite Hget in H.
Qed.

End build_facts.

(** ** The world of the witnesses *)

Definition ex_world (c : serviceAccountCache) (f : FakeConfig) (src : Rand.source)
    : World serviceAccountCache FakeConfig :=
  mkWorld c f src ∅ 0.

(** Nothing happens while the handler waits, and the timer fires. *)
Definition ex_timeout : select_env (S := serviceAccountCache) := λ _ c, (false, c).

(** The service account [ex_sa] arrives while the handler waits. *)
Definition ex_arrival : select_env (S := serviceAccountCache) := λ _ c,
  match addSA ex_sa c with
  | Returned c' => (true, c')
  | Panicked _ => (false, c)
  end.

Definition no_identities : FakeConfig := mkFakeConfig (mkPatchConfig "" "" "" "" "") None.
Definition ex_identities : FakeConfig :=
  mkFakeConfig
    (mkPatchConfig "pods.eks.amazonaws.com" "/var/run/secrets/pods.eks.amazonaws.com/serviceaccount"
       "eks-pod-identity-token" "eks-pod-identity-token" "http://169.254.170.23/v1/credentials")
    (Some {[ mkIdentity "default" "app" := true ]}).

Definition patient : Modifier := plain (NewModifier (S := unit) (C := unit) [WithSALookupGraceTime 100000000]).

Section build_theorems.
Context {K : K8s} {S C : Type} `{!ServiceAccountCache S, !ServiceAccountCacheLaws S} `{!Config C}.

(** C11. Container credentials win: when the configuration knows the identity of the pod, the
    patch is built from it whatever the cache says about a role; the common settings come
    from the cache; the expiration is that of the pod, the service account or the
    default, and when it is the default it is drawn between 22 and 24 hours; one
    pod is counted and neither the cache nor the missing counter changes. *)
Theorem container_credentials_win m (env : select_env (S := S)) pod (w : World S C) cc :
  config_Get (Namespace (Meta pod)) (ServiceAccountName (Spec pod)) (w_config w) = Some cc →
  Exists (λ v, v ≤ Rand.int63n_max 7201)%Z (w_rand w) →
  ∃ e w',
    buildPodPatchConfig m env pod w =
      Some (Some (container_credentials_config m pod cc
              (cache_GetCommonConfigurations (ServiceAccountName (Spec pod)) (Namespace (Meta pod)) (w_cache w)).1 e), w') ∧
    (if decide (base_expiration m pod w = 86400) then 79200 ≤ e ≤ 86400 else e = base_expiration m pod w)%Z ∧
    w_cache w' = w_cache w ∧ w_config w' = w_config w ∧ missingSACounter w' = missingSACounter w ∧
    webhookPodCount w' !! "container_credentials" =
      Some (default 0 (webhookPodCount w !! "container_credentials") + 1)%Z.
Proof.
  intros Hcc Hr. rewrite (build_container_credentials _ _ _ _ _ Hcc).
  destruct (addJitter_total (base_expiration m pod w) w Hr) as [[e w1] He]. rewrite He.
  apply addJitter_spec in He as [Hb Hw]. exists e, (pod_counted "container_credentials" w1).
  split; [done|]. rewrite Hw. split_and!; try done.
  - case_decide; [done|]. by destruct Hb.
  - simpl. by rewrite lookup_insert_eq.
Qed.

(** Without a grace time the handler looks once and never waits: a known service
    account is patched when it has a role and left alone when it has none, an unknown one
    is left alone and counted as missing. *)
Theorem lookup_without_grace m (env : select_env (S := S)) pod (w : World S C) :
  config_Get (Namespace (Meta pod)) (ServiceAccountName (Spec pod)) (w_config w) = None →
  (saLookupGraceTime m ≤ 0)%Z →
  ∃ resp,
    cache_Get (mkRequest (ServiceAccountName (Spec pod)) (Namespace (Meta pod)) false) (w_cache w) =
      Some (resp, w_cache w) ∧
    buildPodPatchConfig m env pod w =
      Some (if FoundInCache resp then by_role m pod resp w else (None, missing_counted w)).
Proof.
  intros Hcc Hg.
  destruct (cache_quiet_Get (mkRequest (ServiceAccountName (Spec pod)) (Namespace (Meta pod)) false)
    (w_cache w)) as (resp & Hget & _); [done|].
  exists resp. split; [done|].
  assert (with_cache (w_cache w) w = w) as Hw by by destruct w.
  rewrite (build_lookup m env pod w resp (w_cache w)), Hw; [|done|by rewrite bool_decide_false by lia].
  destruct (FoundInCache resp) eqn:Hf; [done|]. rewrite decide_False by lia.
  unfold by_role. rewrite decide_True by by eapply cache_miss_no_role. done.
Qed.

(** C7. With a grace time an unknown service account is waited for: if its notifier fires
    first the cache is asked again, once and without waiting, and the pod is patched when
    the account is there with a role; if it is not there, or the time runs out first,
    the pod is left alone and counted as missing. *)
Theorem lookup_with_grace m (env : select_env (S := S)) pod (w : World S C) resp ch s notified s' :
  config_Get (Namespace (Meta pod)) (ServiceAccountName (Spec pod)) (w_config w) = None →
  (0 < saLookupGraceTime m)%Z →
  cache_Get (mkRequest (ServiceAccountName (Spec pod)) (Namespace (Meta pod)) true) (w_cache w) = Some (resp, s) →
  FoundInCache resp = false → Notifier resp = Some ch → env (Some ch) s = (notified, s') →
  ∃ resp',
    cache_Get (mkRequest (ServiceAccountName (Spec pod)) (Namespace (Meta pod)) false) s' = Some (resp', s') ∧
    buildPodPatchConfig m env pod w =
      Some (if notified && FoundInCache resp' then by_role m pod resp' (with_cache s' w)
            else (None, missing_counted (with_cache s' w))).
Proof.
  intros Hcc Hg Hget Hf Hnt Henv.
  destruct (cache_quiet_Get (mkRequest (ServiceAccountName (Spec pod)) (Namespace (Meta pod)) false) s')
    as (resp' & Hget' & _); [done|].
  exists resp'. split; [done|].
  rewrite (build_lookup m env pod w resp s); [|done|by rewrite bool_decide_true].
  rewrite Hf, decide_True, Hnt, Henv by done. destruct notified; [|done].
  rewrite Hget'. cbn [mbind option_bind andb]. by destruct (FoundInCache resp').
Qed.

(** Every patch has exactly one source, and every miss is counted: a patch is either
    from the container-credentials configuration of the pod's identity, with no role, or
    from the cache with a role that is not empty; the missing counter moves by one or not
    at all, and when it moves the pod is left alone. *)
Theorem one_source_or_counted m (env : select_env (S := S)) pod (w : World S C) r w' :
  buildPodPatchConfig m env pod w = Some (r, w') →
  match r with
  | Some pc =>
      missingSACounter w' = missingSACounter w ∧
      match config_Get (Namespace (Meta pod)) (ServiceAccountName (Spec pod)) (w_config w) with
      | Some cc => ContainerCredentialsPatchConfig pc = Some cc ∧ WebIdentityPatchConfig pc = None
      | None => ContainerCredentialsPatchConfig pc = None ∧
                ∃ arn, arn ≠ "" ∧ WebIdentityPatchConfig pc = Some (mkWebIdentity arn)
      end
  | None =>
      config_Get (Namespace (Meta pod)) (ServiceAccountName (Spec pod)) (w_config w) = None ∧
      (missingSACounter w' = missingSACounter w ∨ missingSACounter w' = missingSACounter w + 1)%Z
  end.
Proof.
  intros H%build_cases. destruct (config_Get _ _ _) as [cc|].
  - by destruct H as [(sts & e & ->) Hm].
  - destruct H as [(resp & w1 & Hr & Hm)|[-> Hm]]; [|auto].
    unfold by_role in Hr. case_decide as Harn; simplify_eq; [auto|]. split_and!; try done. eauto.
Qed.

End build_theorems.

(** ** Witnesses *)

Lemma container_credentials_win_witness :
  ∃ e pc w', buildPodPatchConfig (K := plain_k8s) ex_modifier ex_timeout (ex_pod ∅ ∅)
      (ex_world ex_cache ex_identities [12345]%Z) = Some (Some pc, w') ∧
    ppc_TokenExpiration pc = e ∧ (79200 ≤ e ≤ 86400)%Z.
Proof.
  destruct (container_credentials_win (K := plain_k8s) ex_modifier ex_timeout (ex_pod ∅ ∅)
    (ex_world ex_cache ex_identities [12345]%Z) (fake_patch ex_identities))
    as (e & w' & Hb & He & _).
  - reflexivity.
  - left. by_decision.
  - exists e. eexists _, w'. split; [exact Hb|]. split; [reflexivity|exact He].
Defined.

Lemma lookup_without_grace_witness :
  ∃ resp, FoundInCache resp = false ∧
    buildPodPatchConfig (K := plain_k8s) ex_modifier ex_timeout (ex_pod ∅ ∅)
      (ex_world ex_cache no_identities []) =
    Some (None, missing_counted (ex_world ex_cache no_identities [])).
Proof.
  destruct (lookup_without_grace (K := plain_k8s) ex_modifier ex_timeout (ex_pod ∅ ∅)
    (ex_world ex_cache no_identities [])) as (resp & Hget & Hb).
  - reflexivity.
  - by_decision.
  - exists resp. vm_compute in Hget. injection Hget as <-. split; [reflexivity|exact Hb].
Defined.

Lemma lookup_with_grace_witness :
  ∃ pc w', buildPodPatchConfig (K := plain_k8s) patient ex_arrival (ex_pod ∅ ∅)
      (ex_world ex_cache no_identities []) = Some (Some pc, w') ∧
    WebIdentityPatchConfig pc = Some (mkWebIdentity "arn:aws:iam::111122223333:role/s3-reader").
Proof.
  destruct (lookup_with_grace (K := plain_k8s) patient ex_arrival (ex_pod ∅ ∅)
    (ex_world ex_cache no_identities [])
    (mkResponse "" "" false 86400 false (Some 0))
    0 (default ex_cache (snd <$> Get (mkRequest "app" "default" true) ex_cache))
    true (ex_arrival None (default ex_cache (snd <$> Get (mkRequest "app" "default" true) ex_cache))).2)
    as (resp' & Hget & Hb).
  - reflexivity.
  - by_decision.
  - vm_compute. reflexivity.
  - reflexivity.
  - reflexivity.
  - vm_compute. reflexivity.
  - vm_compute in Hget. injection Hget as <-. cbv beta iota delta [andb FoundInCache] in Hb.
    eexists _, _. split; [exact Hb|reflexivity].
Defined.

Lemma one_source_or_counted_witness :
  ∃ pc w', buildPodPatchConfig (K := plain_k8s) ex_modifier ex_timeout (ex_pod ∅ ∅)
      (ex_world ex_cache ex_identities [12345]%Z) = Some (Some pc, w') ∧
    WebIdentityPatchConfig pc = None.
Proof.
  destruct (buildPodPatchConfig (K := plain_k8s) ex_modifier ex_timeout (ex_pod ∅ ∅)
    (ex_world ex_cache ex_identities [12345]%Z)) as [[[pc|] w']|] eqn:Hb; [|exfalso; by vm_compute in Hb..].
  exists pc, w'. split; [reflexivity|].
  pose proof (one_source_or_counted (K := plain_k8s) _ _ _ _ _ _ Hb) as [_ H]. exact (proj2 H).
Defined.
