(* ===== verification/AdmissionProps.v ===== *)
(** * Properties of the admission of a pod

    [MutatePod] from the request to the response, and the whole path from an annotated
    service account, or from the configuration file, to the patch of a pod. *)

From S2P Require Import Prelude GoStd Pkg Notifications Cache ContainerCredentials PodTypes Modifier ContainerProps PatchProps CacheProps BuildProps.

(** ** Decidable equality of patches, on the plain instance *)

Section plain_eq.

#[local] Instance EnvVarSource_eq_dec : EqDecision (@EnvVarSource plain_k8s) := unit_eq_dec.
#[local] Instance VolumeMountRest_eq_dec : EqDecision (@VolumeMountRest plain_k8s) := unit_eq_dec.
#[local] Instance ContainerRest_eq_dec : EqDecision (@ContainerRest plain_k8s) := unit_eq_dec.
#[local] Instance VolumeProjectionRest_eq_dec : EqDecision (@VolumeProjectionRest plain_k8s) := unit_eq_dec.
#[local] Instance VolumeSourceRest_eq_dec : EqDecision (@VolumeSourceRest plain_k8s) := unit_eq_dec.

#[export] Instance EnvVar_eq_dec : EqDecision (@EnvVar plain_k8s).
Proof. solve_decision. Defined.
#[export] Instance VolumeMount_eq_dec : EqDecision (@VolumeMount plain_k8s).
Proof. solve_decision. Defined.
#[export] Instance Container_eq_dec : EqDecision (@Container plain_k8s).
Proof. solve_decision. Defined.
#[export] Instance Token_eq_dec : EqDecision ServiceAccountTokenProjection.
Proof. solve_decision. Defined.
#[export] Instance VolumeProjection_eq_dec : EqDecision (@VolumeProjection plain_k8s).
Proof. solve_decision. Defined.
#[export] Instance ProjectedVolumeSource_eq_dec : EqDecision (@ProjectedVolumeSource plain_k8s).
Proof. solve_decision. Defined.
#[export] Instance VolumeSource_eq_dec : EqDecision (@VolumeSource plain_k8s).
Proof. solve_decision. Defined.
#[export] Instance Volume_eq_dec : EqDecision (@Volume plain_k8s).
Proof. solve_decision. Defined.
#[export] Instance patchValue_eq_dec : EqDecision (@patchValue plain_k8s).
Proof. solve_decision. Defined.
#[export] Instance patchOperation_eq_dec : EqDecision (@patchOperation plain_k8s).
Proof. solve_decision. Defined.

End plain_eq.

Section admission.
Context {K : K8s} {S C : Type} `{!ServiceAccountCache S, !ServiceAccountCacheLaws S} `{!Config C}.
Context (unmarshalPod : string → result string Pod)
        (marshalPatch : list patchOperation → result string string).

(** ** Specification *)

(** What the API server makes of a response: a refused pod is not admitted, a pod without
    a patch is admitted as it is, and a patch is read and applied. *)
Definition admitted (readPatch : string → option (list patchOperation)) (r : AdmissionResponse) (pod : Pod)
    : option Pod :=
  if Allowed r then
    match Patch r with
    | None => Some pod
    | Some bytes =>
        if decide (PatchType r = Some "JSONPatch")
        then ops ← readPatch bytes; JsonPatch.apply_patch ops pod
        else None
    end
  else None.

(** ** Lemmas *)

Lemma MutatePod_pod m env (w : World S C) req pod :
  unmarshalPod (Object_Raw req) = Ok pod →
  MutatePod unmarshalPod marshalPatch m env (Some (mkAdmissionReview (Some req))) w =
    '(pc, w') ← buildPodPatchConfig m env (with_Namespace (ar_Namespace req) pod) w;
    match pc with
    | None => Some (allow_unchanged, w')
    | Some pc =>
        match marshalPatch (getPodSpecPatch m (with_Namespace (ar_Namespace req) pod) pc).1 with
        | Err e => Some (refuse e, w')
        | Ok bytes => Some (allow_patched bytes, w')
        end
    end.
Proof.
  intros Hpod. unfold MutatePod. cbn [ar_Request]. rewrite Hpod. unfold bind.
  destruct (buildPodPatchConfig _ _ _ w) as [[[pc|] w']|]; [|done..].
  cbn [mbind option_bind]. destruct (getPodSpecPatch _ _ _) as [patch changed]. cbn [fst].
  by destruct (marshalPatch patch).
Qed.

(** ** Theorems *)

(** C2. The pod that is created is the pod meant: when the object is a pod, and a patch that
    is marshalled is read back as it was, every response that admits the pod makes it, in
    the eyes of the API server, the pod itself when there is nothing to configure and the
    mutated pod when there is; the pod is looked up in the namespace of the request, not
    the one of the object. *)
Theorem admitted_pod m (env : select_env (S := S)) (w w' : World S C) req pod r readPatch :
  unmarshalPod (Object_Raw req) = Ok pod →
  (∀ ops bytes, marshalPatch ops = Ok bytes → readPatch bytes = Some ops) →
  MutatePod unmarshalPod marshalPatch m env (Some (mkAdmissionReview (Some req))) w = Some (r, w') →
  Allowed r = true →
  ∃ pc,
    buildPodPatchConfig m env (with_Namespace (ar_Namespace req) pod) w = Some (pc, w') ∧
    admitted readPatch r (with_Namespace (ar_Namespace req) pod) =
      Some (match pc with
            | Some pc => mutate m (with_Namespace (ar_Namespace req) pod) pc
            | None => with_Namespace (ar_Namespace req) pod
            end).
Proof.
  intros Hpod Hrt. rewrite (MutatePod_pod _ _ _ _ _ Hpod).
  intros ([[pc|] w1] & -> & H)%bind_Some; [|injection H as <- <-; by exists None].
  destruct (marshalPatch _) as [bytes|e] eqn:Hm; injection H as <- <-; [|done]. intros _.
  exists (Some pc). split; [done|]. unfold admitted, allow_patched. cbn [Allowed Patch PatchType].
  rewrite decide_True, (Hrt _ _ Hm) by done. apply getPodSpecPatch_applies.
Qed.

(** C8. The webhook fails open: the only responses that refuse a pod are those to a review
    without a request, an object that is not a pod, and a patch that cannot be
    marshalled; they carry a message and no patch, and the first two touch nothing. *)
Theorem refused_only_when_malformed m (env : select_env (S := S)) (w w' : World S C) ar r :
  MutatePod unmarshalPod marshalPatch m env ar w = Some (r, w') →
  Allowed r = false →
  Patch r = None ∧
  ((ar ≫= ar_Request = None ∧ r = badRequest ∧ w' = w) ∨
   ∃ req e, ar ≫= ar_Request = Some req ∧ Result_Message r = Some e ∧
     ((unmarshalPod (Object_Raw req) = Err e ∧ w' = w) ∨
      ∃ ops, marshalPatch ops = Err e)).
Proof.
  destruct ar as [[[req|]]|]; [|intros [= <- <-]; by auto..]. cbn [mbind option_bind ar_Request].
  destruct (unmarshalPod (Object_Raw req)) as [pod|e] eqn:Hpod.
  - rewrite (MutatePod_pod _ _ _ _ _ Hpod). intros ([[pc|] w1] & _ & H)%bind_Some.
    + destruct (marshalPatch _) as [bytes|e] eqn:Hm; injection H as <- <-; [done|]. intros _.
      split; [done|]. right. exists req, e. eauto.
    + by injection H as <- <-.
  - unfold MutatePod. cbn [ar_Request]. rewrite Hpod. intros [= <- <-] _. split; [done|]. right.
    exists req, e. eauto.
Qed.

End admission.

(** ** From the sources of the configuration to the patch *)

Section end_to_end.
Context {K : K8s}.

(** A pod of a cached account with a role is patched at once, from the entry. *)
Lemma build_cached {C} `{!Config C} m (env : select_env (S := serviceAccountCache)) pod c e (f : C) src counts missing :
  saCache c !! sa_key (ServiceAccountName (Spec pod)) (Namespace (Meta pod)) = Some e → RoleARN e ≠ "" →
  config_Get (Namespace (Meta pod)) (ServiceAccountName (Spec pod)) f = None →
  buildPodPatchConfig m env pod (mkWorld c f src counts missing) =
    Some (Some (web_identity_config m pod (response_of e true None)),
          pod_counted "sts_web_identity" (mkWorld c f src counts missing)).
Proof.
  intros He Hrole Hcc. rewrite (build_lookup m env pod _ (response_of e true None) c).
  - cbn [FoundInCache response_of]. unfold by_role. cbn [resp_RoleARN response_of]. by rewrite decide_False.
  - done.
  - apply Get_cached; [|done]. by rewrite CacheKey_sa_key.
Qed.

(** C6. From the annotation to the patch: once the informer has added a service account
    whose annotation names a role, a pod of it that has no container credentials is patched
    with that role, completed when it is a bare name and composition is on, with the
    settings of the account's annotations, and without waiting. *)
Theorem annotated_account_is_mutated {C} `{!Config C} m
    (env : select_env (S := serviceAccountCache)) pod c sa arn (f : C) src counts missing :
  cache_wf c →
  annotation c sa RoleARNAnnotation = Some arn → arn ≠ "" →
  Namespace (Meta pod) = sa_Namespace sa → ServiceAccountName (Spec pod) = sa_Name sa →
  config_Get (sa_Namespace sa) (sa_Name sa) f = None →
  ∃ c', addSA sa c = Returned c' ∧
    buildPodPatchConfig m env pod (mkWorld c' f src counts missing) =
      Some (Some (mkPatch (getContainersToSkip (AnnotationDomain m) pod)
                    (parsePodAnnotations m pod (TokenExpiration (entry_of_sa c sa))).1
                    (UseRegionalSTS (entry_of_sa c sa)) (Audience (entry_of_sa c sa))
                    (m_MountPath m) (volName m) (tokenName m)
                    (Some (mkWebIdentity (role_arn (composeRoleArn c) arn))) None),
            pod_counted "sts_web_identity" (mkWorld c' f src counts missing)).
Proof.
  intros Hwf Harn Hne Hns Hsa Hcc.
  destruct (addSA_spec sa c Hwf) as (c' & Hadd & _ & Hs & _ & _ & _ & _). exists c'. split; [done|].
  assert (RoleARN (entry_of_sa c sa) = role_arn (composeRoleArn c) arn) as Hentry by (simpl; by rewrite Harn).
  rewrite (build_cached m env pod c' (entry_of_sa c sa)).
  - unfold web_identity_config. cbn [resp_RoleARN response_of]. by rewrite Hentry.
  - by rewrite Hs, Hns, Hsa, lookup_insert_eq.
  - rewrite Hentry. by apply role_arn_not_empty.
  - by rewrite Hns, Hsa.
Qed.

(** From the configuration file to the patch: after any history of reloads, a pod that
    is patched at all gets container credentials exactly when its identity is listed by
    the last content that was not refused, with the settings of the flags, and web
    identity otherwise. *)
Theorem file_decides_the_method {S} `{!ServiceAccountCache S, !ServiceAccountCacheLaws S} m
    (env : select_env (S := S)) pod (s : S) src counts missing aud mount vol path uri contents pc w' :
  buildPodPatchConfig m env pod
    (mkWorld s (foldl (λ f content, (Load content f).2) (NewFileConfig aud mount vol path uri) contents)
       src counts missing) = Some (Some pc, w') →
  if decide (mkIdentity (Namespace (Meta pod)) (ServiceAccountName (Spec pod)) ∈ in_force contents)
  then ContainerCredentialsPatchConfig pc = Some (mkPatchConfig aud mount vol path uri) ∧
       WebIdentityPatchConfig pc = None ∧
       (ppc_Audience pc, ppc_MountPath pc, ppc_VolumeName pc, ppc_TokenPath pc) = (aud, mount, vol, path)
  else ContainerCredentialsPatchConfig pc = None ∧
       (ppc_MountPath pc, ppc_VolumeName pc, ppc_TokenPath pc) = (m_MountPath m, volName m, tokenName m).
Proof.
  intros H%build_cases. cbn [w_config] in H. unfold config_Get, FileConfig_Config in H.
  rewrite reloads_answer in H. case_decide.
  - by destruct H as [(sts & e & [= ->]) _].
  - destruct H as [(resp & w1 & Hr & _)|[[=] _]]. unfold by_role in Hr. by case_decide; simplify_eq.
Qed.

End end_to_end.

(** ** Witnesses *)

(** The one patch that can be marshalled. *)
Definition ex_patch : list (@patchOperation plain_k8s) :=
  (getPodSpecPatch ex_modifier (ex_pod ∅ ∅)
     (mkPatch ∅ 79201 false "pods.eks.amazonaws.com"
        "/var/run/secrets/pods.eks.amazonaws.com/serviceaccount" "eks-pod-identity-token"
        "eks-pod-identity-token" None (Some (fake_patch ex_identities)))).1.

Definition ex_marshal (ops : list (@patchOperation plain_k8s)) : result string string :=
  if decide (ops = ex_patch) then Ok "patch" else Err "not the patch".
Definition ex_unmarshal (raw : string) : result string (@Pod plain_k8s) :=
  if decide (raw = "pod") then Ok (ex_pod ∅ ∅) else Err "not the pod".
Definition ex_read (bytes : string) : option (list (@patchOperation plain_k8s)) :=
  if decide (bytes = "patch") then Some ex_patch else None.

Definition ex_review : AdmissionReview :=
  mkAdmissionReview (Some (mkAdmissionRequest "uid" "default" "pod")).

Lemma admitted_pod_witness :
  ∃ r w', MutatePod ex_unmarshal ex_marshal ex_modifier ex_timeout (Some ex_review)
      (ex_world ex_cache ex_identities [7202]%Z) = Some (r, w') ∧
    Allowed r = true ∧ Patch r = Some "patch" ∧ is_Some (admitted ex_read r (ex_pod ∅ ∅)).
Proof.
  destruct (MutatePod ex_unmarshal ex_marshal ex_modifier ex_timeout (Some ex_review)
    (ex_world ex_cache ex_identities [7202]%Z)) as [[r w']|] eqn:Hm; [|exfalso; by vm_compute in Hm].
  exists r, w'. split; [reflexivity|].
  assert (Allowed r = true ∧ Patch r = Some "patch") as [Ha Hp].
  { vm_compute in Hm. injection Hm as <- _. split; reflexivity. }
  split; [exact Ha|]. split; [exact Hp|].
  destruct (admitted_pod ex_unmarshal ex_marshal ex_modifier ex_timeout (ex_world ex_cache ex_identities [7202]%Z) w'
    (mkAdmissionRequest "uid" "default" "pod") (ex_pod ∅ ∅) r ex_read)
    as (pc & _ & Had).
  - reflexivity.
  - intros ops bytes. unfold ex_marshal, ex_read. intros H. destruct (decide (ops = ex_patch)); [|discriminate].
    injection H as <-. by subst.
  - exact Hm.
  - exact Ha.
  - eexists. exact Had.
Defined.

Lemma refused_only_when_malformed_witness :
  Result_Message (refuse "not the pod") = Some "not the pod" ∧ Patch (refuse "not the pod") = None.
Proof.
  split; [reflexivity|].
  eapply (refused_only_when_malformed ex_unmarshal ex_marshal ex_modifier ex_timeout
    (ex_world ex_cache ex_identities []) (ex_world ex_cache ex_identities [])
    (Some (mkAdmissionReview (Some (mkAdmissionRequest "uid" "default" "{}")))) (refuse "not the pod")).
  - vm_compute. reflexivity.
  - reflexivity.
Defined.

Lemma annotated_account_is_mutated_witness :
  ∃ c' pc w', addSA ex_sa ex_cache = Returned c' ∧
    buildPodPatchConfig (K := plain_k8s) ex_modifier ex_timeout (ex_pod ∅ ∅) (ex_world c' no_identities []) =
      Some (Some pc, w') ∧
    WebIdentityPatchConfig pc = Some (mkWebIdentity "arn:aws:iam::111122223333:role/s3-reader") ∧
    ppc_TokenExpiration pc = 600%Z.
Proof.
  destruct (annotated_account_is_mutated (K := plain_k8s) ex_modifier ex_timeout (ex_pod ∅ ∅) ex_cache ex_sa
    "arn:aws:iam::111122223333:role/s3-reader" no_identities [] ∅ 0) as (c' & Hadd & Hb).
  - apply ex_cache_wf.
  - reflexivity.
  - discriminate.
  - reflexivity.
  - reflexivity.
  - reflexivity.
  - eexists c', _, _. split; [exact Hadd|]. split; [exact Hb|]. split; reflexivity.
Defined.

Lemma file_decides_the_method_witness :
  ∃ pc w', buildPodPatchConfig (K := plain_k8s) ex_modifier ex_timeout (ex_pod ∅ ∅)
      (mkWorld ex_cache (foldl (λ f content, (Load content f).2) (NewFileConfig "aud" "/mnt" "vol" "token" "uri")
         [None; Some ex_identities_file; Some "{"]) [1]%Z ∅ 0) = Some (Some pc, w') ∧
    ContainerCredentialsPatchConfig pc = Some (mkPatchConfig "aud" "/mnt" "vol" "token" "uri").
Proof.
  destruct (buildPodPatchConfig (K := plain_k8s) ex_modifier ex_timeout (ex_pod ∅ ∅)
      (mkWorld ex_cache (foldl (λ f content, (Load content f).2) (NewFileConfig "aud" "/mnt" "vol" "token" "uri")
         [None; Some ex_identities_file; Some "{"]) [1]%Z ∅ 0)) as [[[pc|] w']|] eqn:Hb;
    [|exfalso; by vm_compute in Hb..].
  exists pc, w'. split; [reflexivity|].
  apply file_decides_the_method in Hb. rewrite decide_True in Hb by by_decision. exact (proj1 Hb).
Defined.
