(* ===== verification/Expirations.v ===== *)
(** * The life time of a token, from its sources to the patch

    The flag, the annotation of the service account, the entry of the ConfigMap and the
    annotation of the pod can all set the life time of a token. Which one wins, what it becomes
    on the way through src/pkg/cache/cache.go and src/pkg/handler/handler.go, and where the 600
    seconds the API server demands are enforced and where not. *)

From S2P Require Import Prelude GoStd Pkg Json Notifications Cache CacheProps CacheSystem ConfigMaps ContainerCredentials PodTypes Modifier ContainerProps PatchProps BuildProps AdmissionProps.

(** ** Specification *)

(** What an annotation asks for, at least 600 seconds; one that is absent or is not a 64-bit
    integer leaves the life time as it is. *)
Definition asked (annotation : option string) (otherwise : Z) : Z :=
  match annotation ≫= Strconv.ParseInt with
  | Some z => Z.max 600 z
  | None => otherwise
  end.

(** The annotation's key under a prefix. *)
Definition expiration_key (prefix : string) : string := prefix +:+ "/token-expiration".

(** The role of the account itself, if it has one. *)
Definition own_role (sas : gmap string Entry) (name ns : string) : string :=
  from_option RoleARN "" (sas !! sa_key name ns).

(** ** Lemmas *)

Section expirations.
Context {K : K8s} {C : Type} `{!Config C}.
Implicit Types (m : Modifier) (pod : Pod) (c : serviceAccountCache).

Lemma parsePodAnnotations_asked m pod e :
  (parsePodAnnotations m pod e).1 = asked (Annotations (Meta pod) !! expiration_key (AnnotationDomain m)) e.
Proof.
  unfold parsePodAnnotations, asked, expiration_key. cbn [fst].
  change ("/" +:+ TokenExpirationAnnotation) with "/token-expiration".
  destruct (Annotations (Meta pod) !! _) as [x|]; [|done]. simpl.
  destruct (Strconv.ParseInt x); [|done]. apply ValidateMin_max.
Qed.

Lemma entry_of_sa_asked c sa :
  TokenExpiration (entry_of_sa c sa) =
    asked (sa_Annotations sa !! expiration_key (annotationPrefix c)) (defaultTokenExpiration c).
Proof.
  unfold entry_of_sa, asked, expiration_key, annotation. cbn [TokenExpiration].
  change ("/" +:+ TokenExpirationAnnotation) with "/token-expiration".
  destruct (sa_Annotations sa !! _) as [x|]; [|done]. simpl.
  destruct (Strconv.ParseInt x); [|done]. apply ValidateMin_max.
Qed.

(** A pod of an account that has a role, its own or one of the ConfigMap, is patched at once. *)
Lemma build_effective m (env : select_env (S := serviceAccountCache)) pod c e (f : C) src counts missing r w' :
  effective (saCache c) (cmCache c) (ServiceAccountName (Spec pod)) (Namespace (Meta pod)) = Some e →
  config_Get (Namespace (Meta pod)) (ServiceAccountName (Spec pod)) f = None →
  buildPodPatchConfig m env pod (mkWorld c f src counts missing) = Some (Some r, w') →
  ppc_TokenExpiration r = asked (Annotations (Meta pod) !! expiration_key (AnnotationDomain m)) (TokenExpiration e).
Proof.
  intros He Hcc Hb.
  destruct (Get (mkRequest (ServiceAccountName (Spec pod)) (Namespace (Meta pod))
    (bool_decide (0 < saLookupGraceTime m)%Z)) c) as [[resp c1]|] eqn:Hget.
  - rewrite (build_lookup m env pod _ resp c1) in Hb by done.
    apply Get_effective in Hget as (_ & _ & _ & _ & _ & Hresp). cbn [req_Name req_Namespace] in Hresp.
    rewrite He in Hresp. rewrite Hresp in Hb. cbn [FoundInCache response_of] in Hb. injection Hb as Hb.
    unfold by_role in Hb. case_decide; [done|]. injection Hb as <- _.
    unfold web_identity_config. cbn [ppc_TokenExpiration resp_TokenExpiration response_of].
    apply parsePodAnnotations_asked.
  - unfold buildPodPatchConfig, bind at 1, container_credentials in Hb. cbn [w_config] in Hb. rewrite Hcc in Hb.
    unfold bind at 1, get in Hb. cbn [w_cache] in Hb. change (cache_Get ?r c) with (Get r c) in Hb.
    by rewrite Hget in Hb.
Qed.

(** The settings the cache was made with. *)
Lemma reachable_expiration_settings aud prefix sts flag comp s :
  rtc step (initial aud prefix sts (ValidateMinTokenExpiration flag) comp) s →
  annotationPrefix (sys_cache s) = prefix ∧ defaultTokenExpiration (sys_cache s) = Z.max 600 flag.
Proof.
  intros Hs%reachable_settings. injection Hs as Hp _ _ _ Hd. split; [done|]. rewrite Hd. apply ValidateMin_max.
Qed.

(** After the account has been added, its pods get the settings of its entry. *)
Lemma added_expiration m (env : select_env (S := serviceAccountCache)) pod c c' sa (f : C) src counts missing pc w' :
  addSA sa c = Returned c' →
  sa_Namespace sa = Namespace (Meta pod) → sa_Name sa = ServiceAccountName (Spec pod) →
  buildPodPatchConfig m env pod (mkWorld c' f src counts missing) = Some (Some pc, w') →
  let e := asked (Annotations (Meta pod) !! expiration_key (AnnotationDomain m)) (TokenExpiration (entry_of_sa c sa)) in
  match config_Get (Namespace (Meta pod)) (ServiceAccountName (Spec pod)) f with
  | Some _ => if decide (e = 86400)%Z then (79200 ≤ ppc_TokenExpiration pc ≤ 86400)%Z else ppc_TokenExpiration pc = e
  | None => RoleARN (entry_of_sa c sa) ≠ "" → ppc_TokenExpiration pc = e
  end.
Proof.
  intros (Hsa & _)%addSA_returned_spec Hns Hname Hb.
  assert (saCache c' !! sa_key (ServiceAccountName (Spec pod)) (Namespace (Meta pod)) = Some (entry_of_sa c sa)) as He
    by (by rewrite Hsa, Hns, Hname, lookup_insert_eq).
  destruct (config_Get _ _ f) as [cc|] eqn:Hcc; cbv zeta.
  - rewrite (build_container_credentials m env pod (mkWorld c' f src counts missing) cc Hcc) in Hb.
    apply bind_Some in Hb as ([e w1] & Hj & [= <- _]). apply addJitter_spec in Hj as [Hj _].
    unfold base_expiration in Hj. rewrite parsePodAnnotations_asked in Hj.
    change (cache_GetCommonConfigurations ?n ?ns (w_cache _)) with (GetCommonConfigurations n ns c') in Hj.
    rewrite GetCommon_lookup, He in Hj. cbn [snd container_credentials_config ppc_TokenExpiration] in *.
    case_decide; [done|]. apply Hj.
  - intros Hrole. eapply build_effective; [|exact Hcc|exact Hb].
    unfold effective. rewrite He. by rewrite decide_False.
Qed.

(** After a version of the ConfigMap has been read, its entries are served as written. *)
Lemma configured_expiration m (env : select_env (S := serviceAccountCache)) pod c prev ev prev' c' sas e (f : C) src
    counts missing pc w' :
  prev_ok prev → storable (CMWritten ev) → cm_notify prev (CMWritten ev) c = Returned (prev', c') →
  version_of (ev_cm ev) = Some sas →
  sas !! sa_key (ServiceAccountName (Spec pod)) (Namespace (Meta pod)) = Some (Some e) →
  own_role (saCache c) (ServiceAccountName (Spec pod)) (Namespace (Meta pod)) = "" →
  config_Get (Namespace (Meta pod)) (ServiceAccountName (Spec pod)) f = None →
  buildPodPatchConfig m env pod (mkWorld c' f src counts missing) = Some (Some pc, w') →
  ppc_TokenExpiration pc =
    asked (Annotations (Meta pod) !! expiration_key (AnnotationDomain m))
      (if decide (TokenExpiration e = 0%Z) then defaultTokenExpiration c else TokenExpiration e).
Proof.
  intros Hp Hst Hn Hv Hk Hown Hcc Hb.
  destruct (cm_notify_spec prev (CMWritten ev) c Hp Hst) as (prev1 & m1 & Hn1 & _ & Hm).
  rewrite Hn in Hn1. injection Hn1 as _ ->.
  specialize (Hm (sa_key (ServiceAccountName (Spec pod)) (Namespace (Meta pod)))).
  cbn [key_after] in Hm. rewrite Hv, Hk in Hm. injection Hm as Hm _. cbn in Hm.
  assert (effective (saCache c) m1 (ServiceAccountName (Spec pod)) (Namespace (Meta pod)) =
    Some (fix_expiration (defaultTokenExpiration c) e)) as He.
  { unfold effective, own_role in *. rewrite Hm. destruct (saCache c !! _) as [e0|]; [|done].
    simpl in Hown. by rewrite decide_True. }
  rewrite (build_effective m env pod (with_cmCache m1 c) _ f _ _ _ _ _ He Hcc Hb). unfold fix_expiration. by case_decide.
Qed.

(** C23. The life time of the token in a patch, in whatever state the cache is, when the
    flag's value has been validated at the start. For an account that has just been added
    the annotation of the pod decides if it is a 64-bit integer, else the one of the account,
    else the flag, each at least 600 seconds; with container credentials a life time of
    exactly 24 hours is drawn between 22 and 24 hours. For an account without a role of its own
    that a version of the ConfigMap just read lists, the annotation of the pod decides, at least
    600 seconds, else the entry as it was written, however short or negative, and the flag, at
    least 600 seconds, only for an entry that says zero or nothing. *)
Theorem expiration_of_the_patch aud prefix sts flag comp s m (env : select_env (S := serviceAccountCache)) pod
    (f : C) src counts missing c' pc w' :
  rtc step (initial aud prefix sts (ValidateMinTokenExpiration flag) comp) s → AnnotationDomain m = prefix →
  buildPodPatchConfig m env pod (mkWorld c' f src counts missing) = Some (Some pc, w') →
  let asked_by_pod := asked (Annotations (Meta pod) !! expiration_key prefix) in
  (∀ sa,
     addSA sa (sys_cache s) = Returned c' →
     sa_Namespace sa = Namespace (Meta pod) → sa_Name sa = ServiceAccountName (Spec pod) →
     let e := asked_by_pod (asked (sa_Annotations sa !! expiration_key prefix) (Z.max 600 flag)) in
     match config_Get (Namespace (Meta pod)) (ServiceAccountName (Spec pod)) f with
     | Some _ => if decide (e = 86400)%Z then (79200 ≤ ppc_TokenExpiration pc ≤ 86400)%Z else ppc_TokenExpiration pc = e
     | None => default "" (sa_Annotations sa !! (prefix +:+ "/role-arn")) ≠ "" → ppc_TokenExpiration pc = e
     end) ∧
  (∀ prev ev prev' sas e,
     prev_ok prev → storable (CMWritten ev) → cm_notify prev (CMWritten ev) (sys_cache s) = Returned (prev', c') →
     version_of (ev_cm ev) = Some sas →
     sas !! sa_key (ServiceAccountName (Spec pod)) (Namespace (Meta pod)) = Some (Some e) →
     own_role (saCache (sys_cache s)) (ServiceAccountName (Spec pod)) (Namespace (Meta pod)) = "" →
     config_Get (Namespace (Meta pod)) (ServiceAccountName (Spec pod)) f = None →
     ppc_TokenExpiration pc =
       asked_by_pod (if decide (TokenExpiration e = 0%Z) then Z.max 600 flag else TokenExpiration e)).
Proof.
  intros [Hpre Hdef]%reachable_expiration_settings Hdom Hb asked_by_pod. unfold asked_by_pod. rewrite <- Hdom. split.
  - intros sa Hadd Hns Hname. pose proof (added_expiration _ _ _ _ _ _ _ _ _ _ _ _ Hadd Hns Hname Hb) as He.
    rewrite entry_of_sa_asked, Hpre, Hdef, <- Hdom in He. cbv zeta in *.
    destruct (config_Get _ _ f); [exact He|]. intros Hrole. apply He. clear He. cbn [RoleARN entry_of_sa].
    unfold annotation. rewrite Hpre, <- Hdom. change ("/" +:+ RoleARNAnnotation) with "/role-arn".
    destruct (sa_Annotations sa !! _) as [arn|]; [by apply role_arn_not_empty|by destruct Hrole].
  - intros prev ev prev' sas e Hp Hst Hn Hv Hk Hown Hcc. rewrite <- Hdef. by eapply configured_expiration.
Qed.

End expirations.

(** ** Witnesses *)

(** {"default/app":{"RoleARN":"arn:a","TokenExpiration":90}} *)
Definition ex_short_config : ConfigMap :=
  ex_config ("{" +:+ q +:+ "default/app" +:+ q +:+ ":{" +:+ q +:+ "RoleARN" +:+ q +:+ ":" +:+ q +:+ "arn:a" +:+ q
    +:+ "," +:+ q +:+ "TokenExpiration" +:+ q +:+ ":90}}").

Definition ex_short_sas : gmap string (option Entry) := {[ "default/app" := Some (mkEntry "arn:a" "" false 90) ]}.

Lemma ex_short_version : version_of ex_short_config = Some ex_short_sas.
Proof. vm_compute. reflexivity. Qed.

(** The account asks for a minute and gets ten; the ConfigMap asks for a minute and a half and
    gets it. *)
Lemma expiration_of_the_patch_witness :
  (∃ c' pc w', addSA ex_sa ex_cache = Returned c' ∧
     buildPodPatchConfig (K := plain_k8s) ex_modifier ex_timeout (ex_pod ∅ ∅) (mkWorld c' no_identities [] ∅ 0)
       = Some (Some pc, w') ∧ ppc_TokenExpiration pc = 600%Z) ∧
  (∃ prev c' pc w', cm_notify None (ex_written ex_short_config) ex_cache = Returned (prev, c') ∧
     buildPodPatchConfig (K := plain_k8s) ex_modifier ex_timeout (ex_pod ∅ ∅) (mkWorld c' no_identities [] ∅ 0)
       = Some (Some pc, w') ∧ ppc_TokenExpiration pc = 90%Z).
Proof.
  split.
  - destruct (addSA ex_sa ex_cache) as [c'|why] eqn:Hadd; [|exfalso; by vm_compute in Hadd].
    destruct (buildPodPatchConfig (K := plain_k8s) ex_modifier ex_timeout (ex_pod ∅ ∅) (mkWorld c' no_identities [] ∅ 0))
      as [[[pc|] w']|] eqn:Hb; [|exfalso; vm_compute in Hadd; injection Hadd as <-; by vm_compute in Hb..].
    exists c', pc, w'. split; [reflexivity|]. split; [exact Hb|].
    destruct (expiration_of_the_patch (K := plain_k8s) "sts.amazonaws.com" "eks.amazonaws.com" false 86400
      (mkComposeRoleArn false "" "" "") (initial "sts.amazonaws.com" "eks.amazonaws.com" false 86400 (mkComposeRoleArn false "" "" ""))
      ex_modifier ex_timeout (ex_pod ∅ ∅) no_identities [] ∅ 0 c' pc w') as [H _]; [apply rtc_refl|reflexivity|exact Hb|].
    specialize (H ex_sa Hadd eq_refl eq_refl). cbv zeta in H.
    change (config_Get _ _ no_identities) with (@None PatchConfig) in H. cbv iota in H.
    rewrite H by by_decision. vm_compute. reflexivity.
  - destruct (cm_notify None (ex_written ex_short_config) ex_cache) as [[prev c']|why] eqn:Hn; [|exfalso; by vm_compute in Hn].
    destruct (buildPodPatchConfig (K := plain_k8s) ex_modifier ex_timeout (ex_pod ∅ ∅) (mkWorld c' no_identities [] ∅ 0))
      as [[[pc|] w']|] eqn:Hb; [|exfalso; vm_compute in Hn; injection Hn as <- <-; by vm_compute in Hb..].
    exists prev, c', pc, w'. split; [reflexivity|]. split; [exact Hb|].
    destruct (expiration_of_the_patch (K := plain_k8s) "sts.amazonaws.com" "eks.amazonaws.com" false 86400
      (mkComposeRoleArn false "" "" "") (initial "sts.amazonaws.com" "eks.amazonaws.com" false 86400 (mkComposeRoleArn false "" "" ""))
      ex_modifier ex_timeout (ex_pod ∅ ∅) no_identities [] ∅ 0 c' pc w') as [_ H]; [apply rtc_refl|reflexivity|exact Hb|].
    rewrite (H None (mkEvent ex_range ex_range ex_short_config) prev ex_short_sas (mkEntry "arn:a" "" false 90) I
      ltac:(by apply (ex_written_storable _ ex_short_sas); [|exact ex_short_version|by_decision]) Hn ex_short_version
      eq_refl eq_refl eq_refl). reflexivity.
Defined.
