(* ===== verification/ConcurrentAdmission.v ===== *)
(** * A review among the other goroutines

    The handler of a review waits for a service account while the cache changes under it.
    Here the environment of [Modifier.buildPodPatchConfig] is a run of the concurrent cache
    of CacheSystem.v: the handler's [Get] is a sequence of its steps, the notifier is ready
    when the run has closed it, and the second [Get] sees the cache the run has left. *)

From S2P Require Import Prelude GoStd Pkg Notifications Cache CacheProps CacheSystem Lookup ContainerCredentials PodTypes Modifier PatchProps BuildProps AdmissionProps.

(** The [select] when the others have come to [s]: the notifier is ready if it is closed. *)
Definition env_of (s : system) : select_env (S := serviceAccountCache) := λ nt _,
  (match nt with Some ch => bool_decide (is_closed ch (notifs (sys_cache s))) | None => false end, sys_cache s).

(** The system after the goroutine [t] has run a whole [Get]. *)
Definition after_get (t : nat) (req : Request) (resp : Response) (c : serviceAccountCache) (s : system) : system :=
  mkSystem c (<[t := Answered req resp]> (gets s)) (in_flight s).

(** ** Lemmas *)

(** One more critical section of the goroutine [t]. *)
Lemma step_phase t p s :
  gets s !! t = Some p →
  step s (mkSystem (sys_cache s) (<[t := getCM_phase (sys_cache s) p]> (gets s)) (in_flight s)).
Proof. apply step_getCM. Qed.

(** A [Get] that nobody interrupts is up to three steps of the system. *)
Lemma Get_run t req resp c' s :
  gets s !! t = None → Get req (sys_cache s) = Some (resp, c') → rtc step s (after_get t req resp c' s).
Proof.
  intros Ht Hget. unfold Get in Hget. apply bind_Some in Hget as ([[entry nt] c1] & HSA & Hget).
  assert (∀ found, Some (Get_cm req found nt c1, c1) = Some (resp, c') →
    rtc step (mkSystem c1 (<[t := AfterSA req found nt]> (gets s)) (in_flight s)) (after_get t req resp c' s)) as Hcm.
  { intros found [= <- <-]. unfold after_get, Get_cm.
    eapply rtc_l; [apply (step_phase t (AfterSA req found nt)); apply lookup_insert_eq|].
    cbn [sys_cache gets in_flight getCM_phase]. rewrite insert_insert_eq.
    destruct (getCM (req_Name req) (req_Namespace req) c1); [by rewrite insert_insert_eq || reflexivity|].
    eapply rtc_l; [apply (step_phase t (AfterCM req found nt)); apply lookup_insert_eq|].
    cbn [sys_cache gets in_flight getCM_phase]. rewrite insert_insert_eq.
    by destruct (getCM (req_Name req) "*" c1). }
  eapply rtc_l; [by apply (step_getSA t req _ _ _ Ht HSA)|].
  unfold getSA_phase. destruct entry as [e|]; [case_decide|]; cbn [negb] in *; [|by apply Hcm..].
  by injection Hget as <- <-.
Qed.

(** A waiting goroutine waits on, whatever the others do. *)
Lemma step_waits s s' t key ch : step s s' → waits t key ch s → waits t key ch s'.
Proof.
  intros Hstep (p & Hp & Hkey & Hch). destruct Hstep as [t' req r c' s Hg HSA|t' p' s Hp'|?|?|?|?|?|?|?|?]; unfold waits; cbn [gets].
  2: { destruct (decide (t' = t)) as [->|Hne]; [|rewrite lookup_insert_ne by done; eauto].
       rewrite lookup_insert_eq. simplify_eq. eexists. split; [done|]. by rewrite getCM_phase_notifier. }
  all: try by eauto.
  rewrite lookup_insert_ne by congruence. eauto.
Qed.

Lemma run_waits s s' t key ch : rtc step s s' → waits t key ch s → waits t key ch s'.
Proof. induction 1; eauto using step_waits. Qed.

(** A lookup that waits and finds nothing holds a notifier. *)
Lemma miss_has_notifier req c resp c' :
  RequestNotification req = true → Get req c = Some (resp, c') → FoundInCache resp = false →
  ∃ ch, Notifier resp = Some ch.
Proof.
  intros Hreq (Hsa & _ & _ & Hnt & _ & Hresp)%Get_effective Hf.
  destruct (Notifier resp) as [ch|]; [by exists ch|]. exfalso.
  destruct (effective _ _ _ _) as [e|]; rewrite Hresp in Hf; cbn in Hf; [done|].
  apply bool_decide_eq_false in Hf. apply Hnt; [|done]. split; [done|]. by apply eq_None_not_Some.
Qed.

(** The second lookup, of a cached account with a role. *)
Lemma build_woken `{K : K8s} {C} `{!Config C} m env pod (w : World serviceAccountCache C) resp c1 s e :
  config_Get (Namespace (Meta pod)) (ServiceAccountName (Spec pod)) (w_config w) = None →
  (0 < saLookupGraceTime m)%Z →
  Get (mkRequest (ServiceAccountName (Spec pod)) (Namespace (Meta pod)) true) (w_cache w) = Some (resp, c1) →
  FoundInCache resp = false → (∃ ch, Notifier resp = Some ch) → env (Notifier resp) c1 = (true, s) →
  saCache s !! sa_key (ServiceAccountName (Spec pod)) (Namespace (Meta pod)) = Some e → RoleARN e ≠ "" →
  buildPodPatchConfig m env pod w =
    Some (Some (web_identity_config m pod (response_of e true None)), pod_counted "sts_web_identity" (with_cache s w)).
Proof.
  intros Hcc Hg Hget Hf [ch Hnt] Henv He Hrole. assert (bool_decide (0 < saLookupGraceTime m)%Z = true) as Hb
    by by apply bool_decide_eq_true.
  rewrite (build_lookup m env pod w resp c1); [|done|by rewrite Hb]. rewrite Hf, decide_True, Henv, Hnt by done.
  assert (cache_Get (mkRequest (ServiceAccountName (Spec pod)) (Namespace (Meta pod)) false) s =
    Some (response_of e true None, s)) as ->.
  { apply Get_cached; [|done]. by rewrite CacheKey_sa_key. }
  cbn [mbind option_bind FoundInCache response_of]. unfold by_role. cbn [resp_RoleARN response_of].
  by rewrite decide_False.
Qed.

(** ** Properties *)

(** A pod that comes before its service account is mutated: when the handler asks for an
    account that is not known, and the account, with a role, is delivered at any time while it
    waits and is still there when it looks again, then the handler has been woken, whatever
    other goroutines did before, in between and after, and patches the pod with the role. *)
Theorem late_account_is_mutated `{K : K8s} {C} `{!Config C} aud prefix sts exp comp s t m pod (f : C) src counts missing
    resp c1 s2 sa s3 s4 e :
  reachable (initial aud prefix sts exp comp) s → gets s !! t = None →
  (0 < saLookupGraceTime m)%Z → config_Get (Namespace (Meta pod)) (ServiceAccountName (Spec pod)) f = None →
  Get (mkRequest (ServiceAccountName (Spec pod)) (Namespace (Meta pod)) true) (sys_cache s) = Some (resp, c1) →
  FoundInCache resp = false →
  rtc step (after_get t (mkRequest (ServiceAccountName (Spec pod)) (Namespace (Meta pod)) true) resp c1 s) s2 →
  sa_Name sa = ServiceAccountName (Spec pod) → sa_Namespace sa = Namespace (Meta pod) → delivers sa s2 s3 →
  rtc step s3 s4 →
  saCache (sys_cache s4) !! sa_key (sa_Name sa) (sa_Namespace sa) = Some e → RoleARN e ≠ "" →
  buildPodPatchConfig m (env_of s4) pod (mkWorld (sys_cache s) f src counts missing) =
    Some (Some (web_identity_config m pod (response_of e true None)),
          pod_counted "sts_web_identity" (mkWorld (sys_cache s4) f src counts missing)).
Proof.
  intros Hr Ht Hg Hcc Hget Hf Hrun Hname Hns Hdel Hrun' He Hrole.
  assert (∃ ch, Notifier resp = Some ch) as [ch Hnt] by (by eapply miss_has_notifier, Hf; [|exact Hget]).
  assert (sys_wf s2) as Hwf.
  { eapply reachable_wf; [apply (initial_wf aud prefix sts exp comp)|]. unfold reachable in *.
    etrans; [exact Hr|]. etrans; [by apply Get_run|exact Hrun]. }
  rewrite (build_woken m (env_of s4) pod _ resp c1 (sys_cache s4) e); try done.
  - by exists ch.
  - unfold env_of. rewrite Hnt in *. rewrite bool_decide_true; [done|].
    eapply (delivery_closes s2 s3 s4 sa t); [exact Hwf| |reflexivity|exact Hdel|exact Hrun'].
    eapply run_waits; [exact Hrun|]. exists (Answered (mkRequest (sa_Name sa) (sa_Namespace sa) true) resp).
    cbn [phase_notifier fst snd]. rewrite CacheKey_sa_key, Hname, Hns. split; [apply lookup_insert_eq|done].
  - by rewrite <- Hname, <- Hns.
Qed.

(** ** Interleaved lookups *)

(** The cache as the handler of one review sees it: the answers its lookups get, in order. *)
Module Answers.

#[export] Instance answers_cache : ServiceAccountCache (list Response) := {|
  cache_Get req l := match l with [] => None | resp :: l' => Some (resp, l') end;
  cache_GetCommonConfigurations _ _ _ := (false, DefaultTokenExpiration);
  cache_ToJSON _ := "";
  cache_Clear l := l
|}.

End Answers.
Import Answers.

(** The [select] when the others have come to [s]. *)
Definition notified_in (s : system) : select_env (S := list Response) := λ nt l,
  (match nt with Some ch => bool_decide (is_closed ch (notifs (sys_cache s))) | None => false end, l).

(** A lookup that has found nothing of an account holds the notifier of its first section. *)
Lemma miss_holds_notifier t req r c' s s' req' resp :
  RequestNotification req = true → getSA req (sys_cache s) = Some (r, c') →
  rtc step (mkSystem c' (<[t := getSA_phase req r]> (gets s)) (in_flight s)) s' →
  gets s' !! t = Some (Answered req' resp) → FoundInCache resp = false →
  ∃ ch, Notifier resp = Some ch ∧
    waits t (CacheKey req) ch (mkSystem c' (<[t := getSA_phase req r]> (gets s)) (in_flight s)).
Proof.
  intros Hn HSA Hrun Hans Hf.
  destruct (lookup_explained (λ _, True) t req r c' s s' req' resp HSA I) as (-> & s2 & s3 & _ & _ & _ & _ & _ & Hresp); [|done|].
  { revert Hrun. apply rtc_subrel. by split. }
  pose proof HSA as (_ & _ & _ & _ & Hnt & _)%getSA_spec. unfold answer in Hresp.
  destruct (precedence _ _ _) as [e|]; rewrite Hresp in Hf |- *; cbn in Hf |- *; [done|].
  apply bool_decide_eq_false in Hf. unfold annotated in Hf.
  destruct r.2 as [ch|] eqn:Hr.
  - exists ch. split; [done|]. exists (getSA_phase req r). cbn [gets]. split; [apply lookup_insert_eq|].
    rewrite getSA_phase_notifier. by rewrite Hr.
  - exfalso. destruct Hnt as [_ Hnt]. apply Hnt; [|done]. split; [done|]. by apply eq_None_not_Some.
Qed.

(** C12. A pod that comes before its service account is mutated: when the handler's lookup finds
    nothing of an account, whatever other goroutines have done between its critical sections,
    and the account, with a role, is delivered at any time after the first section and is
    still there when the handler looks again, then the handler is woken, its second lookup is
    answered in one section with the role, and it patches the pod. *)
Theorem unknown_account_is_mutated `{K : K8s} {C} `{!Config C} aud prefix sts exp comp s t m pod (f : C) src counts missing
    r c1 s2 sa s3 s4 req' resp e :
  reachable (initial aud prefix sts exp comp) s → gets s !! t = None →
  (0 < saLookupGraceTime m)%Z → config_Get (Namespace (Meta pod)) (ServiceAccountName (Spec pod)) f = None →
  getSA (mkRequest (ServiceAccountName (Spec pod)) (Namespace (Meta pod)) true) (sys_cache s) = Some (r, c1) →
  rtc step (mkSystem c1 (<[t := getSA_phase (mkRequest (ServiceAccountName (Spec pod)) (Namespace (Meta pod)) true) r]> (gets s))
    (in_flight s)) s2 →
  sa_Name sa = ServiceAccountName (Spec pod) → sa_Namespace sa = Namespace (Meta pod) → delivers sa s2 s3 → rtc step s3 s4 →
  gets s4 !! t = Some (Answered req' resp) → FoundInCache resp = false →
  saCache (sys_cache s4) !! sa_key (sa_Name sa) (sa_Namespace sa) = Some e → RoleARN e ≠ "" →
  (∀ t2, gets s4 !! t2 = None →
     step s4 (after_get t2 (mkRequest (sa_Name sa) (sa_Namespace sa) false) (response_of e true None) (sys_cache s4) s4)) ∧
  buildPodPatchConfig m (notified_in s4) pod (mkWorld [resp; response_of e true None] f src counts missing) =
    Some (Some (web_identity_config m pod (response_of e true None)),
          pod_counted "sts_web_identity" (mkWorld [] f src counts missing)).
Proof.
  intros Hr Ht Hg Hcc HSA Hrun Hname Hns Hdel Hrun' Hans Hf He Hrole.
  assert (rtc step s2 s4) as Hrun24 by (eapply rtc_l; [apply Hdel|exact Hrun']).
  destruct (miss_holds_notifier t (mkRequest (ServiceAccountName (Spec pod)) (Namespace (Meta pod)) true) r c1 s s4 req' resp eq_refl HSA) as (ch & Hnt & Hw); [by etrans|done|done|].
  assert (is_closed ch (notifs (sys_cache s4))) as Hclosed.
  { eapply (delivery_closes s2 s3 s4 sa t); [| |reflexivity|exact Hdel|exact Hrun'].
    - eapply reachable_wf; [apply (initial_wf aud prefix sts exp comp)|].
      unfold reachable in *. etrans; [exact Hr|]. eapply rtc_l; [by eapply step_getSA|exact Hrun].
    - eapply run_waits; [exact Hrun|]. rewrite Hname, Hns. exact Hw. }
  split.
  { intros t2 Ht2. assert (getSA (mkRequest (sa_Name sa) (sa_Namespace sa) false) (sys_cache s4) =
      Some (Some e, None, sys_cache s4)) as HSA2 by (rewrite getSA_quiet by done;
      change (CacheKey _) with (sa_key (sa_Name sa) (sa_Namespace sa)); by rewrite He).
    pose proof (step_getSA t2 _ _ _ s4 Ht2 HSA2) as Hstep. unfold getSA_phase in Hstep.
    by rewrite decide_True in Hstep. }
  rewrite (build_lookup m (notified_in s4) pod _ resp [response_of e true None]); [|done|].
  2: { rewrite bool_decide_true by done. reflexivity. }
  rewrite Hf, decide_True by done. unfold notified_in. rewrite Hnt, bool_decide_true by done.
  cbn [mbind option_bind FoundInCache response_of cache_Get answers_cache]. unfold by_role. cbn [resp_RoleARN response_of].
  by rewrite decide_False.
Qed.

(** ** Witnesses *)

Definition ex_asked : Response := mkResponse "" "" false 86400 false (Some 0).
Definition ex_after_get : system := after_get 7 ex_req ex_asked (sys_cache ex_waiting) ex_sys.
Definition ex_arrived : system :=
  match addSA ex_sa (sys_cache ex_after_get) with
  | Returned c => mkSystem c (gets ex_after_get) (in_flight ex_after_get)
  | Panicked _ => ex_after_get
  end.

Lemma late_account_is_mutated_witness :
  buildPodPatchConfig (K := plain_k8s) patient (env_of ex_arrived) (ex_pod ∅ ∅) (ex_world ex_cache no_identities []) =
    Some (Some (web_identity_config (K := plain_k8s) patient (ex_pod ∅ ∅)
                  (response_of (entry_of_sa ex_cache ex_sa) true None)),
          pod_counted "sts_web_identity" (ex_world (sys_cache ex_arrived) no_identities [])).
Proof.
  apply (late_account_is_mutated (K := plain_k8s) "sts.amazonaws.com" "eks.amazonaws.com" false 86400
    (mkComposeRoleArn false "" "" "") ex_sys 7 patient (ex_pod ∅ ∅) no_identities [] ∅ 0 ex_asked (sys_cache ex_waiting)
    ex_after_get ex_sa ex_arrived ex_arrived).
  - apply rtc_refl.
  - reflexivity.
  - reflexivity.
  - reflexivity.
  - vm_compute. reflexivity.
  - reflexivity.
  - apply rtc_refl.
  - reflexivity.
  - reflexivity.
  - split; [|reflexivity]. by apply (step_sa_event ex_sa).
  - apply rtc_refl.
  - reflexivity.
  - discriminate.
Defined.

(** The account is delivered after the first section of the lookup, which then looks into the
    ConfigMap twice and finds nothing. *)
Definition ex_looked : system := go_on 7 (go_on 7 ex_delivered).

Lemma unknown_account_is_mutated_witness :
  buildPodPatchConfig (K := plain_k8s) patient (notified_in ex_looked) (ex_pod ∅ ∅)
      (mkWorld [ex_asked; response_of (entry_of_sa ex_cache ex_sa) true None] no_identities [] ∅ 0) =
    Some (Some (web_identity_config (K := plain_k8s) patient (ex_pod ∅ ∅)
                  (response_of (entry_of_sa ex_cache ex_sa) true None)),
          pod_counted "sts_web_identity" (mkWorld [] no_identities [] ∅ 0)).
Proof.
  apply (unknown_account_is_mutated (K := plain_k8s) "sts.amazonaws.com" "eks.amazonaws.com" false 86400
    (mkComposeRoleArn false "" "" "") ex_sys 7 patient (ex_pod ∅ ∅) no_identities [] ∅ 0 (None, Some 0) (sys_cache ex_waiting)
    ex_waiting ex_sa ex_delivered ex_looked ex_req).
  - apply rtc_refl.
  - reflexivity.
  - reflexivity.
  - reflexivity.
  - vm_compute. reflexivity.
  - apply rtc_refl.
  - reflexivity.
  - reflexivity.
  - exact ex_delivers.
  - eapply rtc_l; [apply (go_on_step 7 ex_delivered); by_decision|]. apply rtc_once, go_on_step. by_decision.
  - vm_compute. reflexivity.
  - reflexivity.
  - vm_compute. reflexivity.
  - discriminate.
Defined.
