(* ===== verification/Http.v ===== *)
(** * The HTTP side of the webhook

    Models src/pkg/handler/middleware.go, the [Handle] of src/pkg/handler/handler.go and of
    src/pkg/cache/debug/debug.go, and the chain main.go builds from them. A handler works
    with any [ResponseWriter]; the middlewares hand it one that wraps the writer they got.
    Response headers are left out: nothing under src/ reads or sets one. *)

From S2P Require Import Prelude GoStd Notifications Cache ContainerCredentials PodTypes Modifier.

(** ** net/http *)

(** The methods of [http.ResponseWriter] the code calls. [Write] answers the number of bytes
    written and the error. *)
Class ResponseWriter (R : Type) := {
  WriteHeader : Z → R → R;
  Write : string → R → nat * option string * R
}.

Definition StatusOK : Z := 200.
Definition StatusBadRequest : Z := 400.
Definition StatusUnsupportedMediaType : Z := 415.
Definition StatusInternalServerError : Z := 500.

Definition newline : string := String "010" "".

(** [http.Error]: the code, then the message and a line break. *)
Definition http_Error {R} `{!ResponseWriter R} (error : string) (code : Z) (w : R) : R :=
  (Write (error +:+ newline) (WriteHeader code w)).2.

(** The writer of the server: the first code written is sent, writing without one sends 200,
    and a broken connection takes no bytes. *)
Record response := mkHttpResponse {
  sent_code : option Z;
  sent_body : string;
  broken : option string
}.

Definition fresh_response : response := mkHttpResponse None "" None.

Definition send_code (code : Z) (w : response) : response :=
  match sent_code w with
  | Some _ => w
  | None => mkHttpResponse (Some code) (sent_body w) (broken w)
  end.

#[export] Instance response_writer : ResponseWriter response := {|
  WriteHeader := send_code;
  Write data w :=
    let w := send_code StatusOK w in
    match broken w with
    | Some e => (0, Some e, w)
    | None => (String.length data, None, mkHttpResponse (sent_code w) (sent_body w +:+ data) None)
    end
|}.

(** Of a request: what the code reads. [Body] is [None] for a nil body, and reading it all can
    fail; [form_error] is what [ParseForm] finds wrong. [ParseForm] reads the body of a form
    only, and [Handle] does not look at the body of one. *)
Record request := mkHttpRequest {
  Method : string;
  URL_Path : string;
  Content_Type : string;
  Body : option (result string string);
  form_error : option string
}.

(** ** The server's state *)

Record access := mkAccess { log_path : string; log_method : string; log_status : Z; log_bytes : nat }.

(** [latencies] counts the observations of the histogram and of the summary, which are always
    made together. *)
Record Server (W : Type) := mkServer {
  app : W;
  requestCounter : gmap (string * string * Z) nat;
  latencies : gmap (string * string) nat;
  access_log : list access
}.
Arguments mkServer {W}.
Arguments app {W}.
Arguments requestCounter {W}.
Arguments latencies {W}.
Arguments access_log {W}.

Definition incr {K} `{Countable K} (k : K) (m : gmap K nat) : gmap K nat := <[k := S (default 0 (m !! k))]> m.

Definition lift_app {W A} (p : prog W A) : prog (Server W) A := λ s,
  '(a, w) ← p (app s);
  Some (a, mkServer w (requestCounter s) (latencies s) (access_log s)).

Definition monitor {W} (verb path : string) (httpCode : Z) : prog (Server W) unit := λ s,
  Some (tt, mkServer (app s) (incr (verb, path, httpCode) (requestCounter s))
              (incr (verb, path) (latencies s)) (access_log s)).

Definition log_access {W} (a : access) : prog (Server W) unit := λ s,
  Some (tt, mkServer (app s) (requestCounter s) (latencies s) (access_log s ++ [a])).

(** ** Handlers and middlewares *)

Definition Handler (W : Type) := ∀ R, ResponseWriter R → R → request → prog (Server W) R.

Definition ServeHTTP {W} (h : Handler W) {R} `{HR : !ResponseWriter R} (w : R) (r : request)
    : prog (Server W) R := h R HR w r.

Definition Middleware (W : Type) := Handler W → Handler W.

Definition Apply {W} (h : Handler W) (middlewares : list (Middleware W)) : Handler W :=
  foldl (λ h adapter, adapter h) h middlewares.

Record statusLoggingResponseWriter (R : Type) := mkStatusLogging {
  inner : R;
  status : Z;
  bodyBytes : nat
}.
Arguments mkStatusLogging {R}.
Arguments inner {R}.
Arguments status {R}.
Arguments bodyBytes {R}.

#[export] Instance statusLogging_writer {R} `{!ResponseWriter R} :
    ResponseWriter (statusLoggingResponseWriter R) := {|
  WriteHeader code w := mkStatusLogging (WriteHeader code (inner w)) code (bodyBytes w);
  Write data w :=
    let '(length, err, w') := Write data (inner w) in
    (length, err, mkStatusLogging w' (status w) (bodyBytes w + length))
|}.

(** The deferred call of [monitor] sees the status the handler left. *)
Definition InstrumentRoute {W} : Middleware W := λ h R _ w r,
  let* wrappedWriter := ServeHTTP h (mkStatusLogging w StatusOK 0) r in
  let* _ := monitor (Method r) (URL_Path r) (status wrappedWriter) in
  ret (inner wrappedWriter).

(** The error for a malformed form is written past the wrapper. *)
Definition Logging {W} : Middleware W := λ h R _ w r,
  let record (wrappedWriter : statusLoggingResponseWriter R) :=
    log_access (mkAccess (URL_Path r) (Method r) (status wrappedWriter) (bodyBytes wrappedWriter)) in
  match form_error r with
  | Some _ =>
      let w' := http_Error ("{" +:+ String "034" "error" +:+ String "034" ": " +:+
        String "034" "error parsing form" +:+ String "034" "}") StatusBadRequest w in
      let* _ := record (mkStatusLogging w' StatusOK 0) in
      ret w'
  | None =>
      let* wrappedWriter := ServeHTTP h (mkStatusLogging w StatusOK 0) r in
      let* _ := record wrappedWriter in
      ret (inner wrappedWriter)
  end.

(** ** The endpoints *)

Definition with_UID (uid : string) (r : AdmissionResponse) : AdmissionResponse :=
  mkAdmissionResponse uid (Allowed r) (Result_Message r) (Patch r) (PatchType r).

Section endpoints.
Context {K : K8s} {S C : Type} `{!ServiceAccountCache S} `{!Config C}.

(** The codecs of k8s.io/apimachinery and the JSON of its types: decoding fills in the review
    it is given and can fail on the way. *)
Context (decodeReview : string → AdmissionReview * option string)
        (marshalReview : AdmissionResponse → result string string)
        (unmarshalPod : string → result string Pod)
        (marshalPatch : list patchOperation → result string string).

(** The last two steps [Handle] and [Deny] share: the review is marshalled and written; after
    an error of the marshaller the empty bytes are still written. *)
Definition write_review {R} `{!ResponseWriter R} (response : AdmissionResponse) (w : R) : R :=
  let '(resp, w) :=
    match marshalReview response with
    | Ok bytes => (bytes, w)
    | Err e => ("", http_Error ("could not encode response: " +:+ e) StatusInternalServerError w)
    end in
  let '(_, err, w) := Write resp w in
  match err with
  | Some e => http_Error ("could not write response: " +:+ e) StatusInternalServerError w
  | None => w
  end.

Definition Handle (m : Modifier) (env : select_env) : Handler (World S C) := λ R _ w r,
  let body := match Body r with
              | Some (Ok data) => data
              | _ => ""
              end in
  if decide (Content_Type r ≠ "application/json") then
    ret (http_Error "Invalid Content-Type, expected `application/json`" StatusUnsupportedMediaType w)
  else
    let '(ar, err) := decodeReview body in
    let* admissionResponse :=
      match err with
      | Some e => ret (refuse e)
      | None => lift_app (MutatePod unmarshalPod marshalPatch m env (Some ar))
      end in
    let response := match ar_Request ar with
                    | Some req => with_UID (ar_UID req) admissionResponse
                    | None => admissionResponse
                    end in
    ret (write_review response w).

(** The "/mutate" route of main.go. *)
Definition mutate_route (m : Modifier) (env : select_env) : Handler (World S C) :=
  Apply (Handle m env) [InstrumentRoute; Logging].

(** ** debug.go *)

(** The dump is written; an error of the connection is reported after it. *)
Definition Dumper_Handle : Handler (World S C) := λ R _ w r s,
  let res := cache_ToJSON (w_cache (app s)) in
  let '(_, err, w) := Write res w in
  Some (match err with
        | Some e => http_Error ("could not write response: " +:+ e) StatusInternalServerError w
        | None => w
        end, s).

Definition Dumper_Clear : Handler (World S C) := λ R _ w r s,
  Some (w, mkServer (mkWorld (cache_Clear (w_cache (app s))) (w_config (app s)) (w_rand (app s))
                       (webhookPodCount (app s)) (missingSACounter (app s)))
             (requestCounter s) (latencies s) (access_log s)).

Definition Dumper_InternalServerError : Handler (World S C) := λ R _ w r,
  ret (http_Error "test error" StatusInternalServerError w).

Definition Dumper_Deny : Handler (World S C) := λ R _ w r,
  ret (write_review (refuse "Test deny message") w).

Definition deny_route : Handler (World S C) := Apply Dumper_Deny [InstrumentRoute; Logging].
Definition error_route : Handler (World S C) := Apply Dumper_InternalServerError [InstrumentRoute; Logging].

End endpoints.
