(* ===== verification/HttpProps.v ===== *)
(** * Properties of the HTTP side

    What the client of the "/mutate" route gets, and that the metrics and the access log say
    the same. *)

From S2P Require Import Prelude GoStd Notifications Cache ContainerCredentials PodTypes Modifier PatchProps CacheProps BuildProps AdmissionProps Http.

(** ** Lemmas *)

(** What a client has got, and the two wrappers of the route around it. *)
Definition replied (code : Z) (text : string) : response := mkHttpResponse (Some code) text None.

Definition wrapped (code : Z) (text : string) : statusLoggingResponseWriter (statusLoggingResponseWriter response) :=
  mkStatusLogging (mkStatusLogging (replied code text) code (String.length text)) code (String.length text).

Definition unwritten : statusLoggingResponseWriter (statusLoggingResponseWriter response) :=
  mkStatusLogging (mkStatusLogging fresh_response StatusOK 0) StatusOK 0.

Lemma http_Error_wrapped error code : http_Error error code unwritten = wrapped code (error +:+ newline).
Proof. done. Qed.

Lemma Write_wrapped text : Write text unwritten = (String.length text, None, wrapped 200 text).
Proof. done. Qed.

Lemma Write_nothing code text : Write "" (wrapped code text) = (0, None, wrapped code text).
Proof.
  unfold wrapped, replied. simpl. by rewrite str_app_nil_r, Nat.add_0_r.
Qed.

Section replies.
Context {K : K8s} {S C : Type} `{!ServiceAccountCache S} `{!Config C}.
Context (decodeReview : string → AdmissionReview * option string)
        (marshalReview : AdmissionResponse → result string string)
        (unmarshalPod : string → result string Pod)
        (marshalPatch : list patchOperation → result string string).

Abbreviation route := (mutate_route decodeReview marshalReview unmarshalPod marshalPatch).

(** The reply to a review. *)
Definition review_reply (r : AdmissionResponse) : Z * string :=
  match marshalReview r with
  | Ok bytes => (StatusOK, bytes)
  | Err e => (StatusInternalServerError, ("could not encode response: " +:+ e) +:+ newline)
  end.

Lemma write_review_wrapped r :
  write_review marshalReview r unwritten = wrapped (review_reply r).1 (review_reply r).2.
Proof.
  unfold write_review, review_reply. destruct (marshalReview r) as [bytes|e].
  - by rewrite Write_wrapped.
  - rewrite http_Error_wrapped. by rewrite Write_nothing.
Qed.

(** The server after one request. *)
Definition observed (r : request) (code : Z) (text : string) (w : World S C) (s : Server (World S C))
    : Server (World S C) :=
  mkServer w (incr (Method r, URL_Path r, code) (requestCounter s))
    (incr (Method r, URL_Path r) (latencies s))
    (access_log s ++ [mkAccess (URL_Path r) (Method r) code (String.length text)]).

(** The review [Handle] answers. *)
Definition review_response (ar : AdmissionReview) (resp : AdmissionResponse) : AdmissionResponse :=
  match ar_Request ar with
  | Some req => with_UID (ar_UID req) resp
  | None => resp
  end.

Definition body_of (r : request) : string :=
  match Body r with
  | Some (Ok data) => data
  | _ => ""
  end.

Lemma route_observed r (s : Server (World S C)) w' s' (h : Handler (World S C)) code text w :
  form_error r = None →
  h _ _ unwritten r s = Some (wrapped code text, mkServer w (requestCounter s) (latencies s) (access_log s)) →
  Apply h [InstrumentRoute; Logging] response _ fresh_response r s = Some (w', s') →
  w' = replied code text ∧ s' = observed r code text w s.
Proof.
  intros Hf Hh. cbn [Apply foldl]. unfold Logging. rewrite Hf. unfold ServeHTTP, InstrumentRoute, bind.
  unfold ServeHTTP. fold unwritten. unfold bind. rewrite Hh. by intros [= <- <-].
Qed.

Lemma Handle_json m env r (s : Server (World S C)) ar err resp w :
  Content_Type r = "application/json" → decodeReview (body_of r) = (ar, err) →
  match err with
  | Some e => Some (refuse e, app s)
  | None => MutatePod unmarshalPod marshalPatch m env (Some ar) (app s)
  end = Some (resp, w) →
  Handle decodeReview marshalReview unmarshalPod marshalPatch m env _ _ unwritten r s =
    Some (wrapped (review_reply (review_response ar resp)).1 (review_reply (review_response ar resp)).2,
          mkServer w (requestCounter s) (latencies s) (access_log s)).
Proof.
  intros Hct Hd Hr. unfold Handle. fold (body_of r). rewrite decide_False by (intros H; by apply H).
  rewrite Hd. unfold bind, ret. fold (review_response ar).
  destruct err as [e|]; [|unfold lift_app; rewrite Hr; cbn [mbind option_bind]];
    [injection Hr as <- <-; destruct s|]; by rewrite <- write_review_wrapped.
Qed.

(** ** Theorems *)

(** C33. The metrics and the access log tell what was sent: on a working connection every
    request with a well-formed form is answered with one status and one body, is counted
    once under that status, observed once, and logged once with that status and the length
    of that body; the status is 415 exactly for a content type other than JSON, which
    leaves the application alone, and 200 or 500 otherwise. *)
Theorem metrics_tell_what_was_sent m env r (s s' : Server (World S C)) w' :
  form_error r = None →
  route m env response _ fresh_response r s = Some (w', s') →
  ∃ code text w,
    w' = replied code text ∧ s' = observed r code text w s ∧
    if decide (Content_Type r = "application/json") then code = 200%Z ∨ code = 500%Z
    else code = 415%Z ∧ w = app s.
Proof.
  intros Hf H. case_decide as Hct.
  - destruct (decodeReview (body_of r)) as [ar err] eqn:Hd.
    destruct (match err with
              | Some e => Some (refuse e, app s)
              | None => MutatePod unmarshalPod marshalPatch m env (Some ar) (app s)
              end) as [[resp w]|] eqn:Hr.
    + pose proof (Handle_json m env r s ar err resp w Hct Hd Hr) as Hh.
      destruct (route_observed r s w' s' _ _ _ w Hf Hh H) as [-> ->]. eexists _, _, w. split_and!; [done..|].
      unfold review_reply. destruct (marshalReview _); auto.
    + destruct err as [e|]; [done|]. exfalso. revert H. unfold mutate_route. cbn [Apply foldl].
      unfold Logging. rewrite Hf. unfold ServeHTTP, InstrumentRoute, bind, ServeHTTP. fold unwritten.
      unfold bind, Handle. fold (body_of r). rewrite decide_False by (intros Hn; by apply Hn).
      rewrite Hd. unfold bind, lift_app. by rewrite Hr.
  - assert (Handle decodeReview marshalReview unmarshalPod marshalPatch m env _ _ unwritten r s =
      Some (wrapped 415 ("Invalid Content-Type, expected `application/json`" +:+ newline),
            mkServer (app s) (requestCounter s) (latencies s) (access_log s))) as Hh.
    { unfold Handle. rewrite decide_True by done. rewrite http_Error_wrapped. by destruct s. }
    destruct (route_observed r s w' s' _ _ _ (app s) Hf Hh H) as [-> ->]. by eexists _, _, (app s).
Qed.

(** C30. The route answers the review: for JSON that decodes, the body sent with status 200 is
    the marshalled response of [MutatePod], for JSON that does not, a refusal with the
    error of the decoder, in both cases under the UID of the request that was read, and the
    application has changed by what [MutatePod] did and nothing else. *)
Theorem mutate_route_answers m env r (s : Server (World S C)) ar err resp w bytes :
  form_error r = None → Content_Type r = "application/json" →
  decodeReview (body_of r) = (ar, err) →
  match err with
  | Some e => Some (refuse e, app s)
  | None => MutatePod unmarshalPod marshalPatch m env (Some ar) (app s)
  end = Some (resp, w) →
  marshalReview (review_response ar resp) = Ok bytes →
  route m env response _ fresh_response r s = Some (replied 200 bytes, observed r 200 bytes w s) ∧
  (∀ req, ar_Request ar = Some req → UID (review_response ar resp) = ar_UID req).
Proof.
  intros Hf Hct Hd Hr Hm. pose proof (Handle_json m env r s ar err resp w Hct Hd Hr) as Hh. split.
  - unfold review_reply in Hh. rewrite Hm in Hh. cbn [fst snd] in Hh.
    unfold mutate_route. cbn [Apply foldl]. unfold Logging. rewrite Hf.
    unfold ServeHTTP, InstrumentRoute, bind, ServeHTTP. fold unwritten. unfold bind. by rewrite Hh.
  - intros req Hreq. unfold review_response. by rewrite Hreq.
Qed.

(** A malformed form escapes the metrics: the request is answered with status 400 but
    logged with status 200 and no bytes, and neither counted nor observed. *)
Theorem malformed_form_is_logged_as_ok m env r e (s : Server (World S C)) :
  form_error r = Some e →
  ∃ w',
    route m env response _ fresh_response r s =
      Some (w', mkServer (app s) (requestCounter s) (latencies s)
                  (access_log s ++ [mkAccess (URL_Path r) (Method r) 200 0])) ∧
    sent_code w' = Some 400%Z.
Proof. intros Hf. unfold mutate_route. cbn [Apply foldl]. unfold Logging. rewrite Hf. by eexists. Qed.

End replies.

(** ** Witnesses *)

Definition ex_http (content_type : string) (form : option string) : request :=
  mkHttpRequest "POST" "/mutate" content_type (Some (Ok "review")) form.

Definition ex_decode (body : string) : AdmissionReview * option string :=
  if decide (body = "review") then (ex_review, None) else (mkAdmissionReview None, Some "no review").
Definition ex_marshal_review (r : AdmissionResponse) : result string string :=
  Ok (UID r +:+ ":" +:+ default "" (Patch r)).

Definition ex_server : Server (World serviceAccountCache FakeConfig) :=
  mkServer (ex_world ex_cache ex_identities [7202]%Z) ∅ ∅ [].

Lemma metrics_tell_what_was_sent_witness :
  ∃ code text s', mutate_route ex_decode ex_marshal_review ex_unmarshal ex_marshal ex_modifier ex_timeout
      response _ fresh_response (ex_http "text/plain" None) ex_server = Some (replied code text, s') ∧
    code = 415%Z.
Proof.
  destruct (mutate_route ex_decode ex_marshal_review ex_unmarshal ex_marshal ex_modifier ex_timeout
      response _ fresh_response (ex_http "text/plain" None) ex_server) as [[w' s']|] eqn:H;
    [|exfalso; by vm_compute in H].
  destruct (metrics_tell_what_was_sent ex_decode ex_marshal_review ex_unmarshal ex_marshal ex_modifier
    ex_timeout (ex_http "text/plain" None) ex_server s' w') as (code & text & w & Hw & _ & Hc).
  - reflexivity.
  - exact H.
  - exists code, text, s'. rewrite Hw. split; [reflexivity|]. exact (proj1 Hc).
Defined.

Lemma mutate_route_answers_witness :
  ∃ s', mutate_route ex_decode ex_marshal_review ex_unmarshal ex_marshal ex_modifier ex_timeout
      response _ fresh_response (ex_http "application/json" None) ex_server =
    Some (replied 200 "uid:patch", s').
Proof.
  destruct (MutatePod ex_unmarshal ex_marshal ex_modifier ex_timeout (Some ex_review) (app ex_server))
    as [[r w]|] eqn:H; [|exfalso; by vm_compute in H].
  assert (Patch r = Some "patch") as Hp by (vm_compute in H; injection H as <- _; reflexivity).
  destruct (mutate_route_answers ex_decode ex_marshal_review ex_unmarshal ex_marshal ex_modifier ex_timeout
    (ex_http "application/json" None) ex_server ex_review None r w "uid:patch") as [Hr _].
  - reflexivity.
  - reflexivity.
  - reflexivity.
  - exact H.
  - unfold ex_marshal_review. cbn. by rewrite Hp.
  - eexists. exact Hr.
Defined.

Lemma malformed_form_is_logged_as_ok_witness :
  ∃ w' s', mutate_route ex_decode ex_marshal_review ex_unmarshal ex_marshal ex_modifier ex_timeout
      response _ fresh_response (ex_http "application/json" (Some "invalid URL escape")) ex_server =
    Some (w', s') ∧ sent_code w' = Some 400%Z.
Proof.
  destruct (malformed_form_is_logged_as_ok ex_decode ex_marshal_review ex_unmarshal ex_marshal ex_modifier
    ex_timeout (ex_http "application/json" (Some "invalid URL escape")) "invalid URL escape" ex_server)
    as (w' & Hr & Hc).
  - reflexivity.
  - eexists w', _. split; [exact Hr|exact Hc].
Defined.
