(* ===== verification/FileWatcher.v ===== *)
(** * The file watcher

    Models src/pkg/filesystem/file_watcher.go: a worker reloads the file whenever the work
    queue owes it the one item, events of the file add the item, and a failed reload adds it
    again after a delay. The queue is client-go's, known by the interface [WorkQueue] and its
    laws. What is watched is the directory of the path, and fsnotify, known by the interface
    [FSNotify], names its events after the entry of the directory that changes: a change that
    does not go through an entry of the path's own name raises no event of that name. Steps of
    the worker, of the event loop, of the cancellation and of whoever changes files interleave
    freely. *)

From S2P Require Import Prelude GoStd Json ContainerCredentials.

(** ** The work queue

    Only the one key [workItemKey] is ever queued, so the operations have no item argument. *)

Class WorkQueue (Q : Type) := {
  (** [NewNamedRateLimitingQueue] over an exponential limiter: the shortest and the longest
      delay, in nanoseconds, and the name. *)
  q_New : Z → Z → string → Q;
  q_Add : Q → Q;
  q_Get : Q → option Q;
  q_Done : Q → Q;
  q_AddRateLimited : Q → Q;
  q_Forget : Q → Q;
  (** A delay runs out. *)
  q_tick : Q → Q;
  (** The item will be handed out: it is queued, to be queued after [Done], or delayed. *)
  q_owed : Q → bool;
  (** The item is handed out and not done. *)
  q_held : Q → bool
}.

(** The documented promises: an item added is handed out again, once it is not held, however
    often it was added, and only then; a delayed item is added some time later. *)
Class WorkQueueLaws (Q : Type) `{!WorkQueue Q} : Prop := {
  held_New base max name : q_held (q_New base max name) = false;
  owed_Add q : q_owed (q_Add q) = true;
  held_Add q : q_held (q_Add q) = q_held q;
  owed_AddRateLimited q : q_owed (q_AddRateLimited q) = true;
  held_AddRateLimited q : q_held (q_AddRateLimited q) = q_held q;
  owed_Forget q : q_owed (q_Forget q) = q_owed q;
  held_Forget q : q_held (q_Forget q) = q_held q;
  owed_tick q : q_owed (q_tick q) = q_owed q;
  held_tick q : q_held (q_tick q) = q_held q;
  owed_Done q : q_owed (q_Done q) = q_owed q;
  held_Done q : q_held (q_Done q) = false;
  held_Get q q' : q_Get q = Some q' → q_held q' = true;
  owed_Get q q' : q_Get q = Some q' → q_owed q = true;
  Get_owed q : q_owed q = true → q_held q = false → ∃ n, is_Some (q_Get (Nat.iter n q_tick q))
}.

(** ** fsnotify

    The name of an event: from the directory as it was given to [Add] and the entry of it that
    has changed. It is documented as the path relative to the input of [Add]; what it is for the
    root directory is left open. *)

Class FSNotify := event_name : string → string → string.

Class FSNotifyLaws `{!FSNotify} : Prop :=
  event_below_dir dir entry : dir ≠ "/" → event_name dir entry = dir +:+ "/" +:+ entry.

(** ** Loading *)

(** What the file system answers for the path. *)
Inductive file_state :=
| Missing
| Unreadable
| Content (content : string).

Inductive load_error (E : Type) :=
| ReadFile_failed
| handler_failed (e : E).
Arguments ReadFile_failed {E}.
Arguments handler_failed {E} e.

Section watcher.
Context {Q H E : Type} `{!WorkQueue Q, !WorkQueueLaws Q} `{FS : FSNotify}.

(** The handler gets [None] for nil. *)
Context (path : string) (handler : option string → H → result E unit * H).

Definition call_handler (content : option string) (h : H) : result (load_error E) unit * H :=
  match handler content h with
  | (Ok _, h') => (Ok tt, h')
  | (Err e, h') => (Err (handler_failed e), h')
  end.

(** [stat] is the file when [os.Stat] looks, [read] when [os.ReadFile] does. *)
Definition loadFile (stat read : file_state) (h : H) : result (load_error E) unit * H :=
  match stat with
  | Missing => call_handler None h
  | _ =>
      match read with
      | Content content => call_handler (Some content) h
      | _ => (Err ReadFile_failed, h)
      end
  end.

(** ** The system *)

(** Where the worker stands in [processNextWorkItem]; before the first poll it is [Unstarted]. *)
Inductive phase :=
| Unstarted
| Idle
| Got
| Statted (stat : file_state)
| Loaded (ok : bool)
| Finishing.

(** The event loop, as the context has it: running, cancelled and not yet aware of it, or
    returned with the watcher closed. *)
Inductive loop_state :=
| Open
| Cancelled
| Closed.

(** [file]: what the path leads to. [watching]: the directory has been added. *)
Record watcher := mkWatcher {
  file : file_state;
  watching : bool;
  loop : loop_state;
  events : list string;
  queue : Q;
  worker : phase;
  state : H
}.

Definition processEvent (name : string) (q : Q) : Q := if decide (name = path) then q_Add q else q.

(** [Watch] adds the item before it starts the worker and the event loop, and only then the
    directory to the watcher. *)
Definition Watch_start (f : file_state) (q : Q) (h : H) : watcher :=
  mkWatcher f false Open [] (q_Add q) Unstarted h.

(** An error returned, an error the process dies of, or a watcher that runs. *)
Inductive watch_result (X : Type) :=
| Watching (w : watcher)
| WatchError (err : X)
| WatchFatal (err : X).
Arguments Watching {X}.
Arguments WatchError {X}.
Arguments WatchFatal {X}.

(** [NewWatcher] and [Add] are fsnotify's answers. Without a watcher nothing is started, and the
    item stays in the queue; a directory that cannot be added is fatal. *)
Definition Watch {X} (NewWatcher : option X) (Add : string → option X) (f : file_state) (q : Q) (h : H)
    : watch_result X * Q :=
  let q' := q_Add q in
  match NewWatcher with
  | Some err => (WatchError err, q')
  | None =>
      match Add (Filepath.Dir path) with
      | Some err => (WatchFatal err, q')
      | None => (Watching (Watch_start f q h), q')
      end
  end.

(** What the change of an entry of the directory raises. *)
Definition raise (entry : string) (s : watcher) : list string :=
  if watching s then events s ++ [event_name (Filepath.Dir path) entry] else events s.

(** [step_change] changes an entry of the directory, and with it perhaps what the path leads to;
    [step_behind] changes that behind a link out of the directory, or with an event that the
    kernel has dropped, which fsnotify reports as an error and the event loop only logs. When
    the event loop sees the cancellation it closes the watcher and the events left are
    dropped; a worker that has started goes on, since the queue is never shut down, and one
    that has not never will. *)
Inductive step : watcher → watcher → Prop :=
| step_watch s :
    loop s ≠ Closed →
    step s (mkWatcher (file s) true (loop s) (events s) (queue s) (worker s) (state s))
| step_change entry f s :
    has_char "/" entry = false →
    step s (mkWatcher f (watching s) (loop s) (raise entry s) (queue s) (worker s) (state s))
| step_behind f s :
    step s (mkWatcher f (watching s) (loop s) (events s) (queue s) (worker s) (state s))
| step_event name es s :
    events s = name :: es →
    step s (mkWatcher (file s) (watching s) (loop s) es (processEvent name (queue s)) (worker s) (state s))
| step_cancel s :
    loop s = Open →
    step s (mkWatcher (file s) (watching s) Cancelled (events s) (queue s) (worker s) (state s))
| step_close s :
    loop s = Cancelled →
    step s (mkWatcher (file s) false Closed [] (queue s) (worker s) (state s))
| step_tick s :
    step s (mkWatcher (file s) (watching s) (loop s) (events s) (q_tick (queue s)) (worker s) (state s))
| step_begin s :
    worker s = Unstarted → loop s = Open →
    step s (mkWatcher (file s) (watching s) (loop s) (events s) (queue s) Idle (state s))
| step_get q s :
    worker s = Idle → q_Get (queue s) = Some q →
    step s (mkWatcher (file s) (watching s) (loop s) (events s) q Got (state s))
| step_stat s :
    worker s = Got →
    step s (mkWatcher (file s) (watching s) (loop s) (events s) (queue s) (Statted (file s)) (state s))
| step_load stat r h s :
    worker s = Statted stat → loadFile stat (file s) (state s) = (r, h) →
    step s (mkWatcher (file s) (watching s) (loop s) (events s) (queue s) (Loaded (is_ok r)) h)
| step_requeue ok s :
    worker s = Loaded ok →
    step s (mkWatcher (file s) (watching s) (loop s) (events s)
              (if ok then q_Forget (queue s) else q_AddRateLimited (queue s)) Finishing (state s))
| step_done s :
    worker s = Finishing →
    step s (mkWatcher (file s) (watching s) (loop s) (events s) (q_Done (queue s)) Idle (state s)).

(** ** Specification *)

Definition busy (p : phase) : bool := match p with Unstarted | Idle => false | _ => true end.

(** Nothing is under way. *)
Definition quiescent (s : watcher) : Prop := events s = [] ∧ q_owed (queue s) = false ∧ worker s = Idle.

(** The state is that of a successful load of the file as it is. *)
Definition synced (s : watcher) : Prop := ∃ h, loadFile (file s) (file s) h = (Ok tt, state s).

(** A reload is on its way. *)
Definition pending (s : watcher) : Prop := path ∈ events s ∨ q_owed (queue s) = true.

(** The state is current, or the worker is about to make it so, or a reload is on its way. *)
Definition watcher_inv (s : watcher) : Prop :=
  q_held (queue s) = busy (worker s) ∧
  (pending s ∨
   match worker s with
   | Unstarted => False
   | Idle | Finishing => synced s
   | Got => True
   | Statted stat => stat = file s
   | Loaded ok => if ok then synced s else True
   end).

(** The entry of the directory that the path names. *)
Definition own_entry : string := default "" (last (GoStrings.Split path "/")).

(** A step in a run without a cancellation where the file changes only through its own entry of
    the directory, while the directory is watched. *)
Definition timely (s s' : watcher) : Prop :=
  step s s' ∧ loop s' = Open ∧
  (file s' = file s ∨ watching s = true ∧ events s' = events s ++ [event_name (Filepath.Dir path) own_entry]).

(** The events of the own entry have the name the event loop looks for. *)
Definition well_named : Prop := event_name (Filepath.Dir path) own_entry = path.

(** A step that raises no event of this name. *)
Definition unnamed (s s' : watcher) : Prop := step s s' ∧ events s' ≠ events s ++ [path].

(** ** Lemmas *)

Lemma held_processEvent name q : q_held (processEvent name q) = q_held q.
Proof. unfold processEvent. case_decide; [apply held_Add|done]. Qed.

(** An event is not lost before it is processed, and its item is not after. *)
Lemma raise_pending entry s : path ∈ events s → path ∈ raise entry s.
Proof. unfold raise. case_match; set_solver. Qed.

Lemma event_pending name es q :
  path ∈ name :: es ∨ q_owed q = true → path ∈ es ∨ q_owed (processEvent name q) = true.
Proof. unfold processEvent. case_decide; rewrite ?owed_Add; set_solver. Qed.

Lemma step_inv s s' : well_named → watcher_inv s → timely s s' → watcher_inv s'.
Proof.
  intros Hname (Hheld & Hinv) (Hstep & Hns & Hw). unfold well_named in Hname. rewrite Hname in Hw.
  destruct Hstep as [s|entry f s|f s|name es s He|s Hc|s Hc|s|s Hp Hc|q s Hp Hg|s Hp|stat r h s Hp Hl|ok s Hp|s Hp];
    unfold watcher_inv, pending in *; cbn [watching loop queue worker events file state] in *;
    rewrite ?Hp in Hheld, Hinv; cbn [busy] in *.
  - done.
  - split; [done|]. destruct Hw as [-> | [_ ->]]; [|left; left; set_solver].
    destruct Hinv as [[Hev|Ho]|Hinv]; auto using raise_pending.
  - destruct Hw as [-> | [_ Hw]]; [done|]. apply (f_equal length) in Hw. rewrite length_app in Hw. simpl in Hw. lia.
  - rewrite He in Hinv. rewrite held_processEvent. split; [done|].
    destruct Hinv as [Hpend|Hinv]; [left; by apply event_pending|by right].
  - done.
  - done.
  - by rewrite held_tick, owed_tick.
  - split; [done|]. destruct Hinv as [Hpend|[]]; by left.
  - split; [by erewrite held_Get|by right].
  - split; [done|]. tauto.
  - split; [done|]. destruct Hinv as [Hpend|Heq]; [by left|right].
    subst stat. destruct r as [[]|]; [|done]. by exists (state s).
  - destruct ok; rewrite ?held_Forget, ?held_AddRateLimited, ?owed_Forget, ?owed_AddRateLimited; auto.
  - by rewrite held_Done, owed_Done.
Qed.

Lemma timely_inv s0 s : well_named → watcher_inv s0 → rtc timely s0 s → watcher_inv s.
Proof. intros Hname H0. induction 1; eauto using step_inv. Qed.

Lemma Watch_start_inv f q h : q_held q = false → watcher_inv (Watch_start f q h).
Proof. intros Hq. split; simpl; [by rewrite held_Add|]. left. right. apply owed_Add. Qed.

Lemma step_held s s' : step s s' → q_held (queue s) = busy (worker s) → q_held (queue s') = busy (worker s').
Proof.
  intros Hstep. destruct Hstep as [s|entry f s|f s|name es s He|s Hc|s Hc|s|s Hp Hc|q s Hp Hg|s Hp|stat r h s Hp Hl|ok s Hp|s Hp];
    cbn [queue worker]; rewrite ?Hp; cbn [busy]; intros Hh; rewrite ?held_processEvent, ?held_tick, ?held_Done; auto.
  - by erewrite held_Get.
  - by destruct ok; rewrite ?held_Forget, ?held_AddRateLimited.
Qed.

Lemma steps_held s s' :
  rtc step s s' → q_held (queue s) = busy (worker s) → q_held (queue s') = busy (worker s').
Proof. induction 1; eauto using step_held. Qed.

(** The worker can always finish the item it is at, and loses no reload that is owed. *)
Lemma round_ends s :
  loop s = Open ∨ worker s ≠ Unstarted →
  ∃ s', rtc step s s' ∧ worker s' = Idle ∧ file s' = file s ∧ events s' = events s ∧
    (q_owed (queue s) = true → q_owed (queue s') = true).
Proof.
  assert (∀ s, worker s = Finishing → ∃ s', rtc step s s' ∧ worker s' = Idle ∧ file s' = file s ∧
    events s' = events s ∧ (q_owed (queue s) = true → q_owed (queue s') = true)) as Hfin.
  { intros s0 Hp. eexists. split; [eapply rtc_once, step_done, Hp|]. simpl. by rewrite owed_Done. }
  assert (∀ s ok, worker s = Loaded ok → ∃ s', rtc step s s' ∧ worker s' = Idle ∧ file s' = file s ∧
    events s' = events s ∧ (q_owed (queue s) = true → q_owed (queue s') = true)) as Hload.
  { intros s0 ok Hp. edestruct Hfin as (s' & Hs' & Hi & Hf & He & Ho); [|exists s'; split; [eapply rtc_l; [by eapply step_requeue|exact Hs']|]]; [done|].
    simpl in *. split_and!; [done..|]. intros Hq. apply Ho. destruct ok; [by rewrite owed_Forget|apply owed_AddRateLimited]. }
  assert (∀ s stat, worker s = Statted stat → ∃ s', rtc step s s' ∧ worker s' = Idle ∧ file s' = file s ∧
    events s' = events s ∧ (q_owed (queue s) = true → q_owed (queue s') = true)) as Hstat.
  { intros s0 stat Hp. destruct (loadFile stat (file s0) (state s0)) as [r h] eqn:Hl.
    edestruct Hload as (s' & Hs' & H'); [|exists s'; split; [eapply rtc_l; [by eapply step_load|exact Hs']|]]; done. }
  intros Hlive. destruct (worker s) eqn:Hp; [|by exists s| |by eauto..].
  { destruct Hlive as [Hns|[]]; [|done]. eexists. split; [by apply rtc_once, step_begin|]. done. }
  edestruct Hstat as (s' & Hs' & H'); [|exists s'; split; [eapply rtc_l; [by eapply step_stat|exact Hs']|]]; done.
Qed.

Lemma ticks s n :
  rtc step s (mkWatcher (file s) (watching s) (loop s) (events s) (Nat.iter n q_tick (queue s)) (worker s) (state s)).
Proof.
  induction n as [|n IH]; [by destruct s|]. eapply rtc_r; [exact IH|]. apply step_tick.
Qed.

(** The event loop comes to the event of the file. *)
Lemma drain s :
  path ∈ events s → ∃ s', rtc step s s' ∧ file s' = file s ∧ worker s' = worker s ∧ q_owed (queue s') = true.
Proof.
  remember (events s) as es eqn:He. revert s He. induction es as [|name es IH]; intros s He Hin; [set_solver|].
  destruct (decide (name = path)) as [->|Hne].
  - eexists. split; [eapply rtc_once, step_event; by symmetry|]. cbn [file worker queue]. split_and!; [done..|].
    unfold processEvent. rewrite decide_True by done. apply owed_Add.
  - edestruct (IH (mkWatcher (file s) (watching s) (loop s) es (processEvent name (queue s)) (worker s) (state s)))
      as (s' & Hs' & H'); [done|set_solver|].
    exists s'. split; [|exact H']. eapply rtc_l; [|exact Hs']. apply step_event. by symmetry.
Qed.

(** The state follows the file: when the file has changed only through its own entry and while
    its directory was watched, then whatever the interleaving of events, failed loads, delays and changes,
    once no event is pending, the queue owes nothing and the worker is idle, the state is
    that of a successful load of the file as it is. *)
Lemma watcher_converges f q h s :
  well_named → q_held q = false → rtc timely (Watch_start f q h) s → quiescent s → synced s.
Proof.
  intros Hname Hq Hs (He & Ho & Hi). apply timely_inv in Hs as [_ Hs]; [|done|by apply Watch_start_inv].
  rewrite Hi in Hs. destruct Hs as [[Hs|Hs]|Hs]; [rewrite He in Hs; set_solver|congruence|done].
Qed.

(** A watcher at rest stays at rest as long as no event of the path's name is raised. *)
Definition at_rest (s : watcher) : Prop := (path ∉ events s) ∧ q_owed (queue s) = false ∧ worker s = Idle.

Lemma quiescent_at_rest s : quiescent s → at_rest s.
Proof. intros (He & Ho & Hi). unfold at_rest. rewrite He. split_and!; [apply not_elem_of_nil|done..]. Qed.

Lemma unnamed_rest s s' : unnamed s s' → at_rest s → at_rest s' ∧ state s' = state s.
Proof.
  unfold at_rest. intros [Hstep Hne] (He & Ho & Hi).
  destruct Hstep as [s|entry f s|f s|name es s Hes|s Hc|s Hc|s|s Hp Hc|q s Hp Hg|s Hp|stat r h s Hp Hl|ok s Hp|s Hp];
    cbn [queue worker events state] in *; try congruence; split_and!; try done.
  - unfold raise in *. destruct (watching s); [|done].
    intros [?|Heq%list_elem_of_singleton]%elem_of_app; [done|]. by rewrite <- Heq in Hne.
  - rewrite Hes in He. set_solver.
  - unfold processEvent. rewrite Hes in He. rewrite decide_False by set_solver. done.
  - apply not_elem_of_nil.
  - by rewrite owed_tick.
  - apply owed_Get in Hg. congruence.
  - apply owed_Get in Hg. congruence.
Qed.

Lemma unnamed_run s s' : rtc unnamed s s' → at_rest s → state s' = state s.
Proof.
  induction 1 as [s|s s1 s' Hs _ IH]; intros Hrest; [done|].
  destruct (unnamed_rest s s1 Hs Hrest) as [Hrest1 Heq]. rewrite <- Heq. auto.
Qed.

Lemma append_ne {A} (l : list A) x : l ≠ l ++ [x].
Proof. intros Heq%(f_equal length). rewrite length_app in Heq. simpl in Heq. lia. Qed.

(** Only the own entry can have an event of the path's name. *)
Lemma event_name_own `{!FSNotifyLaws} entry :
  Filepath.Dir path ≠ "/" → has_char "/" entry = false → event_name (Filepath.Dir path) entry = path →
  path = Filepath.Dir path +:+ "/" +:+ own_entry.
Proof.
  intros Hroot Hentry Hname. rewrite event_below_dir in Hname by done. rewrite <- Hname at 1.
  do 2 f_equal. unfold own_entry. rewrite <- Hname. change ("/" +:+ entry) with (String "/" entry).
  by rewrite last_Split.
Qed.

(** A path that is not the directory, a slash and the entry has no events of its name. *)
Lemma badly_named_step `{!FSNotifyLaws} s s' :
  Filepath.Dir path ≠ "/" → path ≠ Filepath.Dir path +:+ "/" +:+ own_entry → step s s' → unnamed s s'.
Proof.
  intros Hroot Hbad Hstep. split; [done|].
  destruct Hstep as [s|entry f s Hentry|f s|name es s Hes|s Hc|s Hc|s|s Hp Hc|q s Hp Hg|s Hp|stat r h s Hp Hl|ok s Hp|s Hp];
    cbn [events]; try apply append_ne.
  - unfold raise. destruct (watching s); [|apply append_ne]. intros Heq%app_inv_head. injection Heq as Hname.
    destruct Hbad. by eapply event_name_own.
  - rewrite Hes. intros Heq%(f_equal length). rewrite length_app in Heq. simpl in Heq. lia.
  - intros Heq%(f_equal length). rewrite length_app in Heq. simpl in Heq. lia.
Qed.

(** ** Theorems *)

(** C32. A pending reload happens: from every state the watcher can reach, however it got
    there, if an event is pending or the queue owes the item, then with nothing else
    happening the worker can come to load the file as it is; unless the cancellation has come
    before the worker has started. *)
Theorem pending_reload_happens f q h s :
  q_held q = false → rtc step (Watch_start f q h) s → loop s = Open ∨ worker s ≠ Unstarted → pending s →
  ∃ s' r, rtc step s s' ∧ file s' = file s ∧ worker s' = Loaded (is_ok r) ∧
    ∃ h0, loadFile (file s) (file s) h0 = (r, state s').
Proof.
  intros Hq Hs Hlive Hp. assert (q_held (queue s) = busy (worker s)) as Hheld.
  { eapply steps_held; [exact Hs|]. simpl. by rewrite held_Add. }
  assert (∃ s1, rtc step s s1 ∧ file s1 = file s ∧ worker s1 = Idle ∧ q_owed (queue s1) = true)
    as (s1 & Hs1 & Hf1 & Hi1 & Ho1).
  { destruct (round_ends s Hlive) as (s1 & Hs1 & Hi & Hf & He & Ho). destruct Hp as [Hev|Howed]; [|by exists s1; auto].
    destruct (drain s1) as (s2 & Hs2 & Hf2 & Hw2 & Ho2); [by rewrite He|]. exists s2.
    split; [by etrans|]. split_and!; congruence. }
  assert (q_held (queue s1) = false) as Hh1 by (rewrite (steps_held _ _ Hs1 Hheld), Hi1; done).
  destruct (Get_owed _ Ho1 Hh1) as (n & q2 & Hget).
  destruct (loadFile (file s1) (file s1) (state s1)) as [r h2] eqn:Hl.
  eexists _, r. split.
  - etrans; [exact Hs1|]. etrans; [apply (ticks s1 n)|].
    eapply rtc_l; [by eapply step_get|]. eapply rtc_l; [by eapply step_stat|].
    eapply rtc_once, step_load; [done|]. simpl. exact Hl.
  - simpl. split_and!; [done..|]. rewrite <- Hf1. eauto.
Qed.

(** What raises no event of the path's own name is never loaded: from a watcher with nothing
    under way, the state stays what it is over every run without such an event, whatever the
    path comes to lead to. So it is for changes behind a link, as when the directory a mounted
    ConfigMap's files lead through is swapped; and if the path is not, byte for byte, its
    directory, a slash and an entry, as for a file of the working directory given by its name
    alone or a path that [filepath.Clean] changes, it is so over every run. *)
Theorem unnamed_changes_are_lost `{!FSNotifyLaws} s :
  quiescent s →
  (∀ s', rtc unnamed s s' → state s' = state s) ∧
  (Filepath.Dir path ≠ "/" → path ≠ Filepath.Dir path +:+ "/" +:+ own_entry → ∀ s', rtc step s s' → state s' = state s).
Proof.
  intros Hq%quiescent_at_rest. split; [by intros s' Hs; apply unnamed_run|].
  intros Hroot Hbad s' Hs. apply unnamed_run; [|done].
  eapply rtc_subrel; [|exact Hs]. intros s1 s2. by apply badly_named_step.
Qed.

End watcher.
Arguments Watching {Q H X} w.
Arguments WatchError {Q H X} err.
Arguments WatchFatal {Q H X} err.

(** ** Paths *)

(** An absolute path as [filepath.Clean] leaves it, of a file below a directory other than the
    root. *)
Definition normal_path (path : string) : Prop :=
  ∃ es e, es ≠ [] ∧ Forall plain_elem es ∧ plain_elem e ∧ path = "/" +:+ GoStrings.Join (es ++ [e]) "/".

Lemma normal_well_named `{!FSNotify, !FSNotifyLaws} path : normal_path path → well_named path.
Proof.
  intros (es & e & Hne & Hes & He & ->). unfold well_named. rewrite Dir_rooted by done.
  assert (own_entry ("/" +:+ GoStrings.Join (es ++ [e]) "/") = e) as ->.
  { unfold own_entry. rewrite Join_snoc, <- str_app_assoc by done.
    change ("/" +:+ e) with (String "/" e). rewrite last_Split; [done|apply He]. }
  rewrite event_below_dir; [by rewrite Join_snoc by done|].
  destruct es as [|x [|y es]]; [done| |]; apply Forall_cons in Hes as [[Hx _] _]; by destruct x.
Qed.

(** ** Making a watcher *)

Definition workqueueBaseDelay : Z := 10 * 1000000.
Definition workqueueMaxDelay : Z := 5 * 60 * 1000000000.

(** Of the Go struct without fsnotify's watcher, which [Watch] makes. *)
Record FileWatcher (Q H E : Type) := mkFileWatcher {
  fw_path : string;
  fw_handler : option string → H → result E unit * H;
  fw_queue : Q
}.
Arguments mkFileWatcher {Q H E}.
Arguments fw_path {Q H E}.
Arguments fw_handler {Q H E}.
Arguments fw_queue {Q H E}.

Definition NewFileWatcher {Q H E} `{!WorkQueue Q} (purpose path : string) (handler : option string → H → result E unit * H)
    : FileWatcher Q H E :=
  mkFileWatcher path handler (q_New workqueueBaseDelay workqueueMaxDelay purpose).

(** [StartWatcher] of [FileConfig], with fsnotify's answers and the state [file] the file is in. *)
Definition StartWatcher {Q X} `{!WorkQueue Q} (NewWatcher : option X) (Add : string → option X) (file : file_state)
    (filePath : string) (f : FileConfig) : watch_result (Q := Q) (H := FileConfig) X :=
  let w := NewFileWatcher "container-credential-config" filePath Load in
  (Watch (fw_path w) NewWatcher Add file (fw_queue w) f).1.

(** ** A queue, and the configuration of src/pkg/containercredentials behind a watcher *)

(** One key of client-go's queue: in the dirty set, in the processing set, and how many delayed
    additions are waiting. *)
Record client_queue := mkQueue { dirty : bool; processing : bool; delayed : nat }.

#[export] Instance client_WorkQueue : WorkQueue client_queue := {|
  q_New _ _ _ := mkQueue false false 0;
  q_Add q := mkQueue true (processing q) (delayed q);
  q_Get q := if dirty q && negb (processing q) then Some (mkQueue false true (delayed q)) else None;
  q_Done q := mkQueue (dirty q) false (delayed q);
  q_AddRateLimited q := mkQueue (dirty q) (processing q) (S (delayed q));
  q_Forget q := q;
  q_tick q := match delayed q with
              | 0 => q
              | S n => mkQueue true (processing q) n
              end;
  q_owed q := dirty q || bool_decide (0 < delayed q);
  q_held := processing
|}.

#[export] Instance client_WorkQueueLaws : WorkQueueLaws client_queue.
Proof.
  split; try done.
  - intros q. simpl. apply orb_true_r.
  - intros [d p [|n]]; simpl; [done|]. by rewrite orb_true_r.
  - by intros [d p [|n]].
  - intros q q'. simpl. destruct (dirty q && _); [|done]. by intros [= <-].
  - intros q q'. simpl. by destruct (dirty q).
  - intros [[] p [|n]]; simpl; try done; intros _ ->; [exists 0|exists 0|exists 1]; by eexists.
Qed.

Definition empty_queue : client_queue := mkQueue false false 0.

#[export] Instance joined_names : FSNotify := λ dir entry, dir +:+ "/" +:+ entry.

#[export] Instance joined_names_laws : FSNotifyLaws.
Proof. by intros dir entry _. Qed.

(** The watched file. *)
Definition ex_path : string := "/etc/webhook/identities.json".

Abbreviation config_step := (step (Q := client_queue) ex_path Load).

(** One step of a concrete run, and the state it leads to. *)
Ltac next tac :=
  eapply rtc_l; [tac|cbn [file watching loop events queue worker state dirty processing delayed is_ok]].

(** The content [Load] is called with. *)
Definition content_of (f : file_state) : option (option string) :=
  match f with
  | Missing => Some None
  | Unreadable => None
  | Content c => Some (Some c)
  end.

(** Loading never touches the settings. *)
Lemma loadFile_settings stat read h r h' : loadFile Load stat read h = (r, h') → same_settings h' h.
Proof.
  unfold loadFile, call_handler. intros H. destruct stat; [|destruct read; try by simplify_eq..];
    match type of H with context [Load ?c h] => pose proof (Load_settings c h) as Hs; destruct (Load c h) as [[]] end;
    by simplify_eq.
Qed.

Lemma run_settings {Q} `{!WorkQueue Q, !FSNotify} path (s s' : watcher (Q := Q)) :
  rtc (timely path Load) s s' → same_settings (state s') (state s).
Proof.
  induction 1 as [|s1 s2 s3 [Hstep _] _ IH]; [done|]. unfold same_settings in *. rewrite IH.
  destruct Hstep as [| | | | | | | | | |stat r h s Hp Hl| |]; try done. cbn [state]. by eapply loadFile_settings.
Qed.

(** Once nothing is under way, the container-credentials configuration answers for exactly
    the identities the file lists, and the file is one that loads: a file that is refused
    or cannot be read keeps the watcher retrying. This holds of every watcher [StartWatcher]
    starts on a normal path, over any work queue and any fsnotify that keep their promises. *)
Theorem watched_config_is_current {Q X} `{!WorkQueue Q, !WorkQueueLaws Q, !FSNotify, !FSNotifyLaws} Add
    filePath aud mount vol path uri f s0 s :
  normal_path filePath →
  StartWatcher (Q := Q) (X := X) None Add f filePath (NewFileConfig aud mount vol path uri) = Watching s0 →
  rtc (timely filePath Load) s0 s → quiescent s →
  ∃ content ids, content_of (file s) = Some content ∧ requested content = Some ids ∧ answers (state s) ids.
Proof.
  unfold StartWatcher, Watch. intros Hpath%normal_well_named Hstart Hs Hq. cbn [fw_path] in Hstart.
  destruct (Add _); [done|]. injection Hstart as <-. assert (synced Load s) as (h & Hsync)
    by (eapply watcher_converges; [exact Hpath| |exact Hs|exact Hq]; apply held_New).
  assert (∃ content, content_of (file s) = Some content ∧ Load content h = (Ok (), state s)) as (content & Hc & Hl).
  { unfold loadFile, call_handler in Hsync.
    destruct (file s) as [| |c]; [exists None|done|exists (Some c)];
      (split; [done|]); destruct (Load _ h) as [[[]|] h'] eqn:Hl; by simplify_eq. }
  exists content. unfold Load, requested in *. destruct content as [[|b c]|]; simplify_eq.
  - exists []. split_and!; try done. rewrite <- Hl. apply answers_nil_cache.
  - destruct (unmarshal_config _) as [o|e]; [|done]. injection Hl as <-. exists (Identities o). split_and!; try done.
    apply answers_new_cache.
  - exists []. split_and!; try done. rewrite <- Hl. apply answers_nil_cache.
Qed.

(** A change in the window between the first load and the watch is lost: the item is
    queued before the directory is watched, so a file written after the worker has looked
    and before the watch stands is not loaded, and nothing under way will change that. *)
Theorem update_before_watch_is_lost aud mount vol path uri :
  ∃ s,
    rtc config_step (Watch_start Missing empty_queue (NewFileConfig aud mount vol path uri)) s ∧
    quiescent s ∧ watching s = true ∧ file s = Content ex_identities_file ∧
    requested (Some ex_identities_file) = Some [mkIdentity "default" "app"] ∧
    FileConfig_Get "default" "app" (state s) = None.
Proof.
  eexists. split.
  - unfold Watch_start. next ltac:(by apply step_begin). next ltac:(by eapply step_get). next ltac:(by eapply step_stat).
    next ltac:(by eapply step_load). next ltac:(by eapply step_requeue). next ltac:(by eapply step_done).
    next ltac:(by apply (step_change _ _ "identities.json" (Content ex_identities_file))). by apply rtc_once, step_watch.
  - split; [by vm_compute|]. split; [reflexivity|]. split; [reflexivity|].
    split; vm_compute; reflexivity.
Qed.

(** ** Witnesses *)

(** The run in which the directory is watched at once and the file is there. *)
Definition ex_watched : watcher :=
  mkWatcher (Q := client_queue) (Content ex_identities_file) true Open [] empty_queue Idle
    (Load (Some ex_identities_file) (NewFileConfig "aud" "/mnt" "vol" "token" "uri")).2.

Definition ex_started : watcher :=
  Watch_start (Content ex_identities_file) empty_queue (NewFileConfig "aud" "/mnt" "vol" "token" "uri").

Lemma ex_path_normal : normal_path ex_path.
Proof.
  exists ["etc"; "webhook"], "identities.json". split_and!; [done| | |reflexivity];
    repeat constructor; done.
Qed.

(** A step of that run that leaves the file alone. *)
Lemma quiet_step s s' : config_step s s' → loop s' = Open → file s' = file s → timely ex_path Load s s'.
Proof. intros. split_and!; auto. Qed.

Ltac next_quiet tac :=
  eapply rtc_l; [apply quiet_step; [tac|reflexivity|reflexivity]|
    cbn [file watching loop events queue worker state dirty processing delayed is_ok]].

Lemma ex_watched_reachable : rtc (timely ex_path Load) ex_started ex_watched.
Proof.
  assert (∃ s, rtc (timely ex_path Load) ex_started s ∧ s = ex_watched) as (s & Hs & <-); [|exact Hs].
  eexists. split.
  - next_quiet ltac:(by apply step_watch). next_quiet ltac:(by apply step_begin).
    next_quiet ltac:(by eapply step_get). next_quiet ltac:(by eapply step_stat).
    next_quiet ltac:(by eapply step_load). next_quiet ltac:(by eapply step_requeue).
    next_quiet ltac:(by eapply step_done). apply rtc_refl.
  - vm_compute. reflexivity.
Qed.

(** The directory that the link leads through is swapped: the path leads to an empty list, and
    the state is the old one. *)
Definition ex_swapped : watcher :=
  mkWatcher (Q := client_queue) (Content "{}") true Open [] empty_queue Idle
    (Load (Some ex_identities_file) (NewFileConfig "aud" "/mnt" "vol" "token" "uri")).2.

Lemma ex_swapped_reachable : rtc (unnamed ex_path Load) ex_watched ex_swapped.
Proof.
  assert (∃ s, rtc (unnamed ex_path Load) ex_watched s ∧ s = ex_swapped) as (s & Hs & <-); [|exact Hs].
  eexists. split.
  - eapply rtc_l; [split; [by apply (step_change _ _ "..data" (Content "{}"))|by vm_compute]|].
    eapply rtc_once. split; [by apply (step_event _ _ "/etc/webhook/..data" [])|by vm_compute].
  - vm_compute. reflexivity.
Qed.

Lemma pending_reload_happens_witness :
  ∃ s' r, rtc config_step ex_started s' ∧ worker s' = Loaded (is_ok (E := load_error json_error) (A := unit) r).
Proof.
  destruct (pending_reload_happens ex_path Load (Content ex_identities_file) empty_queue
    (NewFileConfig "aud" "/mnt" "vol" "token" "uri") ex_started) as (s' & r & Hs & _ & Hw & _).
  - reflexivity.
  - apply rtc_refl.
  - left. reflexivity.
  - right. reflexivity.
  - exists s', r. split; [exact Hs|exact Hw].
Defined.

Lemma unnamed_changes_are_lost_witness :
  (quiescent ex_swapped ∧ file ex_swapped ≠ file ex_watched ∧ state ex_swapped = state ex_watched) ∧
  (∃ s', rtc (step (Q := client_queue) "identities.json" Load) ex_watched s' ∧ file s' = Missing ∧
    state s' = state ex_watched).
Proof.
  split.
  - split; [by vm_compute|]. split; [done|].
    refine (proj1 (unnamed_changes_are_lost ex_path Load ex_watched _) _ _); [by vm_compute|exact ex_swapped_reachable].
  - eexists. split.
    + apply rtc_once. by apply (step_change _ _ "identities.json" Missing).
    + split; [reflexivity|].
      refine (proj2 (unnamed_changes_are_lost "identities.json" Load ex_watched _) _ _ _ _); [by vm_compute|done|done|].
      apply rtc_once. by apply (step_change _ _ "identities.json" Missing).
Defined.

Lemma watched_config_is_current_witness :
  ∃ content ids, content_of (file ex_watched) = Some content ∧ requested content = Some ids ∧
    answers (state ex_watched) ids.
Proof.
  apply (watched_config_is_current (X := unit) (λ _, None) ex_path "aud" "/mnt" "vol" "token" "uri"
    (Content ex_identities_file) ex_started).
  - exact ex_path_normal.
  - reflexivity.
  - apply ex_watched_reachable.
  - by vm_compute.
Defined.
