(* ===== verification/FakeCache.v ===== *)
(** * The cache for tests

    Models src/pkg/cache/fake.go, the second implementation of the interface of the cache:
    what is proved of the handler against the laws of the interface holds with it too. *)

From S2P Require Import Prelude GoStd Pkg Json JsonPrint Notifications Cache.

Definition FakeServiceAccountCache := gmap string Entry.

Definition Fake_Add (name namespace role aud : string) (regionalSTS : bool) (tokenExpiration : Z)
    (f : FakeServiceAccountCache) : FakeServiceAccountCache :=
  <[namespace +:+ "/" +:+ name := mkEntry role aud regionalSTS tokenExpiration]> f.

Definition Fake_Pop (name namespace : string) (f : FakeServiceAccountCache) : FakeServiceAccountCache :=
  delete (namespace +:+ "/" +:+ name) f.

Definition Fake_ToJSON (f : FakeServiceAccountCache) : string := MarshalIndent (json_map json_entry f).

Definition Fake_Clear (f : FakeServiceAccountCache) : FakeServiceAccountCache := ∅.

(** One service account of [NewFakeServiceAccountCache]. A missing annotation reads as the
    empty string, which is no boolean and no number. *)
Definition Fake_add_account (f : FakeServiceAccountCache) (sa : ServiceAccount) : FakeServiceAccountCache :=
  let arn := default "" (sa_Annotations sa !! "eks.amazonaws.com/role-arn") in
  let audience := default "sts.amazonaws.com" (sa_Annotations sa !! "eks.amazonaws.com/audience") in
  let regionalSTSstr := default "" (sa_Annotations sa !! "eks.amazonaws.com/sts-regional-endpoints") in
  let regionalSTS := default false (Strconv.ParseBool regionalSTSstr) in
  let tokenExpirationStr := default "" (sa_Annotations sa !! "eks.amazonaws.com/token-expiration") in
  let tokenExpiration := default DefaultTokenExpiration (Strconv.ParseInt tokenExpirationStr) in
  Fake_Add (sa_Name sa) (sa_Namespace sa) arn audience regionalSTS tokenExpiration f.

Definition NewFakeServiceAccountCache (accounts : list ServiceAccount) : FakeServiceAccountCache :=
  foldl Fake_add_account ∅ accounts.

(** It never blocks, never hands out a notifier and does not change when read. *)
Definition Fake_Get (req : Request) (f : FakeServiceAccountCache) : Response :=
  match f !! CacheKey req with
  | None => mkResponse "" "" false DefaultTokenExpiration false None
  | Some resp =>
      mkResponse (RoleARN resp) (Audience resp) (UseRegionalSTS resp) (TokenExpiration resp) true None
  end.

Definition Fake_GetCommonConfigurations (name namespace : string) (f : FakeServiceAccountCache) : bool * Z :=
  match f !! (namespace +:+ "/" +:+ name) with
  | None => (false, DefaultTokenExpiration)
  | Some resp => (UseRegionalSTS resp, TokenExpiration resp)
  end.

#[export] Instance FakeServiceAccountCache_interface : ServiceAccountCache FakeServiceAccountCache := {|
  cache_Get req f := Some (Fake_Get req f, f);
  cache_GetCommonConfigurations := Fake_GetCommonConfigurations;
  cache_ToJSON := Fake_ToJSON;
  cache_Clear := Fake_Clear
|}.

#[export] Instance FakeServiceAccountCache_laws : ServiceAccountCacheLaws FakeServiceAccountCache.
Proof.
  split; simpl.
  - intros req f resp f' [= <- _]. unfold Fake_Get. by case_match.
  - intros req f _. eexists. split; [done|]. unfold Fake_Get. by case_match.
  - intros req f resp f' [= _ <-]. done.
Qed.

(** On an account that has a role, the fake and the real cache with the default settings hold
    the same entry, unless the account asks for a life time below the minimum. *)
Lemma Fake_add_account_entry (c : serviceAccountCache) sa :
  annotationPrefix c = "eks.amazonaws.com" → defaultAudience c = "sts.amazonaws.com" →
  defaultRegionalSTS c = false → defaultTokenExpiration c = DefaultTokenExpiration →
  Enabled (composeRoleArn c) = false →
  (∀ s n, sa_Annotations sa !! "eks.amazonaws.com/token-expiration" = Some s →
     Strconv.ParseInt s = Some n → (MinTokenExpiration ≤ n)%Z) →
  NewFakeServiceAccountCache [sa] = {[ sa_key (sa_Name sa) (sa_Namespace sa) := entry_of_sa c sa ]}.
Proof.
  intros Hp Ha Hs Ht He Hmin. unfold NewFakeServiceAccountCache, Fake_add_account, Fake_Add. simpl.
  etrans; [apply insert_empty|]. unfold sa_key, entry_of_sa, annotation. rewrite Hp, Ha, Hs, Ht.
  change ("eks.amazonaws.com" +:+ "/" +:+ RoleARNAnnotation) with "eks.amazonaws.com/role-arn".
  change ("eks.amazonaws.com" +:+ "/" +:+ AudienceAnnotation) with "eks.amazonaws.com/audience".
  change ("eks.amazonaws.com" +:+ "/" +:+ UseRegionalSTSAnnotation) with "eks.amazonaws.com/sts-regional-endpoints".
  change ("eks.amazonaws.com" +:+ "/" +:+ TokenExpirationAnnotation) with "eks.amazonaws.com/token-expiration".
  f_equal. f_equal.
  - destruct (sa_Annotations sa !! "eks.amazonaws.com/role-arn") as [arn|]; [|done].
    unfold role_arn. by rewrite He, andb_false_r.
  - by destruct (sa_Annotations sa !! "eks.amazonaws.com/sts-regional-endpoints").
  - destruct (sa_Annotations sa !! "eks.amazonaws.com/token-expiration") as [n|] eqn:Hn; [|done]. simpl.
    destruct (Strconv.ParseInt n) as [z|] eqn:Hz; [|done]. simpl. rewrite ValidateMin_max.
    specialize (Hmin _ _ eq_refl Hz). lia.
Qed.
