(* ===== verification/DumpProps.v ===== *)
(** * The dump of the cache

    [ToJSON], which the debug handler serves, reads back as the annotated half of the cache:
    with the reader the ConfigMap goes through, a dump is a configuration, and a cache fed
    with the dump of another answers as that one does. *)

From S2P Require Import Prelude GoStd Pkg Json JsonPrint Notifications Cache CacheProps FakeCache.

(** A key and an entry of well-formed text, with an expiration of 64 bits: what informers
    deliver and [Strconv.ParseInt] accepts. *)
Definition dumpable (k : string) (e : Entry) : Prop :=
  (valid_utf8 k ∧ valid_utf8 (RoleARN e)) ∧ valid_utf8 (Audience e) ∧ Strconv.int64 (TokenExpiration e).

#[export] Instance dumpable_dec k e : Decision (dumpable k e).
Proof. unfold dumpable. apply _. Defined.

Lemma sanitize_json_entry k e : dumpable k e → sanitize_json (json_entry e) = json_entry e.
Proof.
  intros ((_ & Hr) & Ha & _). unfold json_entry. cbn [sanitize_json map]. unfold valid_utf8 in *.
  by rewrite Hr, Ha.
Qed.

(** The decoder of entries inverts their printer. *)
Lemma decode_json_entry e :
  Strconv.int64 (TokenExpiration e) → decode_entry_ptr (json_entry e) = Ok (Some e).
Proof.
  intros He. destruct e as [r a u t]. cbn in He. unfold decode_entry_ptr, json_entry, json_int.
  cbn [RoleARN Audience UseRegionalSTS TokenExpiration decode_members].
  change (decode_entry_member zeroEntry "RoleARN" (JString r)) with (Ok (E := json_error) (mkEntry r "" false 0)).
  cbv iota.
  change (decode_entry_member (mkEntry r "" false 0) "Audience" (JString a))
    with (Ok (E := json_error) (mkEntry r a false 0)).
  cbv iota.
  change (decode_entry_member (mkEntry r a false 0) "UseRegionalSTS" (JBool u))
    with (Ok (E := json_error) (mkEntry r a u 0)).
  cbv iota.
  change (decode_entry_member (mkEntry r a u 0) "TokenExpiration" (JNumber (pretty t))) with
    (let? z := decode_int64 0 (JNumber (pretty t)) in Ok (E := json_error) (mkEntry r a u z)).
  unfold decode_int64. by rewrite ParseInt_pretty.
Qed.

Lemma printable_json_entry e : printable 1 (json_entry e).
Proof. repeat constructor. by exists (TokenExpiration e). Qed.

(** The text of any map of dumpable entries is the text of a configuration with them. *)
Lemma unmarshal_dump (m : gmap string Entry) :
  map_Forall dumpable m → unmarshal_entries (MarshalIndent (json_map json_entry m)) = Ok (Some <$> m).
Proof.
  intros Hm. unfold unmarshal_entries. rewrite (parse_MarshalIndent 2).
  - pose proof (decode_json_map json_entry decode_entry_ptr Some m) as H. cbn [result_bind].
    assert (map_Forall (λ k e, valid_utf8 k ∧ decode_entry_ptr (sanitize_json (json_entry e)) = Ok (Some e)) m)
      as Hentries.
    { intros k e Hk%Hm. rewrite (sanitize_json_entry k) by done.
      destruct Hk as ((? & _) & _ & ?). split; [done|]. by apply decode_json_entry. }
    unfold decode_entries. by destruct (sanitize_json (json_map json_entry m)); try destruct (H Hentries).
  - apply printable_json_map, printable_json_entry.
  - apply Nat.leb_le. vm_compute. reflexivity.
Qed.

Lemma config_entries_Some dflt (m : gmap string Entry) :
  config_entries dflt (Some <$> m) = fix_expiration dflt <$> m.
Proof.
  unfold config_entries. f_equal. apply map_eq. intros k. rewrite lookup_omap, lookup_fmap.
  by destruct (m !! k).
Qed.

Lemma config_ok_Some (m : gmap string Entry) :
  map_Forall (λ k _, key_ok k) m → config_ok (Some <$> m).
Proof. intros Hm k oe (e & <- & Hk)%lookup_fmap_Some. split; [by eapply Hm|done]. Qed.

(** The ConfigMap whose configuration is the text. *)
Definition config_map (text : string) : ConfigMap :=
  mkConfigMap "pod-identity-webhook" {[ "config" := text ]}.

Lemma config_of_config_map text : config_of (config_map text) = text.
Proof. done. Qed.

(** ** Properties *)

(** The dump that the debug handler serves, of the cache and of its fake, reads back as
    the map that was dumped: no entry is lost, none is changed, whatever has to be escaped. *)
Theorem ToJSON_reads_back (c : serviceAccountCache) (f : FakeServiceAccountCache) :
  map_Forall dumpable (saCache c) → map_Forall dumpable f →
  unmarshal_entries (ToJSON c) = Ok (Some <$> saCache c) ∧
  unmarshal_entries (Fake_ToJSON f) = Ok (Some <$> f).
Proof. intros Hc Hf. split; by apply unmarshal_dump. Qed.

(** A dump is a configuration: a webhook with an empty cache that finds the dump of
    another's in its ConfigMap answers for every account with a role as the other one. *)
Theorem dump_restores r1 r2 (c c0 : serviceAccountCache) :
  range_ok r1 → map_Forall dumpable (saCache c) → map_Forall (λ k _, key_ok k) (saCache c) →
  saCache c0 = ∅ →
  ∃ c1, populateCacheFromCM r1 r2 None (config_map (ToJSON c)) c0 = Returned (Ok (), c1) ∧
    ∀ name ns e, saCache c !! sa_key name ns = Some e → RoleARN e ≠ "" → TokenExpiration e ≠ 0%Z →
      Get (mkRequest name ns false) c = Some (response_of e true None, c) ∧
      Get (mkRequest name ns false) c1 = Some (response_of e true None, c1).
Proof.
  intros Hr1 Hd Hkeys Hempty.
  destruct (populate_ok r1 r1 None (config_map (ToJSON c)) c0 (Some <$> saCache c) ∅) as (m & Hpop & Hm);
    auto using config_ok_Some.
  { rewrite config_of_config_map. by apply unmarshal_dump. }
  { done. }
  exists (with_cmCache m c0). split; [done|]. intros name ns e He Hrole Hexp.
  split; [by apply Get_cached|]. specialize (Hm (sa_key name ns)).
  rewrite config_entries_Some, lookup_fmap, He in Hm. cbn in Hm.
  unfold fix_expiration in Hm. rewrite decide_False in Hm by done.
  unfold Get. rewrite getSA_quiet by done. cbn [mbind option_bind]. rewrite Get_cm_spec.
  rewrite CacheKey_sa_key. cbn [req_Name req_Namespace saCache cmCache with_cmCache].
  by rewrite Hempty, lookup_empty, Hm.
Qed.

(** ** Witnesses *)

(** An account whose name and role need escaping: a quote, an ampersand and a letter of two
    bytes. *)
Definition ex_dumped : serviceAccountCache :=
  with_saCache {[ "default/app" := mkEntry ("arn:aws:iam::111122223333:role/r&d" +:+ q) "sts" true 600;
                  "default/caf" +:+ String "195" (String "169" "") := mkEntry "arn:b" "sts" false 86400 ]} ex_cache.

Lemma ToJSON_reads_back_witness :
  unmarshal_entries (ToJSON ex_dumped) = Ok (Some <$> saCache ex_dumped) ∧
  unmarshal_entries (Fake_ToJSON (saCache ex_dumped)) = Ok (Some <$> saCache ex_dumped).
Proof. apply (ToJSON_reads_back ex_dumped (saCache ex_dumped)); by_decision. Defined.

Lemma dump_restores_witness :
  ∃ c1, populateCacheFromCM ex_range ex_range None (config_map (ToJSON ex_dumped)) ex_cache
      = Returned (Ok (), c1) ∧
    ∀ name ns e, saCache ex_dumped !! sa_key name ns = Some e → RoleARN e ≠ "" → TokenExpiration e ≠ 0%Z →
      Get (mkRequest name ns false) ex_dumped = Some (response_of e true None, ex_dumped) ∧
      Get (mkRequest name ns false) c1 = Some (response_of e true None, c1).
Proof. apply dump_restores; [apply ex_range_ok|by_decision|unfold key_ok; by_decision|done]. Defined.
