(* ===== verification/Cert.v ===== *)
(** * The serving certificate

    Models src/pkg/cert/store.go, which keeps the certificate of the webhook in a Kubernetes
    secret, and src/pkg/cert/request.go, which configures client-go's certificate manager
    with it. The API server's secrets, crypto/tls and crypto/x509 are interfaces with the
    documented behaviour as laws. *)

From S2P Require Import Prelude GoStd Metrics.

(** ** Data *)

(** Of a secret: what the package reads and writes, and the rest of it in [M]. *)
Record Secret (M : Type) := mkSecret {
  secret_Name : string;
  secret_Namespace : string;
  Data : gmap string string;
  secret_Type : string;
  secret_rest : M
}.
Arguments mkSecret {M}.
Arguments secret_Name {M}.
Arguments secret_Namespace {M}.
Arguments Data {M}.
Arguments secret_Type {M}.
Arguments secret_rest {M}.

Definition TLSCertKey : string := "tls.crt".
Definition TLSPrivateKeyKey : string := "tls.key".
Definition SecretTypeTLS : string := "kubernetes.io/tls".

(** [tls.Certificate]: the chain as DER, the private key and the parsed leaf. *)
Record Certificate (PK L : Type) := mkCertificate {
  Chain : list string;
  PrivateKey : PK;
  Leaf : option L
}.
Arguments mkCertificate {PK L}.
Arguments Chain {PK L}.
Arguments PrivateKey {PK L}.
Arguments Leaf {PK L}.

(** The errors of the store: the one the certificate manager knows, those of the API server
    and those of the two parsers. *)
Inductive store_error (E : Type) :=
| NoCertKeyError (msg : string)
| APIError (e : E)
| KeyPairError (msg : string)
| ParseError (msg : string).
Arguments NoCertKeyError {E}.
Arguments APIError {E}.
Arguments KeyPairError {E}.
Arguments ParseError {E}.

Record secretCertStore := mkStore { namespace : string; secretName : string }.

Definition NewSecretCertStore (namespace secretName : string) : secretCertStore :=
  mkStore namespace secretName.

(** ** Interfaces *)

(** The secrets of the API server, over its state [A]; every call can fail. *)
Class SecretsGetter (M A E : Type) := {
  Secrets_Get : string → string → A → result E (Secret M) * A;
  Secrets_Create : string → Secret M → A → result E unit * A;
  Secrets_Update : string → Secret M → A → result E unit * A;
  (** what is stored under a namespace and a name *)
  stored : A → string → string → option (Secret M)
}.

(** Reading answers what is stored; a write that is acknowledged is stored, and nothing is
    created over something else. What an unacknowledged write has done is open. *)
Class SecretsLaws (M A E : Type) `{!SecretsGetter M A E} : Prop := {
  stored_name ns name a s : stored a ns name = Some s → secret_Name s = name;
  Get_stored ns name a s a' : Secrets_Get ns name a = (Ok s, a') → stored a ns name = Some s;
  Get_reads ns name a r a' : Secrets_Get ns name a = (r, a') → stored a' = stored a;
  Create_stored ns s a a' :
    Secrets_Create ns s a = (Ok (), a') → stored a ns (secret_Name s) = None ∧ stored a' ns (secret_Name s) = Some s;
  Create_refused ns s a r a' :
    Secrets_Create ns s a = (r, a') → is_Some (stored a ns (secret_Name s)) → stored a' = stored a;
  Update_stored ns s a a' : Secrets_Update ns s a = (Ok (), a') → stored a' ns (secret_Name s) = Some s
}.

(** crypto/tls and crypto/x509. *)
Class X509 (PK L : Type) := {
  X509KeyPair : string → string → result string (Certificate PK L);
  ParseCertificates : string → result string (list L)
}.

(** A key pair that was accepted has a leaf, and it parses. *)
Class X509Laws (PK L : Type) `{!X509 PK L} : Prop :=
  KeyPair_leaf cert key c : X509KeyPair cert key = Ok c →
    ∃ der rest leaf leaves, Chain c = der :: rest ∧ ParseCertificates der = Ok (leaf :: leaves).

(** ** The store *)

Section store.
Context {M A E PK L : Type} `{HS : !SecretsGetter M A E, HX : !X509 PK L}.
Context (rest0 : M).
Implicit Types (s : secretCertStore) (a : A).

Definition loadX509KeyPairData (cert key : string) : outcome (result (store_error E) (Certificate PK L)) :=
  match X509KeyPair cert key with
  | Err e => Returned (Err (KeyPairError e))
  | Ok tlsCert =>
      match Chain tlsCert with
      | [] => Panicked IndexOutOfRange
      | der :: _ =>
          match ParseCertificates der with
          | Err e => Returned (Err (ParseError ("unable to parse certificate data: " +:+ e)))
          | Ok [] => Panicked IndexOutOfRange
          | Ok (leaf :: _) => Returned (Ok (mkCertificate (Chain tlsCert) (PrivateKey tlsCert) (Some leaf)))
          end
      end
  end.

Definition noKeyErr s : store_error E :=
  NoCertKeyError ("no cert/key files read at secret " +:+ namespace s +:+ "/" +:+ secretName s).

Definition Current s a : outcome (result (store_error E) (Certificate PK L)) * A :=
  let '(r, a) := Secrets_Get (namespace s) (secretName s) a in
  (match r with
   | Err _ => Returned (Err (noKeyErr s))
   | Ok secret =>
       match Data secret !! TLSPrivateKeyKey with
       | None => Returned (Err (noKeyErr s))
       | Some keyBytes =>
           match Data secret !! TLSCertKey with
           | None => Returned (Err (noKeyErr s))
           | Some certBytes => loadX509KeyPairData certBytes keyBytes
           end
       end
   end, a).

(** The data of a secret with the pair, and nothing else. *)
Definition pair_data (cert key : string) : gmap string string :=
  {[ TLSCertKey := cert; TLSPrivateKeyKey := key ]}.

Definition Update s (cert key : string) a : outcome (result (store_error E) (Certificate PK L)) * A :=
  let '(r, a) := Secrets_Get (namespace s) (secretName s) a in
  let '(err, a) :=
    match r with
    | Err _ => Secrets_Create (namespace s)
                 (mkSecret (secretName s) (namespace s) (pair_data cert key) SecretTypeTLS rest0) a
    | Ok secret => Secrets_Update (namespace s)
                     (mkSecret (secret_Name secret) (secret_Namespace secret) (pair_data cert key)
                        (secret_Type secret) (secret_rest secret)) a
    end in
  match err with
  | Err e => (Returned (Err (APIError e)), a)
  | Ok _ => (loadX509KeyPairData cert key, a)
  end.

End store.

(** ** The certificate manager *)

(** Of [certificate.Config]: what the package sets, with the request for a certificate in
    [CSR]. *)
Record ManagerConfig (CSR : Type) := mkManagerConfig {
  Template : CSR;
  Usages : list string;
  SignerName : string;
  CertificateStore : secretCertStore
}.
Arguments mkManagerConfig {CSR}.
Arguments Template {CSR}.
Arguments Usages {CSR}.
Arguments SignerName {CSR}.
Arguments CertificateStore {CSR}.

Definition certificateRotation_name : string := "certificate_manager_server_rotation_seconds".

Section manager.
Context {CSR Manager : Type} (NewManager : ManagerConfig CSR → result string Manager).

Definition manager_config (ns secretName : string) (csr : CSR) : ManagerConfig CSR :=
  mkManagerConfig csr ["digital signature"; "key encipherment"; "server auth"] "kubernetes.io/legacy-unknown"
    (NewSecretCertStore ns secretName).

Definition NewServerCertificateManager (ns secretName : string) (csr : CSR) (r : registry)
    : outcome (result string Manager * registry) :=
  let! r := MustRegister certificateRotation_name r in
  Returned (match NewManager (manager_config ns secretName csr) with
            | Err e => Err ("failed to initialize server certificate manager: " +:+ e)
            | Ok m => Ok m
            end, r).

End manager.

(** ** Lemmas *)

Section facts.
Context {M A E PK L : Type} `{HS : !SecretsGetter M A E, !SecretsLaws M A E, HX : !X509 PK L, !X509Laws PK L}.
Context (rest0 : M).
Implicit Types (s : secretCertStore) (a : A).

Lemma pair_data_cert cert key : pair_data cert key !! TLSCertKey = Some cert.
Proof. by unfold pair_data; simplify_map_eq. Qed.

Lemma pair_data_key cert key : pair_data cert key !! TLSPrivateKeyKey = Some key.
Proof. by unfold pair_data; simplify_map_eq. Qed.

(** What the loader makes of the answer of crypto/tls: the leaf is filled in. *)
Definition loaded (r : result string (Certificate PK L)) (o : outcome (result (store_error E) (Certificate PK L))) : Prop :=
  match r with
  | Err e => o = Returned (Err (KeyPairError e))
  | Ok c => ∃ leaf, o = Returned (Ok (mkCertificate (Chain c) (PrivateKey c) (Some leaf)))
  end.

Lemma load_spec cert key : loaded (X509KeyPair cert key) (loadX509KeyPairData cert key).
Proof.
  unfold loadX509KeyPairData. destruct (X509KeyPair cert key) as [c|e] eqn:Hc; [|done].
  destruct (KeyPair_leaf cert key c Hc) as (der & rest & leaf & leaves & Hch & Hp).
  exists leaf. by rewrite Hch, Hp.
Qed.

Lemma loaded_returns r o : loaded r o → ∃ x, o = Returned x ∧ ∀ e, x ≠ Err (APIError e).
Proof. destruct r; [intros [leaf ->]|intros ->]; eexists; (split; [reflexivity|]); intros e0; discriminate. Qed.

(** The secret as [Current] reads it. *)
Lemma Current_reads s a secret a' :
  Secrets_Get (namespace s) (secretName s) a = (Ok secret, a') →
  ∀ cert key, Data secret = pair_data cert key →
  Current (L := L) (E := E) s a = (loadX509KeyPairData cert key, a').
Proof.
  intros Hget cert key Hdata. unfold Current. rewrite Hget, Hdata. cbv beta iota.
  by rewrite pair_data_key, pair_data_cert.
Qed.

(** What an acknowledged [Update] leaves behind. *)
Lemma Update_writes s cert key a r a' :
  Update rest0 s cert key a = (r, a') → (∀ e, r ≠ Returned (Err (APIError e))) →
  r = loadX509KeyPairData cert key ∧
  ∃ secret, stored a' (namespace s) (secretName s) = Some secret ∧ Data secret = pair_data cert key ∧
    match stored a (namespace s) (secretName s) with
    | Some old => secret_Type secret = secret_Type old ∧ secret_rest secret = secret_rest old
    | None => secret_Type secret = SecretTypeTLS ∧ secret_rest secret = rest0
    end.
Proof.
  unfold Update. intros H Hr.
  destruct (Secrets_Get (namespace s) (secretName s) a) as [[old|e] a1] eqn:Hget.
  - pose proof (Get_stored _ _ _ _ _ Hget) as Hst. pose proof (stored_name _ _ _ _ Hst) as Hname.
    destruct (Secrets_Update _ _ a1) as [[[]|e] a2] eqn:Hup; simplify_eq; [|by destruct (Hr e)].
    apply Update_stored in Hup. cbn [secret_Name] in Hup. rewrite Hname in Hup. rewrite Hst.
    split; [done|]. by eexists.
  - pose proof (Get_reads _ _ _ _ _ Hget) as Hst.
    destruct (Secrets_Create _ _ a1) as [[[]|e'] a2] eqn:Hcr; simplify_eq; [|by destruct (Hr e')].
    apply Create_stored in Hcr as [Hnone Hst']. cbn [secret_Name] in *. rewrite <- Hst, Hnone.
    split; [done|]. by eexists.
Qed.

End facts.

(** ** A server and parsers for the witnesses *)

Module Fake.

(** The server fails as often as the list says, and then serves the map. *)
Record server := mkServer { failures : list bool; secrets : gmap (string * string) (Secret unit) }.

Definition answer {R} (a : server) (r : result string R * server) : result string R * server :=
  match failures a with
  | true :: fs => (Err "unavailable", mkServer fs (secrets a))
  | false :: fs => let '(x, a') := r in (x, mkServer fs (secrets a'))
  | [] => r
  end.

Definition put (ns : string) (s : Secret unit) (a : server) : server :=
  mkServer (failures a) (<[(ns, secret_Name s) := s]> (secrets a)).

Definition lookup_secret (a : server) (ns name : string) : option (Secret unit) :=
  match secrets a !! (ns, name) with
  | Some s => if decide (secret_Name s = name) then Some s else None
  | None => None
  end.

#[export] Instance getter : SecretsGetter unit server string := {|
  Secrets_Get ns name a := answer a (match lookup_secret a ns name with Some s => Ok s | None => Err "not found" end, a);
  Secrets_Create ns s a := answer a (match lookup_secret a ns (secret_Name s) with
    | Some _ => (Err "already exists", a) | None => (Ok (), put ns s a) end);
  Secrets_Update ns s a := answer a (match lookup_secret a ns (secret_Name s) with
    | Some _ => (Ok (), put ns s a) | None => (Err "not found", a) end);
  stored := lookup_secret
|}.

Lemma lookup_put ns s a fs : lookup_secret (mkServer fs (secrets (put ns s a))) ns (secret_Name s) = Some s.
Proof. unfold lookup_secret, put. simpl. rewrite lookup_insert_eq. by rewrite decide_True. Qed.

#[export] Instance getter_laws : SecretsLaws unit server string.
Proof.
  split; cbn [Secrets_Get Secrets_Create Secrets_Update stored getter].
  - intros ns name a s. unfold lookup_secret. repeat case_match; naive_solver.
  - intros ns name a s a'. unfold answer. destruct (lookup_secret a ns name); repeat case_match; intros; by simplify_eq.
  - intros ns name a r a'. unfold answer. intros. unfold lookup_secret. repeat (case_match; simplify_eq/=); done.
  - intros ns s a a'. unfold answer. destruct (lookup_secret a ns (secret_Name s)); repeat case_match; intros; simplify_eq.
    + split; [done|]. rewrite <- (lookup_put ns s a (failures (put ns s a))). done.
    + split; [done|]. apply lookup_put.
  - intros ns s a r a' H [old Hold]. rewrite Hold in H. unfold answer in H. unfold lookup_secret.
    repeat (case_match; simplify_eq/=); done.
  - intros ns s a a'. unfold answer. destruct (lookup_secret a ns (secret_Name s)); repeat case_match; intros; simplify_eq.
    + rewrite <- (lookup_put ns s a (failures (put ns s a))). done.
    + apply lookup_put.
Qed.

(** A key pair is accepted when the certificate is not empty. *)
#[export] Instance x509 : X509 string string := {|
  X509KeyPair cert key :=
    if decide (cert = "") then Err "tls: failed to find any PEM data in certificate input"
    else Ok (mkCertificate [cert] key None);
  ParseCertificates der := Ok [der]
|}.

#[export] Instance x509_laws : X509Laws string string.
Proof. intros cert key c. cbn. case_decide; intros; simplify_eq. by do 4 eexists. Qed.

End Fake.
Import Fake.

(** ** Properties *)

(** C22. An update that the API server acknowledged is what the store answers from then on: as
    long as the secret stays and can be read, [Current] gives exactly what [Update] gave, the
    certificate with its leaf, or, since the pair is stored before it is parsed, its error. *)
Theorem Current_after_Update {M A E PK L : Type}
    `{!SecretsGetter M A E, !SecretsLaws M A E, !X509 PK L, !X509Laws PK L}
    (rest0 : M) s cert key (a : A) (r : outcome (result (store_error E) (Certificate PK L))) a1 :
  Update rest0 s cert key a = (r, a1) → (∀ e, r ≠ Returned (Err (APIError e))) →
  ∀ a2, stored a2 (namespace s) (secretName s) = stored a1 (namespace s) (secretName s) →
    match Secrets_Get (namespace s) (secretName s) a2 with
    | (Ok _, a3) => Current s a2 = (r, a3)
    | (Err _, a3) => Current s a2 = (Returned (Err (noKeyErr s)), a3)
    end.
Proof.
  intros Hup Hr a2 Hsame. destruct (Update_writes _ _ _ _ _ _ _ Hup Hr) as (-> & secret & Hst & Hdata & _).
  destruct (Secrets_Get (namespace s) (secretName s) a2) as [[secret'|e] a3] eqn:Hget.
  - pose proof (Get_stored _ _ _ _ _ Hget) as Hst'. rewrite Hsame, Hst in Hst'. simplify_eq.
    by eapply Current_reads.
  - unfold Current. by rewrite Hget.
Qed.

(** C39. The three ways an update ends, none of which is a panic: the API server failed; the
    pair is stored and is not a key pair; the pair is stored and the certificate returned. A
    stored pair replaces all of the data of the secret and keeps the type and the rest of one
    that was there; a new secret is one for TLS. *)
Theorem Update_outcomes {M A E PK L : Type}
    `{!SecretsGetter M A E, !SecretsLaws M A E, !X509 PK L, !X509Laws PK L}
    (rest0 : M) s cert key (a : A) (r : outcome (result (store_error E) (Certificate PK L))) a1 :
  Update rest0 s cert key a = (r, a1) →
  (∃ e, r = Returned (Err (APIError e))) ∨
  (match X509KeyPair cert key with
   | Err e => r = Returned (Err (KeyPairError e))
   | Ok c => ∃ leaf, r = Returned (Ok (mkCertificate (Chain c) (PrivateKey c) (Some leaf)))
   end ∧
   ∃ secret, stored a1 (namespace s) (secretName s) = Some secret ∧ Data secret = pair_data cert key ∧
     match stored a (namespace s) (secretName s) with
     | Some old => secret_Type secret = secret_Type old ∧ secret_rest secret = secret_rest old
     | None => secret_Type secret = SecretTypeTLS ∧ secret_rest secret = rest0
     end).
Proof.
  intros Hup. destruct r as [[c|e]|why] eqn:Hr.
  2: destruct e as [msg|e|msg|msg].
  3: left; by eexists.
  all: right; destruct (Update_writes _ _ _ _ _ _ _ Hup) as [Hload Hst]; [by intros e' [=]|].
  all: split; [rewrite Hload; apply load_spec|exact Hst].
Qed.

(** Any error of reading the secret is taken for its absence: while a secret is stored, an
    update whose read fails cannot succeed, and the new pair is not stored. *)
Theorem failed_read_loses_the_update {M A E PK L : Type}
    `{!SecretsGetter M A E, !SecretsLaws M A E, !X509 PK L, !X509Laws PK L}
    (rest0 : M) s cert key (a : A) e a1 :
  Secrets_Get (namespace s) (secretName s) a = (Err e, a1) →
  is_Some (stored a (namespace s) (secretName s)) →
  ∃ e' a2, Update (PK := PK) (L := L) rest0 s cert key a = (Returned (Err (APIError e')), a2) ∧
    stored a2 = stored a.
Proof.
  intros Hget Hold. pose proof (Get_reads _ _ _ _ _ Hget) as Hst. unfold Update. rewrite Hget.
  destruct (Secrets_Create _ _ a1) as [[[]|e'] a2] eqn:Hcr.
  - apply Create_stored in Hcr as [Hnone _]. cbn [secret_Name] in Hnone. rewrite Hst in Hnone.
    rewrite Hnone in Hold. by destruct Hold.
  - exists e', a2. split; [done|]. rewrite <- Hst. eapply Create_refused; [exact Hcr|]. by rewrite Hst.
Qed.

(** ** Witnesses *)

Definition ex_store : secretCertStore := NewSecretCertStore "eks" "pod-identity-webhook".

(** The server with an old pair and a note in the secret, which is of another type. *)
Definition ex_secret : Secret unit :=
  mkSecret "pod-identity-webhook" "eks" {[ "tls.crt" := "old cert"; "tls.key" := "old key"; "note" := "x" ]} "Opaque" ().
Definition ex_server (failures : list bool) : Fake.server :=
  Fake.mkServer failures {[ ("eks", "pod-identity-webhook") := ex_secret ]}.
Definition ex_updated : Fake.server := (Update (PK := string) (L := string) () ex_store "cert" "key" (ex_server [])).2.

Lemma Current_after_Update_witness :
  Current ex_store ex_updated = (Returned (Ok (mkCertificate ["cert"] "key" (Some "cert"))), ex_updated).
Proof.
  refine (Current_after_Update () ex_store "cert" "key" (ex_server [])
    (Returned (Ok (mkCertificate ["cert"] "key" (Some "cert")))) ex_updated _ _ ex_updated _);
    [reflexivity|by intros e [=]|reflexivity].
Defined.

Lemma Update_outcomes_witness :
  ∃ secret, stored ex_updated "eks" "pod-identity-webhook" = Some secret ∧ Data secret = pair_data "cert" "key" ∧
    secret_Type secret = "Opaque" ∧ secret_rest secret = ().
Proof.
  destruct (Update_outcomes () ex_store "cert" "key" (ex_server [])
    (Returned (Ok (mkCertificate ["cert"] "key" (Some "cert")))) ex_updated) as [[e [=]]|[_ H]]; [reflexivity|].
  exact H.
Defined.

Lemma failed_read_loses_the_update_witness :
  ∃ e' a2, Update (PK := string) (L := string) () ex_store "cert" "key" (ex_server [true])
      = (Returned (Err (APIError e')), a2) ∧ stored a2 = stored (ex_server [true]).
Proof.
  eapply (failed_read_loses_the_update () ex_store "cert" "key" (ex_server [true])); [reflexivity|by eexists].
Defined.
