(* ===== verification/Shutdown.v ===== *)
(** * Graceful shutdown

    Models src/pkg/handler/shutdown.go and the end of main in src/main.go as a step relation:
    for each server the goroutine of [ShutdownFromContext] and the goroutine that serves, and
    main, which waits for the webhook server and then for the metrics server. What [Shutdown],
    [Close] and the serving calls of net/http answer is open; only that [Shutdown] and [Close]
    return is assumed, which the deadline of the first gives. *)

From S2P Require Import Prelude GoStd.

(** ** The goroutine of one server *)

(** Where [ShutdownFromContext]'s goroutine stands: waiting for the context; in [Shutdown]; in
    [Close], after the error of [Shutdown]; about to send; in the deferred closes; gone. *)
Inductive goroutine :=
| AwaitContext
| InShutdown
| InClose (err : string)
| Sending (err : option string)
| CloseErrCh
| CloseDoneCh
| Exited.

(** [errCh]: the buffer of the error channel, which has room for one. [serving]: the call that
    serves has not returned. [answered] only records what [Shutdown] and [Close] answered. *)
Record server := mkServer {
  pc : goroutine;
  errCh : list (option string);
  errCh_closed : bool;
  doneCh_closed : bool;
  serving : bool;
  answered : option string * option string
}.

Definition errCh_capacity : nat := 1.

Definition ShutdownFromContext : server := mkServer AwaitContext [] false false true (None, None).

Definition newline : string := String "010" "".

(** What is sent for the answers of [Shutdown] and [Close]. *)
Definition shutdown_error (err closeErr : option string) : option string :=
  match err, closeErr with
  | None, _ => None
  | Some err, Some closeErr =>
      Some ("graceful server shutdown failed: " +:+ err +:+ newline +:+ "server force close failed: " +:+ closeErr)
  | Some err, None => Some ("graceful server shutdown failed, server has been force closed: " +:+ err)
  end.

Inductive server_step (ctx_done : bool) : server → server → Prop :=
| step_begin q ec dc sv an :
    ctx_done = true →
    server_step ctx_done (mkServer AwaitContext q ec dc sv an) (mkServer InShutdown q ec dc sv an)
| step_graceful q ec dc sv an :
    server_step ctx_done (mkServer InShutdown q ec dc sv an) (mkServer (Sending None) q ec dc sv (None, None))
| step_not_graceful err q ec dc sv an :
    server_step ctx_done (mkServer InShutdown q ec dc sv an) (mkServer (InClose err) q ec dc sv (Some err, None))
| step_force_close err closeErr q ec dc sv an :
    server_step ctx_done (mkServer (InClose err) q ec dc sv an)
      (mkServer (Sending (shutdown_error (Some err) closeErr)) q ec dc sv (Some err, closeErr))
| step_send v q dc sv an :
    length q < errCh_capacity →
    server_step ctx_done (mkServer (Sending v) q false dc sv an) (mkServer CloseErrCh (q ++ [v]) false dc sv an)
| step_close_err q dc sv an :
    server_step ctx_done (mkServer CloseErrCh q false dc sv an) (mkServer CloseDoneCh q true dc sv an)
| step_close_done q ec sv an :
    server_step ctx_done (mkServer CloseDoneCh q ec false sv an) (mkServer Exited q ec true sv an)
| step_server_closed p q ec dc an :
    p ≠ AwaitContext →
    server_step ctx_done (mkServer p q ec dc true an) (mkServer p q ec dc false an).

(** ** The process *)

(** main waits for the [i]-th server, receives its error, has returned; or the process has
    died of a [Fatalf]. *)
Inductive main_pc :=
| AwaitDone (i : nat)
| ReceiveError (i : nat)
| MainReturned
| ProcessDied.

(** [reported]: what main received of each server, in order. *)
Record process := mkProcess {
  ctx_done : bool;
  servers : list server;
  main : main_pc;
  reported : list (option string)
}.

(** The webhook server and the metrics server. *)
Definition start : process := mkProcess false [ShutdownFromContext; ShutdownFromContext] (AwaitDone 0) [].

Definition running (p : process) : Prop := main p ≠ MainReturned ∧ main p ≠ ProcessDied.

Definition next_main (i : nat) (svs : list server) : main_pc :=
  if decide (S i < length svs) then AwaitDone (S i) else MainReturned.

Definition received (sv : server) : server :=
  mkServer (pc sv) (tail (errCh sv)) (errCh_closed sv) (doneCh_closed sv) (serving sv) (answered sv).

(** A closed channel gives the zero value once it is empty. *)
Inductive step : process → process → Prop :=
| step_signal p :
    running p → ctx_done p = false → step p (mkProcess true (servers p) (main p) (reported p))
| step_server i sv sv' p :
    running p → servers p !! i = Some sv → server_step (ctx_done p) sv sv' →
    step p (mkProcess (ctx_done p) (<[i := sv']> (servers p)) (main p) (reported p))
| step_serve_failed i sv p :
    running p → servers p !! i = Some sv → serving sv = true →
    step p (mkProcess (ctx_done p) (servers p) ProcessDied (reported p))
| step_main_done i sv p :
    main p = AwaitDone i → servers p !! i = Some sv → doneCh_closed sv = true →
    step p (mkProcess (ctx_done p) (servers p) (ReceiveError i) (reported p))
| step_main_receive i sv v q p :
    main p = ReceiveError i → servers p !! i = Some sv → errCh sv = v :: q →
    step p (mkProcess (ctx_done p) (<[i := received sv]> (servers p)) (next_main i (servers p)) (reported p ++ [v]))
| step_main_closed i sv p :
    main p = ReceiveError i → servers p !! i = Some sv → errCh sv = [] → errCh_closed sv = true →
    step p (mkProcess (ctx_done p) (servers p) (next_main i (servers p)) (reported p ++ [None])).

Definition reachable (p : process) : Prop := rtc step start p.

(** ** Termination *)

Definition goroutine_rank (g : goroutine) : nat :=
  match g with
  | AwaitContext => 6 | InShutdown => 5 | InClose _ => 4 | Sending _ => 3
  | CloseErrCh => 2 | CloseDoneCh => 1 | Exited => 0
  end.

Definition server_rank (sv : server) : nat := goroutine_rank (pc sv) + if serving sv then 1 else 0.

Definition main_rank (n : nat) (m : main_pc) : nat :=
  match m with
  | AwaitDone i => 2 * (n - i) + 2
  | ReceiveError i => 2 * (n - i) + 1
  | MainReturned | ProcessDied => 0
  end.

Definition process_rank (p : process) : nat :=
  sum_list_with server_rank (servers p) + main_rank (length (servers p)) (main p) + if ctx_done p then 0 else 1.

Lemma sum_list_with_insert {A} (f : A → nat) (l : list A) i x y :
  l !! i = Some x → sum_list_with f (<[i := y]> l) + f x = sum_list_with f l + f y.
Proof.
  revert i. induction l as [|z l IH]; intros [|i] Hi; simplify_eq/=; [lia|]. specialize (IH i Hi). lia.
Qed.

Lemma server_step_rank b sv sv' : server_step b sv sv' → server_rank sv' < server_rank sv.
Proof. destruct 1; unfold server_rank; simpl; lia. Qed.

Lemma next_main_rank i svs sv : svs !! i = Some sv → main_rank (length svs) (next_main i svs) < 2 * (length svs - i) + 1.
Proof. intros Hi%lookup_lt_Some. unfold next_main. case_decide; simpl; lia. Qed.

Lemma step_rank p p' : step p p' → process_rank p' < process_rank p.
Proof.
  destruct 1 as [p Hr Hc|i sv sv' p Hr Hi Hs|i sv p [Hr Hd] Hi Hs|i sv p Hm Hi Hs|i sv v q p Hm Hi Hs|i sv p Hm Hi Hs Hc];
    unfold process_rank; simpl; rewrite ?length_insert.
  - rewrite Hc. lia.
  - pose proof (sum_list_with_insert server_rank _ _ _ sv' Hi). apply server_step_rank in Hs. lia.
  - destruct (main p); simpl; try lia; done.
  - rewrite Hm. simpl. lia.
  - pose proof (sum_list_with_insert server_rank _ _ _ (received sv) Hi) as Hsum.
    change (server_rank (received sv)) with (server_rank sv) in Hsum.
    pose proof (next_main_rank _ _ _ Hi). rewrite Hm. simpl. lia.
  - pose proof (next_main_rank _ _ _ Hi). rewrite Hm. simpl. lia.
Qed.

(** ** The invariant *)

Definition report (sv : server) : option string := shutdown_error (answered sv).1 (answered sv).2.

(** What a server's channels hold when its goroutine is at [pc]; [consumed] when main has
    received its error. *)
Definition server_ok (ctx consumed : bool) (sv : server) : Prop :=
  (pc sv ≠ AwaitContext → ctx = true) ∧ (pc sv ≠ Exited → consumed = false) ∧
  match pc sv with
  | AwaitContext | InShutdown | InClose _ => errCh sv = [] ∧ errCh_closed sv = false ∧ doneCh_closed sv = false
  | Sending v => errCh sv = [] ∧ errCh_closed sv = false ∧ doneCh_closed sv = false ∧ v = report sv
  | CloseErrCh => errCh sv = [report sv] ∧ errCh_closed sv = false ∧ doneCh_closed sv = false
  | CloseDoneCh => errCh sv = [report sv] ∧ errCh_closed sv = true ∧ doneCh_closed sv = false
  | Exited => errCh sv = (if consumed then [] else [report sv]) ∧ errCh_closed sv = true ∧ doneCh_closed sv = true
  end.

Definition main_ok (k : nat) (p : process) : Prop :=
  match main p with
  | AwaitDone i => i = k ∧ i < length (servers p)
  | ReceiveError i => i = k ∧ ∃ sv, servers p !! i = Some sv ∧ doneCh_closed sv = true
  | MainReturned => k = length (servers p)
  | ProcessDied => True
  end.

(** main is done with the first [k] servers. *)
Definition process_ok (p : process) : Prop :=
  ∃ k, main_ok k p ∧ (∀ i sv, servers p !! i = Some sv → server_ok (ctx_done p) (bool_decide (i < k)) sv) ∧
    reported p = report <$> take k (servers p).

Lemma start_ok : process_ok start.
Proof.
  exists 0. split; [split; [done|simpl; lia]|]. split; [|done].
  intros [|[|i]] sv Hi; simplify_eq/=; by repeat split.
Qed.

Lemma server_ok_signal b consumed sv : server_ok b consumed sv → server_ok true consumed sv.
Proof. intros (_ & H). by split. Qed.

Lemma server_step_ok b consumed sv sv' : server_step b sv sv' → server_ok b consumed sv → server_ok b consumed sv'.
Proof.
  unfold server_ok. destruct 1; simpl; intros (Hctx & Hcons & Hch).
  all: split; [by auto|]; split; [try (by intros; apply Hcons); by intros []|]; destruct_and?; subst.
  all: try by auto.
  all: try (by rewrite Hcons).
  split; [|done]. simpl. by f_equal.
Qed.

(** A step of a server's goroutine does not change what main has been told. *)
Lemma server_step_report b consumed sv sv' :
  server_step b sv sv' → server_ok b consumed sv → consumed = true → report sv' = report sv.
Proof. unfold server_ok. destruct 1; simpl; intros (_ & Hcons & _) ->; first [done|by assert (true = false) by by apply Hcons]. Qed.

Lemma done_exited b consumed sv : server_ok b consumed sv → doneCh_closed sv = true → pc sv = Exited.
Proof. intros (_ & _ & H) Hd. destruct (pc sv); destruct_and?; congruence. Qed.

Lemma next_main_ok i svs q ctx sv :
  svs !! i = Some sv → main_ok (S i) (mkProcess ctx svs (next_main i svs) q).
Proof.
  intros Hi%lookup_lt_Some. unfold main_ok, next_main. simpl. case_decide; simpl; [done|lia].
Qed.

Lemma step_server_ok i sv sv' p :
  servers p !! i = Some sv → server_step (ctx_done p) sv sv' → process_ok p →
  process_ok (mkProcess (ctx_done p) (<[i := sv']> (servers p)) (main p) (reported p)).
Proof.
  intros Hi Hs (k & Hm & Hsv & Hrep). pose proof (Hsv i sv Hi) as Hok.
  exists k. split_and!; simpl.
  - unfold main_ok in *. simpl. rewrite length_insert. destruct (main p) as [j|j| |]; try done.
    destruct Hm as (-> & sv0 & Hj & Hd). split; [done|]. destruct (decide (k = i)) as [->|Hne].
    + rewrite list_lookup_insert_eq by (by eapply lookup_lt_Some). simplify_eq. exists sv'. split; [done|].
      pose proof (done_exited _ _ _ Hok Hd) as He. by destruct Hs; simplify_eq/=.
    + exists sv0. by rewrite list_lookup_insert_ne.
  - intros j sv0 Hj. apply list_lookup_insert_Some in Hj as [(<- & <- & _)|[_ Hj]]; [|by apply Hsv].
    by eapply server_step_ok.
  - rewrite Hrep. destruct (decide (i < k)) as [Hik|Hik].
    + rewrite take_insert_lt by done. rewrite list_fmap_insert. symmetry. apply list_insert_id.
      rewrite list_lookup_fmap, lookup_take_lt, Hi by done. simpl. f_equal. symmetry.
      eapply server_step_report; [done|exact Hok|by apply bool_decide_eq_true].
    + by rewrite take_insert_ge by lia.
Qed.

(** The error is in the buffer when main comes to receive it. *)
Lemma receive_ready i sv p :
  process_ok p → main p = ReceiveError i → servers p !! i = Some sv → errCh sv = [report sv].
Proof.
  intros (k & Hm & Hsv & _) Hmain Hi. unfold main_ok in Hm. rewrite Hmain in Hm.
  destruct Hm as (-> & sv0 & Hk & Hd). assert (sv0 = sv) as -> by congruence. pose proof (Hsv k sv Hi) as Hok.
  pose proof (done_exited _ _ _ Hok Hd) as He. destruct Hok as (_ & _ & Hok). rewrite He in Hok.
  destruct Hok as (-> & _). by rewrite bool_decide_false by lia.
Qed.

Lemma step_receive_ok i sv v q p :
  main p = ReceiveError i → servers p !! i = Some sv → errCh sv = v :: q → process_ok p →
  process_ok (mkProcess (ctx_done p) (<[i := received sv]> (servers p)) (next_main i (servers p)) (reported p ++ [v])).
Proof.
  intros Hmain Hi Hv Hp. pose proof (receive_ready _ _ _ Hp Hmain Hi) as Hready.
  rewrite Hready in Hv. injection Hv as <- <-.
  destruct Hp as (k & Hm & Hsv & Hrep). unfold main_ok in Hm. rewrite Hmain in Hm.
  destruct Hm as (-> & sv0 & Hk & Hd). assert (sv0 = sv) as -> by congruence. pose proof (Hsv k sv Hi) as Hok.
  pose proof (done_exited _ _ _ Hok Hd) as He. exists (S k). split_and!; simpl.
  - replace (next_main k (servers p)) with (next_main k (<[k := received sv]> (servers p)))
      by (unfold next_main; by rewrite length_insert).
    eapply next_main_ok. apply list_lookup_insert_eq. by eapply lookup_lt_Some.
  - intros j sv0 Hj. apply list_lookup_insert_Some in Hj as [(<- & <- & _)|[Hne Hj]].
    + destruct Hok as (Hctx & _ & Hch). rewrite bool_decide_true by lia. unfold server_ok.
      cbn [pc received errCh errCh_closed doneCh_closed]. rewrite He in *.
      rewrite (bool_decide_false (k < k)) in Hch by lia.
      destruct Hch as (-> & -> & ->). split; [done|]. split; [intros Hn; by destruct Hn|done].
    + specialize (Hsv j sv0 Hj). replace (bool_decide (j < S k)) with (bool_decide (j < k)); [done|].
      apply bool_decide_ext. lia.
  - rewrite Hrep. erewrite take_S_r by (apply list_lookup_insert_eq; by eapply lookup_lt_Some).
    rewrite fmap_app, take_insert_ge by lia. done.
Qed.

Lemma step_ok p p' : step p p' → process_ok p → process_ok p'.
Proof.
  destruct 1 as [p Hr Hc|i sv sv' p Hr Hi Hs|i sv p Hr Hi Hs|i sv p Hm Hi Hs|i sv v q p Hm Hi Hs|i sv p Hm Hi Hs Hc];
    intros Hp.
  - destruct Hp as (k & Hm & Hsv & Hrep). exists k. split; [done|]. split; [|done].
    intros i sv Hi. eapply server_ok_signal. by apply Hsv.
  - by eapply step_server_ok.
  - destruct Hp as (k & Hm & Hsv & Hrep). exists k. by split.
  - destruct Hp as (k & Hmk & Hsv & Hrep). exists k. unfold main_ok in *. rewrite Hm in Hmk. simpl.
    destruct Hmk as [-> _]. split; [eauto|]. by split.
  - by eapply step_receive_ok.
  - pose proof (receive_ready _ _ _ Hp Hm Hi). congruence.
Qed.

Lemma reachable_ok p : reachable p → process_ok p.
Proof.
  unfold reachable. intros H. pose proof start_ok as Hok. induction H as [|p1 p2 p3 Hs _ IH]; [done|].
  apply IH. by eapply step_ok.
Qed.

(** ** Progress *)

(** A goroutine that is not gone can take its next step once the context is cancelled. *)
Lemma server_progress consumed sv :
  server_ok true consumed sv → pc sv ≠ Exited → ∃ sv', server_step true sv sv'.
Proof.
  intros (_ & _ & H) Hpc. destruct sv as [g q ec dc sv an]. simpl in *. destruct g; destruct_and?; subst.
  - eexists. by apply step_begin.
  - eexists. apply step_graceful.
  - eexists. by apply (step_force_close _ _ None).
  - eexists. apply step_send. unfold errCh_capacity. simpl. lia.
  - eexists. apply step_close_err.
  - eexists. apply step_close_done.
  - done.
Qed.

Lemma progress p : process_ok p → ctx_done p = true → running p → ∃ p', step p p'.
Proof.
  intros Hp Hctx Hrun. destruct (main p) as [i|i| |] eqn:Hmain.
  - pose proof Hp as (k & Hm & Hsv & _). unfold main_ok in Hm. rewrite Hmain in Hm.
    destruct Hm as [-> [sv Hi]%lookup_lt_is_Some_2]. specialize (Hsv k sv Hi). rewrite Hctx in Hsv.
    destruct (doneCh_closed sv) eqn:Hd; [eexists; by eapply step_main_done|].
    destruct (server_progress _ _ Hsv) as [sv' Hs].
    { destruct Hsv as (_ & _ & H). intros He. rewrite He in H. destruct_and?. congruence. }
    rewrite <- Hctx in Hs. eexists. by eapply step_server.
  - pose proof Hp as (k & Hm & _). unfold main_ok in Hm. rewrite Hmain in Hm. destruct Hm as (-> & sv & Hi & _).
    eexists. eapply step_main_receive; [done..|]. by eapply receive_ready.
  - by destruct Hrun.
  - by destruct Hrun.
Qed.

(** ** Properties *)

(** C21. Once a signal has arrived the process ends: no goroutine can block for ever and none
    loops, whatever [Shutdown] and [Close] answer and in whatever order the goroutines run.
    Every run is finite and stops only after main has returned or a server has failed. *)
Theorem shutdown_terminates p :
  reachable p → ctx_done p = true →
  sn step p ∧ ∀ p', rtc step p p' → nf step p' → main p' = MainReturned ∨ main p' = ProcessDied.
Proof.
  intros Hr Hctx. split.
  - assert (∀ n q, process_rank q < n → sn step q) as Hsn; [|by apply (Hsn (S (process_rank p))); lia].
    induction n as [|n IH]; intros q Hq; [lia|]. constructor. intros q' Hs%step_rank. apply IH. lia.
  - intros p' Hrun Hnf. assert (ctx_done p' = true) as Hctx'.
    { clear -Hctx Hrun. induction Hrun as [|p1 p2 p3 Hs _ IH]; [done|]. apply IH. by destruct Hs. }
    assert (process_ok p') as Hok by (apply reachable_ok; unfold reachable in *; by etrans).
    destruct (main p') as [i|i| |] eqn:Hm; auto; exfalso; apply Hnf.
    all: by apply progress; [done..|split; rewrite Hm].
Qed.

(** C28. When main has returned a signal had arrived, the goroutine of each server is gone, and
    main has received from each, in order, what [Shutdown] and [Close] answered: nothing for
    a graceful shutdown, their errors otherwise. *)
Theorem main_receives_every_error p :
  reachable p → main p = MainReturned →
  length (servers p) = 2 ∧ ctx_done p = true ∧ Forall (λ sv, pc sv = Exited) (servers p) ∧
  reported p = (λ sv, shutdown_error (answered sv).1 (answered sv).2) <$> servers p.
Proof.
  intros Hr Hm.
  assert (length (servers p) = 2) as Hlen.
  { clear Hm. unfold reachable in Hr. change 2 with (length (servers start)).
    induction Hr as [|p1 p2 p3 Hs _ IH]; [done|]. rewrite IH. destruct Hs; simpl; by rewrite ?length_insert. }
  destruct (reachable_ok p Hr) as (k & Hmk & Hsv & Hrep). unfold main_ok in Hmk. rewrite Hm in Hmk. subst k.
  assert (∀ i sv, servers p !! i = Some sv → pc sv = Exited ∧ ctx_done p = true) as Hall.
  { intros i sv Hi. destruct (Hsv i sv Hi) as (Hctx & Hcons & _).
    rewrite bool_decide_true in Hcons by (by eapply lookup_lt_Some).
    destruct (pc sv); first [by assert (true = false) by by apply Hcons | by split; [|apply Hctx]]. }
  split; [done|]. split; [|split].
  - destruct (lookup_lt_is_Some_2 (servers p) 0) as [sv Hi]; [lia|]. by destruct (Hall 0 sv Hi).
  - apply Forall_lookup. intros i sv Hi. by destruct (Hall i sv Hi).
  - by rewrite Hrep, take_ge by lia.
Qed.

(** ** Witnesses *)

(** The webhook server shuts down, the metrics server has to be closed and that fails too. *)
Definition ex_signalled : process := mkProcess true (servers start) (AwaitDone 0) [].

Definition ex_exited (err closeErr : option string) : server :=
  mkServer Exited [] true true true (err, closeErr).
Definition ex_returned : process :=
  mkProcess true [ex_exited None None; ex_exited (Some "deadline") (Some "busy")] MainReturned
    [None; shutdown_error (Some "deadline") (Some "busy")].

Lemma ex_signalled_reachable : reachable ex_signalled.
Proof. apply rtc_once, step_signal; [by split|done]. Qed.

Ltac server_moves i s := eapply rtc_l; [eapply (step_server i); [by split|reflexivity|s]|cbn].

Lemma ex_returned_reachable : reachable ex_returned.
Proof.
  unfold reachable. etrans; [exact ex_signalled_reachable|]. unfold ex_signalled, start. cbn.
  server_moves 0 ltac:(by apply step_begin).
  server_moves 0 ltac:(apply step_graceful).
  server_moves 1 ltac:(by apply step_begin).
  server_moves 0 ltac:(apply step_send, Nat.lt_0_1).
  server_moves 0 ltac:(apply step_close_err).
  server_moves 1 ltac:(apply (step_not_graceful _ "deadline")).
  server_moves 0 ltac:(apply step_close_done).
  server_moves 1 ltac:(apply (step_force_close _ _ (Some "busy"))).
  server_moves 1 ltac:(apply step_send, Nat.lt_0_1).
  eapply rtc_l; [by eapply step_main_done|cbn].
  eapply rtc_l; [by eapply step_main_receive|cbn].
  server_moves 1 ltac:(apply step_close_err).
  server_moves 1 ltac:(apply step_close_done).
  eapply rtc_l; [by eapply step_main_done|cbn].
  eapply rtc_l; [by eapply step_main_receive|cbn]. reflexivity.
Qed.

Lemma shutdown_terminates_witness :
  sn step ex_signalled ∧
  ∀ p', rtc step ex_signalled p' → nf step p' → main p' = MainReturned ∨ main p' = ProcessDied.
Proof. apply (shutdown_terminates ex_signalled ex_signalled_reachable eq_refl). Defined.

Lemma main_receives_every_error_witness :
  length (servers ex_returned) = 2 ∧ ctx_done ex_returned = true ∧
  Forall (λ sv, pc sv = Exited) (servers ex_returned) ∧
  [None; shutdown_error (Some "deadline") (Some "busy")] =
    (λ sv, shutdown_error (answered sv).1 (answered sv).2) <$> servers ex_returned.
Proof. exact (main_receives_every_error ex_returned ex_returned_reachable eq_refl). Defined.
