(* ===== verification/Main.v ===== *)
(** * Start-up

    Models src/main.go: the flags and their defaults, what is built from them and from what
    the environment answers, in the order of the code, and the routes of the two servers. A
    start-up ends in a [webhook], or earlier with the version printed or a fatal error. The end
    of main is in Shutdown.v. *)

From S2P Require Import Prelude GoStd Pkg Metrics Notifications Cache ContainerCredentials PodTypes Modifier Http FileWatcher Cert.

(** ** Flags *)

Record flags := mkFlags {
  port : Z;
  metricsPort : Z;
  kubeconfig : string;
  apiURL : string;
  tlsKeyFile : string;
  tlsCertFile : string;
  tlsCipherSuites : string;
  tlsMinVersion : string;
  inCluster : bool;
  serviceName : string;
  namespaceName : string;
  tlsSecret : string;
  f_annotationPrefix : string;
  f_audience : string;
  f_mountPath : string;
  tokenExpiration : Z;
  region : string;
  regionalSTS : bool;
  watchConfigMap : bool;
  f_composeRoleArn : bool;
  watchContainerCredentialsConfig : string;
  containerCredentialsAudience : string;
  containerCredentialsMountPath : string;
  containerCredentialsVolumeName : string;
  containerCredentialsTokenPath : string;
  containerCredentialsFullUri : string;
  version : bool;
  debug : bool;
  saLookupGracePeriod : Z;
  resyncPeriod : Z
}.

(** Durations are in nanoseconds. *)
Definition default_flags : flags := {|
  port := 443;
  metricsPort := 9999;
  kubeconfig := "";
  apiURL := "";
  tlsKeyFile := "/etc/webhook/certs/tls.key";
  tlsCertFile := "/etc/webhook/certs/tls.crt";
  tlsCipherSuites := "";
  tlsMinVersion := "";
  inCluster := true;
  serviceName := "pod-identity-webhook";
  namespaceName := "eks";
  tlsSecret := "pod-identity-webhook";
  f_annotationPrefix := "eks.amazonaws.com";
  f_audience := "sts.amazonaws.com";
  f_mountPath := "/var/run/secrets/eks.amazonaws.com/serviceaccount";
  tokenExpiration := DefaultTokenExpiration;
  region := "";
  regionalSTS := false;
  watchConfigMap := false;
  f_composeRoleArn := false;
  watchContainerCredentialsConfig := "";
  containerCredentialsAudience := "pods.eks.amazonaws.com";
  containerCredentialsMountPath := "/var/run/secrets/pods.eks.amazonaws.com/serviceaccount";
  containerCredentialsVolumeName := "eks-pod-identity-token";
  containerCredentialsTokenPath := "eks-pod-identity-token";
  containerCredentialsFullUri := "http://169.254.170.23/v1/credentials";
  version := false;
  debug := false;
  saLookupGracePeriod := 0;
  resyncPeriod := 60 * 1000000000
|}.

Definition webhookVersion : string := "v0.1.0".

(** ** The command line *)

(** A flag's value, by the function of pflag that defines it; the parsing itself is pflag's. *)
Inductive flag_value :=
| FInt (z : Z)
| FInt64 (z : Z)
| FString (s : string)
| FBool (b : bool)
| FDuration (z : Z).

(** The flags main defines, in order, with their defaults. *)
Definition flag_specs : list (string * flag_value) :=
  [("port", FInt (port default_flags));
   ("metrics-port", FInt (metricsPort default_flags));
   ("kubeconfig", FString (kubeconfig default_flags));
   ("kube-api", FString (apiURL default_flags));
   ("tls-key", FString (tlsKeyFile default_flags));
   ("tls-cert", FString (tlsCertFile default_flags));
   ("tls-cipher-suites", FString (tlsCipherSuites default_flags));
   ("tls-min-version", FString (tlsMinVersion default_flags));
   ("in-cluster", FBool (inCluster default_flags));
   ("service-name", FString (serviceName default_flags));
   ("namespace", FString (namespaceName default_flags));
   ("tls-secret", FString (tlsSecret default_flags));
   ("annotation-prefix", FString (f_annotationPrefix default_flags));
   ("token-audience", FString (f_audience default_flags));
   ("token-mount-path", FString (f_mountPath default_flags));
   ("token-expiration", FInt64 (tokenExpiration default_flags));
   ("aws-default-region", FString (region default_flags));
   ("sts-regional-endpoint", FBool (regionalSTS default_flags));
   ("watch-config-map", FBool (watchConfigMap default_flags));
   ("compose-role-arn", FBool (f_composeRoleArn default_flags));
   ("watch-container-credentials-config", FString (watchContainerCredentialsConfig default_flags));
   ("container-credentials-audience", FString (containerCredentialsAudience default_flags));
   ("container-credentials-token-mount-path", FString (containerCredentialsMountPath default_flags));
   ("container-credentials-token-volume-name", FString (containerCredentialsVolumeName default_flags));
   ("container-credentials-token-path", FString (containerCredentialsTokenPath default_flags));
   ("container-credentials-full-uri", FString (containerCredentialsFullUri default_flags));
   ("version", FBool (version default_flags));
   ("enable-debugging-handlers", FBool (debug default_flags));
   ("service-account-lookup-grace-period", FDuration (saLookupGracePeriod default_flags));
   ("resync-period", FDuration (resyncPeriod default_flags))].

(** Defining a flag twice panics. *)
Definition AddFlag (fs : gmap string flag_value) (spec : string * flag_value) : outcome (gmap string flag_value) :=
  if decide (is_Some (fs !! spec.1)) then Panicked FlagRedefined else Returned (<[spec.1 := spec.2]> fs).

(** The flags of klog are added after those of main. *)
Definition command_line (klog_flags : list (string * flag_value)) : outcome (gmap string flag_value) :=
  let! fs := outcome_foldl AddFlag ∅ flag_specs in
  outcome_foldl AddFlag fs klog_flags.

(** What the pointers main has got point to after parsing. *)
Definition int_of (vs : gmap string flag_value) (name : string) : Z :=
  match vs !! name with Some (FInt z) | Some (FInt64 z) | Some (FDuration z) => z | _ => 0%Z end.
Definition string_of (vs : gmap string flag_value) (name : string) : string :=
  match vs !! name with Some (FString s) => s | _ => "" end.
Definition bool_of (vs : gmap string flag_value) (name : string) : bool :=
  match vs !! name with Some (FBool b) => b | _ => false end.

Definition flags_of (vs : gmap string flag_value) : flags := {|
  port := int_of vs "port";
  metricsPort := int_of vs "metrics-port";
  kubeconfig := string_of vs "kubeconfig";
  apiURL := string_of vs "kube-api";
  tlsKeyFile := string_of vs "tls-key";
  tlsCertFile := string_of vs "tls-cert";
  tlsCipherSuites := string_of vs "tls-cipher-suites";
  tlsMinVersion := string_of vs "tls-min-version";
  inCluster := bool_of vs "in-cluster";
  serviceName := string_of vs "service-name";
  namespaceName := string_of vs "namespace";
  tlsSecret := string_of vs "tls-secret";
  f_annotationPrefix := string_of vs "annotation-prefix";
  f_audience := string_of vs "token-audience";
  f_mountPath := string_of vs "token-mount-path";
  tokenExpiration := int_of vs "token-expiration";
  region := string_of vs "aws-default-region";
  regionalSTS := bool_of vs "sts-regional-endpoint";
  watchConfigMap := bool_of vs "watch-config-map";
  f_composeRoleArn := bool_of vs "compose-role-arn";
  watchContainerCredentialsConfig := string_of vs "watch-container-credentials-config";
  containerCredentialsAudience := string_of vs "container-credentials-audience";
  containerCredentialsMountPath := string_of vs "container-credentials-token-mount-path";
  containerCredentialsVolumeName := string_of vs "container-credentials-token-volume-name";
  containerCredentialsTokenPath := string_of vs "container-credentials-token-path";
  containerCredentialsFullUri := string_of vs "container-credentials-full-uri";
  version := bool_of vs "version";
  debug := bool_of vs "enable-debugging-handlers";
  saLookupGracePeriod := int_of vs "service-account-lookup-grace-period";
  resyncPeriod := int_of vs "resync-period"
|}.

(** ** The composition of role ARNs *)

(** Of the identity document of the instance, the fields main reads. *)
Record InstanceIdentityDocument := mkIdentityDocument { id_Region : string; id_AccountID : string }.

Definition partition_of (region : string) : string :=
  if GoStrings.HasPrefix region "cn-" then "aws-cn"
  else if GoStrings.HasPrefix region "us-gov-" then "aws-us-gov"
  else if GoStrings.HasPrefix region "us-iso-" then "aws-iso"
  else if GoStrings.HasPrefix region "us-isob-" then "aws-iso-b"
  else if GoStrings.HasPrefix region "eusc-" then "aws-eusc"
  else "aws".

Definition composeRoleArnCache (identity : InstanceIdentityDocument) : ComposeRoleArn :=
  mkComposeRoleArn true (id_AccountID identity) (partition_of (id_Region identity)) (id_Region identity).

(** The zero value of the struct. *)
Definition noComposition : ComposeRoleArn := mkComposeRoleArn false "" "" "".

(** ** The certificate *)

(** [x509.CertificateRequest]: the common name and the DNS names. *)
Record CertificateRequest := mkCSR { CommonName : string; DNSNames : list string }.

Definition csr_of (serviceName namespaceName : string) : CertificateRequest :=
  mkCSR (serviceName +:+ "." +:+ namespaceName +:+ ".svc")
    [serviceName; serviceName +:+ "." +:+ namespaceName; serviceName +:+ "." +:+ namespaceName +:+ ".svc";
     serviceName +:+ "." +:+ namespaceName +:+ ".svc.cluster.local"].

(** Where [GetCertificate] of the TLS configuration takes the certificate from: the certificate
    manager or the watcher of the two files. *)
Inductive certificate_source (Manager CertWatcher : Type) :=
| FromManager (m : Manager)
| FromFiles (w : CertWatcher).
Arguments FromManager {Manager CertWatcher}.
Arguments FromFiles {Manager CertWatcher}.

(** The zero values, no suites and no version, leave crypto/tls its defaults. *)
Record TLSConfig (Manager CertWatcher : Type) := mkTLSConfig {
  CipherSuites : list Z;
  MinVersion : option Z;
  GetCertificate : certificate_source Manager CertWatcher
}.
Arguments mkTLSConfig {Manager CertWatcher}.
Arguments CipherSuites {Manager CertWatcher}.
Arguments MinVersion {Manager CertWatcher}.
Arguments GetCertificate {Manager CertWatcher}.

(** ** Start-up *)

(** A [Fatalf], or the [Fatal] of the file watcher: its text up to the error, and the error. *)
Inductive exit :=
| UsageError (error : string)
| PrintedVersion (v : string)
| Fatal (text error : string).

(** [configmap_namespace]: where the ConfigMap is watched, if it is; [informer_resync]: the period
    of both informer factories; [watched_file]: the file of
    identities that is watched, with its watcher, if there is one. *)
Record webhook (Q Manager CertWatcher : Type) := mkWebhook {
  saCache0 : serviceAccountCache;
  config0 : FileConfig;
  modifier : parts serviceAccountCache FileConfig;
  configmap_namespace : option string;
  informer_resync : Z;
  watched_file : option (string * watcher (Q := Q) (H := FileConfig));
  tls : TLSConfig Manager CertWatcher;
  addr : string;
  metricsAddr : string;
  debugging : bool
}.
Arguments mkWebhook {Q Manager CertWatcher}.
Arguments saCache0 {Q Manager CertWatcher}.
Arguments config0 {Q Manager CertWatcher}.
Arguments modifier {Q Manager CertWatcher}.
Arguments configmap_namespace {Q Manager CertWatcher}.
Arguments informer_resync {Q Manager CertWatcher}.
Arguments watched_file {Q Manager CertWatcher}.
Arguments tls {Q Manager CertWatcher}.
Arguments addr {Q Manager CertWatcher}.
Arguments metricsAddr {Q Manager CertWatcher}.
Arguments debugging {Q Manager CertWatcher}.

(** An error of a call that main answers with a [Fatalf]. *)
Definition or_fatal {A} (text : string) (r : result string A) : result exit A :=
  match r with
  | Ok a => Ok a
  | Err e => Err (Fatal text e)
  end.

Section startup.
Context {RestConfig Clientset Q Manager CertWatcher : Type} `{HQ : !WorkQueue Q}.

(** What the environment answers: client-go, the instance metadata service, fsnotify and the
    file system, the certificate manager and the certificate watcher; and the tables of
    crypto/tls. *)
Context (BuildConfigFromFlags : string → string → result string RestConfig)
        (NewForConfig : RestConfig → result string Clientset)
        (GetInstanceIdentityDocument : result string InstanceIdentityDocument)
        (fsnotify_NewWatcher : option string) (fsnotify_Add : string → option string) (credentials_file : file_state)
        (NewManager : ManagerConfig CertificateRequest → result string Manager)
        (certwatcher_New : string → string → result string CertWatcher)
        (suites insecureSuites : list CipherSuite).

Definition composition (f : flags) : result exit ComposeRoleArn :=
  if f_composeRoleArn f then
    let? identity := or_fatal "Error getting instance identity document: " GetInstanceIdentityDocument in
    Ok (composeRoleArnCache identity)
  else Ok noComposition.

Definition new_cache (f : flags) (comp : ComposeRoleArn) : serviceAccountCache :=
  New (f_audience f) (f_annotationPrefix f) (regionalSTS f)
    (ValidateMinTokenExpiration (tokenExpiration f)) comp.

Definition new_config (f : flags) : FileConfig :=
  NewFileConfig (containerCredentialsAudience f) (containerCredentialsMountPath f)
    (containerCredentialsVolumeName f) (containerCredentialsTokenPath f) (containerCredentialsFullUri f).

Definition start_watcher (f : flags) : result exit (option (string * watcher (Q := Q) (H := FileConfig))) :=
  let file := watchContainerCredentialsConfig f in
  if decide (file ≠ "") then
    match StartWatcher fsnotify_NewWatcher fsnotify_Add credentials_file file (new_config f) with
    | Watching w => Ok (Some (file, w))
    | WatchError e => Err (Fatal ("Error starting watcher on file " +:+ file +:+ ": ") e)
    | WatchFatal e => Err (Fatal "" e)
    end
  else Ok None.

Definition new_modifier (f : flags) (saCache : serviceAccountCache) (containerCredentialsConfig : FileConfig)
    : parts serviceAccountCache FileConfig :=
  NewModifier [WithAnnotationDomain (f_annotationPrefix f); WithMountPath (f_mountPath f);
    WithServiceAccountCache saCache; WithContainerCredentialsConfig containerCredentialsConfig;
    WithRegion (region f); WithSALookupGraceTime (saLookupGracePeriod f)].

Definition tls_suites (f : flags) : result exit (list Z) :=
  if decide (tlsCipherSuites f ≠ "") then
    or_fatal "invalid tls-cipher-suites: "
      (ValidateTLSCipherSuites suites insecureSuites (GoStrings.Split (tlsCipherSuites f) ","))
  else Ok [].

Definition tls_version (f : flags) : result exit (option Z) :=
  if decide (tlsMinVersion f ≠ "") then
    let? v := or_fatal "Invalid value for tls-min-version " (ValidateTLSMinVersion (tlsMinVersion f)) in
    Ok (Some v)
  else Ok None.

Definition certificate_of (f : flags) (r : registry) : outcome (result exit (certificate_source Manager CertWatcher)) :=
  if inCluster f then
    let! x := NewServerCertificateManager NewManager (namespaceName f) (tlsSecret f)
                (csr_of (serviceName f) (namespaceName f)) r in
    Returned (let? m := or_fatal "failed to initialize certificate manager: " x.1 in Ok (FromManager m))
  else
    Returned (let? w := or_fatal "Error initializing certwatcher: " (certwatcher_New (tlsCertFile f) (tlsKeyFile f)) in
              Ok (FromFiles w)).

(** Everything up to the certificate. *)
Definition prepare (f : flags)
    : result exit (ComposeRoleArn * option (string * watcher) * list Z * option Z) :=
  if version f then Err (PrintedVersion webhookVersion)
  else
    let? config := or_fatal "Error creating config: " (BuildConfigFromFlags (apiURL f) (kubeconfig f)) in
    let? clientset := or_fatal "Error creating clientset: " (NewForConfig config) in
    let? comp := composition f in
    let? watched := start_watcher f in
    let? ids := tls_suites f in
    let? v := tls_version f in
    Ok (comp, watched, ids, v).

(** [r]: the metrics the packages have registered before main runs. *)
Definition startup (f : flags) (r : registry) : outcome (result exit (webhook Q Manager CertWatcher)) :=
  match prepare f with
  | Err e => Returned (Err e)
  | Ok (comp, watched, ids, v) =>
      let! source := certificate_of f r in
      Returned (
        let? source := source in
        Ok (mkWebhook (new_cache f comp) (new_config f) (new_modifier f (new_cache f comp) (new_config f))
              (if watchConfigMap f then Some (namespaceName f) else None) (resyncPeriod f) watched
              (mkTLSConfig ids v source)
              (":" +:+ pretty (port f)) (":" +:+ pretty (metricsPort f)) (debug f)))
  end.

(** The packages are initialised before main runs. [Parse] is pflag's: the values of the flags, or
    what it prints before it exits. *)
Definition main (Parse : gmap string flag_value → list string → result string (gmap string flag_value))
    (klog_flags : list (string * flag_value)) (args : list string) (r : registry)
    : outcome (result exit (webhook Q Manager CertWatcher)) :=
  let! r := package_inits r in
  let! fs := command_line klog_flags in
  match Parse fs args with
  | Err e => Returned (Err (UsageError e))
  | Ok vs => startup (flags_of vs) r
  end.

(** The certificate of one handshake, given the manager's current one. *)
Definition handshake {Cert} (Manager_Current : Manager → option Cert) (watcher_GetCertificate : CertWatcher → result string Cert)
    (s : certificate_source Manager CertWatcher) : result string Cert :=
  match s with
  | FromManager m =>
      match Manager_Current m with
      | None => Err "no serving certificate available for the webhook, is the CSR approved?"
      | Some c => Ok c
      end
  | FromFiles w => watcher_GetCertificate w
  end.

End startup.

(** ** The start of the cache *)

(** [hasSynced] of [cache.New]: both informers, when there is one for ConfigMaps. *)
Definition hasSynced (sa_synced : bool) (cm_synced : option bool) : bool :=
  match cm_synced with
  | Some cm => sa_synced && cm
  | None => sa_synced
  end.

(** The goroutine of [Start]: [wait] answers whether the caches synced before the stop. *)
Definition cache_start (wait : bool) : result exit unit :=
  if negb wait then Err (Fatal "unable to sync serviceaccount cache!" "") else Ok ().

(** ** Routes *)

Section routes.
Context {W : Type}.

(** [http.ServeMux] for patterns without wildcards, methods and trailing slashes: the path as it
    is, or what net/http answers for other paths. *)
Definition ServeMux (patterns : list (string * Handler W)) (other : Handler W) : Handler W := λ R _ w r,
  match (list_to_map patterns : gmap string (Handler W)) !! URL_Path r with
  | Some h => ServeHTTP h w r
  | None => ServeHTTP other w r
  end.

Definition healthz : Handler W := λ R _ w r, ret (Write "ok" w).2.

End routes.

Section servers.
Context {K : K8s} {S C : Type} `{!ServiceAccountCache S} `{!Config C}.
Context (decodeReview : string → AdmissionReview * option string)
        (marshalReview : AdmissionResponse → result string string)
        (unmarshalPod : string → result string Pod)
        (marshalPatch : list patchOperation → result string string)
        (promhttp other : Handler (World S C)).

Definition mux (m : Modifier) (env : select_env) (debug : bool) : Handler (World S C) :=
  ServeMux ([("/mutate", mutate_route decodeReview marshalReview unmarshalPod marshalPatch m env); ("/healthz", healthz)] ++
    if debug then [("/debug/alpha/deny", deny_route marshalReview); ("/debug/alpha/500", error_route)] else []) other.

Definition metricsMux (debug : bool) : Handler (World S C) :=
  ServeMux ([("/metrics", promhttp)] ++
    if debug then [("/debug/alpha/cache", Dumper_Handle); ("/debug/alpha/cache/clear", Dumper_Clear)] else []) other.

End servers.
