(* ===== verification/MainProps.v ===== *)
(** * Properties of the start-up

    What the flags of main.go become, the partitions of role ARNs, the routes, and the
    composition of the parts from a bare role name to the patch of a pod. *)

From S2P Require Import Prelude GoStd Pkg Metrics FileWatcher Notifications Cache CacheProps RoleArn CacheSystem ContainerCredentials PodTypes Modifier PatchProps BuildProps AdmissionProps Http FakeCache DumpProps Cert Main.

(** ** Partitions *)

Definition region_prefixes : list (string * string) :=
  [("cn-", "aws-cn"); ("us-gov-", "aws-us-gov"); ("us-iso-", "aws-iso"); ("us-isob-", "aws-iso-b"); ("eusc-", "aws-eusc")].

(** A prefix of a string is a start of it. *)
Lemma HasPrefix_split s p : GoStrings.HasPrefix s p = true → ∃ s', s = p +:+ s'.
Proof.
  revert s. induction p as [|c p IH]; intros [|c' s] H; simpl in H; try done.
  - by exists "".
  - by exists (String c' s).
  - case_decide; [|done]. subst c'. destruct (IH _ H) as [s' ->]. exists s'. by rewrite str_app_cons.
Qed.

(** Two strings neither of which starts the other do not start a third. *)
Lemma HasPrefix_exclusive s p q :
  GoStrings.HasPrefix s p = true → GoStrings.HasPrefix s q = true →
  GoStrings.HasPrefix p q = true ∨ GoStrings.HasPrefix q p = true.
Proof.
  revert s q. induction p as [|c p IH]; intros s q Hp Hq; [destruct q; by right|].
  destruct q as [|d q]; [by left|]. destruct s as [|e s]; [done|]. simpl in *.
  repeat case_decide; simplify_eq; eauto.
Qed.

Lemma partition_of_cases region :
  (∃ p, (p, partition_of region) ∈ region_prefixes ∧ GoStrings.HasPrefix region p = true) ∨
  (partition_of region = "aws" ∧ Forall (λ pq, GoStrings.HasPrefix region pq.1 = false) region_prefixes).
Proof.
  unfold partition_of, region_prefixes.
  destruct (GoStrings.HasPrefix region "cn-") eqn:H1; [left; exists "cn-"; set_solver|].
  destruct (GoStrings.HasPrefix region "us-gov-") eqn:H2; [left; exists "us-gov-"; set_solver|].
  destruct (GoStrings.HasPrefix region "us-iso-") eqn:H3; [left; exists "us-iso-"; set_solver|].
  destruct (GoStrings.HasPrefix region "us-isob-") eqn:H4; [left; exists "us-isob-"; set_solver|].
  destruct (GoStrings.HasPrefix region "eusc-") eqn:H5; [left; exists "eusc-"; set_solver|].
  right. split; [done|]. by repeat constructor.
Qed.

(** Every partition is aws followed by bytes the check of role ARNs accepts. *)
Lemma partition_of_shape region :
  ∃ p, partition_of region = "aws" +:+ p ∧ all_chars partition_char p = true.
Proof.
  unfold partition_of. repeat case_match;
    [exists "-cn"|exists "-us-gov"|exists "-iso"|exists "-iso-b"|exists "-eusc"|exists ""]; done.
Qed.

(** ** Start-up *)

Section startup.
Context {RestConfig Clientset Q Manager CertWatcher : Type} `{HQ : !WorkQueue Q}.
Context (BuildConfigFromFlags : string → string → result string RestConfig)
        (NewForConfig : RestConfig → result string Clientset)
        (GetInstanceIdentityDocument : result string InstanceIdentityDocument)
        (fsnotify_NewWatcher : option string) (fsnotify_Add : string → option string) (credentials_file : file_state)
        (NewManager : ManagerConfig CertificateRequest → result string Manager)
        (certwatcher_New : string → string → result string CertWatcher)
        (suites insecureSuites : list CipherSuite).

Abbreviation startup :=
  (startup BuildConfigFromFlags NewForConfig GetInstanceIdentityDocument fsnotify_NewWatcher fsnotify_Add credentials_file NewManager certwatcher_New
     suites insecureSuites).

(** What a start-up that succeeds has got from each of its parts. *)
Lemma startup_Ok f r wh :
  startup f r = Returned (Ok wh) →
  ∃ comp watched ids v source,
    composition GetInstanceIdentityDocument f = Ok comp ∧ start_watcher fsnotify_NewWatcher fsnotify_Add credentials_file f = Ok watched ∧
    tls_suites suites insecureSuites f = Ok ids ∧ tls_version f = Ok v ∧
    certificate_of NewManager certwatcher_New f r = Returned (Ok source) ∧
    wh = mkWebhook (new_cache f comp) (new_config f) (new_modifier f (new_cache f comp) (new_config f))
           (if watchConfigMap f then Some (namespaceName f) else None) (resyncPeriod f) watched
           (mkTLSConfig ids v source) (":" +:+ pretty (port f)) (":" +:+ pretty (metricsPort f)) (debug f).
Proof.
  unfold Main.startup, prepare. destruct (version f); [done|].
  destruct (BuildConfigFromFlags _ _) as [config|]; [|done]. simpl.
  destruct (NewForConfig config) as [clientset|]; [|done]. simpl.
  destruct (composition _ f) as [comp|]; [|done]. simpl.
  destruct (start_watcher _ _ _ f) as [watched|]; [|done]. simpl.
  destruct (tls_suites _ _ f) as [ids|]; [|done]. simpl.
  destruct (tls_version f) as [v|]; [|done]. simpl.
  rewrite outcome_bind_returned. intros ([source|] & Hc & H); [|done]. simpl in H. simplify_eq.
  by exists comp, watched, ids, v, source.
Qed.

(** ** Properties of the flags *)

Lemma tls_version_range f v : tls_version f = Ok (Some v) → (VersionTLS10 ≤ v ≤ VersionTLS13)%Z.
Proof.
  unfold tls_version. case_decide; [|done]. unfold ValidateTLSMinVersion.
  repeat case_decide; simpl; intros; simplify_eq; unfold VersionTLS10, VersionTLS11, VersionTLS12, VersionTLS13; lia.
Qed.

Lemma tls_suites_known f ids :
  tls_suites suites insecureSuites f = Ok ids →
  mapM (availableSuites suites insecureSuites !!.) (listed (GoStrings.Split (tlsCipherSuites f) ",")) = Some ids.
Proof.
  unfold tls_suites. case_decide as Hne; [|destruct (decide (tlsCipherSuites f = "")) as [->|]; [by intros [= <-]|done]].
  unfold ValidateTLSCipherSuites, or_fatal.
  destruct (GoStrings.Split (tlsCipherSuites f) ",") as [|n names] eqn:Hs; [by apply Split_not_nil in Hs|].
  pose proof (cipher_ids_spec suites insecureSuites [] (n :: names)) as Hspec.
  destruct (cipher_ids _ _ _ _) as [ids'|]; [|done]. intros [= <-]. by destruct Hspec as [Hspec _].
Qed.

(** What a successful start-up has checked of the flags, and where they go: the default
    life time of tokens is at least the minimum, the cache and the handler read annotations
    under the same prefix, and TLS is restricted to a version crypto/tls has and to the suites
    listed, in their order, every one of which is known. *)
Theorem flags_reach_the_parts f r wh :
  startup f r = Returned (Ok wh) →
  (MinTokenExpiration ≤ defaultTokenExpiration (saCache0 wh))%Z ∧
  plain (modifier wh) = mkModifier (f_annotationPrefix f) (f_mountPath f) (region f) "aws-iam-token" "token" (saLookupGracePeriod f) ∧
  annotationPrefix (saCache0 wh) = AnnotationDomain (plain (modifier wh)) ∧
  match MinVersion (tls wh) with
  | Some v => (VersionTLS10 ≤ v ≤ VersionTLS13)%Z
  | None => tlsMinVersion f = ""
  end ∧
  mapM (availableSuites suites insecureSuites !!.) (listed (GoStrings.Split (tlsCipherSuites f) ",")) =
    Some (CipherSuites (tls wh)).
Proof.
  intros (comp & watched & ids & v & source & _ & _ & Hids & Hv & _ & ->)%startup_Ok.
  cbn [saCache0 modifier tls MinVersion CipherSuites]. split; [apply ValidateMin_ge|]. split; [done|]. split; [done|].
  split; [|by apply tls_suites_known].
  destruct v as [v|]; [by apply tls_version_range in Hv|]. unfold tls_version in Hv.
  case_decide as Hne; [by destruct (or_fatal _ _)|by destruct (decide (tlsMinVersion f = ""))].
Qed.

(** C13. From the start to the patch: a webhook started with the composition of role ARNs, on an
    instance with an account of twelve digits, takes a service account annotated with the bare
    name of a role, in whatever state its cache is, without a warning, and patches a pod of it
    with the role of that name in the account and the partition of the instance, for at least
    ten minutes and at the mount path of the flag. *)
Theorem composed_role_reaches_the_pod `{K : K8s} {C} `{!ContainerCredentials.Config C} f r wh identity s sa name
    (env : select_env (S := serviceAccountCache)) pod (cfg : C) src counts missing :
  startup f r = Returned (Ok wh) → f_composeRoleArn f = true → GetInstanceIdentityDocument = Ok identity →
  account_id (id_AccountID identity) →
  rtc step (mkSystem (saCache0 wh) ∅ []) s →
  sa_Annotations sa !! (f_annotationPrefix f +:+ "/role-arn") = Some name →
  role_path name → GoStrings.Contains name "arn:" = false →
  Namespace (Meta pod) = sa_Namespace sa → ServiceAccountName (Spec pod) = sa_Name sa →
  config_Get (sa_Namespace sa) (sa_Name sa) cfg = None →
  addSA_warning (sys_cache s) sa = None ∧
  ∃ c' pc w', addSA sa (sys_cache s) = Returned c' ∧
    buildPodPatchConfig (plain (modifier wh)) env pod (mkWorld c' cfg src counts missing) = Some (Some pc, w') ∧
    WebIdentityPatchConfig pc = Some (mkWebIdentity
      ("arn:" +:+ partition_of (id_Region identity) +:+ ":iam::" +:+ id_AccountID identity +:+ ":role/" +:+ name)) ∧
    ppc_MountPath pc = f_mountPath f ∧ (MinTokenExpiration ≤ ppc_TokenExpiration pc)%Z.
Proof.
  intros Hstart Hcomp Hid Hacc Hreach Hann Hname Harn Hns Hsa Hcfg.
  apply startup_Ok in Hstart as (comp & watched & ids & v & source & Hcompo & _ & _ & _ & _ & ->).
  cbn [saCache0 modifier] in *. unfold composition in Hcompo. rewrite Hcomp, Hid in Hcompo. injection Hcompo as <-.
  assert (sys_wf s) as [Hwf _] by (eapply reachable_wf; [apply initial_wf|exact Hreach]).
  pose proof (reachable_settings _ _ Hreach) as Hset. injection Hset as Hpre _ _ Hcr _.
  assert (annotation (sys_cache s) sa RoleARNAnnotation = Some name) as Hrole by (unfold annotation; rewrite Hpre; exact Hann).
  cbn in Hcr.
  assert (expirations_ok (sys_cache s)) as [Hexp _].
  { eapply (reachable_inv expirations_ok _ _ step_expirations); [|exact Hreach].
    split; simpl; [apply ValidateMin_ge|apply map_Forall_empty]. }
  destruct (partition_of_shape (id_Region identity)) as (p & Hp & Hpc).
  split.
  - apply (composed_warning _ _ p name); rewrite ?Hcr; cbn [Enabled Partition AccountID composeRoleArnCache]; try done.
    apply account_id_class in Hacc as [_ Hacc]. by apply (all_chars_no_colon digit).
  - destruct (addSA_spec sa _ Hwf) as (c' & Hadd & _ & Hc' & _).
    assert (RoleARN (entry_of_sa (sys_cache s) sa) =
      "arn:" +:+ partition_of (id_Region identity) +:+ ":iam::" +:+ id_AccountID identity +:+ ":role/" +:+ name) as Hr.
    { simpl. rewrite Hrole, Hcr. unfold role_arn. by rewrite Harn. }
    eexists c', _, _. split; [done|]. split.
    + eapply (build_cached _ env pod c' (entry_of_sa (sys_cache s) sa)).
      * by rewrite Hc', Hns, Hsa, lookup_insert_eq.
      * rewrite Hr. by rewrite !str_app_cons.
      * by rewrite Hns, Hsa.
    + unfold web_identity_config. cbn [WebIdentityPatchConfig ppc_MountPath ppc_TokenExpiration resp_RoleARN response_of].
      rewrite Hr. split; [done|]. split; [done|]. unfold parsePodAnnotations. cbn [fst].
      cbn [resp_TokenExpiration response_of]. repeat case_match; auto using entry_of_sa_expiration with go.
Qed.

Abbreviation main :=
  (main BuildConfigFromFlags NewForConfig GetInstanceIdentityDocument fsnotify_NewWatcher fsnotify_Add credentials_file NewManager
     certwatcher_New suites insecureSuites).

(** A watcher that is started is that of the configuration of the flags, on the file of the flag. *)
Lemma watched_started f filePath w :
  start_watcher fsnotify_NewWatcher fsnotify_Add credentials_file f = Ok (Some (filePath, w)) →
  filePath = watchContainerCredentialsConfig f ∧
  StartWatcher (X := string) None fsnotify_Add credentials_file filePath (new_config f) = Watching w.
Proof.
  unfold start_watcher. case_decide; [|done]. unfold StartWatcher, Watch, NewFileWatcher. cbn [fw_path fw_queue].
  destruct fsnotify_NewWatcher; [done|]. destruct (fsnotify_Add _) eqn:Ha; [done|]. cbn [fst]. intros [= <- <-].
  by rewrite Ha.
Qed.

(** C14. From the flag to the patch: when the flag names a file below a directory by an absolute
    path in normal form, and the file changes through its own entry of that directory while it
    is watched, then once the watcher has nothing under way the webhook patches a pod with
    container credentials exactly when the file as it is lists the pod's account, with the
    audience, the mount path, the volume, the token path and the URI of the flags, whatever the
    cache knows. *)
Theorem file_reaches_the_pod `{K : K8s} `{!WorkQueueLaws Q, !FSNotify, !FSNotifyLaws} f r wh filePath w s text
    (env : select_env (S := serviceAccountCache)) pod c src counts missing :
  startup f r = Returned (Ok wh) → watched_file wh = Some (filePath, w) →
  normal_path (watchContainerCredentialsConfig f) →
  rtc (timely filePath Load) w s → quiescent s → file s = Content text →
  Exists (λ v, v ≤ Rand.int63n_max 7201)%Z src →
  filePath = watchContainerCredentialsConfig f ∧
  ∃ ids, requested (Some text) = Some ids ∧
    if decide (mkIdentity (Namespace (Meta pod)) (ServiceAccountName (Spec pod)) ∈ ids) then
      ∃ sts e w', buildPodPatchConfig (plain (modifier wh)) env pod (mkWorld c (state s) src counts missing) =
        Some (Some (mkPatch (getContainersToSkip (f_annotationPrefix f) pod) e sts (containerCredentialsAudience f)
                (containerCredentialsMountPath f) (containerCredentialsVolumeName f) (containerCredentialsTokenPath f) None
                (Some (mkPatchConfig (containerCredentialsAudience f) (containerCredentialsMountPath f)
                   (containerCredentialsVolumeName f) (containerCredentialsTokenPath f) (containerCredentialsFullUri f)))), w')
    else ∀ pc w', buildPodPatchConfig (plain (modifier wh)) env pod (mkWorld c (state s) src counts missing) = Some (Some pc, w') →
      ContainerCredentialsPatchConfig pc = None.
Proof.
  intros (comp & watched & ids & v & source & _ & Hw & _ & _ & _ & ->)%startup_Ok.
  cbn [watched_file modifier]. intros -> Hpath Hrun Hq Hf Hsrc.
  destruct (watched_started _ _ _ Hw) as [Hfile Hs]. split; [done|]. rewrite <- Hfile in Hpath.
  destruct (watched_config_is_current _ filePath _ _ _ _ _ _ _ _ Hpath Hs Hrun Hq) as (content & ids' & Hc & Hreq & Hans).
  rewrite Hf in Hc. injection Hc as <-. exists ids'. split; [done|].
  assert (same_settings (state s) (new_config f)) as Hset.
  { etrans; [by apply run_settings in Hrun|]. unfold StartWatcher, Watch in Hs. cbn in Hs. destruct (fsnotify_Add _); [done|]. by injection Hs as <-. }
  injection Hset as H1 H2 H3 H4 H5. specialize (Hans (Namespace (Meta pod)) (ServiceAccountName (Spec pod))).
  rewrite H1, H2, H3, H4, H5 in Hans. case_decide.
  - erewrite build_container_credentials; [|exact Hans].
    edestruct (addJitter_total (S := serviceAccountCache) (C := FileConfig)) as [[e w'] ->]; [exact Hsrc|].
    do 3 eexists. reflexivity.
  - intros pc w' Hb. apply build_cases in Hb. cbn [w_config] in Hb.
    change (config_Get _ _ (state s)) with (FileConfig_Get (Namespace (Meta pod)) (ServiceAccountName (Spec pod)) (state s)) in Hb.
    rewrite Hans in Hb. destruct Hb as [(resp & w1 & Hr & _)|[[=] _]]. unfold by_role in Hr. by case_decide; simplify_eq.
Qed.

(** Flags whose names are distinct and not taken can be added, and no others. *)
Lemma AddFlags_spec fs (l : list (string * flag_value)) :
  if decide (NoDup l.*1 ∧ Forall (λ kv, fs !! kv.1 = None) l)
  then outcome_foldl AddFlag fs l = Returned (list_to_map l ∪ fs)
  else ∃ why, outcome_foldl AddFlag fs l = Panicked why.
Proof.
  case_decide as Hok.
  - destruct Hok as [Hnd Hfs]. rewrite <- foldl_insert_map by done.
    revert fs Hfs. induction l as [|[k v] l IH]; intros fs Hfs; [done|]. cbn [outcome_foldl foldl].
    apply Forall_cons in Hfs as [Hk Hfs]. apply NoDup_cons in Hnd as [Hkl Hnd]. simpl in *.
    unfold AddFlag at 1. simpl. rewrite decide_False by (rewrite Hk; by intros []). cbn [outcome_bind].
    apply IH; [done|]. apply Forall_forall. intros [k' v'] Hin. rewrite Forall_forall in Hfs. simpl.
    rewrite lookup_insert_ne; [by apply (Hfs (k', v'))|]. intros ->. apply Hkl, list_elem_of_fmap. by exists (k', v').
  - revert fs Hok. induction l as [|[k v] l IH]; intros fs Hok; cbn [outcome_foldl].
    { destruct Hok. split; [constructor|constructor]. }
    unfold AddFlag at 1. simpl. case_decide as Hk; [by eexists|]. cbn [outcome_bind]. apply IH.
    intros [Hnd Hfs]. apply Hok. rewrite fmap_cons, NoDup_cons, Forall_cons. simpl. rewrite Forall_forall in *.
    split_and!; [|done|by apply eq_None_not_Some|].
    + intros ([k' v'] & -> & Hin)%list_elem_of_fmap. specialize (Hfs _ Hin). simpl in Hfs. by rewrite lookup_insert_eq in Hfs.
    + intros [k' v'] Hin. specialize (Hfs _ Hin). simpl in *. by apply lookup_insert_None in Hfs as [? _].
Qed.

Lemma flag_specs_distinct : NoDup flag_specs.*1.
Proof. by_decision. Qed.

(** The flags main can add to its own. *)
Definition addable (klog_flags : list (string * flag_value)) : Prop :=
  NoDup klog_flags.*1 ∧ Forall (λ kv, (list_to_map flag_specs : gmap string flag_value) !! kv.1 = None) klog_flags.

Lemma command_line_spec klog_flags :
  if decide (addable klog_flags)
  then command_line klog_flags = Returned (list_to_map klog_flags ∪ list_to_map flag_specs)
  else ∃ why, command_line klog_flags = Panicked why.
Proof.
  unfold command_line. pose proof (AddFlags_spec ∅ flag_specs) as Hown. rewrite decide_True in Hown.
  2: { split; [apply flag_specs_distinct|]. apply Forall_forall. intros. apply lookup_empty. }
  rewrite Hown, map_union_empty. cbn [outcome_bind].
  pose proof (AddFlags_spec (list_to_map flag_specs) klog_flags) as Hklog. unfold addable. by repeat case_decide.
Qed.

Lemma startup_panics_iff f r :
  (∃ why, startup f r = Panicked why) ↔
  is_ok (prepare BuildConfigFromFlags NewForConfig GetInstanceIdentityDocument fsnotify_NewWatcher fsnotify_Add credentials_file
           suites insecureSuites f) = true ∧ inCluster f = true ∧ certificateRotation_name ∈ r.
Proof.
  unfold Main.startup, certificate_of.
  destruct (prepare _ _ _ _ _ _ _ _ f) as [[[[comp watched] ids] v]|e]; cbn [is_ok]; [|naive_solver].
  destruct (inCluster f); [|naive_solver].
  unfold NewServerCertificateManager, MustRegister. case_decide; cbn [outcome_bind]; naive_solver.
Qed.

(** C29. When the program panics at its start: exactly when one of the names of the metrics the
    packages register is taken, or a flag of klog has the name of one of main's or of another
    of klog's, or, in the cluster and when neither the command line nor an earlier step of
    the start-up ends in an exit, when the name of the metric of the certificate manager is
    taken; in every other case it ends with the webhook or an exit. The names the program itself
    registers and the flags it defines never clash with each other. *)
Theorem main_panics_iff Parse klog_flags args r :
  (∃ why, main Parse klog_flags args r = Panicked why) ↔
  (∃ name, name ∈ init_names ∧ name ∈ r) ∨ ¬ addable klog_flags ∨
  ∃ vs, Parse (list_to_map klog_flags ∪ list_to_map flag_specs) args = Ok vs ∧
    is_ok (prepare BuildConfigFromFlags NewForConfig GetInstanceIdentityDocument fsnotify_NewWatcher fsnotify_Add credentials_file
             suites insecureSuites (flags_of vs)) = true ∧
    inCluster (flags_of vs) = true ∧ certificateRotation_name ∈ r.
Proof.
  unfold Main.main. destruct (decide (Exists (.∈ r) init_names)) as [Htaken%Exists_exists|Hfree].
  { rewrite package_inits_all. destruct (register_all_taken init_names r init_names_NoDup Htaken) as [why ->].
    split; [auto|]. by eexists. }
  rewrite Exists_exists in Hfree. destruct (package_inits_ok r) as (r' & -> & Hr'); [naive_solver|]. cbn [outcome_bind].
  pose proof (command_line_spec klog_flags) as Hcl. destruct (decide (addable klog_flags)) as [Hadd|Hadd].
  2: { destruct Hcl as [why ->]. split; [intros _; right; by left|intros _; by eexists]. }
  rewrite Hcl. clear Hcl. cbn [outcome_bind]. generalize (list_to_map klog_flags ∪ list_to_map flag_specs : gmap string flag_value).
  intros fs. transitivity (∃ vs, Parse fs args = Ok vs ∧ ∃ why, startup (flags_of vs) r' = Panicked why).
  { destruct (Parse fs args) as [vs|e]; [|by split; [intros [? [=]]|intros (? & [=] & _)]].
    split; [intros Hs; exists vs; exact (conj eq_refl Hs)|]. intros (vs' & [= <-] & Hs). exact Hs. }
  assert (certificateRotation_name ∈ r' ↔ certificateRotation_name ∈ r) as Hcert.
  { rewrite Hr'. assert (certificateRotation_name ∉ init_names) by by_decision. tauto. }
  transitivity (∃ vs, Parse fs args = Ok vs ∧
    is_ok (prepare BuildConfigFromFlags NewForConfig GetInstanceIdentityDocument fsnotify_NewWatcher fsnotify_Add
      credentials_file suites insecureSuites (flags_of vs)) = true ∧ inCluster (flags_of vs) = true ∧ certificateRotation_name ∈ r).
  2: { split; [intros Hx; right; by right|]. intros [Hx|[Hx|Hx]]; [destruct (Hfree Hx)|destruct (Hx Hadd)|exact Hx]. }
  apply exist_proper. intros vs. apply and_iff_compat_l. by rewrite startup_panics_iff, Hcert.
Qed.

(** Every flag has the name of its field, and without arguments the defaults are in force. *)
Theorem no_arguments_means_defaults : flags_of (list_to_map flag_specs) = default_flags.
Proof. vm_compute. reflexivity. Qed.

End startup.

(** The order in which main tries the prefixes of a region does not matter: a region has at
    most one of them, us-iso- and us-isob- included, and it decides the partition. *)
Theorem partition_is_that_of_the_prefix region prefix partition :
  (prefix, partition) ∈ region_prefixes → GoStrings.HasPrefix region prefix = true →
  partition_of region = partition.
Proof.
  intros Hin Hp. destruct (partition_of_cases region) as [(p & Hin' & Hp')|[_ Hnone]].
  - pose proof (HasPrefix_exclusive _ _ _ Hp Hp') as Hex.
    unfold region_prefixes in Hin, Hin'. set_unfold.
    repeat match goal with H : _ ∨ _ |- _ => destruct H end; by simplify_eq.
  - rewrite Forall_forall in Hnone. specialize (Hnone _ Hin). simpl in Hnone. congruence.
Qed.

(** ** Routes *)

(** A handler that leaves the state of the webhook alone; metrics and log may change. *)
Definition leaves_app {W} (h : Handler W) : Prop :=
  ∀ R (HR : ResponseWriter R) w r s w' s', h R HR w r s = Some (w', s') → app s' = app s.

Section routes.
Context {K : K8s} {S C : Type} `{!ServiceAccountCache S} `{!ContainerCredentials.Config C}.
Context (decodeReview : string → AdmissionReview * option string)
        (marshalReview : AdmissionResponse → result string string)
        (unmarshalPod : string → result string Pod)
        (marshalPatch : list patchOperation → result string string)
        (promhttp other : Handler (World S C)).

Lemma leaves_app_bind {A B} (m : prog (Server (World S C)) A) (k : A → prog (Server (World S C)) B) s b s' :
  (∀ s a s', m s = Some (a, s') → app s' = app s) → (∀ a s b s', k a s = Some (b, s') → app s' = app s) →
  bind m k s = Some (b, s') → app s' = app s.
Proof.
  intros Hm Hk. unfold bind. destruct (m s) as [[a s1]|] eqn:E; [|done]. intros Hb.
  by rewrite (Hk _ _ _ _ Hb), (Hm _ _ _ E).
Qed.

Lemma leaves_app_middlewares (h : Handler (World S C)) :
  leaves_app h → leaves_app (Apply h [InstrumentRoute; Logging]).
Proof.
  intros Hh R HR w r s w' s'. cbn [Apply foldl]. unfold Logging, ServeHTTP.
  destruct (form_error r).
  - apply leaves_app_bind; [by intros ? ? ? [= _ <-]|by intros ? ? ? ? [= _ <-]].
  - apply leaves_app_bind.
    + intros s1 w1 s2. unfold InstrumentRoute, ServeHTTP. apply leaves_app_bind; [intros ? ? ?; apply Hh|].
      intros w2 s3 ? ?. apply leaves_app_bind; [by intros ? ? ? [= _ <-]|by intros ? ? ? ? [= _ <-]].
    + intros w1 s1 ? ?. apply leaves_app_bind; [by intros ? ? ? [= _ <-]|by intros ? ? ? ? [= _ <-]].
Qed.

Lemma leaves_app_mux (patterns : list (string * Handler (World S C))) R (HR : ResponseWriter R) w r s w' s' :
  leaves_app other → (∀ h, (URL_Path r, h) ∈ patterns → leaves_app h) →
  ServeMux patterns other R HR w r s = Some (w', s') → app s' = app s.
Proof.
  intros Ho Hall. unfold ServeMux, ServeHTTP. destruct (list_to_map patterns !! URL_Path r) as [h|] eqn:Hl; [|apply Ho].
  apply elem_of_list_to_map_2 in Hl. by apply (Hall h).
Qed.

(** C26. Of all the routes main registers, on either port and with the debugging handlers or
    without, two can change what the webhook keeps: reviews, and the clearing of the cache, which
    is there only with the debugging handlers. *)
Theorem only_two_routes_change_state m env debug :
  leaves_app promhttp → leaves_app other →
  (∀ R (HR : ResponseWriter R) w r s w' s', URL_Path r ≠ "/mutate" →
     mux decodeReview marshalReview unmarshalPod marshalPatch other m env debug R HR w r s = Some (w', s') →
     app s' = app s) ∧
  (∀ R (HR : ResponseWriter R) w r s w' s',
     metricsMux promhttp other debug R HR w r s = Some (w', s') →
     if debug && bool_decide (URL_Path r = "/debug/alpha/cache/clear")
     then w_cache (app s') = cache_Clear (w_cache (app s)) ∧ w_config (app s') = w_config (app s)
     else app s' = app s).
Proof.
  intros Hp Ho. split.
  - intros R HR w r s w' s' Hpath. apply leaves_app_mux; [done|]. intros h Hin.
    assert (leaves_app (healthz (W := World S C))) as H1 by (intros ? ? ? ? ? ? ? [= _ <-]; done).
    assert (leaves_app (deny_route (S := S) (C := C) marshalReview)) as H2.
    { apply leaves_app_middlewares. by intros ? ? ? ? ? ? ? [= _ <-]. }
    assert (leaves_app (error_route (S := S) (C := C))) as H3.
    { apply leaves_app_middlewares. by intros ? ? ? ? ? ? ? [= _ <-]. }
    destruct debug; set_solver.
  - intros R HR w r s w' s' Hmux.
    assert (leaves_app (Dumper_Handle (S := S) (C := C))) as H1.
    { intros ? ? ? ? ? ? ?. unfold Dumper_Handle. destruct (Write _ _) as [[? ?] ?]. by intros [= _ <-]. }
    destruct debug; cbn [andb]; [case_bool_decide as Hr|].
    + unfold metricsMux, ServeMux in Hmux. rewrite Hr in Hmux. by injection Hmux as _ <-.
    + revert Hmux. apply leaves_app_mux; [done|]. intros h Hin. set_solver.
    + revert Hmux. apply leaves_app_mux; [done|]. intros h Hin. set_solver.
Qed.

End routes.

(** C27. The debugging endpoint tells the truth: on a connection that holds it answers 200 and a
    body that reads back, as a configuration, as exactly the annotated accounts the cache
    holds, whatever has to be escaped in them, and changes nothing. *)
Theorem dump_is_served {C} `{!ContainerCredentials.Config C} (promhttp other : Handler (World serviceAccountCache C)) r s :
  URL_Path r = "/debug/alpha/cache" → map_Forall dumpable (saCache (w_cache (app s))) →
  ∃ resp, metricsMux promhttp other true response response_writer fresh_response r s = Some (resp, s) ∧
    sent_code resp = Some StatusOK ∧
    unmarshal_entries (sent_body resp) = Ok (Some <$> saCache (w_cache (app s))).
Proof.
  intros Hr Hd. eexists. split; [|split].
  - unfold metricsMux, ServeMux. rewrite Hr. reflexivity.
  - done.
  - cbn [sent_body]. rewrite str_app_nil_l. by apply unmarshal_dump.
Qed.

(** ** Witnesses *)

Lemma dump_is_served_witness :
  ∃ resp,
    metricsMux (λ R _ w r, ret w) (λ R _ w r, ret w) true response response_writer fresh_response
      (mkHttpRequest "GET" "/debug/alpha/cache" "" None None)
      (mkServer (ex_world ex_dumped no_identities []) ∅ ∅ []) =
    Some (resp, mkServer (ex_world ex_dumped no_identities []) ∅ ∅ []) ∧
    sent_code resp = Some 200%Z ∧ unmarshal_entries (sent_body resp) = Ok (Some <$> saCache ex_dumped).
Proof.
  apply (dump_is_served (λ R _ w r, ret w) (λ R _ w r, ret w) (mkHttpRequest "GET" "/debug/alpha/cache" "" None None)
    (mkServer (ex_world ex_dumped no_identities []) ∅ ∅ [])); [reflexivity|by_decision].
Defined.

(** An instance in a region of the isolated partition whose prefix is the longer one. *)
Definition ex_identity : InstanceIdentityDocument := mkIdentityDocument "us-isob-east-1" "111122223333".

Definition ex_flags : flags := {|
  port := 443; metricsPort := 9999; kubeconfig := ""; apiURL := "";
  tlsKeyFile := tlsKeyFile default_flags; tlsCertFile := tlsCertFile default_flags;
  tlsCipherSuites := "SUITE_A, SUITE_B"; tlsMinVersion := "1.2"; inCluster := true;
  serviceName := "pod-identity-webhook"; namespaceName := "eks"; tlsSecret := "pod-identity-webhook";
  f_annotationPrefix := "eks.amazonaws.com"; f_audience := "sts.amazonaws.com"; f_mountPath := "/var/run/secrets/token";
  tokenExpiration := 60; region := ""; regionalSTS := false; watchConfigMap := true; f_composeRoleArn := true;
  watchContainerCredentialsConfig := "";
  containerCredentialsAudience := containerCredentialsAudience default_flags;
  containerCredentialsMountPath := containerCredentialsMountPath default_flags;
  containerCredentialsVolumeName := containerCredentialsVolumeName default_flags;
  containerCredentialsTokenPath := containerCredentialsTokenPath default_flags;
  containerCredentialsFullUri := containerCredentialsFullUri default_flags;
  version := false; debug := false; saLookupGracePeriod := 0; resyncPeriod := resyncPeriod default_flags |}.

Definition ex_suites : list CipherSuite := [{| suite_Name := "SUITE_A"; suite_ID := 1 |}; {| suite_Name := "SUITE_B"; suite_ID := 2 |}].

Definition ex_startup : outcome (result exit (webhook client_queue unit unit)) :=
  startup (RestConfig := unit) (Clientset := unit) (λ _ _, Ok ()) (λ _, Ok ()) (Ok ex_identity) None (λ _, None) Missing
    (λ _, Ok ()) (λ _ _, Ok ()) ex_suites [] ex_flags ∅.

Definition ex_webhook : webhook client_queue unit unit :=
  mkWebhook (new_cache ex_flags (composeRoleArnCache ex_identity)) (new_config ex_flags)
    (new_modifier ex_flags (new_cache ex_flags (composeRoleArnCache ex_identity)) (new_config ex_flags)) (Some "eks") 60000000000 None (mkTLSConfig [1; 2]%Z (Some VersionTLS12) (FromManager ())) ":443" ":9999" false.

Lemma flags_reach_the_parts_witness :
  ex_startup = Returned (Ok ex_webhook) ∧ (600 ≤ defaultTokenExpiration (saCache0 ex_webhook))%Z.
Proof.
  assert (ex_startup = Returned (Ok ex_webhook)) as Hs by reflexivity. split; [exact Hs|].
  apply (flags_reach_the_parts _ _ _ _ _ _ _ _ _ _ _ _ _ Hs).
Defined.

(** Identities from a file. *)
Definition ex_file_flags : flags := {|
  port := 443; metricsPort := 9999; kubeconfig := ""; apiURL := "";
  tlsKeyFile := tlsKeyFile default_flags; tlsCertFile := tlsCertFile default_flags;
  tlsCipherSuites := ""; tlsMinVersion := ""; inCluster := true;
  serviceName := "pod-identity-webhook"; namespaceName := "eks"; tlsSecret := "pod-identity-webhook";
  f_annotationPrefix := "eks.amazonaws.com"; f_audience := "sts.amazonaws.com"; f_mountPath := "/var/run/secrets/token";
  tokenExpiration := 86400; region := ""; regionalSTS := false; watchConfigMap := false; f_composeRoleArn := false;
  watchContainerCredentialsConfig := ex_path;
  containerCredentialsAudience := "aud"; containerCredentialsMountPath := "/mnt"; containerCredentialsVolumeName := "vol";
  containerCredentialsTokenPath := "token"; containerCredentialsFullUri := "uri";
  version := false; debug := false; saLookupGracePeriod := 0; resyncPeriod := resyncPeriod default_flags |}.

Definition ex_file_startup : outcome (result exit (webhook client_queue unit unit)) :=
  startup (RestConfig := unit) (Clientset := unit) (λ _ _, Ok ()) (λ _, Ok ()) (Err "") None (λ _, None) (Content ex_identities_file)
    (λ _, Ok ()) (λ _ _, Ok ()) [] [] ex_file_flags ∅.

Definition ex_file_webhook : webhook client_queue unit unit :=
  mkWebhook (new_cache ex_file_flags noComposition) (new_config ex_file_flags)
    (new_modifier ex_file_flags (new_cache ex_file_flags noComposition) (new_config ex_file_flags)) None 60000000000
    (Some (ex_path, ex_started)) (mkTLSConfig [] None (FromManager ())) ":443" ":9999" false.

Lemma file_reaches_the_pod_witness :
  ∃ sts e w', buildPodPatchConfig (K := plain_k8s) (plain (modifier ex_file_webhook)) ex_timeout (ex_pod ∅ ∅)
      (mkWorld ex_cache (FileWatcher.state ex_watched) [12345]%Z ∅ 0) =
    Some (Some (mkPatch ∅ e sts "aud" "/mnt" "vol" "token" None (Some (mkPatchConfig "aud" "/mnt" "vol" "token" "uri"))), w').
Proof.
  assert (ex_file_startup = Returned (Ok ex_file_webhook)) as Hm by (vm_compute; reflexivity).
  destruct (file_reaches_the_pod (K := plain_k8s) _ _ _ _ _ _ _ _ _ _ ex_file_flags ∅ ex_file_webhook ex_path ex_started
    ex_watched ex_identities_file ex_timeout (ex_pod ∅ ∅) ex_cache [12345]%Z ∅ 0%Z Hm) as (_ & ids & Hids & Hb).
  - reflexivity.
  - exact ex_path_normal.
  - exact ex_watched_reachable.
  - split; [reflexivity|]. split; reflexivity.
  - reflexivity.
  - left. by_decision.
  - vm_compute in Hids. injection Hids as <-. rewrite decide_True in Hb by by_decision. exact Hb.
Defined.

(** An account annotated with the name of a role and a path. *)
Definition ex_named_sa : ServiceAccount :=
  mkServiceAccount "app" "default" {[ "eks.amazonaws.com/role-arn" := "team-a/s3-reader" ]}.

Lemma composed_role_reaches_the_pod_witness :
  ∃ c' pc w', addSA ex_named_sa (saCache0 ex_webhook) = Returned c' ∧
    buildPodPatchConfig (K := plain_k8s) (plain (modifier ex_webhook)) ex_timeout (ex_pod ∅ ∅)
      (ex_world c' no_identities []) = Some (Some pc, w') ∧
    WebIdentityPatchConfig pc = Some (mkWebIdentity "arn:aws-iso-b:iam::111122223333:role/team-a/s3-reader") ∧
    ppc_TokenExpiration pc = 600%Z.
Proof.
  assert (ex_startup = Returned (Ok ex_webhook)) as Hs by reflexivity.
  destruct (composed_role_reaches_the_pod (K := plain_k8s) _ _ _ _ _ _ _ _ _ _ ex_flags ∅ ex_webhook ex_identity
    (mkSystem (saCache0 ex_webhook) ∅ []) ex_named_sa "team-a/s3-reader" ex_timeout (ex_pod ∅ ∅) no_identities [] ∅ 0 Hs)
    as (_ & c' & pc & w' & Hadd & Hb & Hr & _).
  1-2: reflexivity.
  1: by_decision.
  1-2: reflexivity.
  1: split; [discriminate|reflexivity].
  1-4: reflexivity.
  exists c', pc, w'. split; [exact Hadd|]. split; [exact Hb|]. split; [exact Hr|].
  vm_compute in Hadd. injection Hadd as <-. vm_compute in Hb. injection Hb as <- _. reflexivity.
Defined.

Lemma partition_is_that_of_the_prefix_witness : partition_of "us-isob-east-1" = "aws-iso-b".
Proof. apply (partition_is_that_of_the_prefix _ "us-isob-"); [by_decision|reflexivity]. Defined.

(** Nothing is served under other paths. *)
Definition ex_not_found : Handler (World serviceAccountCache FakeConfig) := λ R _ w r, ret (http_Error "404 page not found" 404 w).

(** A request to clear the cache of a webhook without the debugging handlers. *)
Definition ex_clear : request := mkHttpRequest "GET" "/debug/alpha/cache/clear" "" None None.
Definition ex_server : Server (World serviceAccountCache FakeConfig) :=
  mkServer (ex_world ex_dumped no_identities []) ∅ ∅ [].

Lemma only_two_routes_change_state_witness :
  ∃ w' s', metricsMux ex_not_found ex_not_found false response response_writer fresh_response ex_clear ex_server
      = Some (w', s') ∧ sent_code w' = Some 404%Z ∧ app s' = ex_world ex_dumped no_identities [].
Proof.
  destruct (metricsMux ex_not_found ex_not_found false response response_writer fresh_response ex_clear ex_server)
    as [[w' s']|] eqn:Hmux; [|exfalso; by vm_compute in Hmux].
  exists w', s'. split; [reflexivity|]. split; [vm_compute in Hmux; by injection Hmux as <- _|].
  destruct (only_two_routes_change_state (K := plain_k8s) (λ _, (mkAdmissionReview None, None)) (λ _, Ok "")
    ex_unmarshal ex_marshal ex_not_found ex_not_found ex_modifier ex_timeout false) as [_ H].
  1-2: by intros ? ? ? ? ? ? ? [= _ <-].
  exact (H _ _ _ _ _ _ _ Hmux).
Defined.
