(* ===== verification/SelfHosted.v ===== *)
(** * The JWKS tool for self-hosted clusters

    Models src/hack/self-hosted/main.go: a public key in a PEM file becomes a JSON web key set
    with one key, whose identifier is the hash of the key in base64. The file, PEM, X.509, the
    hash and the JSON of go-jose are parameters; base64 is modelled and inverted. *)

From S2P Require Import Prelude GoStd.

(** ** encoding/base64 *)

Module Base64.

Definition alphabet : string := "ABCDEFGHIJKLMNOPQRSTUVWXYZabcdefghijklmnopqrstuvwxyz0123456789-_".

Definition digit (n : N) : ascii := default "A"%char (String.get (N.to_nat n) alphabet).

Fixpoint index (c : ascii) (s : string) : option N :=
  match s with
  | EmptyString => None
  | String c' s' => if decide (c = c') then Some 0%N else N.succ <$> index c s'
  end.

Definition value (c : ascii) : option N := index c alphabet.

Definition byte (c : ascii) : N := N_of_ascii c.

(** [RawURLEncoding.EncodeToString]: three bytes are four digits, and one or two bytes at the end
    are two or three, without padding. *)
Fixpoint EncodeToString (s : string) : string :=
  match s with
  | EmptyString => ""
  | String a EmptyString => String (digit (byte a / 4)) (String (digit (byte a mod 4 * 16)) "")
  | String a (String b EmptyString) =>
      String (digit (byte a / 4)) (String (digit (byte a mod 4 * 16 + byte b / 16))
        (String (digit (byte b mod 16 * 4)) ""))
  | String a (String b (String c s')) =>
      String (digit (byte a / 4)) (String (digit (byte a mod 4 * 16 + byte b / 16))
        (String (digit (byte b mod 16 * 4 + byte c / 64)) (String (digit (byte c mod 64)) (EncodeToString s'))))
  end%N.

(** The reference decoder. *)
Fixpoint decode (s : string) : option string :=
  match s with
  | EmptyString => Some ""
  | String _ EmptyString => None
  | String p (String q EmptyString) =>
      p ← value p; q ← value q; Some (String (ascii_of_N (p * 4 + q / 16)) "")
  | String p (String q (String r EmptyString)) =>
      p ← value p; q ← value q; r ← value r;
      Some (String (ascii_of_N (p * 4 + q / 16)) (String (ascii_of_N (q mod 16 * 16 + r / 4)) ""))
  | String p (String q (String r (String t s'))) =>
      p ← value p; q ← value q; r ← value r; t ← value t; rest ← decode s';
      Some (String (ascii_of_N (p * 4 + q / 16)) (String (ascii_of_N (q mod 16 * 16 + r / 4))
        (String (ascii_of_N (r mod 4 * 64 + t)) rest)))
  end%N.

End Base64.

(** ** The tool *)

(** [jose.JSONWebKey], as far as the tool fills it in. *)
Record JSONWebKey (PK : Type) := mkJWK { Key : PK; KeyID : string; Algorithm : string; Use : string }.
Arguments mkJWK {PK}.
Arguments Key {PK}.
Arguments KeyID {PK}.
Arguments Algorithm {PK}.
Arguments Use {PK}.

Definition RS256 : string := "RS256".

Record KeyResponse (PK : Type) := mkKeyResponse { Keys : list (JSONWebKey PK) }.
Arguments mkKeyResponse {PK}.
Arguments Keys {PK}.

Section tool.
Context {PK : Type}.
Context (ReadFile : string → result string string)
        (pem_Decode : string → option string)
        (ParsePKIXPublicKey : string → result string PK)
        (is_rsa : PK → bool)
        (MarshalPKIXPublicKey : PK → result string string)
        (SHA256 : string → string)
        (MarshalIndent : KeyResponse PK → result string string).

Definition keyIDFromPublicKey (publicKey : PK) : result string string :=
  match MarshalPKIXPublicKey publicKey with
  | Err e => Err ("failed to serialize public key to DER format: " +:+ e)
  | Ok publicKeyDERBytes => Ok (Base64.EncodeToString (SHA256 publicKeyDERBytes))
  end.

(** The second switch on the type of the key cannot take its default. *)
Definition readKey (filename : string) : result string string :=
  match ReadFile filename with
  | Err e => Err ("error reading file: " +:+ e)
  | Ok content =>
      match pem_Decode content with
      | None => Err ("Error decoding PEM file " +:+ filename)
      | Some block =>
          match ParsePKIXPublicKey block with
          | Err e => Err ("Error parsing key content of " +:+ filename +:+ ": " +:+ e)
          | Ok pubKey =>
              if negb (is_rsa pubKey) then Err "Public key was not RSA"
              else
                let? kid := keyIDFromPublicKey pubKey in
                MarshalIndent (mkKeyResponse [mkJWK pubKey kid RS256 "sig"])
          end
      end
  end.

(** What is printed, and the exit status. *)
Definition main (keyFile : string) : string * Z :=
  match readKey keyFile with
  | Err e => (e, 1%Z)
  | Ok output => (output, 0%Z)
  end.

End tool.

(** ** Lemmas *)

Section base64.
Import Base64.
Local Open Scope N_scope.

Lemma value_digit n : n < 64 → value (digit n) = Some n.
Proof.
  intros Hn. assert (forallb (λ n, bool_decide (value (digit n) = Some n)) (N.of_nat <$> seq 0 64) = true) as H
    by (vm_compute; reflexivity).
  rewrite forallb_forall in H. eapply bool_decide_eq_true_1, H, list_elem_of_In, list_elem_of_fmap.
  exists (N.to_nat n). split; [lia|]. apply elem_of_seq. lia.
Qed.

Lemma byte_bound c : byte c < 256.
Proof. unfold byte. apply N_ascii_bounded. Qed.

(** A hook for [lia]: division and remainder by constants. *)
Ltac div_lia := zify; Z.to_euclidean_division_equations; lia.

Lemma ascii_eq n c : n = byte c → ascii_of_N n = c.
Proof. intros ->. apply ascii_N_embedding. Qed.

(** The digits are below 64. *)
Lemma first_digit a : a < 256 → a / 4 < 64.
Proof. intros. div_lia. Qed.
Lemma second_digit a x : x < 16 → a mod 4 * 16 + x < 64.
Proof. intros. div_lia. Qed.
Lemma third_digit b x : x < 4 → b mod 16 * 4 + x < 64.
Proof. intros. div_lia. Qed.
Lemma quarter c : c < 256 → c / 64 < 4.
Proof. intros. div_lia. Qed.
Lemma half b : b < 256 → b / 16 < 16.
Proof. intros. div_lia. Qed.

(** What two neighbouring digits make of a byte split between them. *)
Lemma first_byte a x : x < 16 → a / 4 * 4 + (a mod 4 * 16 + x) / 16 = a.
Proof. intros. div_lia. Qed.
Lemma second_byte a b x : b < 256 → x < 4 → (a mod 4 * 16 + b / 16) mod 16 * 16 + (b mod 16 * 4 + x) / 4 = b.
Proof. intros. div_lia. Qed.
Lemma third_byte b c : c < 256 → (b mod 16 * 4 + c / 64) mod 4 * 64 + c mod 64 = c.
Proof. intros. div_lia. Qed.

Lemma decode_EncodeToString s : decode (EncodeToString s) = Some s.
Proof.
  assert (∀ n s, (String.length s ≤ n)%nat → decode (EncodeToString s) = Some s) as Hgen; [|by eapply Hgen].
  clear s. intros n. induction n as [|n IH]; intros s Hs; [by destruct s; simpl in Hs; [|lia]|].
  destruct s as [|a [|b [|c s]]]; [done|..].
  all: pose proof (byte_bound a); try pose proof (byte_bound b); try pose proof (byte_bound c).
  - cbn [EncodeToString decode]. pose proof (second_digit (byte a) 0). pose proof (first_byte (byte a) 0).
    rewrite N.add_0_r in *. rewrite !value_digit by auto using first_digit with lia. cbn [mbind option_bind].
    by rewrite (ascii_eq _ a) by auto with lia.
  - cbn [EncodeToString decode]. pose proof (third_digit (byte b) 0). pose proof (second_byte (byte a) (byte b) 0).
    rewrite N.add_0_r in *. rewrite !value_digit by auto using first_digit, second_digit, half with lia.
    cbn [mbind option_bind].
    by rewrite (ascii_eq _ a), (ascii_eq _ b) by auto using first_byte, half with lia.
  - cbn [EncodeToString decode].
    rewrite !value_digit by auto using first_digit, second_digit, third_digit, half, quarter, N.mod_lt.
    cbn [mbind option_bind]. rewrite IH by (cbn [String.length] in Hs; lia). cbn [mbind option_bind].
    by rewrite (ascii_eq _ a), (ascii_eq _ b), (ascii_eq _ c)
      by auto using first_byte, second_byte, third_byte, half, quarter.
Qed.

Lemma length_EncodeToString s :
  (3 * String.length (EncodeToString s) = 4 * String.length s + match String.length s mod 3 with 0 => 0 | 1 => 2 | _ => 1 end)%nat.
Proof.
  assert (∀ n s, (String.length s ≤ n)%nat →
    (3 * String.length (EncodeToString s) =
      4 * String.length s + match String.length s mod 3 with 0 => 0 | 1 => 2 | _ => 1 end)%nat) as Hgen;
    [|by eapply Hgen].
  clear s. intros n. induction n as [|n IH]; intros s Hs; [by destruct s; simpl in Hs; [|lia]|].
  destruct s as [|a [|b [|c s]]]; [done..|]. cbn [EncodeToString String.length] in *.
  replace (S (S (S (String.length s)))) with (String.length s + 1 * 3)%nat by lia.
  rewrite Nat.Div0.mod_add. specialize (IH s ltac:(lia)). lia.
Qed.

(** Only letters, digits, the dash and the underscore. *)
Definition url_safe (s : string) : Prop := ∀ i c, String.get i s = Some c → is_Some (value c).

Lemma url_safe_cons n s : n < 64 → url_safe s → url_safe (String (digit n) s).
Proof. intros Hn Hs [|i] c; simpl; [intros [= <-]; by rewrite value_digit|apply Hs]. Qed.

Lemma url_safe_EncodeToString s : url_safe (EncodeToString s).
Proof.
  assert (∀ n s, (String.length s ≤ n)%nat → url_safe (EncodeToString s)) as Hgen; [|by eapply Hgen].
  clear s. intros n. induction n as [|n IH]; intros s Hs; [by destruct s; simpl in Hs; [intros []|lia]|].
  destruct s as [|a [|b [|c s]]]; [intros []; done|..].
  all: pose proof (byte_bound a); try pose proof (byte_bound b); try pose proof (byte_bound c); cbn [EncodeToString].
  all: try pose proof (second_digit (byte a) 0); try pose proof (third_digit (byte b) 0); rewrite ?N.add_0_r in *.
  all: repeat (apply url_safe_cons; [by auto using first_digit, second_digit, third_digit, half, quarter, N.mod_lt with lia|]).
  1-2: intros []; done.
  apply IH. cbn [String.length] in Hs. lia.
Qed.

End base64.

(** ** Properties *)

(** What the tool publishes: the key of the file and no other, which is an RSA key, for
    signatures with RS256, under an identifier that is safe in a URL and decodes to the hash
    of the key; with SHA-256 it has 43 characters. An output without the error status is
    never anything else. *)
Theorem published_key {PK : Type} ReadFile pem_Decode (ParsePKIXPublicKey : string → result string PK)
    is_rsa MarshalPKIXPublicKey SHA256 MarshalIndent keyFile output :
  main ReadFile pem_Decode ParsePKIXPublicKey is_rsa MarshalPKIXPublicKey SHA256 MarshalIndent keyFile = (output, 0%Z) →
  ∃ content block key der kid,
    ReadFile keyFile = Ok content ∧ pem_Decode content = Some block ∧ ParsePKIXPublicKey block = Ok key ∧
    is_rsa key = true ∧ MarshalPKIXPublicKey key = Ok der ∧
    MarshalIndent (mkKeyResponse [mkJWK key kid RS256 "sig"]) = Ok output ∧
    Base64.decode kid = Some (SHA256 der) ∧ url_safe kid ∧
    (String.length (SHA256 der) = 32 → String.length kid = 43).
Proof.
  unfold main, readKey, keyIDFromPublicKey.
  destruct (ReadFile keyFile) as [content|]; [|done].
  destruct (pem_Decode content) as [block|] eqn:Hblock; [|done].
  destruct (ParsePKIXPublicKey block) as [key|] eqn:Hkey; [|done].
  destruct (is_rsa key) eqn:Hrsa; [|done]. cbn [negb].
  destruct (MarshalPKIXPublicKey key) as [der|] eqn:Hder; [|done]. cbn [result_bind].
  destruct (MarshalIndent _) as [out|] eqn:Hout; [|done]. intros [= <-].
  exists content, block, key, der, (Base64.EncodeToString (SHA256 der)). split_and!; try done.
  - apply decode_EncodeToString.
  - apply url_safe_EncodeToString.
  - intros Hl. pose proof (length_EncodeToString (SHA256 der)) as H. rewrite Hl in H.
    change (match 32 mod 3 with 0 => 0 | 1 => 2 | _ => 1 end) with 1 in H. lia.
Qed.

(** ** Witnesses *)

(** A stand-in for the hash: the first 32 bytes of the key. *)
Definition ex_hash (s : string) : string := String.substring 0 32 s.
Definition ex_key : string := "an RSA key of more than thirty-two bytes?>".

Lemma published_key_witness :
  main (λ _, Ok "pem") (λ _, Some "der") (λ _, Ok ex_key) (λ _, true) (λ k, Ok k) ex_hash
    (λ r, match Keys r with [k] => Ok (KeyID k) | _ => Err "" end) "key.pub"
    = ("YW4gUlNBIGtleSBvZiBtb3JlIHRoYW4gdGhpcnR5LXQ", 0%Z) ∧
  Base64.decode "YW4gUlNBIGtleSBvZiBtb3JlIHRoYW4gdGhpcnR5LXQ" = Some "an RSA key of more than thirty-t".
Proof.
  destruct (published_key (λ _, Ok "pem") (λ _, Some "der") (λ _, Ok ex_key) (λ _, true) (λ k, Ok k) ex_hash
    (λ r, match Keys r with [k] => Ok (KeyID k) | _ => Err "" end) "key.pub"
    "YW4gUlNBIGtleSBvZiBtb3JlIHRoYW4gdGhpcnR5LXQ")
    as (content & block & key & der & kid & [= <-] & [= <-] & [= <-] & _ & [= <-] & [= ->] & Hdec & _).
  - vm_compute. reflexivity.
  - split; [vm_compute; reflexivity|exact Hdec].
Defined.
